(** * Lagged-feature tabularisation and autoregressive prediction
      of [darts.models.forecasting.regression_model]

    A shallow embedding of [RegressionModel] and [_LikelihoodMixin]:
    the constructor's lag resolution, the settings derived from the lags,
    [_create_lagged_data], [fit], [predict], and the three sampling
    strategies, with the properties the specification states about them
    and further properties of the code.

    Conventions.
    - A Python call that may raise is a computation in [result]; the
      exception carries the message the source builds.
    - A float is an [option V]: [None] is NaN, [Some v] an ordinary value.
      The tabularisation and the predictor only move values around, so
      they are generic in [V]; the quantile interpolation computes with
      them: it is stated over exact rationals, and over the doubles of the
      machine where the rounding of the code matters.
    - Time stamps are integers (a date is its position on a fixed grid),
      and a frequency is the integer distance between two stamps. *)

From Stdlib Require Import ZArith QArith Lia Lqa PrimFloat.
From stdpp Require Import gmap strings list sorting pretty.

Local Open Scope string_scope.
Local Open Scope list_scope.
Local Open Scope Z_scope.

(** ** Python values, exceptions and built-ins *)

Module py.

Inductive exn : Type :=
| ValueError (msg : string)
| Exception (msg : string)
| TypeError
| IndexError
| KeyError
| AttributeError
| ZeroDivisionError.

Inductive result (A : Type) : Type :=
| Ok (a : A)
| Raise (e : exn).
Global Arguments Ok {A} a.
Global Arguments Raise {A} e.

Global Instance result_ret : MRet result := λ A a, Ok a.
Global Instance result_bind : MBind result := λ A B f m,
  match m with
  | Ok a => f a
  | Raise e => Raise e
  end.

Definition is_ok {A} (r : result A) : bool :=
  match r with Ok _ => true | Raise _ => false end.

(** [darts.logging.raise_if] and [raise_if_not] raise [ValueError]. *)
Definition raise_if (cond : bool) (msg : string) : result unit :=
  if cond then Raise (ValueError msg) else Ok tt.
Definition raise_if_not (cond : bool) (msg : string) : result unit :=
  raise_if (negb cond) msg.

(** The values a caller can hand to the constructor. *)
#[local] Unset Elimination Schemes.
Inductive val : Type :=
| None_
| Bool (b : bool)
| Int (z : Z)
| List (l : list val)
| Tuple (l : list val)
| Other (type_name repr : string).
#[local] Set Elimination Schemes.

(** [isinstance(v, int)]: [bool] is a subclass of [int]. *)
Definition is_int (v : val) : bool :=
  match v with Bool _ | Int _ => true | _ => false end.
Definition is_bool (v : val) : bool :=
  match v with Bool _ => true | _ => false end.
Definition is_list (v : val) : bool :=
  match v with List _ => true | _ => false end.
Definition is_tuple (v : val) : bool :=
  match v with Tuple _ => true | _ => false end.
Definition is_none (v : val) : bool :=
  match v with None_ => true | _ => false end.

(** The integer an [int] instance denotes ([True] is 1, [False] is 0). *)
Definition int_of (v : val) : Z :=
  match v with
  | Int z => z
  | Bool true => 1
  | _ => 0
  end.

Definition join (sep : string) (l : list string) : string :=
  match l with
  | [] => ""
  | s :: l => foldl (λ acc t, acc +:+ sep +:+ t) s l
  end.

Fixpoint repr (v : val) : string :=
  match v with
  | None_ => "None"
  | Bool true => "True"
  | Bool false => "False"
  | Int z => pretty z
  | List l => "[" +:+ join ", " (List.map repr l) +:+ "]"
  | Tuple [x] => "(" +:+ repr x +:+ ",)"
  | Tuple l => "(" +:+ join ", " (List.map repr l) +:+ ")"
  | Other _ r => r
  end.

Definition type_repr (v : val) : string :=
  "<class '" +:+
  match v with
  | None_ => "NoneType"
  | Bool _ => "bool"
  | Int _ => "int"
  | List _ => "list"
  | Tuple _ => "tuple"
  | Other t _ => t
  end +:+ "'>".

(** [math.ceil(a / b)] on integers, with exact division: the value the
    code computes when [a] and [b] are of magnitude below 2^53, where the
    double [a / b] has the ceiling of the quotient. *)
Definition ceil_div (a b : Z) : Z := - ((- a) / b).

(** [range(stop)], [range(start, stop)] and [range(start, stop, step)]. *)
Definition range2 (start stop : Z) : list Z := seqZ start (stop - start).
Definition range1 (stop : Z) : list Z := range2 0 stop.
Definition range3 (start stop step : Z) : result (list Z) :=
  if decide (step = 0) then Raise (ValueError "range() arg 3 must not be zero")
  else
    let len := if decide (0 < step) then ceil_div (stop - start) step
               else ceil_div (start - stop) (- step) in
    Ok ((λ i, start + i * step) <$> seqZ 0 len).

(** [sorted] on a list of integers. *)
Definition sorted (l : list Z) : list Z := merge_sort Z.le l.

(** [l[i]] for a possibly negative index. *)
Definition index {A} (l : list A) (i : Z) : result A :=
  let j := if decide (i < 0) then i + Z.of_nat (length l) else i in
  if decide (j < 0) then Raise IndexError
  else match l !! Z.to_nat j with
       | Some x => Ok x
       | None => Raise IndexError
       end.

(** [l[start:]] and [l[:stop]] with Python's clipping of the bound. *)
Definition clip {A} (l : list A) (i : Z) : nat :=
  let n := Z.of_nat (length l) in
  Z.to_nat (if decide (i < 0) then Z.max 0 (i + n) else Z.min i n).
Definition slice_from {A} (l : list A) (start : Z) : list A :=
  drop (clip l start) l.
Definition slice_to {A} (l : list A) (stop : Z) : list A :=
  take (clip l stop) l.

(** [enumerate] *)
Definition enumerate {A} (l : list A) : list (nat * A) := imap pair l.

(** Sequential iteration with early exit on the first exception. *)
Fixpoint for_each {A B} (f : A → result B) (l : list A) : result (list B) :=
  match l with
  | [] => Ok []
  | x :: l => y ← f x; ys ← for_each f l; Ok (y :: ys)
  end.

End py.

Import py.

(** ** Time series, data frames and arrays

    The collaborators the model relies on: [darts.timeseries.TimeSeries],
    the pandas frames [_create_lagged_data] shifts and joins, and the numpy
    arrays [predict] slices and stacks.  Only the operations the source
    calls are modelled. *)

(** A float: [None] is NaN.  A matrix is the list of its rows. *)
Abbreviation float V := (option V) (only parsing).
Abbreviation matrix V := (list (list (option V))) (only parsing).
Abbreviation array3 V := (list (list (list (option V)))) (only parsing).

Section collaborators.
Context {V : Type}.


(** *** TimeSeries *)

Record TimeSeries : Type := {
  start_time : Z;
  freq : Z;
  width : nat;
  values : matrix V;            (* indexed [time, component] *)
  has_range_index : bool;
}.

Definition n_timesteps (ts : TimeSeries) : nat := length (values ts).

Definition end_time (ts : TimeSeries) : Z :=
  start_time ts + (Z.of_nat (n_timesteps ts) - 1) * freq ts.

Definition time_index (ts : TimeSeries) : list Z :=
  (λ i, start_time ts + i * freq ts) <$> seqZ 0 (Z.of_nat (n_timesteps ts)).

Definition is_univariate (ts : TimeSeries) : bool := bool_decide (width ts = 1%nat).

(** The invariant every [TimeSeries] satisfies: a regular, increasing time
    index, at least one time step, and [width] values per time step. *)
Definition well_formed (ts : TimeSeries) : Prop :=
  0 < freq ts ∧ values ts ≠ [] ∧ Forall (λ row, length row = width ts) (values ts).

(** [ts[start:]] for an integer [start]: a positional slice. *)
Definition ts_slice_from (ts : TimeSeries) (start : Z) : TimeSeries :=
  {| start_time := start_time ts + Z.of_nat (clip (values ts) start) * freq ts;
     freq := freq ts;
     width := width ts;
     values := slice_from (values ts) start;
     has_range_index := has_range_index ts |}.

(** [ts.slice(start_ts, end_ts).values()]: the values at the time steps
    whose stamp lies between the two bounds.  Both bounds are included for
    a datetime index; the upper one is excluded for a range index.  The
    bounds are meant on the time grid of the series; what [slice] does with
    a bound between two stamps is not modelled. *)
Definition in_slice (ts : TimeSeries) (start_ts end_ts t : Z) : bool :=
  bool_decide (start_ts ≤ t) &&
  (if has_range_index ts then bool_decide (t < end_ts) else bool_decide (t ≤ end_ts)).

Definition slice_values (ts : TimeSeries) (start_ts end_ts : Z) : matrix V :=
  snd <$> filter (λ p, in_slice ts start_ts end_ts p.1 = true)
                 (zip (time_index ts) (values ts)).

End collaborators.

(** *** pandas frames

    A frame is a time index, a number of columns and one row of floats per
    index entry.  [shift] moves the rows and leaves the index in place;
    [concat] along the columns joins on the union of the indexes and fills
    what a frame lacks with NaN. *)

Module pd.
Section frames.
Context {V : Type}.

Record DataFrame : Type := {
  index : list Z;
  columns : nat;
  rows : matrix V;
}.

Definition nan_row (n : nat) : list (float V) := replicate n None.

(** [ts.pd_dataframe(copy=False)] *)
Definition of_series (ts : @TimeSeries V) : DataFrame :=
  {| index := time_index ts; columns := width ts; rows := values ts |}.

(** [df.shift(periods)]: row [i] of the result holds row [i - periods] of
    [df], or NaN where there is none.  The index is unchanged. *)
Definition shift (df : DataFrame) (periods : Z) : DataFrame :=
  let n := length (rows df) in
  let blank := nan_row (columns df) in
  {| index := index df;
     columns := columns df;
     rows :=
       if decide (0 ≤ periods)
       then take n (replicate (Z.to_nat periods) blank ++ rows df)
       else drop (Z.to_nat (- periods)) (rows df)
            ++ replicate (Z.to_nat (- periods) `min` n) blank |}.

(** The row a frame holds at time stamp [t], NaN when [t] is not in its
    index. *)
Definition row_at (df : DataFrame) (t : Z) : list (float V) :=
  match list_find (λ s, s = t) (index df) with
  | Some (i, _) => default (nan_row (columns df)) (rows df !! i)
  | None => nan_row (columns df)
  end.

Definition union_index (dfs : list DataFrame) : list Z :=
  merge_sort Z.le (remove_dups (dfs ≫= index)).

(** [pd.concat(dfs, axis=1)] *)
Definition concat (dfs : list DataFrame) : result DataFrame :=
  match dfs with
  | [] => Raise (ValueError "No objects to concatenate")
  | _ =>
    let idx := union_index dfs in
    Ok {| index := idx;
          columns := sum_list (columns <$> dfs);
          rows := (λ t, dfs ≫= (λ df, row_at df t)) <$> idx |}
  end.

(** [df.dropna()] keeps the rows without a NaN. *)
Definition complete (row : list (float V)) : Prop := Forall is_Some row.

Definition dropna (df : DataFrame) : DataFrame :=
  let kept := filter (λ p, complete p.2) (zip (index df) (rows df)) in
  {| index := kept.*1; columns := columns df; rows := kept.*2 |}.

(** [df.values] and [df.shape[1]] *)
Definition values (df : DataFrame) : matrix V := rows df.
Definition n_columns (df : DataFrame) : nat := columns df.

End frames.
End pd.

(** *** numpy arrays

    A 2-d array is the list of its rows, a 3-d array the list of its 2-d
    slices along the first axis. *)

Module np.
Section arrays.
Context {V : Type}.

Definition n_cols (m : matrix V) : nat :=
  match m with row :: _ => length row | [] => 0%nat end.

(** [np.split(m, [k], axis=1)] *)
Definition split_columns (m : matrix V) (k : nat) : matrix V * matrix V :=
  (take k <$> m, drop k <$> m).

(** [np.concatenate(ms, axis=0)] for 2-d arrays with at least one row each:
    the arrays must agree on the number of columns. *)
Definition concatenate_rows (ms : list (matrix V)) : result (matrix V) :=
  match ms with
  | [] => Raise (ValueError "need at least one array to concatenate")
  | m :: ms' =>
    if forallb (λ m', bool_decide (n_cols m' = n_cols m)) ms'
    then Ok (mjoin ms)
    else Raise (ValueError "all the input array dimensions except for the concatenation axis must match exactly")
  end.

End arrays.
End np.

(** ** The model object *)

Section model.
Context {V : Type}.

(** An n-d array as numpy stores it: a shape and the values in row-major
    order.  This is what a regressor's [predict] returns. *)
Record ndarray : Type := {
  shape : list nat;
  data : list (float V);
}.

(** The scikit-learn-like regressor the model wraps. *)
Record Regressor : Type := {
  has_fit : bool;                       (* callable(getattr(model, "fit", None)) *)
  has_predict : bool;                   (* callable(getattr(model, "predict", None)) *)
  regressor_predict : matrix V → ndarray;   (* model.predict(x, **kwargs) *)
}.

Record RegressionModel : Type := {
  model : Regressor;
  lags : gmap string (list Z);
  output_chunk_length : Z;
  input_dim : option (gmap string (option nat));
  (* attributes kept by the GlobalForecastingModel base class *)
  training_series : option (@TimeSeries V);
  past_covariate_series : option (@TimeSeries V);
  future_covariate_series : option (@TimeSeries V);
}.

(** *** Lag specification: [RegressionModel.__init__] *)

(** [sklearn.linear_model.LinearRegression(n_jobs=-1)], the default model. *)
Variable LinearRegression : Regressor.

(** Lags of the target or of the past covariates: an integer count or a
    list of strictly negative integers.  The list of a count is built
    whatever its length; that Python cannot build a list beyond the memory
    of the machine is not modelled. *)
Definition set_negative_lags (key msg_count msg_list : string) (given : val)
    (d : gmap string (list Z)) : result (gmap string (list Z)) :=
  if is_int given then
    _ ← raise_if_not (bool_decide (int_of given > 0)) msg_count;
    Ok (<[key := range2 (- int_of given) 0]> d)
  else
    match given with
    | List l =>
      _ ← for_each (λ lag,
             raise_if (negb (is_int lag) || bool_decide (int_of lag >= 0)) msg_list) l;
      Ok (if decide (l = []) then d else <[key := sorted (int_of <$> l)]> d)
    | _ => Ok d
    end.

(** Lags of the future covariates: a [(past, future)] pair of counts or a
    list of integers of either sign. *)
Definition set_future_lags (given : val) (d : gmap string (list Z))
    : result (gmap string (list Z)) :=
  match given with
  | Tuple [a; b] =>
    _ ← raise_if_not (bool_decide (int_of a >= 0) && bool_decide (int_of b >= 0))
          ("`lags_future_covariates` tuple must contain integers >= 0. Given: "
           +:+ repr given +:+ ".");
    if negb (is_none a) && negb (is_none b) then
      if negb (bool_decide (int_of a = 0) && bool_decide (int_of b = 0))
      then Ok (<["future" := range2 (- int_of a) (int_of b)]> d)
      else Ok d
    else Ok d
  | List l =>
    _ ← for_each (λ lag,
           raise_if (negb (is_int lag) || is_bool lag)
             ("Every element of `lags_future_covariates` must be an integer. Given: "
              +:+ repr given +:+ ".")) l;
    Ok (if decide (l = []) then d else <["future" := sorted (int_of <$> l)]> d)
  | _ => Ok d
  end.

(** The type checks on [lags] and [lags_past_covariates]. *)
Definition check_lags_type (given : val) (name : string) : result unit :=
  _ ← raise_if_not (is_int given || is_list given || is_none given)
        ("`" +:+ name +:+ "` must be of type int or list. Given: "
         +:+ type_repr given +:+ ".");
  raise_if (is_bool given)
    ("`" +:+ name +:+ "` must be of type int or list, not bool.").

(** The type checks on [lags_future_covariates]. *)
Definition check_future_lags_type (given : val) : result unit :=
  _ ← raise_if_not (is_tuple given || is_list given || is_none given)
        ("`lags_future_covariates` must be of type tuple or list. Given: "
         +:+ type_repr given +:+ ".");
  match given with
  | Tuple l =>
    _ ← raise_if_not
          (match l with [a; b] => is_int a && is_int b | _ => false end)
          "`lags_future_covariates` tuple must be of length 2, and must contain two integers";
    raise_if
      (match l with [a; b] => is_bool a || is_bool b | _ => false end)
      "`lags_future_covariates` tuple must contain integers, not bool"
  | _ => Ok tt
  end.

Definition __init__ (lags_ lags_past_covariates lags_future_covariates : val)
    (output_chunk_length_ : val) (model_ : option Regressor)
    : result RegressionModel :=
  let model_ := default LinearRegression model_ in
  (* model checks *)
  _ ← (if has_fit model_ then Ok tt
       else Raise (Exception "Provided model object must have a fit() method"));
  _ ← (if has_predict model_ then Ok tt
       else Raise (Exception "Provided model object must have a predict() method"));
  (* check lags *)
  _ ← raise_if
        (is_none lags_ && is_none lags_future_covariates && is_none lags_past_covariates)
        "At least one of `lags`, `lags_future_covariates` or `lags_past_covariates` must be not None.";
  _ ← check_lags_type lags_ "lags";
  _ ← check_lags_type lags_past_covariates "lags_past_covariates";
  _ ← check_future_lags_type lags_future_covariates;
  (* set lags *)
  d ← set_negative_lags "target"
        ("`lags` must be strictly positive. Given: " +:+ repr lags_ +:+ ".")
        ("Every element of `lags` must be a strictly negative integer. Given: "
         +:+ repr lags_ +:+ ".")
        lags_ ∅;
  d ← set_negative_lags "past"
        ("`lags_past_covariates` must be an integer > 0. Given: "
         +:+ repr lags_past_covariates +:+ ".")
        ("Every element of `lags_covariates` must be an integer < 0. Given: "
         +:+ repr lags_past_covariates +:+ ".")
        lags_past_covariates d;
  d ← set_future_lags lags_future_covariates d;
  (* check and set output_chunk_length *)
  _ ← raise_if_not
        (is_int output_chunk_length_ && bool_decide (int_of output_chunk_length_ > 0))
        ("output_chunk_length must be an integer greater than 0. Given: "
         +:+ repr output_chunk_length_);
  Ok {| model := model_;
        lags := d;
        output_chunk_length := int_of output_chunk_length_;
        input_dim := None;
        training_series := None;
        past_covariate_series := None;
        future_covariate_series := None |}.

End model.

(** ** Lagged-matrix builder: [RegressionModel._create_lagged_data] *)

Section lagged_data.
Context {V : Type}.

(** The arguments as the callers pass them: a single series with its
    optional covariates, or sequences of them. *)
Inductive series_input : Type :=
| Single (target : @TimeSeries V) (past future : option (@TimeSeries V))
| Sequence (targets : list (@TimeSeries V)) (past future : option (list (@TimeSeries V))).

(** Truth value of an optional argument: [None] and empty containers are
    false. *)
Definition truthy_series (ts : option (@TimeSeries V)) : bool :=
  match ts with Some ts => bool_decide (values ts ≠ []) | None => false end.
Definition truthy_list {A} (l : option (list A)) : bool :=
  match l with Some (_ :: _) => true | _ => false end.
Definition truthy_int (z : option Z) : bool :=
  match z with Some z => bool_decide (z ≠ 0) | None => false end.

(** "ensure list of TimeSeries format" *)
Definition ensure_list (input : series_input)
    : list (@TimeSeries V) * option (list (@TimeSeries V)) * option (list (@TimeSeries V)) :=
  match input with
  | Single target past future =>
    ([target],
     if truthy_series past then (λ ts, [ts]) <$> past else None,
     if truthy_series future then (λ ts, [ts]) <$> future else None)
  | Sequence targets past future => (targets, past, future)
  end.

(** [covs[idx].pd_dataframe(copy=False) if covs else None] *)
Definition covariate_frame (covs : option (list (@TimeSeries V))) (idx : nat)
    : result (option (@pd.DataFrame V)) :=
  if truthy_list covs then
    match default [] covs !! idx with
    | Some ts => Ok (Some (pd.of_series ts))
    | None => Raise IndexError
    end
  else Ok None.

(** [for lag in lags: df_X.append(df_cov.shift(-lag))], done only when
    [lags] is neither [None] nor empty. *)
Definition covariate_blocks (df_cov : option (@pd.DataFrame V)) (lags_ : option (list Z))
    : result (list (@pd.DataFrame V)) :=
  if truthy_list lags_ then
    match df_cov with
    | Some df => Ok ((λ lag, pd.shift df (- lag)) <$> default [] lags_)
    | None => Raise AttributeError
    end
  else Ok [].

Definition no_samples_message (idx : nat) (n_series : nat) : string :=
  "Unable to build any training samples of the target series "
  +:+ (if decide (1 < n_series)%nat then "at index " +:+ pretty idx +:+ " " else "")
  +:+ "and the corresponding covariate series; "
  +:+ "There is no time step for which all required lags are available and are not NaN values.".

(** The body of the loop over the target series, up to the cap on the
    number of samples: the frame of the features (for its number of
    columns) and the table [X_y] of the usable rows, features then labels. *)
Definition episode_table (self : @RegressionModel V)
    (past_covariates future_covariates : option (list (@TimeSeries V)))
    (max_samples_per_ts : option Z) (idx : nat) (target_ts : @TimeSeries V)
    : result (@pd.DataFrame V * matrix V) :=
  df_past ← covariate_frame past_covariates idx;
  df_future ← covariate_frame future_covariates idx;
  let df_target := pd.of_series target_ts in
  (* y: output chunk length lags of target *)
  let df_y := (λ future_target_lag, pd.shift df_target (- future_target_lag))
              <$> range1 (output_chunk_length self) in
  (* X: target lags *)
  let df_X := match lags self !! "target" with
              | Some lags_ => (λ lag, pd.shift df_target (- lag)) <$> lags_
              | None => []
              end in
  (* X: covariate lags *)
  past_blocks ← covariate_blocks df_past (lags self !! "past");
  future_blocks ← covariate_blocks df_future (lags self !! "future");
  let df_X := df_X ++ past_blocks ++ future_blocks in
  (* combine lags *)
  df_X ← pd.concat df_X;
  df_y ← pd.concat df_y;
  df_X_y ← pd.concat [df_X; df_y];
  let X_y := pd.values (pd.dropna df_X_y) in
  (* keep most recent max_samples_per_ts samples *)
  let X_y := if truthy_int max_samples_per_ts
             then slice_from X_y (- default 0 max_samples_per_ts)
             else X_y in
  Ok (df_X, X_y).

(** The whole body: fail when no usable row remains, else split the table
    into samples and labels. *)
Definition episode_samples (self : @RegressionModel V)
    (n_series : nat) (past_covariates future_covariates : option (list (@TimeSeries V)))
    (max_samples_per_ts : option Z) (idx : nat) (target_ts : @TimeSeries V)
    : result (matrix V * matrix V) :=
  '(df_X, X_y) ← episode_table self past_covariates future_covariates
                   max_samples_per_ts idx target_ts;
  _ ← raise_if (bool_decide (length X_y = 0%nat)) (no_samples_message idx n_series);
  Ok (np.split_columns X_y (pd.n_columns df_X)).

Definition _create_lagged_data (self : @RegressionModel V) (input : series_input)
    (max_samples_per_ts : option Z) : result (matrix V * matrix V) :=
  let '(target_series, past_covariates, future_covariates) := ensure_list input in
  samples ← for_each
    (λ '(idx, target_ts),
       episode_samples self (length target_series) past_covariates future_covariates
         max_samples_per_ts idx target_ts)
    (enumerate target_series);
  (* combine samples from all series *)
  X ← np.concatenate_rows (samples.*1);
  y ← np.concatenate_rows (samples.*2);
  Ok (X, y).

End lagged_data.

(** *** numpy arrays of rank 3

    [predict] works on arrays indexed [row, time step, component], where a
    row is one sample draw of one episode. *)

Module np3.
Section arrays.
Context {V : Type}.

Definition shape2 (m : matrix V) : nat * nat := (length m, np.n_cols m).

(** [np.stack(ms)]: the arrays must have one shape, and there must be one. *)
Definition stack (ms : list (matrix V)) : result (array3 V) :=
  match ms with
  | [] => Raise (ValueError "need at least one array to stack")
  | m :: ms' =>
    if forallb (λ m', bool_decide (shape2 m' = shape2 m)) ms'
    then Ok ms
    else Raise (ValueError "all input arrays must have the same shape")
  end.

(** [np.repeat(a, repeats, axis=0)] *)
Definition repeat {A} (a : list A) (repeats : Z) : result (list A) :=
  if decide (repeats < 0)
  then Raise (ValueError "repeats may not contain negative values.")
  else Ok (a ≫= replicate (Z.to_nat repeats)).

(** [np.concatenate(arrays, axis=1)] on arrays of one rank (2 or 3): they
    must agree on the number of rows (and, at rank 3, of components); their
    rows are appended pairwise. *)
Definition row_shape {A} (inner : A → nat) (a : list (list A)) : nat * nat :=
  (length a, match a with (x :: _) :: _ => inner x | _ => 0%nat end).

Definition concatenate_axis1 {A} (inner : A → nat) (arrays : list (list (list A)))
    : result (list (list A)) :=
  match arrays with
  | [] => Raise (ValueError "need at least one array to concatenate")
  | a :: arrays' =>
    if forallb (λ a', bool_decide (row_shape inner a' = row_shape inner a)) arrays'
    then Ok (foldl (zip_with app) a arrays')
    else Raise (ValueError "all the input array dimensions except for the concatenation axis must match exactly")
  end.

(** [a.reshape(k, -1)] for an array given by its values in row-major
    order. *)
Definition reshape2 (k : nat) (flat : list (float V)) : result (matrix V) :=
  if bool_decide (k = 0%nat) || negb (bool_decide ((length flat `mod` k)%nat = 0%nat))
  then Raise (ValueError "cannot reshape array")
  else
    let w := (length flat `div` k)%nat in
    Ok ((λ i, take w (drop (i * w) flat)) <$> seq 0 k).

(** [a.reshape(k, l, -1)] *)
Definition reshape3 (k l : nat) (flat : list (float V)) : result (array3 V) :=
  if bool_decide ((k * l)%nat = 0%nat)
     || negb (bool_decide ((length flat `mod` (k * l))%nat = 0%nat))
  then Raise (ValueError "cannot reshape array")
  else
    let c := (length flat `div` (k * l))%nat in
    Ok ((λ i, (λ s, take c (drop ((i * l + s) * c) flat)) <$> seq 0 l) <$> seq 0 k).

(** [a[:, indices]]: the same (possibly negative) positions along the
    second axis of every row. *)
Definition take_axis1 {A} (a : list (list A)) (indices : list Z)
    : result (list (list A)) :=
  for_each (λ row, for_each (index row) indices) a.

(** [a[:, :n]] *)
Definition truncate_axis1 {A} (a : list (list A)) (n : Z) : list (list A) :=
  (λ row, slice_to row n) <$> a.

(** Exchange the two outer axes of an array whose second axis has length
    [w]. *)
Definition swap_axes {A} (w : nat) (a : list (list A)) : list (list A) :=
  (λ j, omap (λ row, row !! j) a) <$> seq 0 w.

(** [np.moveaxis(a.reshape(e, s, n, -1), 1, -1)]: the values of [a] are
    regrouped in row-major order into shape [(e, s, n, c)], and the result
    has shape [(e, n, c, s)]. *)
Definition group_samples (e s n : nat) (a : array3 V) : result (list (list (matrix V))) :=
  let flat := mjoin (mjoin a) in
  a' ← reshape3 (e * s) n flat;
  let c := (length flat `div` (e * s * n))%nat in
  Ok ((λ i, swap_axes c <$> swap_axes n (take s (drop (i * s) a'))) <$> seq 0 e).

End arrays.
End np3.

(** ** Autoregressive predictor: [RegressionModel.predict] *)

Section predict.
Context {V : Type}.

(** The [series] argument of [predict]: one series or a sequence. *)
Inductive series_arg : Type :=
| One (ts : @TimeSeries V)
| Many (l : list (@TimeSeries V)).

(** [darts.utils.utils.series2seq] *)
Definition series2seq (arg : option series_arg) : option (list (@TimeSeries V)) :=
  match arg with
  | Some (One ts) => Some [ts]
  | Some (Many l) => Some l
  | None => None
  end.

(** What [predict] returns: one forecast, or one per input series. *)
Inductive forecasts (F : Type) : Type :=
| OneForecast (f : F)
| ManyForecasts (l : list F).
Global Arguments OneForecast {F} f.
Global Arguments ManyForecasts {F} l.

(** The collaborators of [predict] that live in the base classes and in
    the subclasses: the probabilistic flag, the encoders, the checks of
    [GlobalForecastingModel.predict], the rendering of a time stamp, the
    construction of the forecast series, and the method that invokes the
    regressor, which may keep a state [St] of its own (a random generator,
    the regressor selected last). *)
Variable _is_probabilistic : bool.
Variable encoding_available : bool.
Variable generate_predict_encodings :
  Z → list (@TimeSeries V) → option (list (@TimeSeries V)) → option (list (@TimeSeries V)) →
  result (option (list (@TimeSeries V)) * option (list (@TimeSeries V))).
Variable super_predict :
  Z → list (@TimeSeries V) → option (list (@TimeSeries V)) → option (list (@TimeSeries V)) →
  Z → result unit.
Variable timestamp_repr : Z → string.
Variable Forecast : Type.
Variable _build_forecast_series : list (matrix V) → @TimeSeries V → Forecast.
Variable St : Type.
Variable _predict_and_sample :
  @RegressionModel V → matrix V → Z → St → result (array3 V * St).

(** *** Input dimensions *)

Definition dims_of (series : list (@TimeSeries V))
    (past_covariates future_covariates : option (list (@TimeSeries V)))
    : result (gmap string (option nat)) :=
  match series with
  | [] => Raise IndexError
  | ts :: _ =>
    let cov_width covs :=
      match covs with Some (cov :: _) => Some (width cov) | _ => None end in
    Ok (<["target" := Some (width ts)]>
        (<["past" := cov_width past_covariates]>
        (<["future" := cov_width future_covariates]> ∅)))
  end.

Definition dim_repr (d : option nat) : string :=
  match d with Some w => pretty w | None => "None" end.

Definition dims_repr (dims : option (gmap string (option nat))) : string :=
  match dims with
  | None => "None"
  | Some d =>
    "{'target': " +:+ dim_repr (default None (d !! "target"))
    +:+ ", 'past': " +:+ dim_repr (default None (d !! "past"))
    +:+ ", 'future': " +:+ dim_repr (default None (d !! "future")) +:+ "}"
  end.

Definition newline : string := String (Ascii.ascii_of_nat 10) "".

Definition dimension_mismatch_message
    (pred_input_dim : gmap string (option nat))
    (fit_input_dim : option (gmap string (option nat))) : string :=
  "The number of components of the target series and the covariates provided for prediction doesn't "
  +:+ "match the number of components of the target series and the covariates this model has been "
  +:+ "trained on." +:+ newline
  +:+ "Provided number of components for prediction: " +:+ dims_repr (Some pred_input_dim) +:+ newline
  +:+ "Provided number of components for training: " +:+ dims_repr fit_input_dim.

(** *** Covariate windows *)

(** First and last time stamps a covariate must span for the target series
    [ts], horizon [n_pred_steps] blocks, and lag bounds [lag_min],
    [lag_max]. *)
Definition first_pred_ts (ts : @TimeSeries V) : Z := end_time ts + 1 * freq ts.
Definition last_pred_ts (self : @RegressionModel V) (n_pred_steps : Z) (ts : @TimeSeries V) : Z :=
  first_pred_ts ts + ((n_pred_steps - 1) * output_chunk_length self) * freq ts.
Definition first_req_ts (ts : @TimeSeries V) (lag_min : Z) : Z :=
  first_pred_ts ts + lag_min * freq ts.
Definition last_req_ts (self : @RegressionModel V) (n_pred_steps : Z) (ts : @TimeSeries V)
    (lag_max : Z) : Z :=
  last_pred_ts self n_pred_steps ts + lag_max * freq ts.

Definition covers (cov : @TimeSeries V) (first_req last_req : Z) : bool :=
  bool_decide (start_time cov ≤ first_req) && bool_decide (end_time cov >= last_req).

Definition insufficient_covariate_message (self : @RegressionModel V)
    (cov_type : string) (idx : nat) (n lag_min lag_max first_req last_req : Z)
    (cov : @TimeSeries V) : string :=
  "The corresponding " +:+ cov_type +:+ "_covariate of the series at index "
  +:+ pretty idx +:+ " isn't sufficiently long. "
  +:+ "Given horizon `n=" +:+ pretty n
  +:+ "`, `min(lags_" +:+ cov_type +:+ "_covariates)=" +:+ pretty lag_min
  +:+ "`, `max(lags_" +:+ cov_type +:+ "_covariates)=" +:+ pretty lag_max
  +:+ "` and `output_chunk_length=" +:+ pretty (output_chunk_length self) +:+ "`" +:+ newline
  +:+ "the " +:+ cov_type +:+ "_covariate has to range from " +:+ timestamp_repr first_req
  +:+ " until " +:+ timestamp_repr last_req +:+ " (inclusive), "
  +:+ "but it ranges only from " +:+ timestamp_repr (start_time cov)
  +:+ " until " +:+ timestamp_repr (end_time cov) +:+ ".".

(** The body of the loop over [zip(series, covs)]: check that the covariate
    covers the required window and cut the window out. *)
Definition covariate_window (self : @RegressionModel V) (cov_type : string)
    (n n_pred_steps lag_min lag_max : Z) (idx : nat) (ts cov : @TimeSeries V)
    : result (matrix V) :=
  let first_req := first_req_ts ts lag_min in
  let last_req := last_req_ts self n_pred_steps ts lag_max in
  _ ← raise_if_not (covers cov first_req last_req)
        (insufficient_covariate_message self cov_type idx n lag_min lag_max
           first_req last_req cov);
  let last_req := if has_range_index ts then last_req + freq ts else last_req in
  Ok (slice_values cov first_req last_req).

(** One iteration of the loop over the covariate types: the relative lags
    and the stacked windows, or nothing when no covariate of that type is
    given. *)
Definition covariate_matrix (self : @RegressionModel V) (cov_type : string)
    (n n_pred_steps : Z) (series : list (@TimeSeries V))
    (covs : option (list (@TimeSeries V)))
    : result (option (list Z * array3 V)) :=
  match covs with
  | None => Ok None
  | Some covs =>
    match lags self !! cov_type with
    | None => Raise TypeError
    | Some [] => Raise IndexError
    | Some (lag_min :: rest) =>
      let lags_ := lag_min :: rest in
      let lag_max := List.last lags_ lag_min in
      let relative_cov_lags := (λ lag, lag - lag_min) <$> lags_ in
      windows ← for_each
        (λ '(idx, (ts, cov)),
           covariate_window self cov_type n n_pred_steps lag_min lag_max idx ts cov)
        (enumerate (zip series covs));
      stacked ← np3.stack windows;
      Ok (Some (relative_cov_lags, stacked))
    end
  end.

(** *** The prediction loop *)

(** [a[:, indices].reshape(n_rows, -1)] *)
Definition lagged_columns (n_rows : nat) (a : array3 V) (indices : list Z)
    : result (matrix V) :=
  picked ← np3.take_axis1 a indices;
  np3.reshape2 n_rows (mjoin (mjoin picked)).

(** The feature matrix of the prediction step [t_pred]: target lags read
    from the trailing window followed by the predictions made so far, then
    past and future covariate lags read from their windows. *)
Definition step_features (n_rows : nat)
    (target : option (list Z * array3 V))
    (covariate_matrices : list (option (list Z * array3 V)))
    (predictions : list (array3 V)) (t_pred : Z) : result (matrix V) :=
  (* retrieve target lags *)
  target_part ←
    match target with
    | Some (target_lags, series_matrix) =>
      target_matrix ←
        match predictions with
        | [] => Ok series_matrix
        | _ => np3.concatenate_axis1 length (series_matrix :: predictions)
        end;
      block ← lagged_columns n_rows target_matrix target_lags;
      Ok [block]
    | None => Ok []
    end;
  (* retrieve covariate lags, enforce order *)
  cov_parts ← for_each
    (λ entry,
       match entry with
       | Some (relative_cov_lags, data_) =>
         block ← lagged_columns n_rows data_ ((λ lag, lag + t_pred) <$> relative_cov_lags);
         Ok [block]
       | None => Ok []
       end)
    covariate_matrices;
  (* concatenate retrieved lags *)
  np3.concatenate_axis1 (λ _, 0%nat) (target_part ++ mjoin cov_parts).

Fixpoint prediction_loop (self : @RegressionModel V) (num_samples : Z) (n_rows : nat)
    (target : option (list Z * array3 V))
    (covariate_matrices : list (option (list Z * array3 V)))
    (t_preds : list Z) (predictions : list (array3 V)) (st : St)
    : result (list (array3 V) * St) :=
  match t_preds with
  | [] => Ok (predictions, st)
  | t_pred :: t_preds =>
    X ← step_features n_rows target covariate_matrices predictions t_pred;
    '(prediction, st) ← _predict_and_sample self X num_samples st;
    prediction_loop self num_samples n_rows target covariate_matrices t_preds
      (predictions ++ [prediction]) st
  end.

(** [np.repeat(data, num_samples, axis=0)] on an optional array; on [None]
    numpy repeats a one-element array, so only the sign of [num_samples]
    matters. *)
Definition repeat_rows (a : option (array3 V)) (num_samples : Z) : result (option (array3 V)) :=
  match a with
  | Some a => a ← np3.repeat a num_samples; Ok (Some a)
  | None => _ ← np3.repeat [tt] num_samples; Ok None
  end.

(** The windows the loop reads from: the trailing values of the target
    series under their lags (when the model has target lags), and for each
    covariate type the relative lags and the required window, every array
    repeated [num_samples] times along the rows. *)
Definition prediction_windows (self : @RegressionModel V) (n : Z)
    (series : list (@TimeSeries V))
    (past_covariates future_covariates : option (list (@TimeSeries V)))
    (num_samples : Z)
    : result (option (list Z * array3 V) * list (option (list Z * array3 V))) :=
  (* number of prediction steps given forecast horizon and output_chunk_length *)
  n_pred_steps ←
    (if decide (output_chunk_length self = 0) then Raise ZeroDivisionError
     else Ok (ceil_div n (output_chunk_length self)));
  past_matrix ← covariate_matrix self "past" n n_pred_steps series past_covariates;
  future_matrix ← covariate_matrix self "future" n n_pred_steps series future_covariates;
  series_matrix ←
    match lags self !! "target" with
    | Some target_lags =>
      first_lag ← index target_lags 0;
      stacked ← np3.stack ((λ ts, values (ts_slice_from ts first_lag)) <$> series);
      Ok (Some stacked)
    | None => Ok None
    end;
  (* repeat to shape (num_samples * num_series, n_lags, n_components) *)
  series_matrix ← repeat_rows series_matrix num_samples;
  past_matrix ←
    match past_matrix with
    | Some (rel, data_) => data_ ← np3.repeat data_ num_samples; Ok (Some (rel, data_))
    | None => Ok None
    end;
  future_matrix ←
    match future_matrix with
    | Some (rel, data_) => data_ ← np3.repeat data_ num_samples; Ok (Some (rel, data_))
    | None => Ok None
    end;
  let target :=
    match lags self !! "target", series_matrix with
    | Some target_lags, Some m => Some (target_lags, m)
    | _, _ => None
    end in
  Ok (target, [past_matrix; future_matrix]).

(** The loop over the prediction steps and what follows it: the blocks are
    concatenated along time, cut to the first [n] steps and regrouped to
    shape (series, horizon, components, samples). *)
Definition autoregress (self : @RegressionModel V) (n : Z) (n_series : nat)
    (num_samples : Z) (target : option (list Z * array3 V))
    (covariate_matrices : list (option (list Z * array3 V))) (st : St)
    : result (list (list (matrix V)) * St) :=
  t_preds ← range3 0 n (output_chunk_length self);
  let n_rows := Z.to_nat (Z.of_nat n_series * num_samples) in
  '(predictions, st) ←
    prediction_loop self num_samples n_rows target covariate_matrices t_preds [] st;
  (* concatenate and use first n points as prediction *)
  predictions ← np3.concatenate_axis1 length predictions;
  let predictions := np3.truncate_axis1 predictions n in
  (* bring into correct shape: (n_series, output_chunk_length, n_components, n_samples) *)
  predictions ←
    (if decide (n < 0) then Raise (ValueError "cannot reshape array")
     else np3.group_samples n_series (Z.to_nat num_samples) (Z.to_nat n) predictions);
  Ok (predictions, st).

(** The part of [predict] after the checks on the arguments. *)
Definition predict_values (self : @RegressionModel V) (n : Z)
    (series : list (@TimeSeries V))
    (past_covariates future_covariates : option (list (@TimeSeries V)))
    (num_samples : Z) (st : St) : result (list (list (matrix V)) * St) :=
  '(target, covariate_matrices) ←
    prediction_windows self n series past_covariates future_covariates num_samples;
  autoregress self n (length series) num_samples target covariate_matrices st.

(** Covariates omitted in the call are taken from the ones kept at fit
    time. *)
Definition stored_covariates (given : option (list (@TimeSeries V)))
    (kept : option (@TimeSeries V)) : option (list (@TimeSeries V)) :=
  match given, kept with
  | None, Some cov => series2seq (Some (One cov))
  | _, _ => given
  end.

(** The first part of [predict]: the checks on the arguments, and the
    series and covariates the prediction runs on. *)
Record resolved : Type := {
  called_with_single_series : bool;
  resolved_series : list (@TimeSeries V);
  resolved_past : option (list (@TimeSeries V));
  resolved_future : option (list (@TimeSeries V));
}.

(** [encoding_available] stands for [self.encoders.encoding_available] of a
    model that [fit] has given its encoders; a model that was never fitted
    has none, and what the code does then is not modelled. *)
Definition resolve_arguments (self : @RegressionModel V) (n : Z) (series : option series_arg)
    (past_covariates future_covariates : option series_arg) (num_samples : Z)
    : result resolved :=
  _ ← raise_if (negb _is_probabilistic && bool_decide (num_samples > 1))
        "`num_samples > 1` is only supported for probabilistic models.";
  series ←
    match series with
    | Some series => Ok series
    | None =>
      (* then there must be a single TS, saved in super().fit as self.training_series *)
      match training_series self with
      | None => Raise (ValueError "Input series has to be provided after fitting on multiple series.")
      | Some ts => Ok (One ts)
      end
    end;
  let single := match series with One _ => true | Many _ => false end in
  (* guarantee that all inputs are either list of TimeSeries or None *)
  let series := default [] (series2seq (Some series)) in
  let past_covariates := series2seq past_covariates in
  let future_covariates := series2seq future_covariates in
  '(past_covariates, future_covariates) ←
    (if encoding_available
     then generate_predict_encodings n series past_covariates future_covariates
     else Ok (past_covariates, future_covariates));
  let past_covariates := stored_covariates past_covariates (past_covariate_series self) in
  let future_covariates := stored_covariates future_covariates (future_covariate_series self) in
  _ ← super_predict n series past_covariates future_covariates num_samples;
  (* check that the input sizes of the target series and covariates match *)
  pred_input_dim ← dims_of series past_covariates future_covariates;
  _ ← raise_if_not (bool_decide (Some pred_input_dim = input_dim self))
        (dimension_mismatch_message pred_input_dim (input_dim self));
  Ok {| called_with_single_series := single;
        resolved_series := series;
        resolved_past := past_covariates;
        resolved_future := future_covariates |}.

Definition predict (self : @RegressionModel V) (n : Z) (series : option series_arg)
    (past_covariates future_covariates : option series_arg) (num_samples : Z) (st : St)
    : result (forecasts Forecast * St) :=
  args ← resolve_arguments self n series past_covariates future_covariates num_samples;
  '(predictions, st) ←
    predict_values self n (resolved_series args) (resolved_past args) (resolved_future args)
      num_samples st;
  (* build time series from the predicted values starting after end of series *)
  let predictions :=
    zip_with _build_forecast_series predictions (resolved_series args) in
  if called_with_single_series args
  then (match predictions with
        | f :: _ => Ok (OneForecast f, st)
        | [] => Raise IndexError
        end)
  else Ok (ManyForecasts predictions, st).

End predict.

(** [RegressionModel._predict_and_sample]: invoke the regressor and bring
    its output into shape (rows, output_chunk_length, components). *)
Definition _predict_and_sample {V : Type} (self : @RegressionModel V)
    (x : matrix V) (num_samples : Z) (st : unit) : result (array3 V * unit) :=
  let prediction := regressor_predict (model self) x in
  let k := length x in
  if decide (output_chunk_length self < 0) then Raise (ValueError "cannot reshape array")
  else
    prediction ← np3.reshape3 k (Z.to_nat (output_chunk_length self)) (data prediction);
    Ok (prediction, st).

(** ** Probabilistic sampling strategies: [_LikelihoodMixin]

    Here the values are computed with, so a float is an optional rational:
    [Some q] is the finite value [q], [None] any non-finite one (NaN or an
    infinity).  Arithmetic is exact; a division by zero is non-finite. *)

Module nd.
Section arrays.
Context {V : Type}.

Definition size (shape_ : list nat) : nat := foldr Nat.mul 1%nat shape_.

(** Position in row-major order of a multi-index, and back. *)
Fixpoint ravel (shape_ : list nat) (idx : list nat) : nat :=
  match shape_, idx with
  | _ :: rest, i :: idx => (i * size rest + ravel rest idx)%nat
  | _, _ => 0%nat
  end.
Fixpoint unravel (shape_ : list nat) (p : nat) : list nat :=
  match shape_ with
  | [] => []
  | _ :: rest => (p `div` size rest)%nat :: unravel rest (p `mod` size rest)%nat
  end.

(** [a.transpose()] reverses the axes. *)
Definition transpose (a : @ndarray V) : @ndarray V :=
  let shape' := reverse (shape a) in
  {| shape := shape';
     data := omap (λ p, data a !! ravel (shape a) (reverse (unravel shape' p)))
                  (seq 0 (size shape')) |}.

(** [np.expand_dims(a, axis=0)] *)
Definition expand_dims0 (a : @ndarray V) : @ndarray V :=
  {| shape := 1%nat :: shape a; data := data a |}.

(** [a[:, j]] *)
Definition column (a : @ndarray V) (j : nat) : result (@ndarray V) :=
  match shape a with
  | d0 :: d1 :: rest =>
    if decide (j < d1)%nat then
      Ok {| shape := d0 :: rest;
            data := omap (λ p, if decide (unravel (shape a) p !! 1%nat = Some j)
                               then data a !! p else None)
                         (seq 0 (size (shape a))) |}
    else Raise IndexError
  | _ => Raise IndexError
  end.

(** [a[i, :, :]] *)
Definition subarray (a : @ndarray V) (i : nat) : result (@ndarray V) :=
  match shape a with
  | d0 :: d1 :: d2 :: rest =>
    if decide (i < d0)%nat then
      let sz := size (d1 :: d2 :: rest) in
      Ok {| shape := d1 :: d2 :: rest; data := take sz (drop (i * sz) (data a)) |}
    else Raise IndexError
  | _ => Raise IndexError
  end.

(** [np.array(arrays)] for arrays of one shape. *)
Definition of_list (arrays : list (@ndarray V)) : @ndarray V :=
  {| shape := length arrays :: match arrays with a :: _ => shape a | [] => [] end;
     data := arrays ≫= data |}.

End arrays.
End nd.

Section likelihood.

Abbreviation Qfloat := (option Q).

Definition fsub (a b : Qfloat) : Qfloat := x ← a; y ← b; Some (x - y)%Q.
Definition fadd (a b : Qfloat) : Qfloat := x ← a; y ← b; Some (x + y)%Q.
Definition fmul (a b : Qfloat) : Qfloat := x ← a; y ← b; Some (x * y)%Q.
Definition fdiv (a b : Qfloat) : Qfloat :=
  x ← a; y ← b; if Qeq_bool y 0 then None else Some (x / y)%Q.
Definition Qgt_bool (a b : Q) : bool := negb (Qle_bool a b).

(** The pseudo-random generator [self._rng]: one draw of each kind, from a
    generator state to a value and the next state.  A draw with an invalid
    parameter raises. *)
Variable Rng : Type.
Variable rng_uniform : Rng → Q * Rng.
Variable rng_normal : Qfloat → Qfloat → Rng → result (Qfloat * Rng).
Variable rng_poisson : Qfloat → Rng → result (Qfloat * Rng).

(** What the mixin adds to the model: the quantile levels, the container
    of the regressors fitted per level (an ordered dictionary), and, as
    mutable state, the generator and the regressor [self.model] points to. *)
Record Likelihood : Type := {
  quantiles : list Q;
  _model_container : list (Q * @Regressor Q);
}.

Record sampler_state : Type := {
  _rng : Rng;
  current_model : @Regressor Q;
}.

(** [self._model_container[level]] *)
Definition container_get (container : list (Q * @Regressor Q)) (level : Q)
    : result (@Regressor Q) :=
  match list_find (λ entry, Qeq_bool entry.1 level = true) container with
  | Some (_, (_, fitted)) => Ok fitted
  | None => Raise KeyError
  end.

(** Draw from the generator once per element, in order. *)
Fixpoint draw_each {A B} (draw : A → Rng → result (B * Rng)) (l : list A) (g : Rng)
    : result (list B * Rng) :=
  match l with
  | [] => Ok ([], g)
  | x :: l =>
    '(y, g) ← draw x g;
    '(ys, g) ← draw_each draw l g;
    Ok (y :: ys, g)
  end.

(** [x.reshape(k, output_chunk_length, -1)] *)
Definition reshape_chunks (self : @RegressionModel Q) (k : nat) (flat : list Qfloat)
    : result (array3 Q) :=
  if decide (output_chunk_length self < 0) then Raise (ValueError "cannot reshape array")
  else np3.reshape3 k (Z.to_nat (output_chunk_length self)) flat.

(** *** Quantile interpolation *)

(** [np.sum(p > tquantiles, axis=-1)] with numpy's broadcasting of the
    [n_quantiles] copies of [p] against the quantile levels. *)
Definition left_index (levels : list Q) (n_quantiles : nat) (p : Q) : result nat :=
  let greater := length (filter (λ q, Qgt_bool p q = true) levels) in
  if decide (length levels = n_quantiles) then Ok greater
  else if decide (n_quantiles = 1%nat) then Ok greater
  else if decide (length levels = 1%nat) then Ok (n_quantiles * greater)%nat
  else Raise (ValueError "operands could not be broadcast together").

(** [np.repeat(model_output, repeat_count, axis=-1)] with the count 2 at
    both ends and 1 elsewhere. *)
Definition repeat_edges {A} (outputs : list A) : result (list A) :=
  match outputs with
  | [] => Raise IndexError
  | [v] => Ok [v; v]
  | v :: rest => Ok (v :: v :: rest ++ [List.last rest v])
  end.

Definition take_along {A} (l : list A) (i : nat) : result A :=
  match l !! i with Some x => Ok x | None => Raise IndexError end.

(** The interpolation at one (row, time step, component): [outputs] are
    the values of the fitted quantile models there, [p] the uniform draw.
    The arithmetic is that of the rationals, without rounding;
    [interpolate_in], further down, is the same computation over any
    arithmetic, that of the doubles included. *)
Definition interpolate (levels : list Q) (outputs : list Qfloat) (p : Q) : result Qfloat :=
  let n_quantiles := length outputs in
  (* calculate index of the largest quantile smaller than the sampled value *)
  left_idx ← left_index levels n_quantiles p;
  (* obtain index of the smallest quantile larger than the sampled value *)
  let right_idx := (left_idx + 1)%nat in
  (* repeat the model output on the edges *)
  shifted_output ← repeat_edges outputs;
  (* obtain model output values corresponding to the quantiles left and right *)
  left_value ← take_along shifted_output left_idx;
  right_value ← take_along shifted_output right_idx;
  (* add 0 and 1 to quantiles *)
  let ext_quantiles := [0%Q] ++ levels ++ [1%Q] in
  (* calculate closest quantiles to the sampled value *)
  left_q ← take_along ext_quantiles left_idx;
  right_q ← take_along ext_quantiles right_idx;
  (* linear interpolation *)
  let weights := fdiv (fsub (Some p) (Some left_q)) (fsub (Some right_q) (Some left_q)) in
  Ok (fadd left_value (fmul weights (fsub right_value left_value))).

(** Elementwise operations over the first three axes of an array, in
    row-major order: with the generator threaded through, and pointwise on
    two arrays of one shape. *)
Definition draw_each3 {A B} (draw : A → Rng → result (B * Rng))
    (a : list (list (list A))) (g : Rng) : result (list (list (list B)) * Rng) :=
  draw_each (draw_each (draw_each draw)) a g.

Definition for_each3 {A B C} (f : A → B → result C)
    (a : list (list (list A))) (b : list (list (list B))) : result (list (list (list C))) :=
  for_each (λ '(row_a, row_b),
    for_each (λ '(step_a, step_b),
      for_each (λ '(x, y), f x y) (zip step_a step_b)) (zip row_a row_b)) (zip a b).

(** [_quantile_sampling]: one uniform draw and one interpolation per (row,
    time step, component) of [model_output], whose last axis runs over the
    quantiles. *)
Definition _quantile_sampling (lk : Likelihood) (model_output : list (list (list (list Qfloat))))
    (g : Rng) : result (array3 Q * Rng) :=
  (* obtain samples *)
  '(probs, g) ← draw_each3 (λ _ g, Ok (rng_uniform g)) model_output g;
  inter ← for_each3 (interpolate (quantiles lk)) model_output probs;
  Ok (inter, g).

(** [np.stack(model_outputs, axis=-1)] for arrays of rank 3: the new last
    axis runs over the arrays. *)
Definition shape3 (a : array3 Q) : nat * nat * nat :=
  match a with
  | [] => (0, 0, 0)%nat
  | [] :: _ => (length a, 0, 0)%nat
  | (cell :: row) :: _ => (length a, length (cell :: row), length cell)
  end.

Definition cell_at (a : array3 Q) (i s j : nat) : option Qfloat :=
  row ← a !! i; step ← row !! s; step !! j.

Definition stack_last (arrays : list (array3 Q))
    : result (list (list (list (list Qfloat)))) :=
  match arrays with
  | [] => Raise (ValueError "need at least one array to stack")
  | a :: arrays' =>
    if forallb (λ a', bool_decide (shape3 a' = shape3 a)) arrays'
    then
      let k := (shape3 a).1.1 in
      let l := (shape3 a).1.2 in
      let c := (shape3 a).2 in
      Ok ((λ i, (λ s, (λ j, omap (λ a', cell_at a' i s j) arrays)
                      <$> seq 0 c) <$> seq 0 l) <$> seq 0 k)
    else Raise (ValueError "all input arrays must have the same shape")
  end.

Definition _predict_quantiles (self : @RegressionModel Q) (lk : Likelihood)
    (x : matrix Q) (num_samples : Z) (st : sampler_state)
    : result (array3 Q * sampler_state) :=
  let k := length x in
  if decide (num_samples = 1) then
    (* return median *)
    fitted ← container_get (_model_container lk) (1 # 2)%Q;
    out ← reshape_chunks self k (data (regressor_predict fitted x));
    Ok (out, st)
  else
    model_outputs ← for_each
      (λ '(quantile, fitted), reshape_chunks self k (data (regressor_predict fitted x)))
      (_model_container lk);
    (* self.model = fitted, for each fitted model in turn *)
    let st := {| _rng := _rng st;
                 current_model := List.last (_model_container lk).*2 (current_model st) |} in
    model_outputs ← stack_last model_outputs;
    '(sampled, g) ← _quantile_sampling lk model_outputs (_rng st);
    Ok (sampled, {| _rng := g; current_model := current_model st |}).

(** *** Gaussian sampling *)

(** [_normal_sampling]: [model_output] has shape (components x
    output_chunk_length, samples, 2), the last axis holding mu and sigma. *)
Definition _normal_sampling (self : @RegressionModel Q) (model_output : @ndarray Q)
    (n_samples : Z) (g : Rng) : result (array3 Q * Rng) :=
  n_channels ← match shape model_output with d0 :: _ => Ok d0 | [] => Raise IndexError end;
  (* treating each component separately *)
  mu_sigma_list ← for_each (nd.subarray model_output) (seq 0 n_channels);
  '(list_of_samples, g) ← draw_each
    (λ mu_sigma g,
       mean ← nd.column mu_sigma 0;
       sigma ← nd.column mu_sigma 1;
       '(samples, g) ← draw_each (λ '(m, s) g, rng_normal m s g)
                         (zip (data mean) (data sigma)) g;
       Ok ({| shape := shape mean; data := samples |}, g))
    mu_sigma_list g;
  let samples_transposed := nd.transpose (nd.of_list list_of_samples) in
  if decide (n_samples < 0) then Raise (ValueError "cannot reshape array")
  else
    samples_reshaped ← reshape_chunks self (Z.to_nat n_samples) (data samples_transposed);
    Ok (samples_reshaped, g).

Definition _predict_normal (self : @RegressionModel Q) (x : matrix Q) (num_samples : Z)
    (st : sampler_state) : result (array3 Q * sampler_state) :=
  let k := length x in
  let model_output := regressor_predict (current_model st) x in
  let output_dim := length (shape model_output) in
  (* deterministic case: we return the mean only *)
  if decide (num_samples = 1) then
    output_slice ←
      (if decide (output_dim ≤ 2)%nat
       then nd.column model_output 0
       else nd.subarray model_output 0);
    out ← reshape_chunks self k (data output_slice);
    Ok (out, st)
  else
    (* probabilistic case *)
    let model_output :=
      if decide (output_dim ≤ 2)%nat
      then nd.expand_dims0 model_output
      else nd.transpose model_output in
    '(samples, g) ← _normal_sampling self model_output num_samples (_rng st);
    Ok (samples, {| _rng := g; current_model := current_model st |}).

(** *** Poisson sampling *)

Definition _poisson_sampling (model_output : array3 Q) (g : Rng)
    : result (array3 Q * Rng) :=
  draw_each3 rng_poisson model_output g.

Definition _predict_poisson (self : @RegressionModel Q) (x : matrix Q) (num_samples : Z)
    (st : sampler_state) : result (array3 Q * sampler_state) :=
  let k := length x in
  model_output ← reshape_chunks self k (data (regressor_predict (current_model st) x));
  if decide (num_samples = 1) then Ok (model_output, st)
  else
    '(sampled, g) ← _poisson_sampling model_output (_rng st);
    Ok (sampled, {| _rng := g; current_model := current_model st |}).

End likelihood.

(** ** Settings derived from the lags *)

Section settings.
Context {V : Type}.

(** [min] and [max] of a sequence that holds [x] and the elements of [l]. *)
Definition min_of (x : Z) (l : list Z) : Z := foldr Z.min x l.
Definition max_of (x : Z) (l : list Z) : Z := foldr Z.max x l.

(** [RegressionModel._model_encoder_settings].  The set of the covariate
    lags is used for its truth value, its minimum and its maximum only, so
    it is kept as the list of the lags of both kinds. *)
Definition _model_encoder_settings (self : @RegressionModel V) : Z * Z * bool * bool :=
  let lags_covariates :=
    default [] (lags self !! "past") ++ default [] (lags self !! "future") in
  match lags_covariates with
  | lag :: rest =>
    (* for lags < 0 we need to take `n` steps backwards *)
    let n_steps_back_inclusive := Z.abs (Z.min (min_of lag rest) 0) in
    (* for lags >= 0 we need to take `n` steps ahead *)
    let n_steps_ahead_exclusive := Z.max (max_of lag rest) 0 + 1 in
    let takes_past_covariates := bool_decide (is_Some (lags self !! "past")) in
    let takes_future_covariates := bool_decide (is_Some (lags self !! "future")) in
    (n_steps_back_inclusive, n_steps_ahead_exclusive,
     takes_past_covariates, takes_future_covariates)
  | [] => (0, 0, false, false)
  end.

(** [RegressionModel._get_encoders_n] *)
Definition _get_encoders_n (self : @RegressionModel V) (n : Z) : Z :=
  let '(_, n_steps_ahead, _, takes_future_covariates) := _model_encoder_settings self in
  if negb takes_future_covariates then n
  else n + (n_steps_ahead - 1).

(** [RegressionModel.min_train_series_length] *)
Definition min_train_series_length (self : @RegressionModel V) : result Z :=
  needed ←
    match lags self !! "target" with
    | Some target_lags =>
      first_lag ← index target_lags 0;
      Ok (- first_lag + output_chunk_length self)
    | None => Ok (output_chunk_length self)
    end;
  Ok (Z.max 3 needed).

(** [RegressionModel._get_last_prediction_time].  The maximum does not
    depend on the order in which the dictionary yields its values. *)
Definition _get_last_prediction_time (self : @RegressionModel V) (series : @TimeSeries V)
    (forecast_horizon : Z) (overlap_end : bool) : result Z :=
  last_lags ← for_each (λ lags_ : list Z, index lags_ (-1)) (map_to_list (lags self)).*2;
  largest ←
    match last_lags with
    | lag :: rest => Ok (max_of lag rest)
    | [] => Raise (ValueError "max() arg is an empty sequence")
    end;
  let extra_shift := Z.max 0 largest in
  if overlap_end
  then index (time_index series) (-1 - extra_shift)
  else index (time_index series) (- forecast_horizon - extra_shift).

End settings.

(** ** Quantile levels: [_LikelihoodMixin._prepare_quantiles] *)

Global Instance Qle_dec : RelDecision Qle :=
  λ x y, decide (Qnum x * Z.pos (Qden y) ≤ Qnum y * Z.pos (Qden x)).

Section quantile_levels.

(** [darts.utils.utils._check_quantiles], which this file does not hold. *)
Variable _check_quantiles : list Q → result unit.

Definition _prepare_quantiles (quantiles_ : option (list Q)) : result (list Q * nat) :=
  quantiles_ ←
    match quantiles_ with
    | None =>
      Ok [(1 # 100)%Q; (5 # 100)%Q; (1 # 10)%Q; (1 # 4)%Q; (1 # 2)%Q;
          (3 # 4)%Q; (9 # 10)%Q; (95 # 100)%Q; (99 # 100)%Q]
    | Some quantiles_ =>
      let quantiles_ := merge_sort Qle quantiles_ in
      _ ← _check_quantiles quantiles_;
      Ok quantiles_
    end;
  median_idx ←
    match list_find (λ q, Qeq_bool q (1 # 2) = true) quantiles_ with
    | Some (i, _) => Ok i
    | None => Raise (ValueError "0.5 is not in list")
    end;
  Ok (quantiles_, median_idx).

End quantile_levels.

(** ** Training: [RegressionModel.fit] and [_fit_model] *)

(** The assignments [self.input_dim = ...] and [self.model = ...]. *)
Definition with_input_dim {V : Type} (self : @RegressionModel V)
    (dims : option (gmap string (option nat))) : @RegressionModel V :=
  {| model := model self;
     lags := lags self;
     output_chunk_length := output_chunk_length self;
     input_dim := dims;
     training_series := training_series self;
     past_covariate_series := past_covariate_series self;
     future_covariate_series := future_covariate_series self |}.

Definition with_model {V : Type} (self : @RegressionModel V)
    (regressor : @Regressor V) : @RegressionModel V :=
  {| model := regressor;
     lags := lags self;
     output_chunk_length := output_chunk_length self;
     input_dim := input_dim self;
     training_series := training_series self;
     past_covariate_series := past_covariate_series self;
     future_covariate_series := future_covariate_series self |}.

Section fit.
Context {V : Type}.

(** The labels the regressor is fitted on: the matrix [y], or its values as
    a vector when it has a single column. *)
Inductive labels : Type :=
| Labels2 (y : matrix V)
| Labels1 (y : list (float V)).

(** The collaborators of [fit]: the encoders; what is known of the
    regressor (whether it is a [MultiOutputRegressor], whether its tags
    declare multi-output support, whether it is a [CatBoostRegressor], its
    loss function), the wrapper [MultiOutputRegressor(model, n_jobs=...)]
    and the regressor's own [fit], which returns the fitted regressor;
    and [GlobalForecastingModel.fit], called on [seq2series] of the three
    sequences, which returns the model with what it keeps of them. *)
Variable encoding_available : bool.
Variable generate_fit_encodings :
  list (@TimeSeries V) → option (list (@TimeSeries V)) → option (list (@TimeSeries V)) →
  result (option (list (@TimeSeries V)) * option (list (@TimeSeries V))).
Variable is_MultiOutputRegressor : @Regressor V → bool.
Variable supports_multioutput : @Regressor V → bool.
Variable is_CatBoostRegressor : @Regressor V → bool.
Variable loss_function : @Regressor V → result string.
Variable MultiOutputRegressor : @Regressor V → option Z → @Regressor V.
Variable regressor_fit : @Regressor V → matrix V → labels → result (@Regressor V).
Variable super_fit :
  @RegressionModel V → list (@TimeSeries V) →
  option (list (@TimeSeries V)) → option (list (@TimeSeries V)) →
  result (@RegressionModel V).

Definition _fit_model (self : @RegressionModel V) (target_series : list (@TimeSeries V))
    (past_covariates future_covariates : option (list (@TimeSeries V)))
    (max_samples_per_ts : option Z) : result (@RegressionModel V) :=
  '(training_samples, training_labels) ←
    _create_lagged_data self (Sequence target_series past_covariates future_covariates)
      max_samples_per_ts;
  (* if training_labels is of shape (n_samples, 1) flatten it to shape (n_samples,) *)
  let training_labels :=
    if bool_decide (np.n_cols training_labels = 1%nat)
    then Labels1 (mjoin training_labels)
    else Labels2 training_labels in
  fitted ← regressor_fit (model self) training_samples training_labels;
  Ok (with_model self fitted).

Definition covariates_without_lags_message (name : string) : string :=
  "`" +:+ name +:+ "_covariates` not None in `fit()` method call, but `lags_" +:+ name
  +:+ "_covariates` is None in constructor.".

Definition lags_without_covariates_message (name : string) : string :=
  "`" +:+ name +:+ "_covariates` is None in `fit()` method call, but `lags_" +:+ name
  +:+ "_covariates` is not None in constructor.".

Definition fit (self : @RegressionModel V) (series : @series_arg V)
    (past_covariates future_covariates : option (@series_arg V))
    (max_samples_per_ts : option Z) (n_jobs_multioutput_wrapper : option Z)
    : result (@RegressionModel V) :=
  (* guarantee that all inputs are either list of TimeSeries or None *)
  let series := default [] (series2seq (Some series)) in
  let past_covariates := series2seq past_covariates in
  let future_covariates := series2seq future_covariates in
  '(past_covariates, future_covariates) ←
    (if encoding_available
     then generate_fit_encodings series past_covariates future_covariates
     else Ok (past_covariates, future_covariates));
  _ ← for_each
    (λ '(covs, name),
       _ ← raise_if (bool_decide (is_Some covs)
                     && negb (bool_decide (is_Some (lags self !! name))))
             (covariates_without_lags_message name);
       raise_if (negb (bool_decide (is_Some covs))
                 && bool_decide (is_Some (lags self !! name)))
         (lags_without_covariates_message name))
    [(past_covariates, "past"); (future_covariates, "future")];
  (* saving the dims of all input series to check at prediction time *)
  dims ← dims_of series past_covariates future_covariates;
  let self := with_input_dim self (Some dims) in
  (* if multi-output regression *)
  first ← index series 0;
  regressor ←
    (if negb (is_univariate first) || bool_decide (output_chunk_length self > 1) then
       (* and model isn't wrapped already *)
       if negb (is_MultiOutputRegressor (model self)) then
         (* check whether model supports multi-output regression natively *)
         if negb (supports_multioutput (model self)) then
           (* if not, wrap model with MultiOutputRegressor *)
           Ok (MultiOutputRegressor (model self) n_jobs_multioutput_wrapper)
         else if is_CatBoostRegressor (model self) then
           loss ← loss_function (model self);
           if String.eqb loss "RMSEWithUncertainty"
           then Ok (MultiOutputRegressor (model self) n_jobs_multioutput_wrapper)
           else Ok (model self)
         else Ok (model self)
       else Ok (model self)
     else Ok (model self));
  let self := with_model self regressor in
  self ← super_fit self series past_covariates future_covariates;
  _fit_model self series past_covariates future_covariates max_samples_per_ts.

End fit.

(** ** The arithmetic of the quantile interpolation

    numpy evaluates the interpolation of [_quantile_sampling] in IEEE 754
    doubles: every operation rounds, and may overflow.  [interpolate] above
    evaluates the same formula over the rationals, without rounding.  Here
    the computation is written once over an arithmetic given as a
    parameter: [binary64] is the arithmetic of the code, on the doubles of
    the machine, and [exact] the arithmetic of [interpolate]. *)

Record arithmetic (N F : Type) : Type := {
  ar_zero : N;                  (* the virtual level 0.0 *)
  ar_one : N;                   (* the virtual level 1.0 *)
  ar_gt : N → N → bool;         (* [p > q] *)
  ar_val : N → F;               (* a level or a draw as an operand *)
  ar_add : F → F → F;
  ar_sub : F → F → F;
  ar_mul : F → F → F;
  ar_div : F → F → F;
}.

Arguments ar_zero {N F} _.
Arguments ar_one {N F} _.
Arguments ar_gt {N F} _ _ _.
Arguments ar_val {N F} _ _.
Arguments ar_add {N F} _ _ _.
Arguments ar_sub {N F} _ _ _.
Arguments ar_mul {N F} _ _ _.
Arguments ar_div {N F} _ _ _.

Definition exact : arithmetic Q (option Q) :=
  {| ar_zero := 0%Q; ar_one := 1%Q; ar_gt := Qgt_bool; ar_val := Some;
     ar_add := fadd; ar_sub := fsub; ar_mul := fmul; ar_div := fdiv |}.


Section interpolation.
Context {N F : Type}.
Variable A : arithmetic N F.

(** [np.sum(p > tquantiles, axis=-1)] *)
Definition left_index_in (levels : list N) (n_quantiles : nat) (p : N) : result nat :=
  let greater := length (filter (λ q, ar_gt A p q = true) levels) in
  if decide (length levels = n_quantiles) then Ok greater
  else if decide (n_quantiles = 1%nat) then Ok greater
  else if decide (length levels = 1%nat) then Ok (n_quantiles * greater)%nat
  else Raise (ValueError "operands could not be broadcast together").

(** The interpolation at one (row, time step, component). *)
Definition interpolate_in (levels : list N) (outputs : list F) (p : N) : result F :=
  let n_quantiles := length outputs in
  (* calculate index of the largest quantile smaller than the sampled value *)
  left_idx ← left_index_in levels n_quantiles p;
  (* obtain index of the smallest quantile larger than the sampled value *)
  let right_idx := (left_idx + 1)%nat in
  (* repeat the model output on the edges *)
  shifted_output ← repeat_edges outputs;
  (* obtain model output values corresponding to the quantiles left and right *)
  left_value ← take_along shifted_output left_idx;
  right_value ← take_along shifted_output right_idx;
  (* add 0 and 1 to quantiles *)
  let ext_quantiles := [ar_zero A] ++ levels ++ [ar_one A] in
  (* calculate closest quantiles to the sampled value *)
  left_q ← take_along ext_quantiles left_idx;
  right_q ← take_along ext_quantiles right_idx;
  (* linear interpolation *)
  let weights :=
    ar_div A (ar_sub A (ar_val A p) (ar_val A left_q))
             (ar_sub A (ar_val A right_q) (ar_val A left_q)) in
  Ok (ar_add A left_value (ar_mul A weights (ar_sub A right_value left_value))).

(** [_quantile_sampling] with the levels [self.quantiles] and the uniform
    draw of the generator given. *)
Definition _quantile_sampling_in (Rng : Type) (rng_uniform : Rng → N * Rng)
    (levels : list N) (model_output : list (list (list (list F)))) (g : Rng)
    : result (list (list (list F)) * Rng) :=
  (* obtain samples *)
  '(probs, g) ← draw_each3 Rng (λ _ g, Ok (rng_uniform g)) model_output g;
  inter ← for_each3 (interpolate_in levels) model_output probs;
  Ok (inter, g).

End interpolation.

(** ** Notions used in the statements *)

(** A strictly negative integer, as the lag lists of the target and of the
    past covariates require. *)
Definition negative_int (v : val) : Prop := ∃ z, v = Int z ∧ z < 0.

(** A regressor that predicts nothing but zeros, one per row. *)
Definition zero_regressor {V : Type} (zero : V) : @Regressor V :=
  {| has_fit := true;
     has_predict := true;
     regressor_predict := λ x,
       {| shape := [length x]; data := (λ _, Some zero) <$> x |} |}.

(** Scenario 1: a univariate series with the values 0 to 9 at the time
    stamps 0 to 9, two target lags given as a count, one output step. *)
Definition scenario1_value (t : Z) : float Z := Some t.

Definition scenario1_series : @TimeSeries Z :=
  {| start_time := 0;
     freq := 1;
     width := 1;
     values := (λ t, [scenario1_value t]) <$> seqZ 0 10;
     has_range_index := true |}.

Definition scenario1 (regressor : @Regressor Z) : result (matrix Z * matrix Z) :=
  self ← __init__ regressor (Int 2) None_ None_ (Int 1) None;
  _create_lagged_data self (Single scenario1_series None None) None.

(** What a series holds at a time stamp: its values at that stamp, or NaN
    in every component when the stamp is not in its time index. *)
Definition observed {V : Type} (ts : @TimeSeries V) (t : Z) : list (float V) :=
  pd.row_at (pd.of_series ts) t.

(** The block of columns a lag group contributes to the row of time stamp
    [t]: lag after lag in the order of the group and, within a lag, the
    components of the series [lag] steps away from [t]. *)
Definition lag_block {V : Type} (series : option (@TimeSeries V))
    (lags_ : option (list Z)) (t : Z) : list (float V) :=
  match series with
  | Some ts => default [] lags_ ≫= (λ lag, observed ts (t + lag * freq ts))
  | None => []
  end.

Definition feature_row {V : Type} (self : @RegressionModel V)
    (target : @TimeSeries V) (past future : option (@TimeSeries V)) (t : Z)
    : list (float V) :=
  lag_block (Some target) (lags self !! "target") t
  ++ lag_block past (lags self !! "past") t
  ++ lag_block future (lags self !! "future") t.

Definition label_row {V : Type} (self : @RegressionModel V)
    (target : @TimeSeries V) (t : Z) : list (float V) :=
  range1 (output_chunk_length self) ≫= (λ step, observed target (t + step * freq target)).

(** The number of columns a lag group contributes: one per lag and
    component of the first series of its kind. *)
Definition group_columns {V : Type} (lags_ : option (list Z))
    (series : option (list (@TimeSeries V))) : nat :=
  match lags_, series with
  | Some l, Some (ts :: _) => (length l * width ts)%nat
  | _, _ => 0%nat
  end.

(** The covariate series that goes with the target series at position
    [idx]. *)
Definition covariate_at {V : Type} (covs : option (list (@TimeSeries V))) (idx : nat)
    : option (@TimeSeries V) :=
  covs ≫= (λ l, l !! idx).

(** A frame has one row per index entry, every row as wide as the frame,
    and no index entry twice. *)
Definition frame_wf {V : Type} (df : @pd.DataFrame V) : Prop :=
  length (pd.index df) = length (pd.rows df) ∧
  Forall (λ row, length row = pd.columns df) (pd.rows df) ∧
  NoDup (pd.index df).

(** The number of columns of a block of lagged values of one series. *)
Definition block_columns {V : Type} (series : option (@TimeSeries V))
    (lags_ : option (list Z)) : nat :=
  match series with
  | Some ts => (length (default [] lags_) * width ts)%nat
  | None => 0%nat
  end.

(** The relation between a row of samples and its row of labels: they are
    the lagged values and the labels of one time stamp, without a NaN. *)
Definition sample_of {V : Type} (self : @RegressionModel V) (ts : @TimeSeries V)
    (past future : option (@TimeSeries V)) (x_row y_row : list (float V)) : Prop :=
  ∃ t, x_row = feature_row self ts past future t ∧
       y_row = label_row self ts t ∧
       pd.complete x_row ∧ pd.complete y_row.

(** ** Example data *)

(** A model with two target lags, one lag of the past covariates and the
    lags 0 and 1 of the future covariates, predicting two steps at once. *)
Definition example_model : @RegressionModel Z :=
  {| model := zero_regressor 0;
     lags := <["target" := [-2; -1]]> (<["past" := [-1]]> (<["future" := [0; 1]]> ∅));
     output_chunk_length := 2;
     input_dim := None;
     training_series := None;
     past_covariate_series := None;
     future_covariate_series := None |}.

(** A univariate series [f 0, f 1, ...] of [n] values starting at the time
    stamp [start], and a series with the two components [f t] and
    [f t + 1]. *)
Definition univariate (start n : Z) (f : Z → Z) : @TimeSeries Z :=
  {| start_time := start;
     freq := 1;
     width := 1;
     values := (λ t, [Some (f t)]) <$> seqZ start n;
     has_range_index := true |}.

Definition bivariate (start n : Z) (f : Z → Z) : @TimeSeries Z :=
  {| start_time := start;
     freq := 1;
     width := 2;
     values := (λ t, [Some (f t); Some (f t + 1)]) <$> seqZ start n;
     has_range_index := true |}.

(** Two episodes: a target of 6 values with covariates reaching one step
    further, and a target of 5 values starting later. *)
Definition example_targets : list (@TimeSeries Z) :=
  [univariate 0 6 id; univariate 3 5 (λ t, 100 + t)].
Definition example_past : list (@TimeSeries Z) :=
  [bivariate 0 7 (λ t, 10 * t); bivariate 3 6 (λ t, 1000 + 10 * t)].
Definition example_future : list (@TimeSeries Z) :=
  [univariate 0 7 (λ t, - t); univariate 3 6 (λ t, - 100 - t)].

Definition example_input : @series_input Z :=
  Sequence example_targets (Some example_past) (Some example_future).

(** A model with five target lags, one output step, and a collection whose
    second series is too short for them. *)
Definition five_lag_model : @RegressionModel Z :=
  {| model := zero_regressor 0;
     lags := <["target" := [-5; -4; -3; -2; -1]]> ∅;
     output_chunk_length := 1;
     input_dim := None;
     training_series := None;
     past_covariate_series := None;
     future_covariate_series := None |}.

Definition short_second_input : @series_input Z :=
  Sequence [univariate 0 8 id; univariate 0 3 id] None None.

(** ** Notions for the sampling strategies *)

(** The value a computation with state returns, forgetting the state. *)
Definition outcome {A S : Type} (r : result (A * S)) : result A :=
  match r with
  | Ok (a, _) => Ok a
  | Raise e => Raise e
  end.

(** A result returned together with an unchanged state. *)
Definition with_state {A S : Type} (r : result A) (st : S) : result (A * S) :=
  a ← r; Ok (a, st).

(** The two layouts in which a regressor emits means and variances: one
    (mean, variance) pair per row, shape (rows, 2); or all the means
    followed by all the variances, shape (2, rows, columns). *)
Definition paired_output (pairs : list (option Q * option Q)) : @ndarray Q :=
  {| shape := [length pairs; 2%nat]; data := pairs ≫= (λ p, [p.1; p.2]) |}.

Definition stacked_output (rows_ columns_ : nat) (means variances : list (option Q))
    : @ndarray Q :=
  {| shape := [2%nat; rows_; columns_]; data := means ++ variances |}.



(** ** Notions for the predictor *)

(** An array of rank 3 with [k] rows of [l] time steps of [c] components. *)
Definition has_shape3 {A : Type} (k l c : nat) (a : list (list (list A))) : Prop :=
  length a = k ∧
  Forall (λ row, length row = l ∧ Forall (λ step, length step = c) row) a.

(** The method that invokes the regressor, instrumented with a counter of
    its invocations. *)
Definition counting {V St : Type}
    (sampler : @RegressionModel V → matrix V → Z → St → result (array3 V * St))
    (self : @RegressionModel V) (x : matrix V) (num_samples : Z) (st : St * nat)
    : result (array3 V * (St * nat)) :=
  '(prediction, st') ← sampler self x num_samples st.1;
  Ok (prediction, (st', S st.2)).

(** The method answers every feature matrix of [k] rows with [l] time steps
    of [c] components for each row. *)
Definition sampler_shaped {V St : Type}
    (sampler : @RegressionModel V → matrix V → Z → St → result (array3 V * St))
    (self : @RegressionModel V) (num_samples : Z) (k l c : nat) : Prop :=
  ∀ (x : matrix V) (st : St), length x = k →
    ∃ prediction st', sampler self x num_samples st = Ok (prediction, st') ∧
                      has_shape3 k l c prediction.

(** The window of the target series holds, for each of the [k] rows, at
    least as many time steps of [c] components as the earliest target lag
    reaches back. *)
Definition target_window_fits {V : Type} (k c : nat)
    (target : option (list Z * array3 V)) : Prop :=
  match target with
  | Some (target_lags, series_matrix) =>
    ∃ L : nat, (0 < L)%nat ∧ has_shape3 k L c series_matrix ∧
               Forall (λ lag, - Z.of_nat L ≤ lag < 0) target_lags
  | None => True
  end.

(** The window of a covariate holds, for each of the [k] rows, the time
    steps that its relative lags reach up to the prediction step [t_max]. *)
Definition covariate_window_fits {V : Type} (k : nat) (t_max : Z)
    (entry : option (list Z * array3 V)) : Prop :=
  match entry with
  | Some (relative_cov_lags, data_) =>
    ∃ W c : nat, has_shape3 k W c data_ ∧
                 Forall (λ rel, 0 ≤ rel ∧ rel + t_max < Z.of_nat W) relative_cov_lags
  | None => True
  end.

(** A regressor with [l] outputs for each row: the sum of the features of
    the row, plus the position of the output. *)
Definition row_sum (row : list (float Z)) : Z :=
  foldr (λ x acc, default 0 x + acc) 0 row.

Definition summing_regressor (l : nat) : @Regressor Z :=
  {| has_fit := true;
     has_predict := true;
     regressor_predict := λ x,
       {| shape := [length x; l];
          data := x ≫= (λ row, (λ s, Some (row_sum row + Z.of_nat s)) <$> seq 0 l) |} |}.

(** A model with two target lags, the future covariate lags -1, 0 and 1 and
    two output steps, fitted on a series of ten steps and a future covariate
    of fourteen, both of which it keeps. *)
Definition fitted_series : @TimeSeries Z := univariate 0 10 id.
Definition fitted_future : @TimeSeries Z := univariate 0 14 (λ t, 100 * t).

Definition fitted_model : @RegressionModel Z :=
  {| model := summing_regressor 2;
     lags := <["target" := [-2; -1]]> (<["future" := [-1; 0; 1]]> ∅);
     output_chunk_length := 2;
     input_dim := Some (<["target" := Some 1%nat]>
                        (<["past" := None]> (<["future" := Some 1%nat]> ∅)));
     training_series := Some fitted_series;
     past_covariate_series := None;
     future_covariate_series := Some fitted_future |}.

(** [predict] of a model that is not probabilistic and has no encoders, with
    the checks of the base class passing, time stamps printed as integers
    and the forecast values kept as they are. *)
Definition plain_predict (self : @RegressionModel Z) (n : Z)
    (series past future : option (@series_arg Z)) (num_samples : Z)
    : result (forecasts (list (matrix Z)) * unit) :=
  predict false false (λ _ _ past future, Ok (past, future)) (λ _ _ _ _ _, Ok tt)
    pretty (list (matrix Z)) (λ values_ _, values_) unit _predict_and_sample
    self n series past future num_samples tt.

(** The same with the invocations of the regressor counted. *)
Definition counted_predict (self : @RegressionModel Z) (n : Z)
    (series past future : option (@series_arg Z)) (num_samples : Z)
    : result (forecasts (list (matrix Z)) * (unit * nat)) :=
  predict false false (λ _ _ past future, Ok (past, future)) (λ _ _ _ _ _, Ok tt)
    pretty (list (matrix Z)) (λ values_ _, values_) (unit * nat)%type
    (counting _predict_and_sample) self n series past future num_samples (tt, 0%nat).

(** A generator for the examples: its state is a counter [g], and its
    uniform draw is [1 / (g + 1)]. *)
Definition example_uniform (g : positive) : Q * positive :=
  ((1 # Pos.succ g)%Q, Pos.succ g).

(** Three quantile levels, and the outputs of their models for two rows of
    one time step and one component. *)
Definition example_likelihood : Likelihood :=
  {| quantiles := [(1 # 10)%Q; (1 # 2)%Q; (9 # 10)%Q]; _model_container := [] |}.


(** Normal and Poisson draws for the examples: the location of the
    distribution, with the counter advanced. *)
Definition example_normal (loc scale : option Q) (g : positive)
    : result (option Q * positive) := Ok (loc, Pos.succ g).
Definition example_poisson (lam : option Q) (g : positive)
    : result (option Q * positive) := Ok (lam, Pos.succ g).

(** A model with one output step whose likelihood holds a regressor for
    the level 0.5 that answers 5 for every row. *)
Definition median_model : @RegressionModel Q :=
  {| model := zero_regressor 0%Q;
     lags := <["target" := [-1]]> ∅;
     output_chunk_length := 1;
     input_dim := None;
     training_series := None;
     past_covariate_series := None;
     future_covariate_series := None |}.

Definition median_likelihood : Likelihood :=
  {| quantiles := [(1 # 2)%Q]; _model_container := [((1 # 2)%Q, zero_regressor 5%Q)] |}.

(** Entries of nested lists. *)
Definition lookup2 {A : Type} (a : list (list A)) (i j : nat) : option A :=
  row ← a !! i; row !! j.
Definition lookup3 {A : Type} (a : list (list (list A))) (i j k : nat) : option A :=
  step ← lookup2 a i j; step !! k.

(** One value of the forecasts, by episode, time step, component and
    sample; and one value of the answers of the regressor method, by
    invocation, row, time step of the block and component. *)
Definition forecast_at {V : Type} (blocks : list (list (matrix V)))
    (episode step component sample : nat) : option (float V) :=
  block ← blocks !! episode; lookup3 block step component sample.

Definition answer_at {V : Type} (predictions : list (array3 V))
    (invocation row step component : nat) : option (float V) :=
  prediction ← predictions !! invocation; lookup3 prediction row step component.

(** ** Notions for the further properties *)

(** What the constructor guarantees of the lags it stores: only the three
    groups, no empty lag list, every list in ascending order, and strictly
    negative lags for the target and the past covariates. *)
Definition lags_well_formed (d : gmap string (list Z)) : Prop :=
  ∀ key l, d !! key = Some l →
    key ∈ ["target"; "past"; "future"] ∧
    l ≠ [] ∧
    Sorted Z.le l ∧
    (key ≠ "future" → Forall (λ lag, lag < 0) l).

(** A regressor that answers every row with the mean 0 and the variance 1,
    and a sampler state that points to it. *)
Definition unit_normal_regressor : @Regressor Q :=
  {| has_fit := true;
     has_predict := true;
     regressor_predict := λ x, paired_output ((λ _, (Some 0%Q, Some 1%Q)) <$> x) |}.

Definition unit_normal_state : sampler_state positive :=
  {| _rng := 1%positive; current_model := unit_normal_regressor |}.


(** ** Notions for the training set *)

(** A time stamp the builder can make a training row of: it belongs to the
    index of the target series and of every covariate series whose lags
    are read, and none of the values of its row is missing. *)
Definition usable {V : Type} (self : @RegressionModel V) (ts : @TimeSeries V)
    (past future : option (@TimeSeries V)) (t : Z) : Prop :=
  t ∈ time_index ts ∧
  (∀ cov, past = Some cov → truthy_list (lags self !! "past") = true → t ∈ time_index cov) ∧
  (∀ cov, future = Some cov → truthy_list (lags self !! "future") = true →
          t ∈ time_index cov) ∧
  pd.complete (feature_row self ts past future t ++ label_row self ts t).

(** What a cap on the samples keeps of the rows of one series: the last
    [m] for a positive cap [m], all of them without a cap or with the cap
    0, and all but the first [-m] for a negative one. *)
Definition keep_recent {A : Type} (cap : option Z) (l : list A) : list A :=
  match cap with
  | Some m =>
    if decide (0 < m) then drop (length l - Z.to_nat m) l else drop (Z.to_nat (- m)) l
  | None => l
  end.

(** [fit] of a model without encoders, on a regressor that handles several
    outputs itself and whose own [fit] leaves it as it is; the base class
    keeps the training series when there is a single one. *)
Definition plain_fit (self : @RegressionModel Z) (series : @series_arg Z)
    (past future : option (@series_arg Z)) (max_samples_per_ts : option Z)
    : result (@RegressionModel Z) :=
  fit false (λ _ past future, Ok (past, future))
    (λ _, false) (λ _, true) (λ _, false) (λ _, Ok "RMSE") (λ regressor _, regressor)
    (λ regressor _ _, Ok regressor)
    (λ self series _ _,
       Ok {| model := model self;
             lags := lags self;
             output_chunk_length := output_chunk_length self;
             input_dim := input_dim self;
             training_series := match series with [ts] => Some ts | _ => None end;
             past_covariate_series := past_covariate_series self;
             future_covariate_series := future_covariate_series self |})
    self series past future max_samples_per_ts None.

(** ** Notions for the features of a prediction step *)

(** [row[i]] with Python's negative positions, and the empty cell where
    there is none. *)
Definition item {A : Type} (row : list (list A)) (i : Z) : list A :=
  default [] (row !! Z.to_nat (if decide (i < 0) then i + Z.of_nat (length row) else i)).

(** What row [r] of a prediction reads its target lags from: the trailing
    window of its series, followed by the answers given for this row so
    far. *)
Definition timeline {A : Type} (series_matrix : list (list (list A)))
    (predictions : list (list (list (list A)))) (r : nat) : list (list A) :=
  default [] (series_matrix !! r) ++ mjoin (omap (λ p, p !! r) predictions).

(** The features of row [r] at the prediction step [t_pred]: for each
    target lag the cell of the time line that many steps from its end, then
    for each covariate the cells of its window at the relative lags moved on
    by [t_pred]. *)
Definition step_feature_row {V : Type} (target : option (list Z * array3 V))
    (covariate_matrices : list (option (list Z * array3 V)))
    (predictions : list (array3 V)) (t_pred : Z) (r : nat) : list (float V) :=
  match target with
  | Some (target_lags, series_matrix) =>
    target_lags ≫= item (timeline series_matrix predictions r)
  | None => []
  end
  ++ covariate_matrices ≫= (λ entry,
       match entry with
       | Some (relative_cov_lags, data_) =>
         relative_cov_lags ≫= (λ lag, item (default [] (data_ !! r)) (lag + t_pred))
       | None => []
       end).

(** ** Notions for the windows of [predict] *)

(** A series continued by further rows of values, at its own frequency. *)
Definition continued {V : Type} (ts : @TimeSeries V) (rows_ : matrix V) : @TimeSeries V :=
  {| start_time := start_time ts;
     freq := freq ts;
     width := width ts;
     values := values ts ++ rows_;
     has_range_index := has_range_index ts |}.

(** A covariate on the time grid of a target series: it has the frequency
    of the series, and its time stamps are time stamps of the grid. *)
Definition on_grid {V : Type} (ts cov : @TimeSeries V) : Prop :=
  well_formed cov ∧ freq cov = freq ts ∧
  ∃ m : Z, start_time cov = start_time ts + m * freq ts.

(** The target lags of the model, when it has any, are negative with the
    earliest one first, and every series has as many time steps as the
    earliest lag reaches back. *)
Definition reaches_back {V : Type} (self : @RegressionModel V)
    (series : list (@TimeSeries V)) : Prop :=
  ∀ lags_, lags self !! "target" = Some lags_ →
    ∃ lag_min rest, lags_ = lag_min :: rest ∧
      Forall (λ lag, lag_min ≤ lag < 0) lags_ ∧
      Forall (λ ts, - lag_min ≤ Z.of_nat (n_timesteps ts)) series.

(** The covariates of one kind, when given: the model has lags for them, in
    ascending order; there is one covariate for each series, on the grid of
    the series, with the same kind of index, all of one number of
    components; and each spans the time stamps that [steps] prediction
    steps read under these lags. *)
Definition spans {V : Type} (self : @RegressionModel V) (cov_type : string) (steps : Z)
    (series : list (@TimeSeries V)) (covs : option (list (@TimeSeries V))) : Prop :=
  ∀ covs', covs = Some covs' →
    ∃ lag_min rest (c' : nat),
      lags self !! cov_type = Some (lag_min :: rest) ∧
      Sorted Z.le (lag_min :: rest) ∧
      Forall2 (λ ts cov,
                 on_grid ts cov ∧ has_range_index cov = has_range_index ts ∧
                 width cov = c' ∧
                 covers cov (first_req_ts ts lag_min)
                   (last_req_ts self steps ts (List.last (lag_min :: rest) lag_min)) = true)
              series covs'.

(** The windows [predict] reads from, spelled out: of each target series
    its last values, as many as the earliest target lag reaches back; of
    each covariate its values from the earliest lag before the first
    predicted time stamp to the latest lag after the last prediction step;
    each window once for every sample. *)
Definition target_entry {V : Type} (self : @RegressionModel V)
    (series : list (@TimeSeries V)) (samples : nat) : option (list Z * array3 V) :=
  match lags self !! "target" with
  | Some (lag_min :: rest) =>
    Some (lag_min :: rest,
          ((λ ts, drop (n_timesteps ts - Z.to_nat (- lag_min)) (values ts)) <$> series)
          ≫= replicate samples)
  | _ => None
  end.

Definition covariate_entry {V : Type} (self : @RegressionModel V) (cov_type : string)
    (steps : Z) (series : list (@TimeSeries V)) (covs : option (list (@TimeSeries V)))
    (samples : nat) : option (list Z * array3 V) :=
  match covs, lags self !! cov_type with
  | Some covs', Some (lag_min :: rest) =>
    let lag_max := List.last (lag_min :: rest) lag_min in
    Some ((λ lag, lag - lag_min) <$> lag_min :: rest,
          zip_with (λ ts cov,
                      slice_values cov (first_req_ts ts lag_min)
                        (if has_range_index ts
                         then last_req_ts self steps ts lag_max + freq ts
                         else last_req_ts self steps ts lag_max))
            series covs'
          ≫= replicate samples)
  | _, _ => None
  end.

(** A likelihood with three levels, whose fitted regressors answer every
    row with 1, 2 and 4. *)
Definition three_level_likelihood : Likelihood :=
  {| quantiles := [(1 # 10)%Q; (1 # 2)%Q; (9 # 10)%Q];
     _model_container := [((1 # 10)%Q, zero_regressor 1%Q);
                          ((1 # 2)%Q, zero_regressor 2%Q);
                          ((9 # 10)%Q, zero_regressor 4%Q)] |}.

(** ** Notions for the arithmetic of the code *)

(** An integer of magnitude below 2^53.  The doubles hold such integers
    exactly, and for [n] and [l] in this range ([l] not 0) the double
    [n / l] of [math.ceil(n / l)] is so close to the quotient that its
    ceiling is [ceil_div n l]; above 2^53 the division rounds and the two
    can differ. *)
Definition double_exact (z : Z) : Prop := Z.abs z < 2 ^ 53.




(** * Properties *)

(** ** The exception monad and the built-ins *)

Lemma bind_Ok {A B} (m : result A) (f : A → result B) (b : B) :
  (m ≫= f) = Ok b ↔ ∃ a, m = Ok a ∧ f a = Ok b.
Proof.
  destruct m as [a|e]; simpl; split.
  - intros H. exists a. by split.
  - by intros (a' & [= ->] & H).
  - intros H. discriminate H.
  - by intros (a' & H & _).
Qed.

Lemma bind_Raise {A B} (m : result A) (f : A → result B) (e : exn) :
  (m ≫= f) = Raise e ↔ m = Raise e ∨ ∃ a, m = Ok a ∧ f a = Raise e.
Proof.
  destruct m as [a|e']; simpl; split.
  - intros H. right. exists a. by split.
  - intros [H | (a' & [= ->] & H)]; [discriminate H | done].
  - intros [= ->]. by left.
  - intros [[= ->] | (a' & H & _)]; [done | discriminate H].
Qed.

Lemma bind_Ok_l {A B} (a : A) (f : A → result B) : (Ok a ≫= f) = f a.
Proof. done. Qed.

(** Take an equation [x ← m; k = Ok b] apart. *)
Ltac inv_bind H :=
  let x := fresh "x" in
  let Hx := fresh "H" x in
  apply bind_Ok in H; destruct H as (x & Hx & H); simpl in H.

Tactic Notation "bind_inv" hyp(H) "as" simple_intropattern(x) ident(Hx) :=
  apply bind_Ok in H; destruct H as (x & Hx & H); cbv beta in H.

Lemma raise_if_Ok (cond : bool) (msg : string) (u : unit) :
  raise_if cond msg = Ok u ↔ cond = false.
Proof. destruct cond, u; simpl; split; intros H; done. Qed.

Lemma raise_if_not_Ok (cond : bool) (msg : string) (u : unit) :
  raise_if_not cond msg = Ok u ↔ cond = true.
Proof. unfold raise_if_not. rewrite raise_if_Ok. by destruct cond. Qed.

Lemma raise_if_Raise (cond : bool) (msg : string) (e : exn) :
  raise_if cond msg = Raise e ↔ cond = true ∧ e = ValueError msg.
Proof.
  destruct cond; simpl; split.
  - by intros [= <-].
  - by intros [_ ->].
  - intros H. discriminate H.
  - by intros [H _].
Qed.

Lemma for_each_Ok {A B} (f : A → result B) (l : list A) (ys : list B) :
  for_each f l = Ok ys ↔ Forall2 (λ x y, f x = Ok y) l ys.
Proof.
  revert ys. induction l as [|x l IH]; intros ys; simpl.
  - split; [intros [= <-]; constructor | by inversion 1].
  - split.
    + intros H. inv_bind H. inv_bind H. injection H as <-.
      constructor; [done | by apply IH].
    + inversion 1 as [|? y ? ys' Hy Hys]; subst.
      rewrite Hy. simpl. apply IH in Hys. by rewrite Hys.
Qed.

Lemma for_each_length {A B} (f : A → result B) (l : list A) (ys : list B) :
  for_each f l = Ok ys → length ys = length l.
Proof. rewrite for_each_Ok. intros H. symmetry. by eapply Forall2_length. Qed.

(** A loop of checks passes exactly when no element trips its check. *)
Lemma for_each_raise_if {A} (cond : A → bool) (msg : string) (l : list A) :
  (∃ us, for_each (λ x, raise_if (cond x) msg) l = Ok us) ↔ Forall (λ x, cond x = false) l.
Proof.
  induction l as [|x l IH]; simpl.
  - split; [constructor | by exists []].
  - split.
    + intros [us H]. inv_bind H. inv_bind H.
      constructor; [by eapply raise_if_Ok | apply IH; eauto].
    + inversion 1 as [|? ? Hx Hl]; subst. apply IH in Hl as [us Hus].
      rewrite Hx, Hus. simpl. eauto.
Qed.

(** The first failure of a loop is the failure of the loop. *)
Lemma for_each_first_raise {A B} (f : A → result B) (l : list A) (i : nat) (x : A) (e : exn) :
  l !! i = Some x →
  f x = Raise e →
  (∀ j y, (j < i)%nat → l !! j = Some y → is_ok (f y) = true) →
  for_each f l = Raise e.
Proof.
  revert i. induction l as [|x0 l IH]; intros i Hi Hx Hbefore; [done|].
  destruct i as [|i]; simpl in *.
  - injection Hi as ->. by rewrite Hx.
  - pose proof (Hbefore 0%nat x0 ltac:(lia) eq_refl) as H0.
    destruct (f x0); [simpl | done].
    rewrite (IH i Hi Hx); [done|].
    intros j y Hj Hy. apply (Hbefore (S j) y); [lia | done].
Qed.

Lemma forallb_Forall {A} (f : A → bool) (l : list A) :
  forallb f l = true ↔ Forall (λ x, f x = true) l.
Proof.
  induction l as [|x l IH]; simpl; [by split|].
  rewrite andb_true_iff, Forall_cons, IH. done.
Qed.

Lemma filter_none {A} (P : A → Prop) `{!∀ x, Decision (P x)} (l : list A) :
  Forall (λ x, ¬ P x) l → filter P l = [].
Proof.
  intros Hall. destruct (filter P l) as [|x k] eqn:Hfilter; [done|].
  assert (x ∈ filter P l) as [HP Hx]%list_elem_of_filter by (rewrite Hfilter; constructor).
  by destruct (proj1 (Forall_forall _ _) Hall x Hx).
Qed.

Lemma List_last_elem {A} (l : list A) (d : A) : l ≠ [] → List.last l d ∈ l.
Proof.
  induction l as [|x l IH]; [done|]. intros _.
  destruct l as [|y l]; [constructor|].
  change (List.last (x :: y :: l) d) with (List.last (y :: l) d).
  constructor. by apply IH.
Qed.

Lemma sorted_Sorted (l : list Z) : Sorted Z.le (sorted l).
Proof. apply Sorted_merge_sort. intros x y. lia. Qed.

Lemma sorted_Permutation (l : list Z) : sorted l ≡ₚ l.
Proof. apply merge_sort_Permutation. Qed.

Lemma range2_Sorted (a b : Z) : Sorted Z.lt (range2 a b).
Proof.
  unfold range2. generalize (b - a). intros len.
  destruct (decide (0 ≤ len)) as [Hlen|Hlen]; [|rewrite seqZ_nil by lia; constructor].
  rewrite <- (Z2Nat.id len) by done. generalize (Z.to_nat len). clear. intros n. revert a.
  induction n as [|n IH]; intros a; [constructor|].
  rewrite seqZ_cons by lia.
  replace (Z.pred (Z.of_nat (S n))) with (Z.of_nat n) by lia.
  constructor; [apply IH|].
  destruct n as [|n]; [constructor|].
  rewrite seqZ_cons by lia. constructor. lia.
Qed.

Lemma elem_of_range2 (a b x : Z) : x ∈ range2 a b ↔ a ≤ x < b.
Proof. unfold range2. rewrite elem_of_seqZ. lia. Qed.

(** ** Lag specification *)

Section constructor.
Context {V : Type}.
Variable LinearRegression : @Regressor V.

Lemma set_negative_lags_list key msg_count msg_list l d d' :
  set_negative_lags key msg_count msg_list (List l) d = Ok d' ↔
  Forall negative_int l ∧
  d' = if decide (l = []) then d else <[key := sorted (int_of <$> l)]> d.
Proof.
  unfold set_negative_lags. simpl. split.
  - intros H. inv_bind H. injection H as <-. split; [|done].
    assert (∃ us, for_each
      (λ lag, raise_if (negb (is_int lag) || bool_decide (int_of lag >= 0)) msg_list) l
      = Ok us) as Hall by eauto.
    apply for_each_raise_if in Hall.
    eapply Forall_impl; [exact Hall|]. intros v Hv. simpl in Hv.
    apply orb_false_iff in Hv as [Hint Hneg].
    apply bool_decide_eq_false in Hneg.
    destruct v as [| [] | z | | |]; simpl in *; try done; try lia.
    exists z. split; [done | lia].
  - intros [Hall ->].
    assert (Forall (λ lag, negb (is_int lag) || bool_decide (int_of lag >= 0) = false) l)
      as Hchecks.
    { eapply Forall_impl; [exact Hall|]. intros v (z & -> & Hz). simpl.
      apply bool_decide_eq_false. lia. }
    apply (for_each_raise_if _ msg_list) in Hchecks as [us ->]. done.
Qed.

Lemma set_negative_lags_raise key msg_count msg_list l d :
  ¬ Forall negative_int l →
  set_negative_lags key msg_count msg_list (List l) d = Raise (ValueError msg_list).
Proof.
  unfold set_negative_lags. simpl. intros Hnot.
  assert (for_each
      (λ lag, raise_if (negb (is_int lag) || bool_decide (int_of lag >= 0)) msg_list) l
      = Raise (ValueError msg_list)) as ->; [|done].
  induction l as [|v l IH]; [by destruct Hnot|]. simpl.
  destruct (negb (is_int v) || bool_decide (int_of v >= 0)) eqn:Hv; [done|]. simpl.
  rewrite IH; [done|]. intros Hl. apply Hnot. constructor; [|done].
  apply orb_false_iff in Hv as [Hint Hneg]. apply bool_decide_eq_false in Hneg.
  destruct v as [| [] | z | | |]; simpl in *; try done; try lia.
  exists z. split; [done | lia].
Qed.

Lemma set_negative_lags_other key msg_count msg_list given d d' k :
  set_negative_lags key msg_count msg_list given d = Ok d' →
  k ≠ key → d' !! k = d !! k.
Proof.
  unfold set_negative_lags. intros H Hk.
  destruct (is_int given).
  - inv_bind H. injection H as <-. by rewrite lookup_insert_ne.
  - destruct given; try (by injection H as <-).
    inv_bind H. injection H as <-.
    case_decide; [done | by rewrite lookup_insert_ne].
Qed.

Lemma set_future_lags_other given d d' k :
  set_future_lags given d = Ok d' → k ≠ "future" → d' !! k = d !! k.
Proof.
  unfold set_future_lags. intros H Hk.
  destruct given as [| | | l | l |]; try (by injection H as <-).
  - inv_bind H. injection H as <-.
    case_decide; [done | by rewrite lookup_insert_ne].
  - destruct l as [|a [|b [|]]]; try (by injection H as <-).
    inv_bind H.
    repeat (case_match; try (by injection H as <-));
      injection H as <-; by rewrite lookup_insert_ne.
Qed.

Lemma set_future_lags_pair a b d d' :
  set_future_lags (Tuple [Int a; Int b]) d = Ok d' ↔
  0 ≤ a ∧ 0 ≤ b ∧
  d' = if decide (a = 0 ∧ b = 0) then d else <["future" := range2 (- a) b]> d.
Proof.
  unfold set_future_lags. simpl. split.
  - intros H. inv_bind H. apply raise_if_not_Ok in Hx.
    apply andb_true_iff in Hx as [Ha Hb].
    apply bool_decide_eq_true in Ha, Hb.
    split; [lia|]. split; [lia|].
    repeat case_bool_decide; simpl in H; injection H as <-;
      case_decide; try done; lia.
  - intros (Ha & Hb & ->).
    repeat case_bool_decide; simpl; case_decide; try done; lia.
Qed.

Lemma set_future_lags_pair_raise a b d :
  a < 0 ∨ b < 0 →
  ∃ msg, set_future_lags (Tuple [Int a; Int b]) d = Raise (ValueError msg).
Proof.
  intros Hneg. unfold set_future_lags. simpl.
  assert (bool_decide (a >= 0) && bool_decide (b >= 0) = false) as ->.
  { apply andb_false_iff. destruct Hneg; [left | right]; apply bool_decide_eq_false; lia. }
  simpl. eauto.
Qed.

(** The stages of a successful construction. *)
Lemma init_Ok lags_ lags_past lags_future ocl model_ self :
  __init__ LinearRegression lags_ lags_past lags_future ocl model_ = Ok self →
  ∃ d1 d2 msg1 msg2 msg3 msg4,
    set_negative_lags "target" msg1 msg2 lags_ ∅ = Ok d1 ∧
    set_negative_lags "past" msg3 msg4 lags_past d1 = Ok d2 ∧
    set_future_lags lags_future d2 = Ok (lags self) ∧
    is_int ocl = true ∧ output_chunk_length self = int_of ocl ∧ 0 < int_of ocl.
Proof.
  unfold __init__. intros H.
  do 6 (inv_bind H).
  bind_inv H as d1 Hd1. bind_inv H as d2 Hd2. bind_inv H as d3 Hd3.
  bind_inv H as ? Hocl. injection H as <-. simpl.
  apply raise_if_not_Ok in Hocl. apply andb_true_iff in Hocl as [Hint Hpos].
  apply bool_decide_eq_true in Hpos.
  do 6 eexists. repeat split; try eassumption. lia.
Qed.

(** The constructor raises nothing but [ValueError] once the regressor has
    its two methods. *)
Lemma init_Raise lags_ lags_past lags_future ocl model_ e :
  has_fit (default LinearRegression model_) = true →
  has_predict (default LinearRegression model_) = true →
  __init__ LinearRegression lags_ lags_past lags_future ocl model_ = Raise e →
  ∃ msg, e = ValueError msg.
Proof.
  unfold __init__. intros -> ->. simpl. intros H.
  assert (∀ c m e', raise_if c m = Raise e' → ∃ msg, e' = ValueError msg) as Hif.
  { intros c m e' [_ ->]%raise_if_Raise. eauto. }
  assert (∀ k m1 m2 g d e', set_negative_lags k m1 m2 g d = Raise e' →
            ∃ msg, e' = ValueError msg) as Hneg.
  { intros k m1 m2 g d e'. unfold set_negative_lags.
    destruct (is_int g).
    - intros [He | (a & _ & He)]%bind_Raise; [by eapply Hif | done].
    - destruct g as [| | | l | |]; try done.
      intros [He | (a & _ & He)]%bind_Raise; [|done].
      clear -He Hif. induction l as [|v l IH]; [done|]. simpl in He.
      apply bind_Raise in He as [He | (a & _ & He)]; [by eapply Hif|].
      apply bind_Raise in He as [He | (a' & _ & He)]; [by apply IH | done]. }
  apply bind_Raise in H as [H | (? & _ & H)]; [by eapply Hif|].
  apply bind_Raise in H as [H | (? & _ & H)].
  { unfold check_lags_type in H.
    apply bind_Raise in H as [H | (? & _ & H)]; by eapply Hif. }
  apply bind_Raise in H as [H | (? & _ & H)].
  { unfold check_lags_type in H.
    apply bind_Raise in H as [H | (? & _ & H)]; by eapply Hif. }
  apply bind_Raise in H as [H | (? & _ & H)].
  { unfold check_future_lags_type in H.
    apply bind_Raise in H as [H | (? & _ & H)]; [by eapply Hif|].
    destruct lags_future; try done.
    apply bind_Raise in H as [H | (? & _ & H)]; by eapply Hif. }
  apply bind_Raise in H as [H | (? & _ & H)]; [by eapply Hneg|].
  apply bind_Raise in H as [H | (? & _ & H)]; [by eapply Hneg|].
  apply bind_Raise in H as [H | (? & _ & H)].
  { unfold set_future_lags in H.
    destruct lags_future as [| | | l | l |]; try done.
    - apply bind_Raise in H as [H | (a & _ & H)]; [|done].
      revert H. generalize (repr (List l)). intros given H.
      clear -H Hif. induction l as [|v l IH]; [done|]. simpl in H.
      apply bind_Raise in H as [H | (a & _ & H)]; [by eapply Hif|].
      apply bind_Raise in H as [H | (a' & _ & H)]; [by apply IH | done].
    - destruct l as [|a [|b [|]]]; try done.
      apply bind_Raise in H as [H | (? & _ & H)]; [by eapply Hif|].
      repeat case_match; done. }
  apply bind_Raise in H as [H | (? & _ & H)]; [by eapply Hif | done].
Qed.

End constructor.

(** C1, as amended.  Scenario 1: two target lags given as a count, one
    output step, one univariate series with the values 0 to 9.  The builder
    produces exactly 8 training rows, for the time stamps 2 to 9, and the
    feature row of time stamp [t] is [v (t - 2); v (t - 1)], the older lag
    first; its label is [v t]. *)
Theorem scenario1_training_rows (regressor : @Regressor Z) :
  has_fit regressor = true →
  has_predict regressor = true →
  ∃ X y,
    scenario1 regressor = Ok (X, y) ∧
    length X = 8%nat ∧
    X = (λ t, [scenario1_value (t - 2); scenario1_value (t - 1)]) <$> seqZ 2 8 ∧
    y = (λ t, [scenario1_value t]) <$> seqZ 2 8.
Proof.
  intros Hfit Hpredict. unfold scenario1, __init__. simpl default.
  rewrite Hfit, Hpredict. do 2 eexists. split; [vm_compute; reflexivity|].
  split; [|split]; reflexivity.
Qed.

Lemma scenario1_training_rows_witness :
  has_fit (zero_regressor 0) = true ∧
  has_predict (zero_regressor 0) = true ∧
  ∃ X y,
    scenario1 (zero_regressor 0) = Ok (X, y) ∧
    length X = 8%nat ∧
    X = (λ t, [scenario1_value (t - 2); scenario1_value (t - 1)]) <$> seqZ 2 8 ∧
    y = (λ t, [scenario1_value t]) <$> seqZ 2 8.
Proof.
  split; [reflexivity|]. split; [reflexivity|].
  apply (scenario1_training_rows (zero_regressor 0)); reflexivity.
Defined.

(** C1 as stated fails: the feature rows are not [v (t - 1); v (t - 2)]. *)
Lemma scenario1_rows_not_latest_lag_first :
  ¬ ∃ y, scenario1 (zero_regressor 0) =
         Ok ((λ t, [scenario1_value (t - 1); scenario1_value (t - 2)]) <$> seqZ 2 8, y).
Proof. intros [y H]. vm_compute in H. discriminate H. Qed.

(** C2, as amended.  When the lags of the target or of the past covariates
    are given as a list, a successful construction means every element is a
    strictly negative integer, and the lag set is the given list sorted
    ascending with every occurrence kept (an empty list sets no lag group);
    a list with any other element makes the constructor raise, a
    [ValueError] once the regressor has its two methods. *)
Theorem lag_list_is_sorted_and_keeps_duplicates (regressor : @Regressor Z)
    (lags_ lags_past lags_future ocl : val) (model_ : option (@Regressor Z))
    (key : string) (l : list val) :
  (key = "target" ∧ lags_ = List l) ∨ (key = "past" ∧ lags_past = List l) →
  (∀ self, __init__ regressor lags_ lags_past lags_future ocl model_ = Ok self →
     Forall negative_int l ∧
     lags self !! key =
       (if decide (l = []) then None else Some (sorted (int_of <$> l))) ∧
     Sorted Z.le (sorted (int_of <$> l)) ∧
     sorted (int_of <$> l) ≡ₚ int_of <$> l) ∧
  (¬ Forall negative_int l →
     is_ok (__init__ regressor lags_ lags_past lags_future ocl model_) = false ∧
     (has_fit (default regressor model_) = true →
      has_predict (default regressor model_) = true →
      ∃ msg, __init__ regressor lags_ lags_past lags_future ocl model_
             = Raise (ValueError msg))).
Proof.
  intros Hkey.
  assert (∀ self, __init__ regressor lags_ lags_past lags_future ocl model_ = Ok self →
     Forall negative_int l ∧
     lags self !! key =
       (if decide (l = []) then None else Some (sorted (int_of <$> l)))) as Hok.
  { intros self (d1 & d2 & m1 & m2 & m3 & m4 & Ht & Hp & Hf & _)%init_Ok.
    destruct Hkey as [[-> ->] | [-> ->]].
    - apply set_negative_lags_list in Ht as [Hall ->]. split; [done|].
      rewrite (set_future_lags_other _ _ _ _ Hf) by done.
      rewrite (set_negative_lags_other _ _ _ _ _ _ _ Hp) by done.
      case_decide; [done | by rewrite lookup_insert_eq].
    - apply set_negative_lags_list in Hp as [Hall ->]. split; [done|].
      rewrite (set_future_lags_other _ _ _ _ Hf) by done.
      case_decide; [|by rewrite lookup_insert_eq].
      destruct (is_int lags_) eqn:Hint.
      + unfold set_negative_lags in Ht. rewrite Hint in Ht. inv_bind Ht.
        injection Ht as <-. by rewrite lookup_insert_ne.
      + destruct lags_ as [| | | lt | |]; try done;
          try (unfold set_negative_lags in Ht; simpl in Ht; by injection Ht as <-).
        apply set_negative_lags_list in Ht as [_ ->].
        case_decide; [done | by rewrite lookup_insert_ne]. }
  split.
  - intros self Hself. destruct (Hok self Hself) as [Hall Hlookup].
    repeat split; [done | done | apply sorted_Sorted | apply sorted_Permutation].
  - intros Hnot.
    destruct (__init__ regressor lags_ lags_past lags_future ocl model_) as [self|e] eqn:Hinit.
    + destruct (Hok self eq_refl) as [Hall _]. by destruct Hnot.
    + split; [done|]. intros Hfit Hpredict.
      destruct (init_Raise regressor _ _ _ _ _ _ Hfit Hpredict Hinit) as [msg ->]. eauto.
Qed.

Lemma lag_list_is_sorted_and_keeps_duplicates_witness :
  ∃ self,
    __init__ (zero_regressor 0) (List [Int (-1); Int (-3); Int (-1)]) None_ None_ (Int 1) None
      = Ok self ∧
    lags self !! "target" = Some [-3; -1; -1] ∧
    is_ok (__init__ (zero_regressor 0) None_ (List [Int (-1); Int 2]) None_ (Int 1) None)
      = false.
Proof.
  pose proof (lag_list_is_sorted_and_keeps_duplicates (zero_regressor 0)
                (List [Int (-1); Int (-3); Int (-1)]) None_ None_ (Int 1) None
                "target" [Int (-1); Int (-3); Int (-1)] (or_introl (conj eq_refl eq_refl)))
    as [Hok _].
  pose proof (lag_list_is_sorted_and_keeps_duplicates (zero_regressor 0)
                None_ (List [Int (-1); Int 2]) None_ (Int 1) None
                "past" [Int (-1); Int 2] (or_intror (conj eq_refl eq_refl)))
    as [_ Hraise].
  eexists. split; [vm_compute; reflexivity|]. split.
  - apply Hok. vm_compute. reflexivity.
  - apply Hraise. intros Hall. apply Forall_cons in Hall as [_ Hall].
    apply Forall_cons in Hall as [(z & [= <-] & Hz) _]. lia.
Defined.

(** C2 as stated fails: duplicates in a lag list do not collapse. *)
Lemma duplicate_lags_do_not_collapse :
  ∃ self l,
    __init__ (zero_regressor 0) (List [Int (-1); Int (-1)]) None_ None_ (Int 1) None
      = Ok self ∧
    lags self !! "target" = Some l ∧
    ¬ NoDup l.
Proof.
  eexists. exists [-1; -1]. split; [vm_compute; reflexivity|]. split; [reflexivity|].
  intros Hnodup. apply NoDup_cons in Hnodup as [Hnotin _].
  apply Hnotin. constructor.
Qed.

(** C3.  When the lags of the future covariates are given as a pair
    [(past_span, future_span)], a successful construction means both
    components are at least 0 and the lag set of the future covariates is
    the ascending list of the integers from [- past_span] up to
    [future_span - 1], with no lag group at all for the pair (0, 0); a pair
    with a negative component makes the constructor raise, a [ValueError]
    once the regressor has its two methods. *)
Theorem future_lag_pair (regressor : @Regressor Z)
    (lags_ lags_past ocl : val) (model_ : option (@Regressor Z)) (a b : Z) :
  (∀ self,
     __init__ regressor lags_ lags_past (Tuple [Int a; Int b]) ocl model_ = Ok self →
     0 ≤ a ∧ 0 ≤ b ∧
     lags self !! "future" =
       (if decide (a = 0 ∧ b = 0) then None else Some (range2 (- a) b)) ∧
     Sorted Z.lt (range2 (- a) b) ∧
     ∀ x, x ∈ range2 (- a) b ↔ - a ≤ x < b) ∧
  (a < 0 ∨ b < 0 →
     is_ok (__init__ regressor lags_ lags_past (Tuple [Int a; Int b]) ocl model_) = false ∧
     (has_fit (default regressor model_) = true →
      has_predict (default regressor model_) = true →
      ∃ msg, __init__ regressor lags_ lags_past (Tuple [Int a; Int b]) ocl model_
             = Raise (ValueError msg))).
Proof.
  assert (∀ self,
     __init__ regressor lags_ lags_past (Tuple [Int a; Int b]) ocl model_ = Ok self →
     0 ≤ a ∧ 0 ≤ b ∧
     lags self !! "future" =
       (if decide (a = 0 ∧ b = 0) then None else Some (range2 (- a) b))) as Hok.
  { intros self (d1 & d2 & m1 & m2 & m3 & m4 & Ht & Hp & Hf & _)%init_Ok.
    apply set_future_lags_pair in Hf as (Ha & Hb & ->).
    split; [done|]. split; [done|].
    case_decide; [|by rewrite lookup_insert_eq].
    rewrite (set_negative_lags_other _ _ _ _ _ _ _ Hp) by done.
    by rewrite (set_negative_lags_other _ _ _ _ _ _ _ Ht) by done. }
  split.
  - intros self Hself. destruct (Hok self Hself) as (Ha & Hb & Hlookup).
    split; [done|]. split; [done|]. split; [done|].
    split; [apply range2_Sorted | apply elem_of_range2].
  - intros Hneg.
    destruct (__init__ regressor lags_ lags_past (Tuple [Int a; Int b]) ocl model_)
      as [self|e] eqn:Hinit.
    + destruct (Hok self eq_refl) as (Ha & Hb & _). lia.
    + split; [done|]. intros Hfit Hpredict.
      destruct (init_Raise regressor _ _ _ _ _ _ Hfit Hpredict Hinit) as [msg ->]. eauto.
Qed.

Lemma future_lag_pair_witness :
  ∃ self,
    __init__ (zero_regressor 0) None_ None_ (Tuple [Int 1; Int 2]) (Int 1) None = Ok self ∧
    lags self !! "future" = Some [-1; 0; 1].
Proof.
  destruct (__init__ (zero_regressor 0) None_ None_ (Tuple [Int 1; Int 2]) (Int 1) None)
    as [self|e] eqn:Hinit; [|vm_compute in Hinit; discriminate Hinit].
  exists self. split; [reflexivity|].
  destruct (proj1 (future_lag_pair (zero_regressor 0) None_ None_ (Int 1) None 1 2) self Hinit)
    as (_ & _ & Hlags & _).
  exact Hlags.
Defined.

(** ** Frames *)

Section frames.
Context {V : Type}.
Implicit Types (df : @pd.DataFrame V) (ts : @TimeSeries V) (t : Z).

Lemma length_nan_row (n : nat) : length (@pd.nan_row V n) = n.
Proof. apply length_replicate. Qed.

Lemma length_time_index ts : length (time_index ts) = n_timesteps ts.
Proof. unfold time_index. rewrite length_fmap, length_seqZ. lia. Qed.

Lemma lookup_time_index ts (i : nat) :
  (i < n_timesteps ts)%nat →
  time_index ts !! i = Some (start_time ts + Z.of_nat i * freq ts).
Proof.
  intros Hi. unfold time_index. rewrite list_lookup_fmap, lookup_seqZ_lt by lia.
  by rewrite Z.add_0_l.
Qed.

Lemma NoDup_time_index ts : 0 < freq ts → NoDup (time_index ts).
Proof.
  intros Hfreq. unfold time_index. apply NoDup_fmap_2_strong; [|apply NoDup_seqZ].
  intros i j _ _ Heq. nia.
Qed.

Lemma of_series_wf ts : well_formed ts → frame_wf (pd.of_series ts).
Proof.
  intros (Hfreq & _ & Hrows). unfold frame_wf. simpl.
  split; [apply length_time_index|]. split; [done | by apply NoDup_time_index].
Qed.

Lemma length_shift_rows df (k : Z) : length (pd.rows (pd.shift df k)) = length (pd.rows df).
Proof.
  unfold pd.shift. simpl. case_decide.
  - rewrite length_take, length_app, length_replicate. lia.
  - rewrite length_app, length_drop, length_replicate. lia.
Qed.

(** Row [i] of a shifted frame is row [i - k] of the frame, NaN where the
    frame has none. *)
Lemma lookup_shift df (k : Z) (i : nat) :
  (i < length (pd.rows df))%nat →
  pd.rows (pd.shift df k) !! i =
    if decide (0 ≤ Z.of_nat i - k < Z.of_nat (length (pd.rows df)))
    then pd.rows df !! Z.to_nat (Z.of_nat i - k)
    else Some (pd.nan_row (pd.columns df)).
Proof.
  intros Hi. unfold pd.shift. simpl. destruct (decide (0 ≤ k)) as [Hk|Hk].
  - rewrite lookup_take_lt by done.
    destruct (decide (i < Z.to_nat k)%nat) as [Hlt|Hge].
    + rewrite lookup_app_l by (rewrite length_replicate; lia).
      rewrite lookup_replicate_2 by done. case_decide; [lia | done].
    + rewrite lookup_app_r by (rewrite length_replicate; lia).
      rewrite length_replicate. case_decide; [|lia].
      f_equal. lia.
  - destruct (decide (Z.of_nat i - k < Z.of_nat (length (pd.rows df)))) as [Hin|Hout].
    + rewrite lookup_app_l by (rewrite length_drop; lia).
      rewrite lookup_drop. case_decide; [|lia]. f_equal. lia.
    + rewrite lookup_app_r by (rewrite length_drop; lia).
      rewrite length_drop, lookup_replicate_2 by lia. case_decide; [lia | done].
Qed.

Lemma shift_wf df (k : Z) : frame_wf df → frame_wf (pd.shift df k).
Proof.
  intros (Hlen & Hrows & Hnodup). unfold frame_wf.
  rewrite length_shift_rows. split; [done|]. split; [|done].
  apply Forall_lookup. intros i row Hrow.
  assert (i < length (pd.rows df))%nat as Hi.
  { rewrite <- (length_shift_rows df k). by eapply lookup_lt_Some. }
  rewrite lookup_shift in Hrow by done. simpl.
  case_decide.
  - by eapply (Forall_lookup_1 _ _ _ _ Hrows).
  - injection Hrow as <-. apply length_nan_row.
Qed.

(** The row of a frame at one of its index entries, and elsewhere. *)
Lemma row_at_index df (i : nat) t :
  NoDup (pd.index df) →
  pd.index df !! i = Some t →
  pd.row_at df t = default (pd.nan_row (pd.columns df)) (pd.rows df !! i).
Proof.
  intros Hnodup Hi. unfold pd.row_at.
  assert (list_find (λ s, s = t) (pd.index df) = Some (i, t)) as ->; [|done].
  apply list_find_Some. split; [done|]. split; [done|].
  intros j y Hj Hlt ->.
  pose proof (NoDup_lookup _ _ _ _ Hnodup Hi Hj). lia.
Qed.

Lemma row_at_outside df t :
  t ∉ pd.index df → pd.row_at df t = pd.nan_row (pd.columns df).
Proof.
  intros Hout. unfold pd.row_at.
  assert (list_find (λ s, s = t) (pd.index df) = None) as ->; [|done].
  apply list_find_None. apply Forall_forall. by intros s Hs ->.
Qed.

Lemma length_row_at df t : frame_wf df → length (pd.row_at df t) = pd.columns df.
Proof.
  intros (Hlen & Hrows & Hnodup).
  destruct (decide (t ∈ pd.index df)) as [Hin|Hout].
  - apply list_elem_of_lookup in Hin as [i Hi].
    rewrite (row_at_index _ i) by done.
    destruct (pd.rows df !! i) as [row|] eqn:Hrow; simpl.
    + by eapply (Forall_lookup_1 _ _ _ _ Hrows).
    + apply length_nan_row.
  - rewrite row_at_outside by done. apply length_nan_row.
Qed.

Lemma complete_nan_row (n : nat) : pd.complete (@pd.nan_row V n) → n = 0%nat.
Proof.
  destruct n as [|n]; [done|]. unfold pd.complete, pd.nan_row. simpl.
  intros [[x Hx] _]%Forall_cons. discriminate Hx.
Qed.

Lemma fmap_bind_list {A B C} (f : A → B) (g : B → list C) (l : list A) :
  (f <$> l) ≫= g = l ≫= (λ x, g (f x)).
Proof. induction l as [|x l IH]; [done|]. rewrite fmap_cons, !bind_cons. by f_equal. Qed.

Lemma length_bind_const {A B} (g : A → list B) (l : list A) (w : nat) :
  (∀ x, x ∈ l → length (g x) = w) → length (l ≫= g) = (length l * w)%nat.
Proof.
  induction l as [|x l IH]; intros Hg; [done|].
  rewrite bind_cons, length_app, IH, Hg; [simpl; lia | constructor |].
  intros y Hy. apply Hg. by constructor.
Qed.

Lemma length_bind_sum {A B} (g : A → list B) (h : A → nat) (l : list A) :
  (∀ x, x ∈ l → length (g x) = h x) → length (l ≫= g) = sum_list (h <$> l).
Proof.
  induction l as [|x l IH]; intros Hg; [done|].
  rewrite bind_cons, length_app, IH, Hg; [by rewrite fmap_cons | constructor |].
  intros y Hy. apply Hg. by constructor.
Qed.

(** *** [concat] *)

Lemma elem_of_union_index (dfs : list (@pd.DataFrame V)) t :
  t ∈ pd.union_index dfs ↔ ∃ df, df ∈ dfs ∧ t ∈ pd.index df.
Proof.
  unfold pd.union_index. rewrite merge_sort_Permutation, elem_of_remove_dups.
  rewrite list_elem_of_bind.
  split; intros (d & H1 & H2); exists d; by split.
Qed.

Lemma NoDup_union_index (dfs : list (@pd.DataFrame V)) : NoDup (pd.union_index dfs).
Proof. unfold pd.union_index. rewrite merge_sort_Permutation. apply NoDup_remove_dups. Qed.

Lemma concat_Ok (dfs : list (@pd.DataFrame V)) df :
  pd.concat dfs = Ok df ↔
  dfs ≠ [] ∧
  df = {| pd.index := pd.union_index dfs;
          pd.columns := sum_list (pd.columns <$> dfs);
          pd.rows := (λ t, dfs ≫= (λ d, pd.row_at d t)) <$> pd.union_index dfs |}.
Proof.
  unfold pd.concat. destruct dfs as [|d dfs]; split.
  - intros H. discriminate H.
  - by intros [H _].
  - by intros [= <-].
  - by intros [_ ->].
Qed.

Lemma concat_wf (dfs : list (@pd.DataFrame V)) df :
  Forall frame_wf dfs → pd.concat dfs = Ok df → frame_wf df.
Proof.
  intros Hwf [_ ->]%concat_Ok. unfold frame_wf. simpl.
  split; [by rewrite length_fmap|]. split; [|apply NoDup_union_index].
  apply Forall_fmap, Forall_forall. intros t _. simpl.
  apply length_bind_sum. intros d Hd. apply length_row_at.
  by eapply (proj1 (Forall_forall _ _) Hwf).
Qed.

(** The row of a joined frame is the rows of the joined frames side by
    side, at every time stamp. *)
Lemma concat_row_at (dfs : list (@pd.DataFrame V)) df t :
  pd.concat dfs = Ok df →
  pd.row_at df t = dfs ≫= (λ d, pd.row_at d t).
Proof.
  intros [_ ->]%concat_Ok.
  destruct (decide (t ∈ pd.union_index dfs)) as [Hin|Hout].
  - apply list_elem_of_lookup in Hin as [i Hi].
    rewrite (row_at_index _ i); simpl; [|apply NoDup_union_index | done].
    by rewrite list_lookup_fmap, Hi.
  - rewrite row_at_outside by done. simpl.
    assert (∀ d, d ∈ dfs → t ∉ pd.index d) as Hnone.
    { intros d Hd Ht. apply Hout, elem_of_union_index. eauto. }
    clear Hout. induction dfs as [|d dfs IH]; [done|].
    rewrite bind_cons, fmap_cons. simpl sum_list.
    rewrite (row_at_outside d) by (apply Hnone; constructor).
    rewrite <- IH by (intros d' Hd'; apply Hnone; by constructor).
    unfold pd.nan_row. by rewrite replicate_add.
Qed.

(** *** [dropna] *)

Lemma dropna_values df row :
  frame_wf df →
  row ∈ pd.values (pd.dropna df) →
  ∃ t, t ∈ pd.index df ∧ row = pd.row_at df t ∧ pd.complete row.
Proof.
  intros (Hlen & Hrows & Hnodup). unfold pd.values, pd.dropna. simpl.
  intros ([t row'] & -> & [Hcomplete Hin]%list_elem_of_filter)%list_elem_of_fmap.
  simpl in *. apply list_elem_of_lookup in Hin as [i Hi].
  apply lookup_zip_with_Some in Hi as (t' & row'' & [= <- <-] & Ht & Hrow).
  exists t. split; [by eapply list_elem_of_lookup_2|]. split; [|done].
  by rewrite (row_at_index _ i), Hrow.
Qed.

(** *** Lagged values

    The row a shifted series holds at time stamp [t] is what the series
    holds [lag] steps away from [t], as soon as that row has no NaN. *)

Lemma length_observed ts t : well_formed ts → length (observed ts t) = width ts.
Proof. intros Hwf. unfold observed. by rewrite length_row_at by by apply of_series_wf. Qed.

Lemma observed_index ts (i : nat) :
  well_formed ts →
  (i < n_timesteps ts)%nat →
  observed ts (start_time ts + Z.of_nat i * freq ts)
  = default (pd.nan_row (width ts)) (values ts !! i).
Proof.
  intros Hwf Hi. unfold observed.
  rewrite (row_at_index _ i); [done | |].
  - apply NoDup_time_index, Hwf.
  - by apply lookup_time_index.
Qed.

Lemma row_at_shift_series ts (lag : Z) t :
  well_formed ts →
  pd.complete (pd.row_at (pd.shift (pd.of_series ts) (- lag)) t) →
  pd.row_at (pd.shift (pd.of_series ts) (- lag)) t = observed ts (t + lag * freq ts).
Proof.
  intros Hwf Hcomplete.
  assert (∀ row : list (float V), pd.nan_row (width ts) = row → pd.complete row →
            row = observed ts (t + lag * freq ts)) as Hnan.
  { intros row <- Hrow%complete_nan_row.
    pose proof (length_observed ts (t + lag * freq ts) Hwf) as Hlen.
    rewrite Hrow in *. by destruct (observed ts (t + lag * freq ts)). }
  destruct (decide (t ∈ time_index ts)) as [Hin|Hout].
  - apply list_elem_of_lookup in Hin as [i Hi].
    assert (i < n_timesteps ts)%nat as Hlt.
    { rewrite <- length_time_index. by eapply lookup_lt_Some. }
    rewrite lookup_time_index in Hi by done. injection Hi as <-.
    revert Hcomplete.
    rewrite (row_at_index _ i);
      [| apply (NoDup_time_index ts), Hwf | by apply (lookup_time_index ts)].
    rewrite lookup_shift by done.
    case_decide as Hrange; simpl in *.
    + intros _.
      replace (start_time ts + Z.of_nat i * freq ts + lag * freq ts)
        with (start_time ts + Z.of_nat (Z.to_nat (Z.of_nat i - - lag)) * freq ts)
        by (rewrite Z2Nat.id by lia; ring).
      rewrite observed_index; [done | done | unfold n_timesteps; lia].
    + simpl. by apply Hnan.
  - revert Hcomplete. rewrite row_at_outside by done. simpl. by apply Hnan.
Qed.

End frames.

(** ** Lagged-matrix builder *)

Section lagged_data_properties.
Context {V : Type}.
Implicit Types (self : @RegressionModel V) (ts : @TimeSeries V) (t : Z).

Lemma complete_app (r1 r2 : list (float V)) :
  pd.complete (r1 ++ r2) ↔ pd.complete r1 ∧ pd.complete r2.
Proof. apply Forall_app. Qed.

(** The blocks a series contributes under a list of lags. *)
Lemma shift_blocks ts (l : list Z) :
  well_formed ts →
  let blocks := (λ lag, pd.shift (pd.of_series ts) (- lag)) <$> l in
  Forall frame_wf blocks ∧
  sum_list (pd.columns <$> blocks) = (length l * width ts)%nat ∧
  ∀ t, pd.complete (blocks ≫= (λ d, pd.row_at d t)) →
       blocks ≫= (λ d, pd.row_at d t) = l ≫= (λ lag, observed ts (t + lag * freq ts)).
Proof.
  intros Hwf blocks. subst blocks. split; [|split].
  - apply Forall_fmap, Forall_forall. intros lag _. by apply shift_wf, of_series_wf.
  - rewrite <- list_fmap_compose.
    induction l as [|lag l IH]; [done|]. rewrite fmap_cons. simpl. rewrite IH. lia.
  - intros t. rewrite fmap_bind_list.
    induction l as [|lag l IH]; [done|]. rewrite !bind_cons.
    intros [Hhead Htail]%complete_app.
    rewrite row_at_shift_series by done. f_equal. by apply IH.
Qed.

Lemma covariate_frame_Ok (covs : option (list (@TimeSeries V))) (idx : nat) o :
  covariate_frame covs idx = Ok o →
  if truthy_list covs then ∃ cov, covariate_at covs idx = Some cov ∧ o = Some (pd.of_series cov)
  else o = None.
Proof.
  unfold covariate_frame. destruct (truthy_list covs) eqn:Htruthy.
  - destruct covs as [[|c l]|]; try done. simpl.
    destruct ((c :: l) !! idx) as [cov|]; [|done]. intros [= <-]. eauto.
  - by intros [= <-].
Qed.

Lemma covariate_blocks_Ok (o : option (@pd.DataFrame V)) (lags_ : option (list Z)) blocks :
  covariate_blocks o lags_ = Ok blocks →
  if truthy_list lags_
  then ∃ df, o = Some df ∧ blocks = (λ lag, pd.shift df (- lag)) <$> default [] lags_
  else blocks = [] ∧ default [] lags_ = [].
Proof.
  unfold covariate_blocks. destruct (truthy_list lags_) eqn:Htruthy.
  - destruct o as [df|]; [|done]. intros [= <-]. eauto.
  - intros [= <-]. by destruct lags_ as [[|]|].
Qed.

(** The blocks of one covariate group. *)
Lemma covariate_group (covs : option (list (@TimeSeries V))) (lags_ : option (list Z))
    (idx : nat) o blocks :
  Forall well_formed (default [] covs) →
  covariate_frame covs idx = Ok o →
  covariate_blocks o lags_ = Ok blocks →
  Forall frame_wf blocks ∧
  sum_list (pd.columns <$> blocks) = block_columns (covariate_at covs idx) lags_ ∧
  (∀ t, length (lag_block (covariate_at covs idx) lags_ t)
        = block_columns (covariate_at covs idx) lags_) ∧
  ∀ t, pd.complete (blocks ≫= (λ d, pd.row_at d t)) →
       blocks ≫= (λ d, pd.row_at d t) = lag_block (covariate_at covs idx) lags_ t.
Proof.
  intros Hwf Hframe%covariate_frame_Ok Hblocks%covariate_blocks_Ok.
  assert (∀ cov, covariate_at covs idx = Some cov → well_formed cov) as Hcov.
  { intros cov Hcov. destruct covs as [l|]; [|done]. simpl in *.
    by eapply (Forall_lookup_1 _ _ _ _ Hwf). }
  assert (∀ t, length (lag_block (covariate_at covs idx) lags_ t)
        = block_columns (covariate_at covs idx) lags_) as Hlen.
  { intros t. unfold lag_block, block_columns.
    destruct (covariate_at covs idx) as [cov|]; [|done].
    apply length_bind_const. intros lag _. apply length_observed. by apply Hcov. }
  destruct (truthy_list lags_).
  - destruct Hblocks as (df & -> & ->).
    destruct (truthy_list covs); [|done].
    destruct Hframe as (cov & Hat & [= ->]). rewrite Hat in *.
    destruct (shift_blocks cov (default [] lags_) (Hcov cov eq_refl)) as (H1 & H2 & H3).
    done.
  - destruct Hblocks as [-> Hnil]. split; [constructor|].
    unfold block_columns, lag_block in *. rewrite Hnil in *.
    destruct (covariate_at covs idx); done.
Qed.

(** What the table of an episode holds: every row is, for some time stamp,
    the lagged values of the target, of the past covariates and of the
    future covariates, followed by the labels, and has no NaN. *)
Lemma episode_table_rows self (past future : option (list (@TimeSeries V)))
    (cap : option Z) (idx : nat) ts df_X X_y :
  well_formed ts →
  Forall well_formed (default [] past) →
  Forall well_formed (default [] future) →
  episode_table self past future cap idx ts = Ok (df_X, X_y) →
  pd.columns df_X
    = (block_columns (Some ts) (lags self !! "target")
       + block_columns (covariate_at past idx) (lags self !! "past")
       + block_columns (covariate_at future idx) (lags self !! "future"))%nat ∧
  (∀ t, length (feature_row self ts (covariate_at past idx) (covariate_at future idx) t)
        = pd.columns df_X) ∧
  (∀ t, length (label_row self ts t)
        = (Z.to_nat (output_chunk_length self) * width ts)%nat) ∧
  Forall (λ row, ∃ t,
            row = feature_row self ts (covariate_at past idx) (covariate_at future idx) t
                  ++ label_row self ts t ∧
            pd.complete row) X_y.
Proof.
  intros Hts Hpast Hfuture Htable. unfold episode_table in Htable.
  bind_inv Htable as o_past Ho_past. bind_inv Htable as o_future Ho_future.
  bind_inv Htable as past_blocks Hpast_blocks.
  bind_inv Htable as future_blocks Hfuture_blocks.
  bind_inv Htable as df_X' Hdf_X. bind_inv Htable as df_y Hdf_y.
  bind_inv Htable as df_X_y Hdf_X_y. injection Htable as <- <-.
  set (target_lags := default [] (lags self !! "target")).
  set (target_blocks := (λ lag, pd.shift (pd.of_series ts) (- lag)) <$> target_lags).
  assert (match lags self !! "target" with
          | Some lags_ => (λ lag, pd.shift (pd.of_series ts) (- lag)) <$> lags_
          | None => []
          end = target_blocks) as Htarget.
  { subst target_blocks target_lags. by destruct (lags self !! "target"). }
  rewrite Htarget in Hdf_X. clear Htarget.
  destruct (shift_blocks ts target_lags Hts) as (Ht_wf & Ht_cols & Ht_rows).
  destruct (shift_blocks ts (range1 (output_chunk_length self)) Hts)
    as (Hy_wf & Hy_cols & Hy_rows).
  destruct (covariate_group _ _ _ _ _ Hpast Ho_past Hpast_blocks)
    as (Hp_wf & Hp_cols & Hp_len & Hp_rows).
  destruct (covariate_group _ _ _ _ _ Hfuture Ho_future Hfuture_blocks)
    as (Hf_wf & Hf_cols & Hf_len & Hf_rows).
  fold target_blocks in Ht_wf, Ht_cols, Ht_rows.
  assert (frame_wf df_X') as HX_wf.
  { eapply concat_wf; [|exact Hdf_X]. by rewrite !Forall_app. }
  assert (frame_wf df_y) as Hy_wf'.
  { eapply concat_wf; [|exact Hdf_y]. done. }
  assert (frame_wf df_X_y) as HXy_wf.
  { eapply concat_wf; [|exact Hdf_X_y]. by apply Forall_cons, conj, Forall_singleton. }
  assert (pd.columns df_X'
    = (block_columns (Some ts) (lags self !! "target")
       + block_columns (covariate_at past idx) (lags self !! "past")
       + block_columns (covariate_at future idx) (lags self !! "future"))%nat) as Hcols.
  { apply concat_Ok in Hdf_X as [_ ->]. simpl.
    rewrite !fmap_app, !sum_list_with_app, Ht_cols, Hp_cols, Hf_cols.
    unfold block_columns, target_lags. lia. }
  assert (∀ t, length (feature_row self ts (covariate_at past idx) (covariate_at future idx) t)
        = pd.columns df_X') as Hlen_X.
  { intros t. unfold feature_row. rewrite !length_app, Hp_len, Hf_len, Hcols.
    assert (length (lag_block (Some ts) (lags self !! "target") t)
            = block_columns (Some ts) (lags self !! "target")) as ->; [|lia].
    unfold lag_block, block_columns.
    apply length_bind_const. intros lag _. by apply length_observed. }
  assert (∀ t, length (label_row self ts t)
        = (Z.to_nat (output_chunk_length self) * width ts)%nat) as Hlen_y.
  { intros t. unfold label_row.
    rewrite (length_bind_const _ _ (width ts)) by (intros; by apply length_observed).
    unfold range1, range2. rewrite length_seqZ. f_equal. lia. }
  split; [done|]. split; [done|]. split; [done|].
  apply Forall_forall. intros row Hrow.
  assert (row ∈ pd.values (pd.dropna df_X_y)) as Hin.
  { destruct (truthy_int cap); [|done].
    unfold slice_from in Hrow. by eapply subseteq_drop. }
  apply dropna_values in Hin as (t & _ & -> & Hcomplete); [|done].
  exists t. split; [|done]. revert Hcomplete.
  rewrite (concat_row_at _ _ _ Hdf_X_y), bind_cons, bind_singleton.
  rewrite (concat_row_at _ _ _ Hdf_X), (concat_row_at _ _ _ Hdf_y), !bind_app.
  intros [[Ht [Hp Hf]%complete_app]%complete_app Hy]%complete_app.
  rewrite Ht_rows, Hp_rows, Hf_rows, Hy_rows by done.
  unfold feature_row, label_row, lag_block. by fold target_lags.
Qed.

Lemma episode_samples_rows self (n_series : nat)
    (past future : option (list (@TimeSeries V))) (cap : option Z) (idx : nat) ts X y :
  well_formed ts →
  Forall well_formed (default [] past) →
  Forall well_formed (default [] future) →
  episode_samples self n_series past future cap idx ts = Ok (X, y) →
  X ≠ [] ∧
  Forall2 (sample_of self ts (covariate_at past idx) (covariate_at future idx)) X y ∧
  np.n_cols X
    = (block_columns (Some ts) (lags self !! "target")
       + block_columns (covariate_at past idx) (lags self !! "past")
       + block_columns (covariate_at future idx) (lags self !! "future"))%nat ∧
  np.n_cols y = (Z.to_nat (output_chunk_length self) * width ts)%nat ∧
  Forall (λ row, length row = np.n_cols X) X ∧
  Forall (λ row, length row = np.n_cols y) y.
Proof.
  intros Hts Hpast Hfuture Hsamples. unfold episode_samples in Hsamples.
  bind_inv Hsamples as [df_X X_y] Htable. bind_inv Hsamples as ? Hrows.
  apply raise_if_Ok, bool_decide_eq_false in Hrows.
  injection Hsamples as <- <-.
  destruct (episode_table_rows _ _ _ _ _ _ _ _ Hts Hpast Hfuture Htable)
    as (Hcols & Hlen_X & Hlen_y & Hall).
  unfold pd.n_columns. rewrite <- Hcols. clear Hcols.
  assert (Forall2 (sample_of self ts (covariate_at past idx) (covariate_at future idx))
            (take (pd.columns df_X) <$> X_y) (drop (pd.columns df_X) <$> X_y)) as Hrel.
  { apply Forall2_fmap, Forall_Forall2_diag.
    eapply Forall_impl; [exact Hall|]. intros row (t & -> & Hcomplete).
    apply complete_app in Hcomplete as [HX Hy]. exists t.
    by rewrite take_app_length', drop_app_length' by by rewrite Hlen_X. }
  split; [by destruct X_y|]. split; [done|].
  assert (Forall (λ row, length row = pd.columns df_X) (take (pd.columns df_X) <$> X_y) ∧
          Forall (λ row, length row
                         = (Z.to_nat (output_chunk_length self) * width ts)%nat)
                 (drop (pd.columns df_X) <$> X_y)) as [HallX Hally].
  { split.
    - eapply Forall2_Forall_l; [exact Hrel|]. apply Forall_true.
      intros x_row y_row (t & -> & _). apply Hlen_X.
    - eapply Forall2_Forall_r; [exact Hrel|]. apply Forall_true.
      intros x_row y_row (t & _ & -> & _). apply Hlen_y. }
  destruct X_y as [|row X_y]; [done|].
  rewrite !fmap_cons in *. simpl np.n_cols.
  apply Forall_cons in HallX as HX. destruct HX as [-> _].
  apply Forall_cons in Hally as Hy. destruct Hy as [-> _]. done.
Qed.

Lemma concatenate_rows_Ok (ms : list (matrix V)) (m : matrix V) :
  np.concatenate_rows ms = Ok m ↔
  ms ≠ [] ∧ Forall (λ m', np.n_cols m' = np.n_cols (default [] (head ms))) ms ∧ m = mjoin ms.
Proof.
  unfold np.concatenate_rows. destruct ms as [|m0 ms]; simpl.
  - split; [done | by intros [? _]].
  - destruct (forallb _ ms) eqn:Hall.
    + apply forallb_Forall in Hall.
      split.
      * intros [= <-]. split; [done|]. split; [|done].
        constructor; [done|]. eapply Forall_impl; [exact Hall|].
        intros m'. apply bool_decide_eq_true.
      * by intros (_ & _ & ->).
    + split; [done|]. intros (_ & [_ Hms]%Forall_cons & _).
      assert (forallb (λ m', bool_decide (np.n_cols m' = np.n_cols m0)) ms = true);
        [|congruence].
      apply forallb_Forall. eapply Forall_impl; [exact Hms|].
      intros m'. apply bool_decide_eq_true.
Qed.

Lemma group_columns_first (lags_ : option (list Z)) (covs : option (list (@TimeSeries V))) :
  group_columns lags_ covs = block_columns (covariate_at covs 0) lags_.
Proof.
  unfold group_columns, block_columns, covariate_at.
  destruct lags_ as [l|], covs as [[|c covs]|]; simpl; try done; lia.
Qed.

(** What the loop over the episodes leaves in [samples], position by
    position. *)
Lemma episodes_lookup self (targets : list (@TimeSeries V))
    (past future : option (list (@TimeSeries V))) (cap : option Z) samples :
  for_each
    (λ '(idx, target_ts),
       episode_samples self (length targets) past future cap idx target_ts)
    (enumerate targets) = Ok samples →
  length samples = length targets ∧
  ∀ i s, samples !! i = Some s →
    ∃ ts, targets !! i = Some ts ∧
          episode_samples self (length targets) past future cap i ts = Ok s.
Proof.
  intros Hloop. split.
  - apply for_each_length in Hloop. unfold enumerate in Hloop.
    by rewrite length_imap in Hloop.
  - apply for_each_Ok in Hloop. intros i s Hs.
    destruct (Forall2_lookup_r _ _ _ _ _ Hloop Hs) as ([idx ts'] & Hlookup & Hts).
    unfold enumerate in Hlookup. rewrite list_lookup_imap in Hlookup.
    destruct (targets !! i) as [ts|] eqn:Hi; [|done].
    simpl in Hlookup. injection Hlookup as <- <-. eauto.
Qed.

(** C4.  When the builder returns the matrices X and y for a collection of
    well-formed series, every row of X has as many columns as the lag
    groups demand: for each group present, the number of its lags times
    the width of the series it is read from; every row of y has
    [output_chunk_length] times the target width.  Row by row, X and y
    hold, for one episode and one time stamp, the lagged target values,
    then the lagged past covariates, then the lagged future covariates
    (within a group in the order of its lags, and within a lag in the
    order of the components), and the target values of the
    [output_chunk_length] steps starting there; no row has a NaN. *)
Theorem lagged_matrix_layout self (input : @series_input V) (cap : option Z)
    (targets : list (@TimeSeries V)) (past future : option (list (@TimeSeries V)))
    (X y : matrix V) :
  ensure_list input = (targets, past, future) →
  Forall well_formed targets →
  Forall well_formed (default [] past) →
  Forall well_formed (default [] future) →
  _create_lagged_data self input cap = Ok (X, y) →
  X ≠ [] ∧
  Forall (λ row, length row
                 = (group_columns (lags self !! "target") (Some targets)
                    + group_columns (lags self !! "past") past
                    + group_columns (lags self !! "future") future)%nat) X ∧
  Forall (λ row, length row
                 = group_columns (Some (range1 (output_chunk_length self))) (Some targets)) y ∧
  Forall2 (λ x_row y_row, ∃ idx ts,
             targets !! idx = Some ts ∧
             sample_of self ts (covariate_at past idx) (covariate_at future idx)
               x_row y_row) X y.
Proof.
  intros Hinput Htargets Hpast Hfuture Hbuild.
  unfold _create_lagged_data in Hbuild. rewrite Hinput in Hbuild.
  bind_inv Hbuild as samples Hloop.
  bind_inv Hbuild as X' HX. bind_inv Hbuild as y' Hy. injection Hbuild as <- <-.
  apply episodes_lookup in Hloop as [Hlength Hlookup].
  apply concatenate_rows_Ok in HX as (HXs & HX_cols & ->).
  apply concatenate_rows_Ok in Hy as (Hys & Hy_cols & ->).
  (* every episode on its own *)
  assert (∀ i s, samples !! i = Some s → ∃ ts,
            targets !! i = Some ts ∧
            s.1 ≠ [] ∧
            Forall2 (sample_of self ts (covariate_at past i) (covariate_at future i)) s.1 s.2 ∧
            np.n_cols s.1
              = (block_columns (Some ts) (lags self !! "target")
                 + block_columns (covariate_at past i) (lags self !! "past")
                 + block_columns (covariate_at future i) (lags self !! "future"))%nat ∧
            np.n_cols s.2 = (Z.to_nat (output_chunk_length self) * width ts)%nat ∧
            Forall (λ row, length row = np.n_cols s.1) s.1 ∧
            Forall (λ row, length row = np.n_cols s.2) s.2) as Hepisode.
  { intros i [Xi yi] Hs. destruct (Hlookup i _ Hs) as (ts & Hts & Hsamples).
    exists ts. split; [done|].
    eapply episode_samples_rows; [|done..].
    by eapply (Forall_lookup_1 _ _ _ _ Htargets). }
  (* the first episode fixes the number of columns *)
  destruct samples as [|[X0 y0] samples]; [done|].
  destruct (Hepisode 0%nat _ eq_refl)
    as (ts0 & Hts0 & HX0 & _ & HX0_cols & Hy0_cols & _ & _).
  destruct targets as [|ts0' targets]; [done|]. injection Hts0 as ->.
  simpl in HX0. cbn [fst snd] in HX0_cols, Hy0_cols.
  split; [by destruct X0|].
  split; [|split].
  - rewrite !group_columns_first. simpl covariate_at at 1. rewrite <- HX0_cols.
    apply Forall_join, Forall_fmap, Forall_lookup. intros i s Hs. simpl.
    destruct (Hepisode i s Hs) as (ts & _ & _ & _ & _ & _ & Hrows & _).
    pose proof (Forall_lookup_1 _ _ i s.1 HX_cols) as Hcols.
    rewrite list_lookup_fmap, Hs in Hcols. specialize (Hcols eq_refl).
    simpl in Hcols. by rewrite <- Hcols.
  - rewrite group_columns_first. simpl covariate_at.
    unfold block_columns. simpl default. unfold range1, range2.
    rewrite length_seqZ, Z.sub_0_r, <- Hy0_cols.
    apply Forall_join, Forall_fmap, Forall_lookup. intros i s Hs. simpl.
    destruct (Hepisode i s Hs) as (ts & _ & _ & _ & _ & _ & _ & Hrows).
    pose proof (Forall_lookup_1 _ _ i s.2 Hy_cols) as Hcols.
    rewrite list_lookup_fmap, Hs in Hcols. specialize (Hcols eq_refl).
    simpl in Hcols. by rewrite <- Hcols.
  - apply Forall2_join, Forall2_fmap, Forall_Forall2_diag, Forall_lookup.
    intros i s Hs.
    destruct (Hepisode i s Hs) as (ts & Hts & _ & Hrel & _).
    eapply Forall2_impl; [exact Hrel|]. intros x_row y_row Hsample. eauto.
Qed.

(** *** Episodes without a usable row *)

Lemma covariate_frame_before (covs : option (list (@TimeSeries V))) (i j : nat) o :
  (j ≤ i)%nat →
  covariate_frame covs i = Ok o →
  ∃ o', covariate_frame covs j = Ok o' ∧ (is_Some o → is_Some o').
Proof.
  intros Hj Hframe. unfold covariate_frame in *.
  destruct (truthy_list covs); [|eauto].
  destruct (default [] covs !! i) as [cov|] eqn:Hi; [|done].
  injection Hframe as <-.
  destruct (lookup_lt_is_Some_2 (default [] covs) j) as [cov' ->]; [|eauto].
  apply lookup_lt_Some in Hi. lia.
Qed.

Lemma covariate_blocks_before (o o' : option (@pd.DataFrame V)) (lags_ : option (list Z)) blocks :
  (is_Some o → is_Some o') →
  covariate_blocks o lags_ = Ok blocks →
  ∃ blocks', covariate_blocks o' lags_ = Ok blocks' ∧ length blocks' = length blocks.
Proof.
  intros Hsome Hblocks. unfold covariate_blocks in *.
  destruct (truthy_list lags_); [|eauto].
  destruct o as [df|]; [|done]. injection Hblocks as <-.
  destruct Hsome as [df' ->]; [done|]. eexists. split; [done|].
  by rewrite !length_fmap.
Qed.

Lemma concat_is_ok (dfs dfs' : list (@pd.DataFrame V)) df :
  length dfs' = length dfs → pd.concat dfs = Ok df → ∃ df', pd.concat dfs' = Ok df'.
Proof.
  intros Hlen [Hne _]%concat_Ok. destruct dfs' as [|d dfs']; [by destruct dfs|].
  simpl. eauto.
Qed.

(** Whether the table of an episode can be built does not depend on the
    episodes after it. *)
Lemma episode_table_before self (past future : option (list (@TimeSeries V)))
    (cap : option Z) (i j : nat) (ts ts' : @TimeSeries V) table :
  (j ≤ i)%nat →
  episode_table self past future cap i ts = Ok table →
  ∃ table', episode_table self past future cap j ts' = Ok table'.
Proof.
  intros Hj Htable. unfold episode_table in *.
  bind_inv Htable as o_past Ho_past. bind_inv Htable as o_future Ho_future.
  bind_inv Htable as past_blocks Hpast_blocks.
  bind_inv Htable as future_blocks Hfuture_blocks.
  bind_inv Htable as df_X Hdf_X. bind_inv Htable as df_y Hdf_y.
  destruct (covariate_frame_before _ _ _ _ Hj Ho_past) as (o_past' & -> & Hp).
  destruct (covariate_frame_before _ _ _ _ Hj Ho_future) as (o_future' & -> & Hf).
  rewrite !bind_Ok_l.
  destruct (covariate_blocks_before _ _ _ _ Hp Hpast_blocks) as (past_blocks' & -> & Hlen_p).
  destruct (covariate_blocks_before _ _ _ _ Hf Hfuture_blocks)
    as (future_blocks' & -> & Hlen_f).
  rewrite !bind_Ok_l.
  lazymatch goal with
  | |- ∃ _, (pd.concat ?dfs' ≫= _) = _ =>
    lazymatch type of Hdf_X with
    | pd.concat ?dfs = _ => assert (length dfs' = length dfs) as Hlen
    end;
    [ rewrite !length_app, Hlen_p, Hlen_f;
      destruct (lags self !! "target"); by rewrite ?length_fmap
    | destruct (concat_is_ok _ dfs' _ Hlen Hdf_X) as [df_X' ->]; clear Hlen ]
  end.
  rewrite bind_Ok_l.
  lazymatch goal with
  | |- ∃ _, (pd.concat ?dfs' ≫= _) = _ =>
    lazymatch type of Hdf_y with
    | pd.concat ?dfs = _ => assert (length dfs' = length dfs) as Hlen
    end;
    [ by rewrite !length_fmap
    | destruct (concat_is_ok _ dfs' _ Hlen Hdf_y) as [df_y' ->]; clear Hlen ]
  end.
  rewrite bind_Ok_l. by eexists.
Qed.

(** C9.  If the table of some episode of the collection has no usable row
    left (after the rows with a missing value are dropped and the cap on the
    samples is applied), the builder raises a [ValueError] with the message
    of missing training samples, for the first episode without a usable row;
    when the collection holds more than one episode the message names the
    index of that episode, and otherwise it names none. *)
Theorem no_usable_rows_raises self (input : @series_input V) (cap : option Z)
    (targets : list (@TimeSeries V)) (past future : option (list (@TimeSeries V)))
    (i : nat) (ts : @TimeSeries V) (df_X : @pd.DataFrame V) :
  ensure_list input = (targets, past, future) →
  targets !! i = Some ts →
  episode_table self past future cap i ts = Ok (df_X, []) →
  ∃ (i0 : nat) (ts0 : @TimeSeries V) (df0 : @pd.DataFrame V),
    (i0 ≤ i)%nat ∧
    targets !! i0 = Some ts0 ∧
    episode_table self past future cap i0 ts0 = Ok (df0, []) ∧
    _create_lagged_data self input cap
      = Raise (ValueError (no_samples_message i0 (length targets))) ∧
    no_samples_message i0 (length targets)
      = "Unable to build any training samples of the target series "
        +:+ (if decide (1 < length targets)%nat
             then "at index " +:+ pretty i0 +:+ " " else "")
        +:+ "and the corresponding covariate series; "
        +:+ "There is no time step for which all required lags are available and are not NaN values.".
Proof.
  intros Hinput Hi Htable.
  set (no_rows := λ p : nat * @TimeSeries V,
         ∃ df, episode_table self past future cap p.1 p.2 = Ok (df, [])).
  assert (∀ p, Decision (no_rows p)) as Hdec.
  { intros [j ts']. unfold no_rows. simpl.
    destruct (episode_table self past future cap j ts') as [[df [|row rows]]|e].
    - left. eauto.
    - right. by intros [df' [= _]].
    - right. by intros [df' ?]. }
  destruct (list_find no_rows (enumerate targets)) as [[i0 [i0' ts0']]|] eqn:Hfind.
  - apply list_find_Some in Hfind as (Hlookup & [df0 Hdf0] & Hleast).
    unfold enumerate in Hlookup. rewrite list_lookup_imap in Hlookup.
    destruct (targets !! i0) as [ts0|] eqn:Hi0; [|done].
    simpl in Hlookup. injection Hlookup as <- <-. simpl in Hdf0.
    assert (i0 ≤ i)%nat as Hle.
    { destruct (decide (i0 ≤ i)%nat) as [|Hgt]; [done|].
      destruct (Hleast i (i, ts)); [| lia | by exists df_X].
      unfold enumerate. by rewrite list_lookup_imap, Hi. }
    exists i0, ts0, df0. split; [done|]. split; [done|]. split; [done|]. split; [|done].
    unfold _create_lagged_data. rewrite Hinput.
    rewrite (for_each_first_raise _ _ i0 (i0, ts0)
               (ValueError (no_samples_message i0 (length targets)))); [done | | |].
    + unfold enumerate. by rewrite list_lookup_imap, Hi0.
    + unfold episode_samples. by rewrite Hdf0.
    + intros j [j' ts''] Hj Hlookup.
      unfold enumerate in Hlookup. rewrite list_lookup_imap in Hlookup.
      destruct (targets !! j) as [ts'|] eqn:Htsj; [|done].
      simpl in Hlookup. injection Hlookup as <- <-.
      destruct (episode_table_before self past future cap i0 j ts0 ts' _ ltac:(lia) Hdf0)
        as [[df [|row rows]] Hj_table].
      * destruct (Hleast j (j, ts')); [| done | by exists df].
        unfold enumerate. by rewrite list_lookup_imap, Htsj.
      * unfold episode_samples. by rewrite Hj_table.
  - apply list_find_None in Hfind.
    assert ((i, ts) ∈ enumerate targets) as Hin.
    { apply list_elem_of_lookup. exists i. unfold enumerate.
      by rewrite list_lookup_imap, Hi. }
    destruct (proj1 (Forall_forall _ _) Hfind _ Hin). by exists df_X.
Qed.

End lagged_data_properties.

(** Well-formedness of a concrete series, by computation. *)
Ltac solve_well_formed :=
  repeat first
    [ apply Forall_nil_2
    | apply Forall_cons_2
    | split; [simpl; lia | split; [discriminate | simpl] ] ];
  try reflexivity.

Lemma lagged_matrix_layout_witness :
  ∃ X y,
    _create_lagged_data example_model example_input None = Ok (X, y) ∧
    X ≠ [] ∧
    Forall (λ row, length row = 6%nat) X ∧
    Forall (λ row, length row = 2%nat) y.
Proof.
  destruct (_create_lagged_data example_model example_input None) as [[X y]|e] eqn:Hbuild;
    [|vm_compute in Hbuild; discriminate Hbuild].
  exists X, y. split; [reflexivity|].
  destruct (lagged_matrix_layout example_model example_input None
              example_targets (Some example_past) (Some example_future) X y)
    as (Hne & HX & Hy & _);
    [reflexivity | solve_well_formed.. | exact Hbuild |].
  split; [exact Hne|]. split; [exact HX | exact Hy].
Defined.

Lemma no_usable_rows_raises_witness :
  ∃ i0,
    _create_lagged_data five_lag_model short_second_input None
      = Raise (ValueError (no_samples_message i0 2)) ∧
    no_samples_message i0 2
      = "Unable to build any training samples of the target series "
        +:+ ("at index " +:+ pretty i0 +:+ " ")
        +:+ "and the corresponding covariate series; "
        +:+ "There is no time step for which all required lags are available and are not NaN values.".
Proof.
  destruct (episode_table five_lag_model None None None 1 (univariate 0 3 id))
    as [[df_X [|row rows]]|e] eqn:Htable;
    [|vm_compute in Htable; discriminate Htable..].
  destruct (no_usable_rows_raises five_lag_model short_second_input None
              [univariate 0 8 id; univariate 0 3 id] None None
              1%nat (univariate 0 3 id) df_X)
    as (i0 & ts0 & df0 & _ & _ & _ & Hraise & Hmessage);
    [reflexivity | reflexivity | exact Htable |].
  exists i0. split; [exact Hraise | exact Hmessage].
Defined.

(** ** Sampling strategies *)

Section sampling.
Variable Rng : Type.
Variable rng_uniform : Rng → Q * Rng.
Variable rng_normal : option Q → option Q → Rng → result (option Q * Rng).
Variable rng_poisson : option Q → Rng → result (option Q * Rng).

Abbreviation state := (sampler_state Rng).

(** *** One sample *)

Lemma unravel_rows_pairs (n p : nat) :
  nd.unravel [n; 2%nat] p !! 1%nat = Some (p `mod` 2)%nat.
Proof.
  change (nd.unravel [n; 2%nat] p)
    with [(p `div` 2)%nat; ((p `mod` 2) `div` 1)%nat].
  by rewrite Nat.div_1_r.
Qed.

Lemma omap_seq_shift {B} (f g : nat → option B) (m : nat) :
  (∀ p, f (2 + p)%nat = g p) → omap f (seq 2 m) = omap g (seq 0 m).
Proof.
  intros Hfg. change (seq 2 m) with (seq (2 + 0) m).
  rewrite <- (fmap_add_seq 2 0 m). apply list_omap_ext.
  apply Forall2_fmap_l, Forall_Forall2_diag, Forall_forall. intros p _. apply Hfg.
Qed.

Lemma means_of_pairs (n : nat) (pairs : list (option Q * option Q)) :
  omap (λ p, if decide (nd.unravel [n; 2%nat] p !! 1%nat = Some 0%nat)
             then (pairs ≫= (λ pair, [pair.1; pair.2])) !! p else None)
       (seq 0 (2 * length pairs))
  = pairs.*1.
Proof.
  induction pairs as [|[mean variance] pairs IH]; [done|].
  replace (2 * length ((mean, variance) :: pairs))%nat
    with (S (S (2 * length pairs))) by (simpl; lia).
  rewrite bind_cons, fmap_cons. cbn [seq omap list_omap].
  rewrite !unravel_rows_pairs.
  rewrite decide_True by done. rewrite decide_False by done.
  cbn [fst snd app lookup list_lookup]. f_equal.
  rewrite <- IH. apply omap_seq_shift. intros p.
  rewrite !unravel_rows_pairs.
  replace ((2 + p) `mod` 2)%nat with (p `mod` 2)%nat; [done|].
  by rewrite <- (Nat.Div0.add_mod_idemp_l 2 p 2), Nat.Div0.mod_same.
Qed.

(** Column 0 of an output of (mean, variance) pairs is the means. *)
Lemma column_paired_output (pairs : list (option Q * option Q)) :
  nd.column (paired_output pairs) 0 = Ok {| shape := [length pairs]; data := pairs.*1 |}.
Proof.
  unfold nd.column, paired_output. cbn [shape data].
  rewrite decide_True by lia. do 2 f_equal.
  replace (nd.size [length pairs; 2%nat]) with (2 * length pairs)%nat
    by (unfold nd.size; simpl; lia).
  apply means_of_pairs.
Qed.

(** The first slice of an output of means followed by variances is the
    means. *)
Lemma subarray_stacked_output (rows_ columns_ : nat) (means variances : list (option Q)) :
  length means = (rows_ * columns_)%nat →
  nd.subarray (stacked_output rows_ columns_ means variances) 0
  = Ok {| shape := [rows_; columns_]; data := means |}.
Proof.
  intros Hlen. unfold nd.subarray, stacked_output. cbn [shape data].
  rewrite decide_True by lia. do 2 f_equal.
  replace (nd.size [rows_; columns_]) with (length means)
    by (unfold nd.size; simpl; lia).
  by rewrite Nat.mul_0_l, drop_0, take_app_length.
Qed.

(** The entry of a container under a level: the regressor of the first
    entry whose level equals it (a dictionary has one such entry at most),
    and a [KeyError] when there is none. *)
Lemma container_get_entry (container : list (Q * @Regressor Q)) (level : Q) (i : nat)
    (key : Q) (fitted : @Regressor Q) :
  container !! i = Some (key, fitted) →
  (key == level)%Q →
  (∀ j entry, (j < i)%nat → container !! j = Some entry → ¬ (entry.1 == level)%Q) →
  container_get container level = Ok fitted.
Proof.
  intros Hentry Hkey Hfirst. unfold container_get.
  assert (list_find (λ entry : Q * @Regressor Q, Qeq_bool entry.1 level = true) container
          = Some (i, (key, fitted))) as ->; [|done].
  apply list_find_Some. split; [done|]. split; [by apply Qeq_bool_iff|].
  intros j entry Hj Hlt Heq. apply Qeq_bool_iff in Heq. by eapply Hfirst.
Qed.

Lemma container_get_missing (container : list (Q * @Regressor Q)) (level : Q) :
  Forall (λ entry, ¬ (entry.1 == level)%Q) container →
  container_get container level = Raise KeyError.
Proof.
  intros Hnone. unfold container_get.
  assert (list_find (λ entry : Q * @Regressor Q, Qeq_bool entry.1 level = true) container
          = None) as ->; [|done].
  apply list_find_None. eapply Forall_impl; [exact Hnone|].
  intros entry Hentry Heq. by apply Qeq_bool_iff in Heq.
Qed.

(** C7.  With one sample, each strategy returns its point estimate and
    leaves the generator alone, whatever the generator and its state are:
    the quantile strategy returns the prediction of the regressor that the
    container holds under the level 0.5, wherever in the container its
    entry stands (and raises [KeyError] when no entry has that level), the
    Gaussian strategy the means the regressor emits (in either layout of
    its output), the Poisson strategy the rates the regressor emits, each
    brought into shape (rows, output_chunk_length, components) and nothing
    else done to it. *)
Theorem single_sample_is_point_estimate (self : @RegressionModel Q) (lk : Likelihood)
    (x : matrix Q) (st : state) :
  (∀ i level fitted,
     _model_container lk !! i = Some (level, fitted) →
     (level == 1 # 2)%Q →
     (∀ j entry, (j < i)%nat → _model_container lk !! j = Some entry →
                 ¬ (entry.1 == 1 # 2)%Q) →
     _predict_quantiles Rng rng_uniform self lk x 1 st
     = with_state (reshape_chunks self (length x) (data (regressor_predict fitted x))) st) ∧
  (Forall (λ entry, ¬ (entry.1 == 1 # 2)%Q) (_model_container lk) →
   _predict_quantiles Rng rng_uniform self lk x 1 st = Raise KeyError) ∧
  (∀ pairs, regressor_predict (current_model Rng st) x = paired_output pairs →
     _predict_normal Rng rng_normal self x 1 st
     = with_state (reshape_chunks self (length x) pairs.*1) st) ∧
  (∀ rows_ columns_ means variances,
     regressor_predict (current_model Rng st) x
       = stacked_output rows_ columns_ means variances →
     length means = (rows_ * columns_)%nat →
     _predict_normal Rng rng_normal self x 1 st
     = with_state (reshape_chunks self (length x) means) st) ∧
  _predict_poisson Rng rng_poisson self x 1 st
  = with_state
      (reshape_chunks self (length x) (data (regressor_predict (current_model Rng st) x))) st ∧
  (∀ g' : Rng,
     let st' := {| _rng := g'; current_model := current_model Rng st |} in
     outcome (_predict_quantiles Rng rng_uniform self lk x 1 st)
       = outcome (_predict_quantiles Rng rng_uniform self lk x 1 st') ∧
     outcome (_predict_normal Rng rng_normal self x 1 st)
       = outcome (_predict_normal Rng rng_normal self x 1 st') ∧
     outcome (_predict_poisson Rng rng_poisson self x 1 st)
       = outcome (_predict_poisson Rng rng_poisson self x 1 st')).
Proof.
  split; [|split; [|split; [|split; [|split]]]].
  - intros i level fitted Hentry Hlevel Hfirst. unfold _predict_quantiles, with_state.
    rewrite decide_True by done.
    by rewrite (container_get_entry _ _ i level fitted Hentry Hlevel Hfirst).
  - intros Hnone. unfold _predict_quantiles. rewrite decide_True by done.
    by rewrite (container_get_missing _ _ Hnone).
  - intros pairs Hout. unfold _predict_normal, with_state.
    rewrite decide_True by done. rewrite Hout.
    cbn [paired_output shape length]. rewrite decide_True by lia.
    by rewrite column_paired_output.
  - intros rows_ columns_ means variances Hout Hlen. unfold _predict_normal, with_state.
    rewrite decide_True by done. rewrite Hout.
    cbn [stacked_output shape length]. rewrite decide_False by lia.
    by rewrite subarray_stacked_output.
  - unfold _predict_poisson, with_state.
    by destruct (reshape_chunks _ _ _).
  - intros g' st'. unfold _predict_quantiles, _predict_normal, _predict_poisson.
    rewrite !(decide_True (P := 1 = 1)) by done. subst st'. cbn [current_model].
    split; [|split].
    + destruct (container_get _ _); [simpl|done]. by destruct (reshape_chunks _ _ _).
    + destruct (if decide _ then _ else _); [simpl|done]. by destruct (reshape_chunks _ _ _).
    + by destruct (reshape_chunks _ _ _).
Qed.

(** *** Quantile interpolation *)

Lemma Qgt_bool_true (a b : Q) : Qgt_bool a b = true ↔ (b < a)%Q.
Proof.
  unfold Qgt_bool. rewrite negb_true_iff, <- not_true_iff_false, Qle_bool_iff.
  split; [apply Qnot_le_lt | apply Qlt_not_le].
Qed.

(** In an ascending list of levels, the levels below [p] are exactly the
    first ones, as many as [p] exceeds. *)
Lemma levels_below (levels : list Q) (p : Q) :
  StronglySorted Qle levels →
  let k := length (filter (λ q, Qgt_bool p q = true) levels) in
  (k ≤ length levels)%nat ∧
  (∀ j q, levels !! j = Some q → (j < k)%nat → (q < p)%Q) ∧
  (∀ j q, levels !! j = Some q → (k ≤ j)%nat → (p <= q)%Q).
Proof.
  induction 1 as [|q0 levels Hsorted IH Hq0]; [by split; [|split]|].
  destruct IH as (Hk & Hbelow & Habove).
  destruct (Qgt_bool p q0) eqn:Hgt.
  - rewrite filter_cons_True by done. cbn [length]. split; [lia|]. split.
    + intros [|j] q Hq Hj; simpl in Hq.
      * injection Hq as <-. by apply Qgt_bool_true.
      * apply (Hbelow j q Hq). lia.
    + intros [|j] q Hq Hj; [lia|]. simpl in Hq. apply (Habove j q Hq). lia.
  - rewrite filter_cons_False by (by rewrite Hgt).
    assert (p <= q0)%Q as Hp.
    { apply Qnot_lt_le. intros Hlt%Qgt_bool_true. congruence. }
    assert (filter (λ q, Qgt_bool p q = true) levels = []) as Hnone.
    { apply filter_none. eapply Forall_impl; [exact Hq0|].
      intros q Hq Hgt'%Qgt_bool_true. lra. }
    rewrite Hnone. cbn [length]. split; [lia|]. split; [intros; lia|].
    intros [|j] q Hq _; simpl in Hq.
    + by injection Hq as <-.
    + apply list_elem_of_lookup_2 in Hq.
      pose proof (proj1 (Forall_forall _ _) Hq0 q Hq). lra.
Qed.



Lemma take_along_Ok {A} (l : list A) (i : nat) (x : A) :
  take_along l i = Ok x ↔ l !! i = Some x.
Proof.
  unfold take_along. destruct (l !! i); split; intros H; try done.
  - by injection H as <-.
  - by injection H as <-.
Qed.

(** The levels with the virtual end points 0 and 1. *)
Lemma lookup_ext_quantiles (levels : list Q) (i : nat) :
  ([0%Q] ++ levels ++ [1%Q]) !! i =
    match i with
    | O => Some 0%Q
    | S j => if decide (j < length levels)%nat then levels !! j
             else if decide (j = length levels) then Some 1%Q else None
    end.
Proof.
  destruct i as [|j]; [done|]. simpl.
  destruct (decide (j < length levels)%nat); [by rewrite lookup_app_l|].
  rewrite lookup_app_r by lia.
  destruct (decide (j = length levels)) as [->|]; [by rewrite Nat.sub_diag|].
  apply lookup_ge_None_2. simpl. lia.
Qed.




(** *** Elementwise passes over an array *)

Lemma draw_each_Forall2 {A B} (draw : A → Rng → result (B * Rng)) (P : A → B → Prop)
    (l : list A) (g : Rng) (ys : list B) (g' : Rng) :
  (∀ x g y g', draw x g = Ok (y, g') → P x y) →
  draw_each Rng draw l g = Ok (ys, g') →
  Forall2 P l ys.
Proof.
  intros Hdraw. revert g ys. induction l as [|x l IH]; intros g ys Hall; simpl in Hall.
  - injection Hall as <- <-. constructor.
  - bind_inv Hall as [y g1] Hy. bind_inv Hall as [ys' g2] Hys. injection Hall as <- <-.
    constructor; [by eapply Hdraw | by eapply IH].
Qed.


Lemma for_each_zip_Forall2 {A B C} (f : A → B → result C)
    (R : A → B → Prop) (T : A → C → Prop) (a : list A) (b : list B) (zs : list C) :
  Forall2 R a b →
  (∀ x y z, R x y → f x y = Ok z → T x z) →
  for_each (λ '(x, y), f x y) (zip a b) = Ok zs →
  Forall2 T a zs.
Proof.
  intros Hab Hf. revert zs. induction Hab as [|x y a b Hxy Hab IH]; intros zs Hall;
    simpl in Hall.
  - injection Hall as <-. constructor.
  - bind_inv Hall as z Hz. bind_inv Hall as zs' Hzs. injection Hall as <-.
    constructor; [by eapply Hf | by apply IH].
Qed.



(** [interpolate] and [_quantile_sampling] are the computation of the
    code in the arithmetic [exact]. *)
Lemma interpolate_exact (levels : list Q) (outputs : list (option Q)) (p : Q) :
  interpolate levels outputs p = interpolate_in exact levels outputs p.
Proof. reflexivity. Qed.

Lemma quantile_sampling_exact (lk : Likelihood)
    (model_output : list (list (list (list (option Q))))) (g : Rng) :
  _quantile_sampling Rng rng_uniform lk model_output g
  = _quantile_sampling_in exact Rng rng_uniform (quantiles lk) model_output g.
Proof. reflexivity. Qed.


End sampling.

Lemma single_sample_is_point_estimate_witness :
  _predict_quantiles positive example_uniform median_model three_level_likelihood
    [[Some 1%Q]] 1 {| _rng := 7%positive; current_model := zero_regressor 0%Q |}
  = Ok ([[[Some 2%Q]]], {| _rng := 7%positive; current_model := zero_regressor 0%Q |}).
Proof.
  rewrite (proj1 (single_sample_is_point_estimate positive example_uniform example_normal
                    example_poisson median_model three_level_likelihood [[Some 1%Q]]
                    {| _rng := 7%positive; current_model := zero_regressor 0%Q |})
             1%nat (1 # 2)%Q (zero_regressor 2%Q) eq_refl).
  - reflexivity.
  - reflexivity.
  - intros [|j] entry Hj Hentry; [|lia]. injection Hentry as <-. simpl.
    unfold Qeq. simpl. lia.
Defined.



(** ** Autoregressive predictor *)

Section predict_properties.
Context {V : Type}.
Variable _is_probabilistic : bool.
Variable encoding_available : bool.
Variable generate_predict_encodings :
  Z → list (@TimeSeries V) → option (list (@TimeSeries V)) → option (list (@TimeSeries V)) →
  result (option (list (@TimeSeries V)) * option (list (@TimeSeries V))).
Variable super_predict :
  Z → list (@TimeSeries V) → option (list (@TimeSeries V)) → option (list (@TimeSeries V)) →
  Z → result unit.
Variable timestamp_repr : Z → string.
Variable Forecast : Type.
Variable _build_forecast_series : list (matrix V) → @TimeSeries V → Forecast.
Variable St : Type.
Variable sampler : @RegressionModel V → matrix V → Z → St → result (array3 V * St).

Local Abbreviation resolve :=
  (resolve_arguments _is_probabilistic encoding_available generate_predict_encodings
     super_predict).
Local Abbreviation predict_ :=
  (predict _is_probabilistic encoding_available generate_predict_encodings super_predict
     timestamp_repr Forecast _build_forecast_series St sampler).
Local Abbreviation window_message := (insufficient_covariate_message timestamp_repr).

(** *** Covariates kept at fit time *)


(** *** Covariate coverage *)

Lemma covers_spec (cov : @TimeSeries V) (first_req last_req : Z) :
  covers cov first_req last_req = true ↔
  start_time cov ≤ first_req ∧ last_req ≤ end_time cov.
Proof. unfold covers. rewrite andb_true_iff, !bool_decide_eq_true. lia. Qed.

Lemma covariate_window_Ok (self : @RegressionModel V) (cov_type : string)
    (n n_pred_steps lag_min lag_max : Z) (idx : nat) (ts cov : @TimeSeries V) :
  covers cov (first_req_ts ts lag_min) (last_req_ts self n_pred_steps ts lag_max) = true →
  covariate_window timestamp_repr self cov_type n n_pred_steps lag_min lag_max idx ts cov
  = Ok (slice_values cov (first_req_ts ts lag_min)
          (if has_range_index ts
           then last_req_ts self n_pred_steps ts lag_max + freq ts
           else last_req_ts self n_pred_steps ts lag_max)).
Proof. intros Hcovers. unfold covariate_window. by rewrite Hcovers. Qed.

Lemma covariate_window_Raise (self : @RegressionModel V) (cov_type : string)
    (n n_pred_steps lag_min lag_max : Z) (idx : nat) (ts cov : @TimeSeries V) :
  covers cov (first_req_ts ts lag_min) (last_req_ts self n_pred_steps ts lag_max) = false →
  covariate_window timestamp_repr self cov_type n n_pred_steps lag_min lag_max idx ts cov
  = Raise (ValueError (window_message self cov_type idx n lag_min lag_max
             (first_req_ts ts lag_min) (last_req_ts self n_pred_steps ts lag_max) cov)).
Proof. intros Hcovers. unfold covariate_window. by rewrite Hcovers. Qed.

(** The loop over the episodes stops at the first covariate that is too
    short. *)
Lemma covariate_matrix_uncovered (self : @RegressionModel V) (cov_type : string)
    (n n_pred_steps : Z) (series covs : list (@TimeSeries V)) (lag_min : Z) (rest : list Z)
    (idx : nat) (ts cov : @TimeSeries V) :
  let lag_max := List.last (lag_min :: rest) lag_min in
  lags self !! cov_type = Some (lag_min :: rest) →
  series !! idx = Some ts →
  covs !! idx = Some cov →
  covers cov (first_req_ts ts lag_min) (last_req_ts self n_pred_steps ts lag_max) = false →
  ∃ (idx0 : nat) (ts0 cov0 : @TimeSeries V),
    (idx0 ≤ idx)%nat ∧ series !! idx0 = Some ts0 ∧ covs !! idx0 = Some cov0 ∧
    covers cov0 (first_req_ts ts0 lag_min) (last_req_ts self n_pred_steps ts0 lag_max) = false ∧
    covariate_matrix timestamp_repr self cov_type n n_pred_steps series (Some covs)
    = Raise (ValueError (window_message self cov_type idx0 n lag_min lag_max
               (first_req_ts ts0 lag_min) (last_req_ts self n_pred_steps ts0 lag_max) cov0)).
Proof.
  intros lag_max Hlags Hts Hcov Huncovered.
  set (short := λ p : nat * (@TimeSeries V * @TimeSeries V),
         covers p.2.2 (first_req_ts p.2.1 lag_min)
           (last_req_ts self n_pred_steps p.2.1 lag_max) = false).
  assert (∀ j, enumerate (zip series covs) !! j
               = (ts' ← series !! j; cov' ← covs !! j; Some (j, (ts', cov')))) as Hlookup.
  { intros j. unfold enumerate. rewrite list_lookup_imap, lookup_zip_with.
    destruct (series !! j); [|done]. simpl. by destruct (covs !! j). }
  destruct (list_find short (enumerate (zip series covs))) as [[idx0 [idx0' [ts0 cov0]]]|]
    eqn:Hfind.
  - apply list_find_Some in Hfind as (Hidx0 & Hshort & Hleast).
    pose proof Hidx0 as Hentry. rewrite Hlookup in Hidx0.
    destruct (series !! idx0) as [ts0'|] eqn:Hts0; [|done]. simpl in Hidx0.
    destruct (covs !! idx0) as [cov0'|] eqn:Hcov0; [|done]. simpl in Hidx0.
    injection Hidx0 as <- <- <-. unfold short in Hshort. simpl in Hshort.
    exists idx0, ts0', cov0'.
    split.
    { destruct (decide (idx0 ≤ idx)%nat) as [|Hgt]; [done|].
      destruct (Hleast idx (idx, (ts, cov))); [| lia | done].
      by rewrite Hlookup, Hts, Hcov. }
    do 3 (split; [done|]).
    unfold covariate_matrix. rewrite Hlags.
    erewrite (for_each_first_raise _ _ idx0 (idx0, (ts0', cov0')) _ Hentry); [done | |].
    + by apply covariate_window_Raise.
    + intros j [j' [ts' cov']] Hj Hjth.
      destruct (covers cov' (first_req_ts ts' lag_min)
                  (last_req_ts self n_pred_steps ts' lag_max)) eqn:Hcovers.
      * by rewrite covariate_window_Ok.
      * by destruct (Hleast j (j', (ts', cov')) Hjth Hj).
  - apply list_find_None in Hfind.
    assert ((idx, (ts, cov)) ∈ enumerate (zip series covs)) as Hin.
    { apply list_elem_of_lookup. exists idx. by rewrite Hlookup, Hts, Hcov. }
    by destruct (proj1 (Forall_forall _ _) Hfind _ Hin).
Qed.

(** C6.  For a covariate group of the model, with lags [lag_min :: rest]
    whose last one is [lag_max], the window a covariate must span for the
    episode [ts] starts [lag_min] steps from the first prediction step (the
    step after the end of [ts]) and ends [lag_max] steps from the last
    prediction step, which lies [(ceil (n / output_chunk_length) - 1) *
    output_chunk_length] steps after the first.  A covariate that spans the
    window yields the values of this window.  If the covariate of some
    episode does not span it, and nothing fails before the group is reached,
    [predict] raises a [ValueError] for the first such episode, with a
    message that names the index of the episode, both lag bounds, and the
    first and the last time stamp required.  The horizon and
    [output_chunk_length] are of magnitude below 2^53, where the ceiling
    that [predict] takes of their quotient in doubles is the exact one. *)
Theorem uncovered_covariate_window_raises (self : @RegressionModel V) (n : Z)
    (series past future : option series_arg) (num_samples : Z) (st : St)
    (args : resolved) (cov_type : string) (covs : list (@TimeSeries V))
    (lag_min : Z) (rest : list Z) (idx : nat) (ts cov : @TimeSeries V) :
  let steps := ceil_div n (output_chunk_length self) in
  let lag_max := List.last (lag_min :: rest) lag_min in
  let first_pred (ts : @TimeSeries V) := end_time ts + freq ts in
  let last_pred (ts : @TimeSeries V) :=
    first_pred ts + (steps - 1) * output_chunk_length self * freq ts in
  let first_req (ts : @TimeSeries V) := first_pred ts + lag_min * freq ts in
  let last_req (ts : @TimeSeries V) := last_pred ts + lag_max * freq ts in
  let spans (ts cov : @TimeSeries V) :=
    start_time cov ≤ first_req ts ∧ last_req ts ≤ end_time cov in
  resolve self n series past future num_samples = Ok args →
  output_chunk_length self ≠ 0 →
  double_exact n → double_exact (output_chunk_length self) →
  lags self !! cov_type = Some (lag_min :: rest) →
  (cov_type = "past" ∧ resolved_past args = Some covs) ∨
  (cov_type = "future" ∧ resolved_future args = Some covs ∧
   is_ok (covariate_matrix timestamp_repr self "past" n steps (resolved_series args)
            (resolved_past args)) = true) →
  resolved_series args !! idx = Some ts →
  covs !! idx = Some cov →
  (spans ts cov →
   covariate_window timestamp_repr self cov_type n steps lag_min lag_max idx ts cov
   = Ok (slice_values cov (first_req ts)
           (if has_range_index ts then last_req ts + freq ts else last_req ts))) ∧
  (¬ spans ts cov →
   ∃ (idx0 : nat) (ts0 cov0 : @TimeSeries V),
     (idx0 ≤ idx)%nat ∧
     resolved_series args !! idx0 = Some ts0 ∧ covs !! idx0 = Some cov0 ∧
     ¬ spans ts0 cov0 ∧
     predict_ self n series past future num_samples st
     = Raise (ValueError
         ("The corresponding " +:+ cov_type +:+ "_covariate of the series at index "
          +:+ pretty idx0 +:+ " isn't sufficiently long. "
          +:+ "Given horizon `n=" +:+ pretty n
          +:+ "`, `min(lags_" +:+ cov_type +:+ "_covariates)=" +:+ pretty lag_min
          +:+ "`, `max(lags_" +:+ cov_type +:+ "_covariates)=" +:+ pretty lag_max
          +:+ "` and `output_chunk_length=" +:+ pretty (output_chunk_length self)
          +:+ "`" +:+ newline
          +:+ "the " +:+ cov_type +:+ "_covariate has to range from "
          +:+ timestamp_repr (first_req ts0)
          +:+ " until " +:+ timestamp_repr (last_req ts0) +:+ " (inclusive), "
          +:+ "but it ranges only from " +:+ timestamp_repr (start_time cov0)
          +:+ " until " +:+ timestamp_repr (end_time cov0) +:+ "."))).
Proof.
  intros steps lag_max first_pred last_pred first_req last_req spans
    Hargs Hocl _ _ Hlags Hgroup Hts Hcov.
  assert (∀ ts', first_req_ts ts' lag_min = first_req ts') as Hfirst.
  { intros ts'. unfold first_req_ts, first_pred_ts, first_req, first_pred. lia. }
  assert (∀ ts', last_req_ts self steps ts' lag_max = last_req ts') as Hlast.
  { intros ts'.
    unfold last_req_ts, last_pred_ts, first_pred_ts, last_req, last_pred, first_pred. lia. }
  assert (∀ ts' cov', covers cov' (first_req_ts ts' lag_min)
                        (last_req_ts self steps ts' lag_max) = true ↔ spans ts' cov')
    as Hspans.
  { intros ts' cov'. by rewrite covers_spec, Hfirst, Hlast. }
  split.
  - intros Hspan. apply Hspans in Hspan.
    rewrite (covariate_window_Ok _ _ _ _ _ _ _ _ _ Hspan). by rewrite Hfirst, Hlast.
  - intros Hshort.
    assert (covers cov (first_req_ts ts lag_min) (last_req_ts self steps ts lag_max) = false)
      as Huncovered.
    { apply not_true_is_false. by rewrite Hspans. }
    destruct (covariate_matrix_uncovered self cov_type n steps (resolved_series args)
                covs lag_min rest idx ts cov Hlags Hts Hcov Huncovered)
      as (idx0 & ts0 & cov0 & Hle & Hts0 & Hcov0 & Hshort0 & Hraise).
    exists idx0, ts0, cov0. do 3 (split; [done|]).
    split; [intros Hs; apply Hspans in Hs; exact (eq_true_false_abs _ Hs Hshort0)|].
    unfold predict. rewrite Hargs, bind_Ok_l.
    unfold predict_values, prediction_windows.
    destruct (decide (output_chunk_length self = 0)) as [|_]; [done|].
    rewrite bind_Ok_l. fold steps.
    unfold insufficient_covariate_message in Hraise. rewrite Hfirst, Hlast in Hraise.
    destruct Hgroup as [[-> Hpast] | (-> & Hfuture & Hpast_ok)].
    + rewrite Hpast. by rewrite Hraise.
    + destruct (covariate_matrix timestamp_repr self "past" n steps (resolved_series args)
                  (resolved_past args)) as [past_matrix|]; [|done].
      rewrite bind_Ok_l, Hfuture. by rewrite Hraise.
Qed.

(** *** Shapes of the arrays of the prediction loop *)

Lemma length_join_const {A} (ls : list (list A)) (w : nat) :
  Forall (λ l, length l = w) ls → length (mjoin ls) = (length ls * w)%nat.
Proof.
  induction 1 as [|l ls Hl _ IH]; [done|].
  csimpl. rewrite length_app, IH, Hl. done.
Qed.

Lemma has_shape3_rows {A} (k l c : nat) (a : list (list (list A))) :
  has_shape3 k l c a → Forall (λ row, length row = l) a.
Proof. intros [_ Ha]. eapply Forall_impl; [done|]. by intros row [? _]. Qed.

Lemma has_shape3_steps {A} (k l c : nat) (a : list (list (list A))) :
  has_shape3 k l c a → Forall (λ step, length step = c) (mjoin a).
Proof.
  intros [_ Ha]. apply Forall_join. eapply Forall_impl; [done|]. by intros row [_ ?].
Qed.

Lemma length_flatten {A} (k l c : nat) (a : list (list (list A))) :
  has_shape3 k l c a → length (mjoin (mjoin a)) = (k * l * c)%nat.
Proof.
  intros Ha. rewrite (length_join_const _ c) by by eapply has_shape3_steps.
  rewrite (length_join_const _ l) by by eapply has_shape3_rows.
  by destruct Ha as [-> _].
Qed.

Lemma row_shape_shaped {A} (k l c : nat) (a : list (list (list A))) :
  (0 < k)%nat → (0 < l)%nat → has_shape3 k l c a → np3.row_shape length a = (k, c).
Proof.
  intros Hk Hl [Hlen Ha]. unfold np3.row_shape. rewrite Hlen. f_equal.
  destruct Ha as [|row a [Hrow Hsteps] _]; [simpl in Hlen; lia|].
  destruct Hsteps as [|step row Hstep _]; [simpl in Hrow; lia | done].
Qed.

(** Appending the rows of two arrays pairwise adds up their time steps. *)
Lemma zip_with_app_shaped {A} (k l1 l2 c : nat) (a b : list (list (list A))) :
  has_shape3 k l1 c a → has_shape3 k l2 c b →
  has_shape3 k (l1 + l2) c (zip_with app a b).
Proof.
  intros [Hk Ha] [Hk' Hb]. split.
  - rewrite length_zip_with. lia.
  - eapply Forall_zip_with_fst; [exact Ha|].
    eapply Forall_impl; [exact Hb|]. intros row' [Hrow' Hsteps'] row [Hrow Hsteps].
    split; [rewrite length_app; lia | by apply Forall_app].
Qed.

Lemma foldl_zip_with_app_shaped {A} (k l0 l c : nat) (a : list (list (list A)))
    (bs : list (list (list (list A)))) :
  has_shape3 k l0 c a → Forall (has_shape3 k l c) bs →
  has_shape3 k (l0 + length bs * l) c (foldl (zip_with app) a bs).
Proof.
  intros Ha Hbs. revert a l0 Ha.
  induction Hbs as [|b bs Hb _ IH]; intros a l0 Ha; simpl.
  - by rewrite Nat.add_0_r.
  - replace (l0 + (l + length bs * l))%nat with ((l0 + l) + length bs * l)%nat by lia.
    apply IH. by apply zip_with_app_shaped.
Qed.

(** [np.concatenate] along the time axis of arrays that agree on rows and
    components. *)
Lemma concatenate_axis1_shaped {A} (k l0 l c : nat) (a : list (list (list A)))
    (bs : list (list (list (list A)))) :
  (0 < k)%nat → (0 < l0)%nat → (0 < l)%nat →
  has_shape3 k l0 c a → Forall (has_shape3 k l c) bs →
  np3.concatenate_axis1 length (a :: bs) = Ok (foldl (zip_with app) a bs) ∧
  has_shape3 k (l0 + length bs * l) c (foldl (zip_with app) a bs).
Proof.
  intros Hk Hl0 Hl Ha Hbs. unfold np3.concatenate_axis1.
  rewrite (proj2 (forallb_Forall _ _)).
  - split; [done|]. by apply foldl_zip_with_app_shaped.
  - eapply Forall_impl; [exact Hbs|]. intros b Hb. apply bool_decide_eq_true.
    rewrite (row_shape_shaped k l0 c a), (row_shape_shaped k l c b); done.
Qed.

Lemma index_in_range {A} (l : list A) (i : Z) :
  - Z.of_nat (length l) ≤ i < Z.of_nat (length l) →
  ∃ x, index l i = Ok x ∧ x ∈ l.
Proof.
  intros Hi. unfold index.
  set (j := if decide (i < 0) then i + Z.of_nat (length l) else i).
  assert (0 ≤ j < Z.of_nat (length l)) as Hj by (subst j; case_decide; lia).
  destruct (decide (j < 0)) as [|_]; [lia|].
  destruct (lookup_lt_is_Some_2 l (Z.to_nat j) ltac:(lia)) as [x Hx].
  rewrite Hx. exists x. split; [done|]. by eapply list_elem_of_lookup_2.
Qed.

(** [a[:, indices]] keeps the rows and the components and has one time
    step for each index. *)
Lemma take_axis1_shaped {A} (k l c : nat) (a : list (list (list A))) (indices : list Z) :
  has_shape3 k l c a →
  Forall (λ i, - Z.of_nat l ≤ i < Z.of_nat l) indices →
  ∃ r, np3.take_axis1 a indices = Ok r ∧ has_shape3 k (length indices) c r.
Proof.
  intros [Hk Ha] Hindices. unfold np3.take_axis1.
  assert (∀ row, length row = l ∧ Forall (λ step : list A, length step = c) row →
    ∃ picked, for_each (index row) indices = Ok picked ∧
              length picked = length indices ∧ Forall (λ step, length step = c) picked)
    as Hrow.
  { intros row [Hlen Hsteps].
    induction Hindices as [|i indices Hi _ IH]; simpl.
    - exists []. by repeat split.
    - destruct (index_in_range row i) as (x & -> & Hx); [by rewrite Hlen|].
      destruct IH as (picked & -> & Hpicked & Hcs). simpl.
      exists (x :: picked). split; [done|]. split; [simpl; lia|].
      constructor; [|done]. by apply (proj1 (Forall_forall _ _) Hsteps). }
  subst k. induction Ha as [|row a Hr _ IH]; simpl.
  - exists []. by repeat split.
  - destruct (Hrow row Hr) as (picked & -> & Hpicked & Hcs).
    destruct IH as (r & -> & Hlen & Hr'). simpl.
    exists (picked :: r). split; [done|]. split; [simpl; lia|].
    by constructor.
Qed.

Lemma reshape2_rows (k w : nat) (flat : list (float V)) :
  (0 < k)%nat → length flat = (k * w)%nat →
  ∃ X, np3.reshape2 k flat = Ok X ∧ length X = k.
Proof.
  intros Hk Hflat. unfold np3.reshape2.
  rewrite bool_decide_eq_false_2 by lia.
  rewrite Hflat, Nat.mul_comm, Nat.Div0.mod_mul, bool_decide_eq_true_2 by done.
  eexists. split; [done|]. by rewrite length_fmap, length_seq.
Qed.

Lemma lagged_columns_rows (k l c : nat) (a : array3 V) (indices : list Z) :
  (0 < k)%nat → has_shape3 k l c a →
  Forall (λ i, - Z.of_nat l ≤ i < Z.of_nat l) indices →
  ∃ X, lagged_columns k a indices = Ok X ∧ length X = k.
Proof.
  intros Hk Ha Hindices. unfold lagged_columns.
  destruct (take_axis1_shaped k l c a indices Ha Hindices) as (picked & -> & Hpicked).
  rewrite bind_Ok_l. apply (reshape2_rows k (length indices * c)); [done|].
  rewrite (length_flatten _ _ _ _ Hpicked). lia.
Qed.

(** [np.concatenate] along the columns of matrices with the same rows. *)
Lemma concatenate_columns_rows (k : nat) (parts : list (matrix V)) :
  parts ≠ [] → Forall (λ m, length m = k) parts →
  ∃ X, np3.concatenate_axis1 (λ _, 0%nat) parts = Ok X ∧ length X = k.
Proof.
  intros Hparts Hrows. destruct Hrows as [|m parts Hm Hrows]; [done|].
  unfold np3.concatenate_axis1. rewrite (proj2 (forallb_Forall _ _)).
  - eexists. split; [done|]. clear Hparts. revert m Hm.
    induction Hrows as [|m' parts Hm' _ IH]; intros m Hm; simpl; [done|].
    apply IH. rewrite length_zip_with. lia.
  - eapply Forall_impl; [exact Hrows|]. intros m' Hm'. apply bool_decide_eq_true.
    unfold np3.row_shape. rewrite Hm, Hm'. f_equal.
    destruct m as [|[|? ?] ?], m' as [|[|? ?] ?]; done.
Qed.

Lemma reshape3_shaped (k l c : nat) (flat : list (float V)) :
  (0 < k)%nat → (0 < l)%nat → length flat = (k * l * c)%nat →
  ∃ a, np3.reshape3 k l flat = Ok a ∧ has_shape3 k l c a.
Proof.
  intros Hk Hl Hflat. unfold np3.reshape3.
  rewrite bool_decide_eq_false_2 by nia.
  rewrite Hflat, (Nat.mul_comm (k * l) c), Nat.Div0.mod_mul, bool_decide_eq_true_2 by done.
  rewrite Nat.div_mul by nia.
  eexists. split; [done|]. split; [by rewrite length_fmap, length_seq|].
  apply Forall_fmap, Forall_seq. intros i Hi. simpl.
  split; [by rewrite length_fmap, length_seq|].
  apply Forall_fmap, Forall_seq. intros s Hs. simpl.
  assert ((i * l + s + 1) * c ≤ k * l * c)%nat as Hfit
    by (apply Nat.mul_le_mono_r; nia).
  rewrite length_take, length_drop, Hflat. lia.
Qed.

(** [a[:, :n]] keeps the first [n] time steps of every row. *)
Lemma truncate_axis1_shaped {A} (k l c : nat) (a : list (list (list A))) (n : Z) :
  0 ≤ n ≤ Z.of_nat l → has_shape3 k l c a →
  has_shape3 k (Z.to_nat n) c (np3.truncate_axis1 a n).
Proof.
  intros Hn [Hk Ha]. unfold np3.truncate_axis1. split; [by rewrite length_fmap|].
  apply Forall_fmap. eapply Forall_impl; [exact Ha|]. intros row [Hrow Hsteps]. simpl.
  unfold slice_to, clip. rewrite Hrow. destruct (decide (n < 0)) as [|_]; [lia|].
  split; [rewrite length_take, Hrow; lia | by apply Forall_take].
Qed.

(** Regrouping by episode gives one block for each episode, with one entry
    for each time step. *)
Lemma group_samples_blocks (e s n c : nat) (a : array3 V) :
  (0 < e)%nat → (0 < s)%nat → (0 < n)%nat → has_shape3 (e * s) n c a →
  ∃ blocks, np3.group_samples e s n a = Ok blocks ∧
            length blocks = e ∧ Forall (λ block, length block = n) blocks.
Proof.
  intros He Hs Hn Ha. unfold np3.group_samples.
  destruct (reshape3_shaped (e * s) n c (mjoin (mjoin a))) as (a' & -> & Ha');
    [nia | done | by apply length_flatten |].
  rewrite bind_Ok_l. eexists. split; [done|].
  split; [by rewrite length_fmap, length_seq|].
  apply Forall_fmap, Forall_seq. intros i Hi. simpl.
  unfold np3.swap_axes. by rewrite !length_fmap, length_seq.
Qed.

(** *** The prediction loop *)

(** The feature matrix of a prediction step has one row for each row of
    the windows. *)
Lemma step_features_rows (k l c : nat) (target : option (list Z * array3 V))
    (covs : list (option (list Z * array3 V))) (predictions : list (array3 V))
    (t_pred t_max : Z) :
  (0 < k)%nat → (0 < l)%nat →
  target_window_fits k c target →
  Forall (covariate_window_fits k t_max) covs →
  is_Some target ∨ Exists is_Some covs →
  Forall (has_shape3 k l c) predictions →
  0 ≤ t_pred ≤ t_max →
  ∃ X, step_features k target covs predictions t_pred = Ok X ∧ length X = k.
Proof.
  intros Hk Hl Htarget Hcovs Hgroup Hpredictions Ht. unfold step_features.
  assert (∃ target_part,
    match target with
    | Some (target_lags, series_matrix) =>
      target_matrix ←
        match predictions with
        | [] => Ok series_matrix
        | _ => np3.concatenate_axis1 length (series_matrix :: predictions)
        end;
      block ← lagged_columns k target_matrix target_lags;
      Ok [block]
    | None => Ok []
    end = Ok target_part ∧
    Forall (λ m, length m = k) target_part ∧
    (is_Some target → target_part ≠ [])) as (target_part & -> & Htarget_rows & Htarget_some).
  { destruct target as [[target_lags series_matrix]|].
    - destruct Htarget as (L & HL & Hm & Hlags).
      assert (∃ target_matrix L',
        match predictions with
        | [] => Ok series_matrix
        | _ => np3.concatenate_axis1 length (series_matrix :: predictions)
        end = Ok target_matrix ∧
        has_shape3 k L' c target_matrix ∧ (L ≤ L')%nat) as (tm & L' & -> & Htm & HL').
      { destruct predictions as [|p ps].
        - by exists series_matrix, L.
        - destruct (concatenate_axis1_shaped k L l c series_matrix (p :: ps))
            as [Hr Hshape]; [done..|].
          exists (foldl (zip_with app) series_matrix (p :: ps)),
            (L + length (p :: ps) * l)%nat.
          split; [done|]. split; [done | lia]. }
      rewrite bind_Ok_l.
      destruct (lagged_columns_rows k L' c tm target_lags) as (X & -> & HX); [done..| |].
      { eapply Forall_impl; [exact Hlags|]. intros lag Hlag. simpl in Hlag. lia. }
      rewrite bind_Ok_l. exists [X]. split; [done|]. split; [by repeat constructor | done].
    - exists []. split; [done|]. split; [constructor|]. by intros [? ?]. }
  rewrite bind_Ok_l.
  assert (∃ cov_parts,
    for_each
      (λ entry : option (list Z * array3 V),
         match entry with
         | Some (relative_cov_lags, data_) =>
           block ← lagged_columns k data_ ((λ lag, lag + t_pred) <$> relative_cov_lags);
           Ok [block]
         | None => Ok []
         end) covs = Ok cov_parts ∧
    Forall (λ m, length m = k) (mjoin cov_parts) ∧
    (Exists is_Some covs → mjoin cov_parts ≠ [])) as (cov_parts & -> & Hcov_rows & Hcov_some).
  { clear Hgroup. induction Hcovs as [|entry covs Hentry _ IH]; simpl.
    - exists []. split; [done|]. split; [constructor|]. by inversion 1.
    - destruct IH as (cov_parts & -> & Hrows & Hsome).
      destruct entry as [[relative_cov_lags data_]|].
      + destruct Hentry as (W & c' & Hdata & Hrels).
        destruct (lagged_columns_rows k W c' data_ ((λ lag, lag + t_pred) <$> relative_cov_lags))
          as (X & -> & HX); [done..| |].
        { apply Forall_fmap. eapply Forall_impl; [exact Hrels|].
          intros rel Hrel. simpl in *. lia. }
        simpl. exists ([X] :: cov_parts). split; [done|].
        split; [by constructor | done].
      + simpl. exists ([] :: cov_parts). split; [done|]. split; [done|].
        intros Hexists. apply Exists_cons in Hexists as [[? [=]]|Hexists].
        by apply Hsome. }
  rewrite bind_Ok_l. apply concatenate_columns_rows.
  - destruct Hgroup as [Hsome|Hsome].
    + specialize (Htarget_some Hsome). by destruct target_part.
    + specialize (Hcov_some Hsome). destruct target_part; [done|done].
  - by apply Forall_app.
Qed.

(** Every pass of the loop adds one block of [l] time steps. *)
Lemma prediction_loop_shaped (self : @RegressionModel V) (num_samples : Z) (k l c : nat)
    (target : option (list Z * array3 V)) (covs : list (option (list Z * array3 V)))
    (t_preds : list Z) (t_max : Z) (predictions : list (array3 V)) (st : St) :
  (0 < k)%nat → (0 < l)%nat →
  sampler_shaped sampler self num_samples k l c →
  target_window_fits k c target →
  Forall (covariate_window_fits k t_max) covs →
  is_Some target ∨ Exists is_Some covs →
  Forall (λ t, 0 ≤ t ≤ t_max) t_preds →
  Forall (has_shape3 k l c) predictions →
  ∃ predictions' st',
    prediction_loop St sampler self num_samples k target covs t_preds predictions st
    = Ok (predictions', st') ∧
    Forall (has_shape3 k l c) predictions' ∧
    length predictions' = (length predictions + length t_preds)%nat.
Proof.
  intros Hk Hl Hsampler Htarget Hcovs Hgroup Hts. revert predictions st.
  induction Hts as [|t t_preds Ht _ IH]; intros predictions st Hpredictions; simpl.
  - exists predictions, st. split; [done|]. split; [done | lia].
  - destruct (step_features_rows k l c target covs predictions t t_max)
      as (X & -> & HX); [done..|].
    rewrite bind_Ok_l.
    destruct (Hsampler X st HX) as (prediction & st' & -> & Hprediction).
    rewrite bind_Ok_l.
    destruct (IH (predictions ++ [prediction]) st') as (predictions' & st'' & -> & ? & Hlen).
    { apply Forall_app. split; [done | by apply Forall_singleton]. }
    exists predictions', st''. split; [done|]. split; [done|].
    rewrite Hlen, length_app. simpl. lia.
Qed.

(** The counter of the instrumented loop advances by the number of
    passes, and nothing else changes. *)
Lemma prediction_loop_counting (self : @RegressionModel V) (num_samples : Z) (k : nat)
    (target : option (list Z * array3 V)) (covs : list (option (list Z * array3 V)))
    (t_preds : list Z) (predictions : list (array3 V)) (st : St) (count : nat) :
  prediction_loop (St * nat) (counting sampler) self num_samples k target covs t_preds
    predictions (st, count)
  = '(predictions', st') ←
      prediction_loop St sampler self num_samples k target covs t_preds predictions st;
    Ok (predictions', (st', (count + length t_preds)%nat)).
Proof.
  revert predictions st count.
  induction t_preds as [|t t_preds IH]; intros predictions st count; simpl.
  - by rewrite Nat.add_0_r.
  - destruct (step_features k target covs predictions t) as [X|e]; [|done].
    rewrite !bind_Ok_l.
    change (counting sampler self X num_samples (st, count))
      with ('(prediction, st') ← sampler self X num_samples st;
            Ok (prediction, (st', S count))).
    destruct (sampler self X num_samples st) as [[prediction st']|e]; [|done].
    rewrite !bind_Ok_l. rewrite IH.
    by replace (S count + length t_preds)%nat with (count + S (length t_preds))%nat by lia.
Qed.

Lemma ceil_div_bounds (n l : Z) :
  1 ≤ n → 0 < l →
  1 ≤ ceil_div n l ∧ (ceil_div n l - 1) * l < n ≤ ceil_div n l * l.
Proof.
  intros Hn Hl. unfold ceil_div.
  pose proof (Z.div_mod (- n) l ltac:(lia)).
  pose proof (Z.mod_pos_bound (- n) l ltac:(lia)). nia.
Qed.

(** [range(0, n, l)] runs over the multiples of [l] below [n]. *)
Lemma range3_steps (n l : Z) :
  1 ≤ n → 0 < l →
  ∃ t_preds, range3 0 n l = Ok t_preds ∧
             length t_preds = Z.to_nat (ceil_div n l) ∧
             Forall (λ t, 0 ≤ t ≤ (ceil_div n l - 1) * l) t_preds.
Proof.
  intros Hn Hl. destruct (ceil_div_bounds n l Hn Hl) as [Hsteps _].
  unfold range3. destruct (decide (l = 0)) as [|_]; [lia|].
  destruct (decide (0 < l)) as [_|]; [|lia]. rewrite Z.sub_0_r.
  eexists. split; [done|]. split; [by rewrite length_fmap, length_seqZ|].
  apply Forall_fmap, Forall_seqZ. intros i Hi. simpl. nia.
Qed.

(** *** Values of the forecast *)

Lemma lookup_omap_total {A B} (f : A → option B) (l : list A) (i : nat) :
  Forall (λ x, is_Some (f x)) l → omap f l !! i = l !! i ≫= f.
Proof.
  intros Hl. revert i. induction Hl as [|x l [y Hy] _ IH]; intros i; [done|].
  csimpl. rewrite Hy. destruct i as [|i]; simpl; [done | apply IH].
Qed.

Lemma take_drop_join {A} (w : nat) (ls : list (list A)) (i : nat) (x : list A) :
  Forall (λ l, length l = w) ls → ls !! i = Some x →
  take w (drop (i * w) (mjoin ls)) = x.
Proof.
  intros Hls. revert i. induction Hls as [|y ls Hy _ IH]; intros i Hi; [done|].
  csimpl. destruct i as [|i]; simpl in *.
  - injection Hi as ->. by rewrite drop_0, take_app_length'.
  - rewrite drop_app_add' by done. by apply IH.
Qed.

Lemma fmap_seq_lookup {A} (f : nat → A) (x : list A) :
  (∀ i y, x !! i = Some y → f i = y) → f <$> seq 0 (length x) = x.
Proof.
  intros Hf. apply list_eq. intros i. rewrite list_lookup_fmap.
  destruct (x !! i) as [y|] eqn:Hy.
  - rewrite lookup_seq_lt by by eapply lookup_lt_Some. simpl. f_equal. by apply Hf.
  - apply lookup_ge_None in Hy. by rewrite lookup_seq_ge.
Qed.

(** Reshaping the values of an array to its own shape gives it back. *)
Lemma reshape3_flatten (k l c : nat) (a : array3 V) :
  (0 < k)%nat → (0 < l)%nat → has_shape3 k l c a →
  np3.reshape3 k l (mjoin (mjoin a)) = Ok a.
Proof.
  intros Hk Hl Ha. pose proof (length_flatten _ _ _ _ Ha) as Hflat.
  unfold np3.reshape3. rewrite bool_decide_eq_false_2 by nia.
  rewrite Hflat, (Nat.mul_comm (k * l) c), Nat.Div0.mod_mul, bool_decide_eq_true_2 by done.
  rewrite Nat.div_mul by nia. simpl. f_equal.
  destruct Ha as [Hlen Hrows]. rewrite <- Hlen. apply fmap_seq_lookup.
  intros i row Hrow.
  destruct (proj1 (Forall_forall _ _) Hrows row) as [Hrow_len Hsteps];
    [by eapply list_elem_of_lookup_2|].
  rewrite <- Hrow_len. apply fmap_seq_lookup. intros s step Hstep.
  apply take_drop_join.
  - apply Forall_join. eapply Forall_impl; [exact Hrows|]. by intros ? [_ ?].
  - rewrite Hrow_len. apply (join_lookup_Some_same_length' l).
    + eapply Forall_impl; [exact Hrows|]. by intros ? [? _].
    + rewrite <- Hrow_len. by eapply lookup_lt_Some.
    + by exists row.
Qed.

Lemma swap_axes_lookup {A} (w : nat) (a : list (list A)) (j : nat) :
  (j < w)%nat → np3.swap_axes w a !! j = Some (omap (.!! j) a).
Proof.
  intros Hj. unfold np3.swap_axes. by rewrite list_lookup_fmap, lookup_seq_lt.
Qed.

(** The forecast of episode [i] holds, for each time step and component,
    the values of the rows [i * s], ..., [i * s + s - 1] of the array. *)
Lemma group_samples_values (e s n c : nat) (a : array3 V)
    (blocks : list (list (matrix V))) (i t j s' : nat) :
  (0 < n)%nat → has_shape3 (e * s) n c a →
  np3.group_samples e s n a = Ok blocks →
  (i < e)%nat → (t < n)%nat → (j < c)%nat → (s' < s)%nat →
  forecast_at blocks i t j s' = lookup3 a (i * s + s') t j.
Proof.
  intros Hn Ha Hblocks Hi Ht Hj Hs'. unfold np3.group_samples in Hblocks.
  assert (0 < e * s)%nat as Hrows_pos by (apply Nat.mul_pos_pos; lia).
  assert (0 < e * s * n)%nat as Hsize by (apply Nat.mul_pos_pos; lia).
  rewrite (reshape3_flatten (e * s) n c), bind_Ok_l in Hblocks by done.
  rewrite (length_flatten _ _ _ _ Ha) in Hblocks.
  replace (e * s * n * c)%nat with (c * (e * s * n))%nat in Hblocks by lia.
  rewrite Nat.div_mul in Hblocks by lia. injection Hblocks as <-.
  destruct Ha as [Hlen Hrows]. unfold forecast_at, lookup3, lookup2.
  set (rows_i := take s (drop (i * s) a)).
  assert (Forall (λ row : list (list (float V)),
            length row = n ∧ Forall (λ step, length step = c) row) rows_i) as Hrows_i
    by by apply Forall_take, Forall_drop.
  rewrite list_lookup_fmap, lookup_seq_lt by done. simpl.
  rewrite list_lookup_fmap, swap_axes_lookup by done. simpl.
  rewrite swap_axes_lookup by done. simpl.
  rewrite lookup_omap_total.
  2:{ apply Forall_forall. intros step (row & Hrow & Hstep)%list_elem_of_omap.
      apply lookup_lt_is_Some_2.
      destruct (proj1 (Forall_forall _ _) Hrows_i row Hrow) as [_ Hsteps].
      rewrite (proj1 (Forall_forall _ _) Hsteps step); [done|].
      by eapply list_elem_of_lookup_2. }
  rewrite lookup_omap_total.
  2:{ eapply Forall_impl; [exact Hrows_i|]. intros row [Hrow _]. simpl.
      apply lookup_lt_is_Some_2. lia. }
  subst rows_i. by rewrite lookup_take_lt, lookup_drop by done.
Qed.

Lemma truncate_axis1_lookup {A} (l : nat) (a : list (list A)) (n : Z) (r t : nat) :
  Forall (λ row, length row = l) a → 0 ≤ n ≤ Z.of_nat l → (t < Z.to_nat n)%nat →
  lookup2 (np3.truncate_axis1 a n) r t = lookup2 a r t.
Proof.
  intros Ha Hn Ht. unfold lookup2, np3.truncate_axis1. rewrite list_lookup_fmap.
  destruct (a !! r) as [row|] eqn:Hrow; [|done]. simpl.
  unfold slice_to, clip.
  rewrite (proj1 (Forall_forall _ _) Ha row) by by eapply list_elem_of_lookup_2.
  destruct (decide (n < 0)) as [|_]; [lia|]. apply lookup_take_lt. lia.
Qed.

(** Row [r] of the concatenation is the concatenation of the rows [r]. *)
Lemma foldl_zip_with_app_lookup {A} (a : list (list A)) (bs : list (list (list A)))
    (r : nat) :
  Forall (λ b, is_Some (b !! r)) bs →
  foldl (zip_with app) a bs !! r
  = (λ row, row ++ mjoin (omap (λ b : list (list A), b !! r) bs)) <$> a !! r.
Proof.
  intros Hbs. revert a. induction Hbs as [|b bs [row_b Hb] _ IH]; intros a; simpl.
  - destruct (a !! r); simpl; [by rewrite app_nil_r | done].
  - rewrite IH, lookup_zip_with. destruct (a !! r) as [row|]; simpl; [|done].
    rewrite Hb. csimpl. by rewrite app_assoc.
Qed.

(** Time step [t] of the concatenated blocks of [l] steps is step
    [t mod l] of block [t / l]. *)
Lemma concatenated_lookup {A} (k l c : nat) (p0 : list (list (list A)))
    (ps : list (list (list (list A)))) (r t : nat) :
  (0 < l)%nat → has_shape3 k l c p0 → Forall (has_shape3 k l c) ps →
  (r < k)%nat → (t < (1 + length ps) * l)%nat →
  lookup2 (foldl (zip_with app) p0 ps) r t
  = p ← (p0 :: ps) !! (t `div` l)%nat; lookup2 p r (t `mod` l)%nat.
Proof.
  intros Hl Hp0 Hps Hr Ht. unfold lookup2.
  assert (Forall (has_shape3 k l c) (p0 :: ps)) as Hall by by constructor.
  assert (Forall (λ p : list (list (list A)), is_Some (p !! r)) (p0 :: ps)) as Hrows.
  { eapply Forall_impl; [exact Hall|]. intros p [Hlen _]. simpl.
    apply lookup_lt_is_Some_2. lia. }
  rewrite foldl_zip_with_app_lookup by by apply Forall_cons in Hrows as [_ ?].
  destruct (Forall_cons_1 _ _ _ Hrows) as [[row0 Hrow0] _].
  rewrite Hrow0. simpl.
  set (rows_r := omap (λ p : list (list (list A)), p !! r) (p0 :: ps)).
  assert (row0 ++ mjoin (omap (λ p : list (list (list A)), p !! r) ps) = mjoin rows_r)
    as -> by (subst rows_r; csimpl; by rewrite Hrow0).
  assert (Forall (λ row : list (list A), length row = l) rows_r) as Hlengths.
  { apply Forall_forall. intros row (p & Hp & Hrow)%list_elem_of_omap.
    destruct (proj1 (Forall_forall _ _) Hall p Hp) as [_ Hshape].
    apply (proj1 (Forall_forall _ _) Hshape row). by eapply list_elem_of_lookup_2. }
  assert (t `div` l < length (p0 :: ps))%nat as Hdiv
    by (apply Nat.Div0.div_lt_upper_bound; simpl; nia).
  destruct (lookup_lt_is_Some_2 (p0 :: ps) _ Hdiv) as [p Hp].
  destruct (proj1 (Forall_forall _ _) Hrows p) as [row Hrow];
    [by eapply list_elem_of_lookup_2|].
  assert (rows_r !! (t `div` l)%nat = Some row) as Hq.
  { subst rows_r. rewrite lookup_omap_total by done. rewrite Hp. exact Hrow. }
  rewrite Hp. simpl. rewrite Hrow. simpl.
  assert (length row = l) as Hrow_len.
  { apply (proj1 (Forall_forall _ _) Hlengths). by eapply list_elem_of_lookup_2. }
  destruct (lookup_lt_is_Some_2 row (t `mod` l)%nat) as [x Hx].
  { rewrite Hrow_len. apply Nat.mod_upper_bound. lia. }
  rewrite Hx. rewrite (Nat.div_mod_eq t l) at 1. rewrite (Nat.mul_comm l).
  apply (join_lookup_Some_same_length' l); [done | apply Nat.mod_upper_bound; lia |].
  by exists row.
Qed.

(** The loop and the regrouping that follows it. *)
Lemma autoregress_horizon (self : @RegressionModel V) (n : Z) (e : nat) (num_samples : Z)
    (c : nat) (target : option (list Z * array3 V))
    (covs : list (option (list Z * array3 V))) (st : St) :
  let l := output_chunk_length self in
  let steps := ceil_div n l in
  let k := Z.to_nat (Z.of_nat e * num_samples) in
  1 ≤ n → 0 < l → 0 < num_samples → (0 < e)%nat →
  sampler_shaped sampler self num_samples k (Z.to_nat l) c →
  target_window_fits k c target →
  Forall (covariate_window_fits k ((steps - 1) * l)) covs →
  is_Some target ∨ Exists is_Some covs →
  ∃ blocks st' t_preds predictions,
    autoregress St sampler self n e num_samples target covs st = Ok (blocks, st') ∧
    length blocks = e ∧
    range3 0 n l = Ok t_preds ∧
    prediction_loop St sampler self num_samples k target covs t_preds [] st
    = Ok (predictions, st') ∧
    length predictions = Z.to_nat steps ∧
    ∀ i t j s : nat,
      (i < e)%nat → (t < Z.to_nat n)%nat → (j < c)%nat → (s < Z.to_nat num_samples)%nat →
      forecast_at blocks i t j s
      = answer_at predictions (t `div` Z.to_nat l) (i * Z.to_nat num_samples + s)
          (t `mod` Z.to_nat l) j.
Proof.
  intros l steps k Hn Hl Hsamples He Hsampler Htarget Hcovs Hgroup.
  destruct (ceil_div_bounds n l Hn Hl) as [Hsteps Hceil]. fold steps in Hsteps, Hceil.
  assert (k = e * Z.to_nat num_samples)%nat as Hk_eq by (subst k; lia).
  assert (0 < k)%nat as Hk by (subst k; nia).
  unfold autoregress. fold l k.
  destruct (range3_steps n l Hn Hl) as (t_preds & -> & Hlen & Hts). fold steps in Hlen, Hts.
  rewrite !bind_Ok_l.
  destruct (prediction_loop_shaped self num_samples k (Z.to_nat l) c target covs t_preds
              ((steps - 1) * l) [] st) as (predictions & st' & Hloop & Hpredictions & Hcount);
    [lia | lia | done..|].
  rewrite Hloop, !bind_Ok_l. cbv beta iota.
  simpl in Hcount. rewrite Hlen in Hcount.
  destruct Hpredictions as [|p0 ps Hp0 Hps]; [simpl in Hcount; lia|].
  destruct (concatenate_axis1_shaped k (Z.to_nat l) (Z.to_nat l) c p0 ps)
    as [-> Hjoined]; [lia.. | done | done |].
  rewrite !bind_Ok_l. destruct (decide (n < 0)) as [|_]; [lia|].
  simpl in Hcount.
  set (joined := foldl (zip_with app) p0 ps) in *.
  assert (has_shape3 (e * Z.to_nat num_samples) (Z.to_nat n) c (np3.truncate_axis1 joined n))
    as Htruncated.
  { rewrite <- Hk_eq. eapply truncate_axis1_shaped; [|exact Hjoined]. nia. }
  destruct (group_samples_blocks e (Z.to_nat num_samples) (Z.to_nat n) c
              (np3.truncate_axis1 joined n)) as (blocks & Hgrouped & Hblocks & Hsteps_n);
    [lia.. | done |].
  rewrite Hgrouped, !bind_Ok_l.
  exists blocks, st', t_preds, (p0 :: ps).
  do 4 (split; [done|]). split; [simpl; lia|].
  intros i t j s Hi Ht Hj Hs.
  rewrite (group_samples_values e (Z.to_nat num_samples) (Z.to_nat n) c
             (np3.truncate_axis1 joined n) blocks i t j s) by (done || lia).
  assert (i * Z.to_nat num_samples + s < k)%nat as Hrow by (rewrite Hk_eq; nia).
  unfold lookup3.
  rewrite (truncate_axis1_lookup (Z.to_nat l + length ps * Z.to_nat l) joined n);
    [| by eapply has_shape3_rows | nia | done].
  subst joined.
  rewrite (concatenated_lookup k (Z.to_nat l) c p0 ps); [| lia | done | done | done | nia].
  unfold answer_at, lookup3. by destruct ((p0 :: ps) !! (t `div` Z.to_nat l)%nat).
Qed.

Lemma group_samples_lengths (e s n : nat) (a : array3 V)
    (blocks : list (list (matrix V))) :
  np3.group_samples e s n a = Ok blocks →
  length blocks = e ∧ Forall (λ block, length block = n) blocks.
Proof.
  unfold np3.group_samples. intros Hblocks. bind_inv Hblocks as a' Ha'.
  injection Hblocks as <-. split; [by rewrite length_fmap, length_seq|].
  apply Forall_fmap, Forall_seq. intros i Hi. simpl.
  unfold np3.swap_axes. by rewrite !length_fmap, length_seq.
Qed.

(** Whatever the windows and the regressor method are, a run that returns
    holds [n] time steps for each episode, and the instrumented run returns
    the same with [ceil (n / output_chunk_length)] invocations counted. *)
Lemma autoregress_counted (self : @RegressionModel V) (n : Z) (e : nat) (num_samples : Z)
    (target : option (list Z * array3 V)) (covs : list (option (list Z * array3 V)))
    (st st' : St) (blocks : list (list (matrix V))) :
  1 ≤ n → 0 < output_chunk_length self →
  autoregress St sampler self n e num_samples target covs st = Ok (blocks, st') →
  autoregress (St * nat) (counting sampler) self n e num_samples target covs (st, 0%nat)
  = Ok (blocks, (st', Z.to_nat (ceil_div n (output_chunk_length self)))) ∧
  length blocks = e ∧
  Forall (λ block, length block = Z.to_nat n) blocks.
Proof.
  intros Hn Hl. unfold autoregress.
  destruct (range3_steps n _ Hn Hl) as (t_preds & -> & Hlen & _).
  rewrite !bind_Ok_l, prediction_loop_counting.
  destruct (prediction_loop St sampler self num_samples _ target covs t_preds [] st)
    as [[predictions st1]|err]; [|done].
  rewrite !bind_Ok_l. cbv beta iota.
  destruct (np3.concatenate_axis1 length predictions) as [joined|err]; [|done].
  rewrite !bind_Ok_l. destruct (decide (n < 0)) as [|_]; [lia|].
  destruct (np3.group_samples e (Z.to_nat num_samples) (Z.to_nat n)
              (np3.truncate_axis1 joined n)) as [grouped|err] eqn:Hgrouped; [|done].
  rewrite !bind_Ok_l. intros [= <- <-].
  destruct (group_samples_lengths _ _ _ _ _ Hgrouped) as [? ?].
  by rewrite Hlen.
Qed.

Lemma resolved_series_nonempty (self : @RegressionModel V) (n : Z)
    (series past future : option series_arg) (num_samples : Z) (args : resolved) :
  resolve self n series past future num_samples = Ok args →
  resolved_series args ≠ [].
Proof.
  unfold resolve_arguments. intros Hargs.
  bind_inv Hargs as ? Hsamples. bind_inv Hargs as series' Hseries.
  bind_inv Hargs as [past' future'] Hencodings. cbv beta iota in Hargs.
  bind_inv Hargs as ? Hsuper. bind_inv Hargs as dims Hdims. bind_inv Hargs as ? Hmatch.
  injection Hargs as <-. intros Hnil.
  change (default [] (series2seq (Some series')) = []) in Hnil.
  by rewrite Hnil in Hdims.
Qed.

(** C5.  Take a horizon [n >= 1], a positive [output_chunk_length] and
    arguments that pass the checks.  Whenever [predict] returns, the
    regressor method has been invoked [ceil (n / output_chunk_length)] times
    and the values of the forecast of every episode cover exactly [n] time
    steps, whether or not [n] is a multiple of [output_chunk_length].  And
    [predict] does return when the number of samples is positive, the model
    has a group of lags, the windows cut from the series hold the time steps
    the lags reach, and the regressor method answers a feature matrix with
    [output_chunk_length] time steps for each row; then time step [t] of a
    forecast is time step [t mod output_chunk_length] of the answer to
    invocation [t / output_chunk_length], so that the forecast is the first
    [n] time steps of the answers laid end to end, and what the last answer
    holds beyond them is dropped. *)
Theorem predict_covers_horizon (self : @RegressionModel V) (n : Z)
    (series past future : option series_arg) (num_samples : Z) (st : St)
    (args : resolved) :
  let l := output_chunk_length self in
  let steps := ceil_div n l in
  let k := Z.to_nat (Z.of_nat (length (resolved_series args)) * num_samples) in
  let values_of := λ St' sampler',
    predict_values timestamp_repr St' sampler' self n (resolved_series args)
      (resolved_past args) (resolved_future args) num_samples in
  let returned_of := λ blocks : list (list (matrix V)),
    let built := zip_with _build_forecast_series blocks (resolved_series args) in
    if called_with_single_series args
    then from_option OneForecast (ManyForecasts []) (head built)
    else ManyForecasts built in
  let counted_predict :=
    predict _is_probabilistic encoding_available generate_predict_encodings super_predict
      timestamp_repr Forecast _build_forecast_series (St * nat) (counting sampler)
      self n series past future num_samples (st, 0%nat) in
  1 ≤ n → 0 < l →
  resolve self n series past future num_samples = Ok args →
  (∀ returned st',
     predict_ self n series past future num_samples st = Ok (returned, st') →
     counted_predict = Ok (returned, (st', Z.to_nat steps)) ∧
     ∃ blocks : list (list (matrix V)),
       values_of St sampler st = Ok (blocks, st') ∧
       returned = returned_of blocks ∧
       length blocks = length (resolved_series args) ∧
       Forall (λ block, length block = Z.to_nat n) blocks) ∧
  (∀ (target : option (list Z * array3 V)) (covs : list (option (list Z * array3 V)))
     (c : nat),
     0 < num_samples →
     prediction_windows timestamp_repr self n (resolved_series args) (resolved_past args)
       (resolved_future args) num_samples = Ok (target, covs) →
     sampler_shaped sampler self num_samples k (Z.to_nat l) c →
     target_window_fits k c target →
     Forall (covariate_window_fits k ((steps - 1) * l)) covs →
     is_Some target ∨ Exists is_Some covs →
     ∃ (blocks : list (list (matrix V))) (st' : St) (t_preds : list Z)
       (predictions : list (array3 V)),
       predict_ self n series past future num_samples st = Ok (returned_of blocks, st') ∧
       values_of St sampler st = Ok (blocks, st') ∧
       range3 0 n l = Ok t_preds ∧
       prediction_loop St sampler self num_samples k target covs t_preds [] st
       = Ok (predictions, st') ∧
       length predictions = Z.to_nat steps ∧
       ∀ i t j s : nat,
         (i < length (resolved_series args))%nat → (t < Z.to_nat n)%nat →
         (j < c)%nat → (s < Z.to_nat num_samples)%nat →
         forecast_at blocks i t j s
         = answer_at predictions (t `div` Z.to_nat l) (i * Z.to_nat num_samples + s)
             (t `mod` Z.to_nat l) j).
Proof.
  intros l steps k values_of returned_of counted_predict Hn Hl Hargs.
  pose proof (resolved_series_nonempty _ _ _ _ _ _ _ Hargs) as Hseries.
  assert (∀ St' sampler' (st0 : St') blocks st',
    values_of St' sampler' st0 = Ok (blocks, st') →
    length blocks = length (resolved_series args) →
    predict _is_probabilistic encoding_available generate_predict_encodings super_predict
      timestamp_repr Forecast _build_forecast_series St' sampler'
      self n series past future num_samples st0 = Ok (returned_of blocks, st')) as Hbuild.
  { intros St' sampler' st0 blocks st' Hvalues Hlen. subst values_of returned_of.
    cbv beta in Hvalues. unfold predict. rewrite Hargs, !bind_Ok_l, Hvalues, !bind_Ok_l.
    cbv beta iota zeta.
    destruct (zip_with _build_forecast_series blocks (resolved_series args))
      as [|f built] eqn:Hbuilt; [|by destruct (called_with_single_series args)].
    apply (f_equal length) in Hbuilt. rewrite length_zip_with, Hlen in Hbuilt.
    destruct (resolved_series args); [done | simpl in Hbuilt; lia]. }
  assert (∀ St' sampler' (st0 : St') target covs,
    prediction_windows timestamp_repr self n (resolved_series args) (resolved_past args)
      (resolved_future args) num_samples = Ok (target, covs) →
    values_of St' sampler' st0
    = autoregress St' sampler' self n (length (resolved_series args)) num_samples
        target covs st0) as Hvalues_of.
  { intros St' sampler' st0 target covs Hwindows. subst values_of. cbv beta.
    unfold predict_values. by rewrite Hwindows, bind_Ok_l. }
  split.
  - intros returned st' Hreturned.
    pose proof Hreturned as Hrun. unfold predict in Hrun.
    rewrite Hargs, bind_Ok_l in Hrun.
    bind_inv Hrun as [blocks st1] Hvalues.
    pose proof Hvalues as Hwindows. unfold predict_values in Hwindows.
    bind_inv Hwindows as [target covs] Htarget. cbv beta iota in Hwindows.
    destruct (autoregress_counted self n _ num_samples target covs st st1 blocks
                Hn Hl Hwindows) as (Hcounted & Hlen & Hsteps).
    pose proof (Hbuild St sampler st blocks st1 Hvalues Hlen) as Hplain.
    rewrite Hreturned in Hplain. injection Hplain as -> ->.
    split; [|by exists blocks].
    apply Hbuild; [|done]. by rewrite (Hvalues_of _ _ _ _ _ Htarget).
  - intros target covs c Hsamples Hwindows Hsampler Htarget Hcovs Hgroup.
    destruct (autoregress_horizon self n (length (resolved_series args)) num_samples c
                target covs st Hn Hl Hsamples)
      as (blocks & st' & t_preds & predictions & Hrun & Hlen & Hrange & Hloop
          & Hinvocations & Hvalues_at);
      [by destruct (resolved_series args); [|simpl; lia] | done..|].
    exists blocks, st', t_preds, predictions.
    assert (values_of St sampler st = Ok (blocks, st')) as Hvalues
      by by rewrite (Hvalues_of _ _ _ _ _ Hwindows).
    split; [by apply Hbuild|]. by split.
Qed.

End predict_properties.

(** [_predict_and_sample] answers with [output_chunk_length] time steps of
    [c] components for each row when the regressor emits that many values
    for each row. *)
Lemma predict_and_sample_shaped {V : Type} (self : @RegressionModel V) (num_samples : Z)
    (k c : nat) :
  (0 < k)%nat → 0 < output_chunk_length self →
  (∀ x, length x = k →
        length (data (regressor_predict (model self) x))
        = (k * Z.to_nat (output_chunk_length self) * c)%nat) →
  sampler_shaped _predict_and_sample self num_samples k
    (Z.to_nat (output_chunk_length self)) c.
Proof.
  intros Hk Hl Hregressor x st Hx. unfold _predict_and_sample.
  destruct (decide (output_chunk_length self < 0)) as [|_]; [lia|]. rewrite Hx.
  destruct (reshape3_shaped k (Z.to_nat (output_chunk_length self)) c
              (data (regressor_predict (model self) x))) as (a & -> & Ha);
    [done | lia | by apply Hregressor |].
  by exists a, st.
Qed.

Lemma summing_regressor_output (l : nat) (x : matrix Z) :
  length (data (regressor_predict (summing_regressor l) x)) = (length x * l)%nat.
Proof.
  simpl. apply length_bind_const. intros row _. by rewrite length_fmap, length_seq.
Qed.



Lemma uncovered_covariate_window_raises_witness :
  plain_predict fitted_model 5 None None None 1
  = Raise (ValueError
      ("The corresponding future_covariate of the series at index 0 isn't sufficiently long. "
       +:+ "Given horizon `n=5`, `min(lags_future_covariates)=-1`, "
       +:+ "`max(lags_future_covariates)=1` and `output_chunk_length=2`" +:+ newline
       +:+ "the future_covariate has to range from 9 until 15 (inclusive), "
       +:+ "but it ranges only from 0 until 13.")).
Proof.
  destruct (uncovered_covariate_window_raises false false
              (λ _ _ past future, Ok (past, future)) (λ _ _ _ _ _, Ok tt)
              pretty (list (matrix Z)) (λ values_ _, values_) unit _predict_and_sample
              fitted_model 5 None None None 1 tt
              {| called_with_single_series := true;
                 resolved_series := [fitted_series];
                 resolved_past := None;
                 resolved_future := Some [fitted_future] |}
              "future" [fitted_future] (-1) [0; 1] 0%nat fitted_series fitted_future)
    as [_ Hraise];
    [reflexivity | discriminate | reflexivity | reflexivity | reflexivity
    | right; repeat split; reflexivity | reflexivity | reflexivity |].
  destruct Hraise as (idx0 & ts0 & cov0 & Hle & Hts0 & Hcov0 & _ & Hpredict);
    [vm_compute; intros [_ Hend]; apply Hend; reflexivity|].
  destruct idx0 as [|idx0]; [|lia].
  injection Hts0 as <-. injection Hcov0 as <-.
  unfold plain_predict. rewrite Hpredict. reflexivity.
Defined.

Lemma predict_covers_horizon_witness :
  ∃ block : list (matrix Z),
    plain_predict fitted_model 3 None None None 1 = Ok (OneForecast block, tt) ∧
    length block = 3%nat ∧
    counted_predict fitted_model 3 None None None 1 = Ok (OneForecast block, (tt, 2%nat)).
Proof.
  set (args := {| called_with_single_series := true;
                  resolved_series := [fitted_series];
                  resolved_past := None;
                  resolved_future := Some [fitted_future] |}).
  destruct (prediction_windows pretty fitted_model 3 (resolved_series args)
              (resolved_past args) (resolved_future args) 1)
    as [[target covs]|e] eqn:Hwindows; [|vm_compute in Hwindows; discriminate Hwindows].
  pose proof Hwindows as Hcomputed. vm_compute in Hcomputed.
  injection Hcomputed as <- <-.
  destruct (predict_covers_horizon false false
              (λ _ _ past future, Ok (past, future)) (λ _ _ _ _ _, Ok tt)
              pretty (list (matrix Z)) (λ values_ _, values_) unit _predict_and_sample
              fitted_model 3 None None None 1 tt args
              ltac:(lia) ltac:(reflexivity) eq_refl)
    as [Hreturns Hruns].
  destruct (Hruns _ _ 1%nat ltac:(lia) Hwindows)
    as (blocks & st' & _ & _ & Hpredict & _).
  - apply (predict_and_sample_shaped fitted_model 1 1 1); [lia | reflexivity |].
    intros x Hx. simpl model. rewrite summing_regressor_output, Hx. reflexivity.
  - exists 2%nat.
    repeat first [apply Forall_nil_2 | apply Forall_cons_2 | split];
      first [reflexivity | lia].
  - apply Forall_cons_2; [exact I|]. apply Forall_cons_2; [|apply Forall_nil_2].
    exists 5%nat, 1%nat.
    repeat first [apply Forall_nil_2 | apply Forall_cons_2 | split];
      first [reflexivity | vm_compute; congruence].
  - left. by eexists.
  - destruct (Hreturns _ _ Hpredict) as (Hcounted & blocks' & _ & Hblock & Hlen & Hsteps).
    change (length blocks' = 1%nat) in Hlen.
    destruct blocks' as [|block [|? ?]]; [discriminate Hlen | | discriminate Hlen].
    exists block. destruct st'. rewrite Hblock in Hpredict, Hcounted.
    split; [exact Hpredict|].
    split; [exact (proj1 (Forall_singleton _ _) Hsteps) | exact Hcounted].
Defined.

(** * Further properties *)

(** ** The constructor *)

Lemma Sorted_lt_le (l : list Z) : Sorted Z.lt l → Sorted Z.le l.
Proof.
  induction 1 as [|x l _ IH Hhd]; constructor; [done|].
  destruct Hhd; constructor. lia.
Qed.

Lemma range2_nil (a b : Z) : range2 a b = [] ↔ b ≤ a.
Proof.
  unfold range2. split.
  - intros Hnil. apply (f_equal length) in Hnil. rewrite length_seqZ in Hnil.
    simpl in Hnil. lia.
  - intros Hle. apply seqZ_nil. lia.
Qed.

Section constructor_more.
Context {V : Type}.
Variable LinearRegression : @Regressor V.

(** What a successful [set_negative_lags] has done. *)
Lemma set_negative_lags_cases key msg_count msg_list given d d' :
  set_negative_lags key msg_count msg_list given d = Ok d' →
  (d' = d ∧ is_int given = false ∧ (is_list given = true → given = List [])) ∨
  (is_int given = true ∧ 0 < int_of given ∧
   d' = <[key := range2 (- int_of given) 0]> d) ∨
  (∃ l, given = List l ∧ l ≠ [] ∧ Forall negative_int l ∧
        d' = <[key := sorted (int_of <$> l)]> d).
Proof.
  intros Hset. destruct (is_int given) eqn:Hint.
  - right. left. unfold set_negative_lags in Hset. rewrite Hint in Hset.
    bind_inv Hset as ? Hcount. injection Hset as <-.
    apply raise_if_not_Ok, bool_decide_eq_true in Hcount. split; [done|]. split; [lia | done].
  - destruct given as [| | | l | |]; try discriminate Hint;
      try (left; unfold set_negative_lags in Hset; simpl in Hset;
           injection Hset as <-; by repeat split).
    apply set_negative_lags_list in Hset as [Hall ->].
    destruct (decide (l = [])) as [->|Hl]; [left; by repeat split|].
    right. right. by exists l.
Qed.

Lemma negative_lags_sorted (l : list val) :
  l ≠ [] → Forall negative_int l →
  sorted (int_of <$> l) ≠ [] ∧ Sorted Z.le (sorted (int_of <$> l)) ∧
  Forall (λ lag, lag < 0) (sorted (int_of <$> l)).
Proof.
  intros Hl Hall. split; [|split; [apply sorted_Sorted|]].
  - intros Hnil. apply (f_equal length) in Hnil.
    rewrite (Permutation_length (sorted_Permutation _)), length_fmap in Hnil.
    by destruct l.
  - rewrite (sorted_Permutation _). apply Forall_fmap.
    eapply Forall_impl; [exact Hall|]. by intros v (z & -> & Hz).
Qed.

Lemma count_lags (n : Z) :
  0 < n →
  range2 (- n) 0 ≠ [] ∧ Sorted Z.le (range2 (- n) 0) ∧ Forall (λ lag, lag < 0) (range2 (- n) 0).
Proof.
  intros Hn. split; [rewrite range2_nil; lia|].
  split; [apply Sorted_lt_le, range2_Sorted|].
  apply Forall_forall. intros x Hx%elem_of_range2. lia.
Qed.

(** What a successful [set_future_lags] has done. *)
Lemma set_future_lags_cases given d d' :
  set_future_lags given d = Ok d' →
  d' = d ∨ ∃ l, d' = <["future" := l]> d ∧ l ≠ [] ∧ Sorted Z.le l.
Proof.
  unfold set_future_lags. intros Hset.
  destruct given as [| | | l | l |]; try (left; by injection Hset as <-).
  - bind_inv Hset as ? Hchecks. injection Hset as <-.
    destruct (decide (l = [])) as [|Hl]; [by left|]. right.
    eexists. split; [done|]. split; [|apply sorted_Sorted].
    intros Hnil. apply (f_equal length) in Hnil.
    rewrite (Permutation_length (sorted_Permutation _)), length_fmap in Hnil.
    by destruct l.
  - destruct l as [|a [|b [|]]]; try (left; by injection Hset as <-).
    bind_inv Hset as ? Hsigns. apply raise_if_not_Ok, andb_true_iff in Hsigns as [Ha Hb].
    apply bool_decide_eq_true in Ha, Hb.
    destruct (negb (is_none a) && negb (is_none b)); [|left; by injection Hset as <-].
    destruct (negb (bool_decide (int_of a = 0) && bool_decide (int_of b = 0))) eqn:Hzero;
      [|left; by injection Hset as <-].
    injection Hset as <-. right. eexists. split; [done|].
    split; [|apply Sorted_lt_le, range2_Sorted].
    rewrite range2_nil. apply negb_true_iff, andb_false_iff in Hzero.
    destruct Hzero as [Hz|Hz]; apply bool_decide_eq_false in Hz; lia.
Qed.

(** The stages of a successful construction, with the checks on the types
    of the arguments. *)
Lemma init_stages lags_ lags_past lags_future ocl model_ self :
  __init__ LinearRegression lags_ lags_past lags_future ocl model_ = Ok self →
  ∃ d1 d2 msg1 msg2 msg3 msg4,
    has_fit (default LinearRegression model_) = true ∧
    has_predict (default LinearRegression model_) = true ∧
    is_none lags_ && is_none lags_future && is_none lags_past = false ∧
    check_lags_type lags_ "lags" = Ok tt ∧
    check_lags_type lags_past "lags_past_covariates" = Ok tt ∧
    check_future_lags_type lags_future = Ok tt ∧
    set_negative_lags "target" msg1 msg2 lags_ ∅ = Ok d1 ∧
    set_negative_lags "past" msg3 msg4 lags_past d1 = Ok d2 ∧
    set_future_lags lags_future d2 = Ok (lags self) ∧
    is_int ocl = true ∧ 0 < int_of ocl ∧
    self = {| model := default LinearRegression model_;
              lags := lags self;
              output_chunk_length := int_of ocl;
              input_dim := None;
              training_series := None;
              past_covariate_series := None;
              future_covariate_series := None |}.
Proof.
  unfold __init__. intros H.
  bind_inv H as ? Hfit. bind_inv H as ? Hpredict. bind_inv H as ? Hnone.
  bind_inv H as [] Htarget. bind_inv H as [] Hpast. bind_inv H as [] Hfuture.
  bind_inv H as d1 Hd1. bind_inv H as d2 Hd2. bind_inv H as d3 Hd3.
  bind_inv H as ? Hocl. injection H as <-. simpl.
  apply raise_if_not_Ok in Hocl. apply andb_true_iff in Hocl as [Hint Hpos].
  apply bool_decide_eq_true in Hpos. apply raise_if_Ok in Hnone.
  destruct (has_fit (default LinearRegression model_)); [|done].
  destruct (has_predict (default LinearRegression model_)); [|done].
  exists d1, d2. do 4 eexists. repeat split; try eassumption. lia.
Qed.

Lemma lags_well_formed_empty : lags_well_formed ∅.
Proof. intros key l Hl. by rewrite lookup_empty in Hl. Qed.

Lemma lags_well_formed_insert (d : gmap string (list Z)) (key : string) (l : list Z) :
  lags_well_formed d →
  key ∈ ["target"; "past"; "future"] → l ≠ [] → Sorted Z.le l →
  (key ≠ "future" → Forall (λ lag, lag < 0) l) →
  lags_well_formed (<[key := l]> d).
Proof.
  intros Hd Hkey Hl Hsorted Hneg key' l' Hlookup.
  destruct (decide (key' = key)) as [->|Hne].
  - rewrite lookup_insert_eq in Hlookup. by injection Hlookup as <-.
  - rewrite lookup_insert_ne in Hlookup by done. by apply Hd.
Qed.

(** In an ascending list the first element is the least and the last one
    the greatest. *)
Lemma Sorted_le_bounds (first : Z) (rest : list Z) :
  Sorted Z.le (first :: rest) →
  Forall (λ lag, first ≤ lag ≤ List.last (first :: rest) first) (first :: rest).
Proof.
  intros Hsorted. apply Sorted_StronglySorted in Hsorted; [|intros ???; lia].
  assert (∀ l d y, StronglySorted Z.le l → y ∈ l → y ≤ List.last l d) as Hlast.
  { clear. intros l d y Hl. revert y. induction Hl as [|a l Hl IH Ha]; intros y Hy.
    - by apply elem_of_nil in Hy.
    - destruct l as [|b l]; [apply list_elem_of_singleton in Hy as ->; simpl; lia|].
      change (List.last (a :: b :: l) d) with (List.last (b :: l) d).
      apply elem_of_cons in Hy as [->|Hy]; [|by apply IH].
      apply (proj1 (Forall_forall _ _) Ha). by apply List_last_elem. }
  apply Forall_forall. intros y Hy. split; [|by apply Hlast].
  apply StronglySorted_inv in Hsorted as [_ Hfirst].
  apply elem_of_cons in Hy as [->|Hy]; [lia|].
  by apply (proj1 (Forall_forall _ _) Hfirst).
Qed.

(** X1.  A model the constructor returns predicts at least one step at a
    time; it holds lags for the target, the past and the future covariates
    only; none of its lag lists is empty; every list is in ascending order,
    so that its first element is its least lag and its last element its
    greatest; and the lags of the target and of the past covariates are
    strictly negative. *)
Theorem constructed_model_invariants (lags_ lags_past lags_future ocl : val)
    (model_ : option (@Regressor V)) (self : @RegressionModel V) :
  __init__ LinearRegression lags_ lags_past lags_future ocl model_ = Ok self →
  1 ≤ output_chunk_length self ∧
  lags_well_formed (lags self) ∧
  ∀ key first rest, lags self !! key = Some (first :: rest) →
    Forall (λ lag, first ≤ lag ≤ List.last (first :: rest) first) (first :: rest).
Proof.
  intros (d1 & d2 & m1 & m2 & m3 & m4 & _ & _ & _ & _ & _ & _ & Hd1 & Hd2 & Hd3
          & _ & Hocl & Hself)%init_stages.
  assert (lags_well_formed d1) as Hwf1.
  { apply set_negative_lags_cases in Hd1
      as [(-> & _) | [(_ & Hn & ->) | (l & _ & Hl & Hall & ->)]].
    - apply lags_well_formed_empty.
    - destruct (count_lags _ Hn) as (? & ? & ?).
      apply lags_well_formed_insert; [apply lags_well_formed_empty | set_solver | done..].
    - destruct (negative_lags_sorted l Hl Hall) as (? & ? & ?).
      apply lags_well_formed_insert; [apply lags_well_formed_empty | set_solver | done..]. }
  assert (lags_well_formed d2) as Hwf2.
  { apply set_negative_lags_cases in Hd2
      as [(-> & _) | [(_ & Hn & ->) | (l & _ & Hl & Hall & ->)]]; [done | |].
    - destruct (count_lags _ Hn) as (? & ? & ?).
      apply lags_well_formed_insert; [done | set_solver | done..].
    - destruct (negative_lags_sorted l Hl Hall) as (? & ? & ?).
      apply lags_well_formed_insert; [done | set_solver | done..]. }
  assert (lags_well_formed (lags self)) as Hwf.
  { apply set_future_lags_cases in Hd3 as [-> | (l & -> & Hl & Hsorted)]; [done|].
    apply lags_well_formed_insert; [done | set_solver | done..]. }
  split; [rewrite Hself; simpl; lia|]. split; [done|].
  intros key first rest Hkey. apply Sorted_le_bounds. by apply (Hwf key).
Qed.

(** X2.  The constructor looks at the regressor first: it raises
    [Exception] when the regressor lacks [fit] or [predict], whatever the
    other arguments are.  For a regressor with both methods, and lag
    arguments from which no list of lags has to be built with [range]
    (none is a positive count, and the future lags are not a pair of two
    numbers from 0 on other than (0, 0)), it raises nothing but
    [ValueError]: no ill-typed or out-of-range lag specification makes it
    fail with another exception. *)
Theorem constructor_exceptions (lags_ lags_past lags_future ocl : val)
    (model_ : option (@Regressor V)) :
  let regressor := default LinearRegression model_ in
  let constructed := __init__ LinearRegression lags_ lags_past lags_future ocl model_ in
  (has_fit regressor = false →
   constructed = Raise (Exception "Provided model object must have a fit() method")) ∧
  (has_fit regressor = true → has_predict regressor = false →
   constructed = Raise (Exception "Provided model object must have a predict() method")) ∧
  (has_fit regressor = true → has_predict regressor = true →
   (∀ count, lags_ = Int count → count ≤ 0) →
   (∀ count, lags_past = Int count → count ≤ 0) →
   (∀ a b, lags_future = Tuple [Int a; Int b] → a < 0 ∨ b < 0 ∨ (a = 0 ∧ b = 0)) →
   ∀ e, constructed = Raise e → ∃ msg, e = ValueError msg).
Proof.
  intros regressor constructed. subst regressor constructed. split; [|split].
  - intros Hfit. unfold __init__. by rewrite Hfit.
  - intros Hfit Hpredict. unfold __init__. by rewrite Hfit, Hpredict.
  - intros Hfit Hpredict _ _ _ e. by apply init_Raise.
Qed.

Lemma check_lags_type_Ok (given : val) (name : string) :
  check_lags_type given name = Ok tt →
  given = None_ ∨ (∃ z, given = Int z) ∨ ∃ l, given = List l.
Proof.
  unfold check_lags_type. intros Hcheck. bind_inv Hcheck as ? Htype.
  apply raise_if_Ok in Hcheck. apply raise_if_not_Ok in Htype.
  destruct given; try done; eauto.
Qed.

Lemma check_future_lags_type_Ok (given : val) :
  check_future_lags_type given = Ok tt →
  given = None_ ∨ (∃ l, given = List l) ∨ ∃ a b, given = Tuple [Int a; Int b].
Proof.
  unfold check_future_lags_type. intros Hcheck. bind_inv Hcheck as ? Htype.
  apply raise_if_not_Ok in Htype.
  destruct given as [| | | l | l |]; try done; eauto.
  bind_inv Hcheck as ? Hpair. apply raise_if_not_Ok in Hpair. apply raise_if_Ok in Hcheck.
  destruct l as [|a [|b [|]]]; try done.
  destruct a, b; try done. eauto.
Qed.

(** The group a count or a list of negative lags sets. *)
Lemma set_negative_lags_lookup key msg_count msg_list given name d d' :
  check_lags_type given name = Ok tt →
  set_negative_lags key msg_count msg_list given d = Ok d' →
  d' !! key =
    match given with
    | Int n => Some (range2 (- n) 0)
    | List (v :: l) => Some (sorted (int_of <$> v :: l))
    | _ => d !! key
    end.
Proof.
  intros [-> | [[z ->] | [l ->]]]%check_lags_type_Ok Hset.
  - by injection Hset as <-.
  - unfold set_negative_lags in Hset. simpl in Hset.
    bind_inv Hset as ? Hcount. injection Hset as <-. by rewrite lookup_insert_eq.
  - apply set_negative_lags_list in Hset as [_ ->].
    destruct l; simpl; [done | by rewrite lookup_insert_eq].
Qed.

(** X3.  How the arguments of a successful construction decide which groups
    of lags the model has.  A group is absent exactly when its argument is
    [None] or the empty list or, for the future covariates, the pair
    (0, 0): so a model can be constructed without any group, by an empty
    list.  A count [n] for the target or the past covariates sets the [n]
    lags from [-n] to [-1]; a list for the future covariates sets its
    integers, of either sign, in ascending order. *)
Theorem lag_groups_of_arguments (lags_ lags_past lags_future ocl : val)
    (model_ : option (@Regressor V)) (self : @RegressionModel V) :
  __init__ LinearRegression lags_ lags_past lags_future ocl model_ = Ok self →
  let absent := λ given : val, given = None_ ∨ given = List [] in
  let counted := λ (given : val) (key : string),
    ∀ n, given = Int n →
      0 < n ∧ ∃ l, lags self !! key = Some l ∧ length l = Z.to_nat n ∧
                   ∀ lag, lag ∈ l ↔ - n ≤ lag ≤ -1 in
  (lags self !! "target" = None ↔ absent lags_) ∧
  (lags self !! "past" = None ↔ absent lags_past) ∧
  (lags self !! "future" = None ↔
   absent lags_future ∨ lags_future = Tuple [Int 0; Int 0]) ∧
  counted lags_ "target" ∧
  counted lags_past "past" ∧
  (∀ v l, lags_future = List (v :: l) →
     Forall (λ v', ∃ z, v' = Int z) (v :: l) ∧
     lags self !! "future" = Some (sorted (int_of <$> v :: l))).
Proof.
  intros (d1 & d2 & m1 & m2 & m3 & m4 & _ & _ & _ & Htype & Htype_past & Htype_future
          & Hd1 & Hd2 & Hd3 & _)%init_stages absent counted.
  pose proof (set_negative_lags_lookup _ _ _ _ _ _ _ Htype Hd1) as Htarget1.
  pose proof (set_negative_lags_lookup _ _ _ _ _ _ _ Htype_past Hd2) as Hpast2.
  assert (lags self !! "target" = d1 !! "target") as Htarget.
  { rewrite (set_future_lags_other _ _ _ "target" Hd3) by done.
    by rewrite (set_negative_lags_other _ _ _ _ _ _ "target" Hd2). }
  assert (lags self !! "past" = d2 !! "past") as Hpast
    by by rewrite (set_future_lags_other _ _ _ "past" Hd3).
  assert (d1 !! "past" = None) as Hpast1.
  { rewrite (set_negative_lags_other _ _ _ _ _ _ "past" Hd1) by done. apply lookup_empty. }
  assert (d2 !! "future" = None) as Hfuture2.
  { rewrite (set_negative_lags_other _ _ _ _ _ _ "future" Hd2) by done.
    rewrite (set_negative_lags_other _ _ _ _ _ _ "future" Hd1) by done. apply lookup_empty. }
  assert (∀ (given : val) (key : string) (found : option (list Z)),
    found = match given with
            | Int n => Some (range2 (- n) 0)
            | List (v :: l) => Some (sorted (int_of <$> v :: l))
            | _ => None
            end →
    (given = None_ ∨ (∃ z, given = Int z) ∨ ∃ l, given = List l) →
    (found = None ↔ absent given)) as Habsent.
  { intros given key found -> [-> | [[z ->] | [[|v l] ->]]]; subst absent; simpl.
    - split; [by left | done].
    - split; [done | by intros [|]].
    - split; [by right | done].
    - split; [done | by intros [|]]. }
  assert (∀ (given : val) (key : string) name msg_count msg_list d d',
    check_lags_type given name = Ok tt →
    set_negative_lags key msg_count msg_list given d = Ok d' →
    lags self !! key = d' !! key → counted given key) as Hcounted.
  { intros given key name msg_count msg_list d d' Hcheck Hset Hkey n ->.
    rewrite Hkey, (set_negative_lags_lookup _ _ _ _ _ _ _ Hcheck Hset).
    unfold set_negative_lags in Hset. simpl in Hset. bind_inv Hset as ? Hcount.
    apply raise_if_not_Ok, bool_decide_eq_true in Hcount.
    split; [lia|]. eexists. split; [done|].
    split; [unfold range2; rewrite length_seqZ; lia|].
    intros lag. rewrite elem_of_range2. lia. }
  split; [|split; [|split; [|split; [|split]]]].
  - rewrite Htarget, Htarget1, lookup_empty.
    apply (Habsent lags_ "target"); [done | by eapply check_lags_type_Ok].
  - rewrite Hpast, Hpast2, Hpast1.
    apply (Habsent lags_past "past"); [done | by eapply check_lags_type_Ok].
  - apply check_future_lags_type_Ok in Htype_future as [-> | [[l ->] | (a & b & ->)]].
    + injection Hd3 as <-. rewrite Hfuture2. split; [by left; left | done].
    + unfold set_future_lags in Hd3. bind_inv Hd3 as ? Hchecks. injection Hd3 as <-.
      destruct l as [|v l]; simpl.
      * rewrite Hfuture2. split; [by left; right | done].
      * rewrite lookup_insert_eq. split; [done | by intros [[|]|]].
    + apply set_future_lags_pair in Hd3 as (Ha & Hb & ->).
      destruct (decide (a = 0 ∧ b = 0)) as [[-> ->]|Hne].
      * rewrite Hfuture2. split; [by right | done].
      * rewrite lookup_insert_eq. split; [done|].
        intros [[|]|[= -> ->]]; [done | done | by destruct Hne].
  - by eapply (Hcounted lags_ "target").
  - by eapply (Hcounted lags_past "past").
  - intros v l ->. unfold set_future_lags in Hd3. bind_inv Hd3 as us Hchecks.
    injection Hd3 as <-. simpl. rewrite lookup_insert_eq. split; [|done].
    assert (∃ us', for_each
      (λ lag, raise_if (negb (is_int lag) || is_bool lag)
                ("Every element of `lags_future_covariates` must be an integer. Given: "
                 +:+ repr (List (v :: l)) +:+ ".")) (v :: l) = Ok us') as Hall by eauto.
    apply for_each_raise_if in Hall. eapply Forall_impl; [exact Hall|].
    intros v' Hv'. simpl in Hv'. destruct v'; try done. eauto.
Qed.

End constructor_more.

Lemma constructed_model_invariants_witness :
  ∃ self : @RegressionModel Z,
    __init__ (zero_regressor 0) (Int 2) (List [Int (-1); Int (-3)])
      (Tuple [Int 1; Int 2]) (Int 2) None = Ok self ∧
    1 ≤ output_chunk_length self ∧
    lags_well_formed (lags self).
Proof.
  destruct (__init__ (zero_regressor 0) (Int 2) (List [Int (-1); Int (-3)])
              (Tuple [Int 1; Int 2]) (Int 2) None) as [self|e] eqn:Hinit;
    [|vm_compute in Hinit; discriminate Hinit].
  exists self. split; [reflexivity|].
  destruct (constructed_model_invariants _ _ _ _ _ _ _ Hinit) as (Hocl & Hlags & _).
  split; [exact Hocl | exact Hlags].
Defined.

Lemma lag_groups_of_arguments_witness :
  ∃ self : @RegressionModel Z,
    __init__ (zero_regressor 0) (List []) None_ None_ (Int 1) None = Ok self ∧
    lags self !! "target" = None.
Proof.
  destruct (__init__ (zero_regressor 0) (List []) None_ None_ (Int 1) None)
    as [self|e] eqn:Hinit; [|vm_compute in Hinit; discriminate Hinit].
  exists self. split; [reflexivity|].
  destruct (lag_groups_of_arguments _ _ _ _ _ _ _ Hinit) as (Htarget & _).
  apply Htarget. right. reflexivity.
Defined.

(** ** Settings derived from the lags *)

Lemma min_of_spec (x : Z) (l : list Z) :
  min_of x l ∈ x :: l ∧ Forall (λ y, min_of x l ≤ y) (x :: l).
Proof.
  unfold min_of. induction l as [|y l [Hin Hall]]; simpl.
  - split; [constructor | by repeat constructor].
  - apply Forall_cons in Hall as [Hx Hl]. split.
    + destruct (Z.min_spec y (foldr Z.min x l)) as [[_ ->]|[_ ->]];
        [rewrite !elem_of_cons; by eauto|].
      rewrite !elem_of_cons. rewrite elem_of_cons in Hin. by destruct Hin; eauto.
    + constructor; [lia|]. constructor; [lia|].
      eapply Forall_impl; [exact Hl|]. intros z Hz. simpl in *. lia.
Qed.

Lemma max_of_spec (x : Z) (l : list Z) :
  max_of x l ∈ x :: l ∧ Forall (λ y, y ≤ max_of x l) (x :: l).
Proof.
  unfold max_of. induction l as [|y l [Hin Hall]]; simpl.
  - split; [constructor | by repeat constructor].
  - apply Forall_cons in Hall as [Hx Hl]. split.
    + destruct (Z.max_spec y (foldr Z.max x l)) as [[_ ->]|[_ ->]];
        [|rewrite !elem_of_cons; by eauto].
      rewrite !elem_of_cons. rewrite elem_of_cons in Hin. by destruct Hin; eauto.
    + constructor; [lia|]. constructor; [lia|].
      eapply Forall_impl; [exact Hl|]. intros z Hz. simpl in *. lia.
Qed.

Section settings_properties.
Context {V : Type}.
Implicit Types (self : @RegressionModel V) (ts cov : @TimeSeries V).

(** A lag of one of the two kinds of covariates. *)
Lemma covariate_lag_elem self (lag : Z) :
  lag ∈ default [] (lags self !! "past") ++ default [] (lags self !! "future") ↔
  ∃ key l, (key = "past" ∨ key = "future") ∧ lags self !! key = Some l ∧ lag ∈ l.
Proof.
  rewrite elem_of_app. split.
  - intros [Hin|Hin].
    + destruct (lags self !! "past") as [l|] eqn:Hl; [|by apply elem_of_nil in Hin].
      exists "past", l. by eauto.
    + destruct (lags self !! "future") as [l|] eqn:Hl; [|by apply elem_of_nil in Hin].
      exists "future", l. by eauto.
  - intros (key & l & [-> | ->] & Hl & Hin); rewrite Hl; [by left | by right].
Qed.

(** X4.  The encoder settings span the covariate lags: every lag of the
    past or future covariates lies between [- n_steps_back_inclusive] and
    [n_steps_ahead_exclusive - 1]; a positive number of steps back is
    reached by a lag, and so is a number of steps ahead above 1; as soon as
    there is a covariate lag, at least one step ahead is asked for (also
    when every lag is negative) and the two flags tell which groups the
    model has.  Without any covariate lag all four settings are 0 or
    [False], also for a group that is present with an empty list. *)
Theorem encoder_settings_window self :
  let '(n_back, n_ahead, takes_past, takes_future) := _model_encoder_settings self in
  let covariate_lag := λ lag : Z,
    ∃ key l, (key = "past" ∨ key = "future") ∧ lags self !! key = Some l ∧ lag ∈ l in
  0 ≤ n_back ∧ 0 ≤ n_ahead ∧
  (∀ lag, covariate_lag lag → - n_back ≤ lag < n_ahead) ∧
  (0 < n_back → covariate_lag (- n_back)) ∧
  (1 < n_ahead → covariate_lag (n_ahead - 1)) ∧
  ((∃ lag, covariate_lag lag) →
     1 ≤ n_ahead ∧
     (takes_past = true ↔ is_Some (lags self !! "past")) ∧
     (takes_future = true ↔ is_Some (lags self !! "future"))) ∧
  ((¬ ∃ lag, covariate_lag lag) →
     n_back = 0 ∧ n_ahead = 0 ∧ takes_past = false ∧ takes_future = false).
Proof.
  unfold _model_encoder_settings.
  pose proof (covariate_lag_elem self) as Helem.
  destruct (default [] (lags self !! "past") ++ default [] (lags self !! "future"))
    as [|lag0 rest].
  - split; [done|]. split; [done|].
    assert (∀ lag, ¬ ∃ key l, (key = "past" ∨ key = "future")
                              ∧ lags self !! key = Some l ∧ lag ∈ l) as Hnone.
    { intros lag Hlag. apply Helem in Hlag. by apply elem_of_nil in Hlag. }
    split; [intros lag Hlag; by destruct (Hnone lag)|].
    split; [lia|]. split; [lia|].
    split; [intros [lag Hlag]; by destruct (Hnone lag) | done].
  - destruct (min_of_spec lag0 rest) as [Hmin_in Hmin].
    destruct (max_of_spec lag0 rest) as [Hmax_in Hmax].
    split; [lia|]. split; [lia|]. split.
    { intros lag Hlag%Helem.
      pose proof (proj1 (Forall_forall _ _) Hmin lag Hlag).
      pose proof (proj1 (Forall_forall _ _) Hmax lag Hlag). simpl in *. lia. }
    split.
    { intros Hback. apply Helem.
      replace (- Z.abs (Z.min (min_of lag0 rest) 0)) with (min_of lag0 rest) by lia. done. }
    split.
    { intros Hahead. apply Helem.
      replace (Z.max (max_of lag0 rest) 0 + 1 - 1) with (max_of lag0 rest) by lia. done. }
    split.
    { intros _. split; [lia|]. by rewrite !bool_decide_eq_true. }
    intros Hnone. destruct Hnone. exists lag0. apply Helem. constructor.
Qed.

(** What the prediction check needs of the settings: a covariate lag lies
    in the window, and the flag of the future covariates tells whether the
    model has future lags. *)
Lemma encoder_settings_bounds self (lag : Z) :
  (∃ key l, (key = "past" ∨ key = "future") ∧ lags self !! key = Some l ∧ lag ∈ l) →
  let '(n_back, n_ahead, _, takes_future) := _model_encoder_settings self in
  - n_back ≤ lag < n_ahead ∧ 1 ≤ n_ahead ∧
  (takes_future = true ↔ is_Some (lags self !! "future")).
Proof.
  intros Hlag%covariate_lag_elem. unfold _model_encoder_settings.
  destruct (default [] (lags self !! "past") ++ default [] (lags self !! "future"))
    as [|lag0 rest]; [by apply elem_of_nil in Hlag|].
  destruct (min_of_spec lag0 rest) as [_ Hmin]. destruct (max_of_spec lag0 rest) as [_ Hmax].
  pose proof (proj1 (Forall_forall _ _) Hmin lag Hlag).
  pose proof (proj1 (Forall_forall _ _) Hmax lag Hlag).
  split; [simpl in *; lia|]. split; [lia | by rewrite bool_decide_eq_true].
Qed.

(** The horizon of the encoders is the horizon of the prediction or
    more. *)
Lemma encoders_n_ge self (n : Z) : n ≤ _get_encoders_n self n.
Proof.
  unfold _get_encoders_n, _model_encoder_settings.
  destruct (default [] (lags self !! "past") ++ default [] (lags self !! "future"))
    as [|lag0 rest]; [simpl; lia|].
  destruct (negb _); lia.
Qed.

(** X5.  [_get_encoders_n n] is never less than [n].  And for a model
    whose past lags are negative, a horizon of at least one step and a
    positive [output_chunk_length], both below 2^53 (where the ceiling that
    [predict] takes of their quotient in doubles is the exact one):
    covariates that reach from [n_steps_back_inclusive - 1] steps before
    the end of the target series up to [_get_encoders_n n] steps after it
    pass the check [predict] makes on the covariates of either kind. *)
Theorem encoders_horizon_covers_prediction self (n : Z) ts cov (key : string)
    (lag_min : Z) (rest : list Z) :
  let n_back := (_model_encoder_settings self).1.1.1 in
  let steps := ceil_div n (output_chunk_length self) in
  let lag_max := List.last (lag_min :: rest) lag_min in
  n ≤ _get_encoders_n self n ∧
  (1 ≤ n → 0 < output_chunk_length self →
   double_exact n → double_exact (output_chunk_length self) →
   0 < freq ts →
   key = "past" ∨ key = "future" →
   lags self !! key = Some (lag_min :: rest) →
   (∀ l, lags self !! "past" = Some l → Forall (λ lag, lag < 0) l) →
   start_time cov ≤ end_time ts + (1 - n_back) * freq ts →
   end_time ts + _get_encoders_n self n * freq ts ≤ end_time cov →
   covers cov (first_req_ts ts lag_min) (last_req_ts self steps ts lag_max) = true).
Proof.
  intros n_back steps lag_max. split; [apply encoders_n_ge|].
  intros Hn Hocl _ _ Hfreq Hkey Hlags Hpast Hstart Hend.
  assert (lag_max ∈ lag_min :: rest) as Hmax_in by by apply List_last_elem.
  assert (∀ lag, lag ∈ lag_min :: rest →
            ∃ key l, (key = "past" ∨ key = "future") ∧ lags self !! key = Some l ∧ lag ∈ l)
    as Hcov by (intros lag Hlag; by exists key, (lag_min :: rest)).
  pose proof (encoder_settings_bounds self lag_min (Hcov _ ltac:(constructor))) as Hmin.
  pose proof (encoder_settings_bounds self lag_max (Hcov _ Hmax_in)) as Hmax.
  subst n_back. unfold _get_encoders_n in *.
  destruct (_model_encoder_settings self) as [[[n_back n_ahead] takes_past] takes_future].
  simpl in Hstart.
  destruct Hmin as (Hmin & Hahead1 & Hfuture). destruct Hmax as [Hmax _].
  destruct (ceil_div_bounds n (output_chunk_length self) Hn Hocl) as [Hsteps Hceil].
  fold steps in Hsteps, Hceil.
  assert (lag_max ≤ (if negb takes_future then n else n + (n_ahead - 1)) - n) as Hreach.
  { destruct takes_future; simpl; [lia|].
    destruct Hkey as [-> | ->].
    - pose proof (proj1 (Forall_forall _ _) (Hpast _ Hlags) lag_max Hmax_in). simpl in *. lia.
    - assert (false = true) as Habsurd by (apply Hfuture; by rewrite Hlags). done. }
  apply andb_true_iff. split; apply bool_decide_eq_true.
  - unfold first_req_ts, first_pred_ts. nia.
  - unfold last_req_ts, last_pred_ts, first_pred_ts.
    assert ((1 + (steps - 1) * output_chunk_length self + lag_max) * freq ts
            ≤ (if negb takes_future then n else n + (n_ahead - 1)) * freq ts) as Hle
      by (apply Z.mul_le_mono_nonneg_r; lia).
    nia.
Qed.

Lemma index_last {A} (l : list A) (d : A) :
  l ≠ [] → index l (-1) = Ok (List.last l d).
Proof.
  intros Hl. unfold index. destruct (decide (-1 < 0)) as [_|]; [|lia].
  destruct (decide (-1 + Z.of_nat (length l) < 0)) as [Hneg|_];
    [destruct l; [done | simpl in Hneg; lia]|].
  replace (Z.to_nat (-1 + Z.of_nat (length l))) with (pred (length l)) by lia.
  rewrite <- last_lookup.
  induction l as [|x l IH]; [done|]. destruct l as [|y l]; [done|].
  rewrite last_cons_cons. change (List.last (x :: y :: l) d) with (List.last (y :: l) d).
  by apply IH.
Qed.

Lemma for_each_fmap_Ok {A B} (f : A → result B) (g : A → B) (l : list A) :
  Forall (λ x, f x = Ok (g x)) l → for_each f l = Ok (g <$> l).
Proof.
  induction 1 as [|x l Hx _ IH]; [done|]. simpl. by rewrite Hx, IH.
Qed.

(** X6.  For a model whose lag lists are not empty, a horizon of at least
    one step and [extra_shift] the greatest of 0 and the last lags of the
    groups: with [overlap_end] the last prediction time lies [extra_shift]
    steps before the end of the series, and without it
    [forecast_horizon + extra_shift - 1] steps before the end, so that the
    forecast and the future lags still fit in the series; a series with no
    more time steps than that makes the method raise [IndexError]. *)
Theorem last_prediction_time self (series : @TimeSeries V) (forecast_horizon : Z)
    (overlap_end : bool) :
  lags self ≠ ∅ →
  (∀ key l, lags self !! key = Some l → l ≠ []) →
  1 ≤ forecast_horizon →
  ∃ extra_shift : Z,
    0 ≤ extra_shift ∧
    (∀ key l, lags self !! key = Some l → List.last l 0 ≤ extra_shift) ∧
    (extra_shift = 0 ∨ ∃ key l, lags self !! key = Some l ∧ List.last l 0 = extra_shift) ∧
    let back := if overlap_end then extra_shift else forecast_horizon + extra_shift - 1 in
    _get_last_prediction_time self series forecast_horizon overlap_end
    = if decide (back < Z.of_nat (n_timesteps series))
      then Ok (end_time series - back * freq series)
      else Raise IndexError.
Proof.
  intros Hlags Hnonempty Hhorizon. unfold _get_last_prediction_time.
  set (groups := map_to_list (lags self)).
  assert (∀ key l, (key, l) ∈ groups ↔ lags self !! key = Some l) as Hgroups
    by (intros key l; apply elem_of_map_to_list).
  rewrite (for_each_fmap_Ok _ (λ l, List.last l 0)).
  2:{ apply Forall_forall. intros l ([key l'] & -> & Hin)%list_elem_of_fmap.
      apply index_last. apply (Hnonempty key). by apply Hgroups. }
  rewrite bind_Ok_l.
  destruct ((λ l, List.last l 0) <$> groups.*2) as [|lag0 rest] eqn:Hlasts.
  { apply fmap_nil_inv, fmap_nil_inv in Hlasts. by apply map_to_list_empty_iff in Hlasts. }
  rewrite bind_Ok_l. cbv zeta.
  destruct (max_of_spec lag0 rest) as [Hmax_in Hmax]. rewrite <- Hlasts in Hmax_in, Hmax.
  set (extra_shift := Z.max 0 (max_of lag0 rest)).
  exists extra_shift. split; [lia|]. split.
  { intros key l Hl.
    assert (List.last l 0 ∈ (λ l, List.last l 0) <$> groups.*2) as Hin.
    { apply list_elem_of_fmap. exists l. split; [done|].
      apply list_elem_of_fmap. exists (key, l). split; [done | by apply Hgroups]. }
    pose proof (proj1 (Forall_forall _ _) Hmax _ Hin). simpl in *. lia. }
  split.
  { destruct (decide (extra_shift = 0)) as [|Hne]; [by left|]. right.
    apply list_elem_of_fmap in Hmax_in as (l & Hlast & ([key l'] & -> & Hin)%list_elem_of_fmap).
    exists key, l'. split; [by apply Hgroups|]. simpl in Hlast. lia. }
  pose proof (length_time_index series) as Hlen.
  assert (∀ (i : Z) (back : Z), 0 ≤ back → i = - 1 - back →
    index (time_index series) i
    = if decide (back < Z.of_nat (n_timesteps series))
      then Ok (end_time series - back * freq series) else Raise IndexError) as Hindex.
  { intros i back Hback ->. unfold index. rewrite Hlen.
    destruct (decide (-1 - back < 0)) as [_|]; [|lia].
    destruct (decide (-1 - back + Z.of_nat (n_timesteps series) < 0)) as [Hshort|Hfits].
    - by rewrite decide_False by lia.
    - rewrite decide_True by lia. rewrite lookup_time_index by lia.
      f_equal. unfold end_time. rewrite Z2Nat.id by lia. ring. }
  destruct overlap_end; apply Hindex; lia.
Qed.

End settings_properties.

Lemma encoders_horizon_covers_prediction_witness :
  3 ≤ _get_encoders_n example_model 3 ∧
  covers (univariate 0 14 id)
    (first_req_ts (univariate 0 10 id) 0)
    (last_req_ts example_model (ceil_div 3 2) (univariate 0 10 id) 1) = true.
Proof.
  destruct (encoders_horizon_covers_prediction example_model 3 (univariate 0 10 id)
              (univariate 0 14 id) "future" 0 [1]) as [Hn Hcovers].
  split; [exact Hn|]. apply Hcovers; first [lia | reflexivity | by right | idtac].
  - intros l [= <-]. repeat constructor.
  - vm_compute. discriminate.
Defined.

Lemma last_prediction_time_witness :
  ∃ extra_shift : Z,
    0 ≤ extra_shift ∧
    _get_last_prediction_time example_model (univariate 0 10 id) 3 false
    = if decide (3 + extra_shift - 1 < 10)
      then Ok (9 - (3 + extra_shift - 1) * 1)
      else Raise IndexError.
Proof.
  destruct (last_prediction_time example_model (univariate 0 10 id) 3 false)
    as (extra_shift & Hextra & _ & _ & Htime).
  - intros Hempty. apply (f_equal (λ d, d !! "past")) in Hempty. discriminate Hempty.
  - intros key l Hl%elem_of_map_to_list.
    set (groups := map_to_list (lags example_model)) in Hl.
    vm_compute in groups. subst groups.
    repeat (apply elem_of_cons in Hl as [[= _ ->]|Hl]; [discriminate|]).
    by apply elem_of_nil in Hl.
  - lia.
  - exists extra_shift. split; [exact Hextra | exact Htime].
Defined.

(** ** Quantile levels *)

Global Instance Qle_total : Total Qle.
Proof. intros x y. destruct (Qlt_le_dec x y); [left; by apply Qlt_le_weak | by right]. Qed.

Global Instance Qle_transitive : Transitive Qle.
Proof. intros x y z. apply Qle_trans. Qed.

Lemma StronglySorted_lookup {A} (R : A → A → Prop) (l : list A) (i j : nat) (x y : A) :
  StronglySorted R l → (i < j)%nat → l !! i = Some x → l !! j = Some y → R x y.
Proof.
  intros Hl. revert i j. induction Hl as [|a l Hl IH Ha]; intros i j Hij Hx Hy; [done|].
  destruct j as [|j]; [lia|]. simpl in Hy. destruct i as [|i]; simpl in Hx.
  - injection Hx as ->. apply (proj1 (Forall_forall _ _) Ha). by eapply list_elem_of_lookup_2.
  - apply (IH i j); [lia | done..].
Qed.

Section quantile_levels_properties.
Variable _check_quantiles : list Q → result unit.

(** X7.  The levels [_prepare_quantiles] returns are in ascending order, a
    rearrangement of the given ones (or the nine default levels, with the
    median at position 4), and [median_idx] is the position of the first
    level equal to 0.5: every level before it is strictly below 0.5 and
    every level from it on is at least 0.5.  Given levels without 0.5 that
    pass the check make it raise [ValueError]. *)
Theorem prepared_quantiles (given : option (list Q)) :
  (∀ levels median_idx,
     _prepare_quantiles _check_quantiles given = Ok (levels, median_idx) →
     Sorted Qle levels ∧
     match given with
     | Some quantiles_ => levels ≡ₚ quantiles_
     | None => length levels = 9%nat ∧ median_idx = 4%nat
     end ∧
     (∃ q, levels !! median_idx = Some q ∧ (q == 1 # 2)%Q) ∧
     (∀ j q, levels !! j = Some q → (j < median_idx)%nat → (q < 1 # 2)%Q) ∧
     (∀ j q, levels !! j = Some q → (median_idx ≤ j)%nat → (1 # 2 <= q)%Q)) ∧
  (∀ quantiles_,
     given = Some quantiles_ →
     Forall (λ q, ¬ (q == 1 # 2)%Q) quantiles_ →
     _check_quantiles (merge_sort Qle quantiles_) = Ok tt →
     _prepare_quantiles _check_quantiles given = Raise (ValueError "0.5 is not in list")).
Proof.
  split.
  - intros levels median_idx Hprepared. unfold _prepare_quantiles in Hprepared.
    bind_inv Hprepared as levels' Hlevels. bind_inv Hprepared as idx Hidx.
    injection Hprepared as <- <-.
    destruct (list_find (λ q, Qeq_bool q (1 # 2) = true) levels') as [[i q]|] eqn:Hfind;
      [|done].
    injection Hidx as <-.
    apply list_find_Some in Hfind as (Hq & Hhalf & Hfirst). apply Qeq_bool_iff in Hhalf.
    assert (Sorted Qle levels') as Hsorted.
    { destruct given as [quantiles_|].
      - bind_inv Hlevels as ? Hcheck. injection Hlevels as <-. apply Sorted_merge_sort, _.
      - injection Hlevels as <-. repeat constructor; unfold Qle; simpl; lia. }
    assert (StronglySorted Qle levels') as Hstrong
      by (apply Sorted_StronglySorted; [intros x y z; apply Qle_trans | done]).
    split; [done|]. split.
    { destruct given as [quantiles_|].
      - bind_inv Hlevels as ? Hcheck. injection Hlevels as <-. apply merge_sort_Permutation.
      - injection Hlevels as <-. split; [done|].
        cbv in Hq.
        do 9 (destruct i as [|i];
              [first [done | injection Hq as <-; by vm_compute in Hhalf]|]).
        done. }
    split; [by exists q|]. split.
    + intros j q' Hq' Hj.
      pose proof (StronglySorted_lookup _ _ _ _ _ _ Hstrong Hj Hq' Hq) as Hle.
      apply Qle_lteq in Hle as [Hlt|Heq]; [by rewrite <- Hhalf|].
      destruct (Hfirst j q' Hq' Hj). apply Qeq_bool_iff. by rewrite Heq.
    + intros j q' Hq' Hj. rewrite <- Hhalf.
      destruct (decide (j = i)) as [->|Hne].
      * rewrite Hq in Hq'. injection Hq' as <-. apply Qle_refl.
      * apply (StronglySorted_lookup _ _ i j _ _ Hstrong); [lia | done..].
  - intros quantiles_ -> Hnone Hcheck. unfold _prepare_quantiles.
    rewrite Hcheck, !bind_Ok_l.
    destruct (list_find (λ q, Qeq_bool q (1 # 2) = true) (merge_sort Qle quantiles_))
      as [[i q]|] eqn:Hfind; [|done].
    apply list_find_Some in Hfind as (Hq & Hhalf & _). apply Qeq_bool_iff in Hhalf.
    apply list_elem_of_lookup_2 in Hq. rewrite merge_sort_Permutation in Hq.
    by destruct (proj1 (Forall_forall _ _) Hnone q Hq).
Qed.

End quantile_levels_properties.
(** ** The quantile function the sampling interpolates *)

Lemma List_last_lookup {A} (l : list A) (d : A) :
  l ≠ [] → l !! pred (length l) = Some (List.last l d).
Proof.
  induction l as [|x l IH]; [done|]. intros _. destruct l as [|y l]; [done|].
  change (List.last (x :: y :: l) d) with (List.last (y :: l) d).
  by apply IH.
Qed.

(** The outputs with both ends repeated. *)
Lemma repeat_edges_lookup {A} (outputs : list A) :
  outputs ≠ [] →
  ∃ shifted, repeat_edges outputs = Ok shifted ∧
    shifted !! 0%nat = outputs !! 0%nat ∧
    (∀ i, (i < length outputs)%nat → shifted !! S i = outputs !! i) ∧
    shifted !! S (length outputs)
    = if decide (length outputs = 1%nat) then None else outputs !! pred (length outputs).
Proof.
  intros Hne. destruct outputs as [|v [|v' rest]]; [done| |].
  - exists [v; v]. split; [done|]. split; [done|]. split; [|done].
    intros [|i] Hi; [done | simpl in Hi; lia].
  - eexists. split; [done|]. split; [done|]. split.
    + intros i Hi. destruct i as [|i]; [done|].
      change (((v' :: rest) ++ [List.last (v' :: rest) v]) !! i = (v' :: rest) !! i).
      apply lookup_app_l. simpl in *. lia.
    + rewrite decide_False by (simpl; lia).
      change (((v' :: rest) ++ [List.last (v' :: rest) v]) !! length (v' :: rest)
              = (v' :: rest) !! pred (length (v' :: rest))).
      rewrite lookup_app_r by done. rewrite Nat.sub_diag.
      by rewrite (List_last_lookup (v' :: rest) v).
Qed.

Section quantile_function.

Implicit Types (levels : list Q) (outputs : list (option Q)) (p : Q).

(** The number of levels below a draw. *)
Local Abbreviation below levels p := (length (filter (λ q, Qgt_bool p q = true) levels)).

(** The segment of the interpolation: between which levels the draw lies,
    and between which outputs the sample is taken. *)
Lemma interpolate_segment levels outputs p :
  Sorted Qle levels →
  Forall (λ q, (0 < q)%Q ∧ (q < 1)%Q) levels →
  length outputs = length levels →
  Forall is_Some outputs →
  (below levels p < length levels)%nat ∨ (2 ≤ length levels)%nat →
  ∃ lq rq a b,
    ([0%Q] ++ levels ++ [1%Q]) !! below levels p = Some lq ∧
    ([0%Q] ++ levels ++ [1%Q]) !! S (below levels p) = Some rq ∧
    outputs !! pred (below levels p) = Some (Some a) ∧
    outputs !! (below levels p `min` pred (length levels))%nat = Some (Some b) ∧
    (lq < rq)%Q ∧
    ((0 < below levels p)%nat → (lq < p)%Q) ∧
    ((below levels p < length levels)%nat → (p <= rq)%Q) ∧
    interpolate levels outputs p = Ok (Some (a + ((p - lq) / (rq - lq)) * (b - a))%Q).
Proof.
  intros Hsorted%Sorted_StronglySorted Hunit Hlen Hfinite Hcase;
    [|intros q1 q2 q3; apply Qle_trans].
  destruct (levels_below levels p Hsorted) as (Hk & Hbelow & Habove).
  set (k := below levels p) in *.
  assert (outputs ≠ []) as Hne by (intros ->; simpl in *; lia).
  destruct (repeat_edges_lookup outputs Hne) as (shifted & Hshifted & H0 & Hmid & Hend).
  assert (∀ i, (i < length outputs)%nat → ∃ a, outputs !! i = Some (Some a)) as Hvalue.
  { intros i Hi. destruct (lookup_lt_is_Some_2 outputs i Hi) as [x Hx].
    destruct (proj1 (Forall_forall _ _) Hfinite x) as [a ->];
      [by eapply list_elem_of_lookup_2 | by exists a]. }
  destruct (Hvalue (pred k) ltac:(lia)) as [a Ha].
  destruct (Hvalue (k `min` pred (length levels))%nat ltac:(lia)) as [b Hb].
  assert (shifted !! k = Some (Some a)) as Hlv.
  { destruct k as [|i]; [by rewrite H0|]. rewrite Hmid by lia. done. }
  assert (shifted !! (k + 1)%nat = Some (Some b)) as Hrv.
  { replace (k + 1)%nat with (S k) by lia.
    destruct (decide (k < length levels)%nat) as [Hlt|Hge].
    - rewrite Hmid by lia. by rewrite Nat.min_l in Hb by lia.
    - replace k with (length outputs) by lia. rewrite Hend.
      rewrite decide_False by lia. rewrite Nat.min_r in Hb by lia. by rewrite Hlen. }
  assert (∃ lq, ([0%Q] ++ levels ++ [1%Q]) !! k = Some lq ∧
                ((0 < k)%nat → (lq < p)%Q ∧ levels !! pred k = Some lq) ∧
                ((k = 0)%nat → lq = 0%Q)) as (lq & Hlq & Hlq_pos & Hlq_zero).
  { rewrite lookup_ext_quantiles. destruct k as [|j] eqn:Hk'.
    - exists 0%Q. split; [done|]. split; [lia | done].
    - rewrite decide_True by lia.
      destruct (lookup_lt_is_Some_2 levels j ltac:(lia)) as [lq Hlq].
      exists lq. split; [done|]. split; [|lia]. intros _. split; [|done].
      apply (Hbelow j lq Hlq). lia. }
  assert (∃ rq, ([0%Q] ++ levels ++ [1%Q]) !! S k = Some rq ∧
                ((k < length levels)%nat → (p <= rq)%Q ∧ levels !! k = Some rq) ∧
                ((k = length levels)%nat → rq = 1%Q)) as (rq & Hrq & Hrq_in & Hrq_one).
  { rewrite lookup_ext_quantiles. destruct (decide (k < length levels)%nat) as [Hlt|Hge].
    - destruct (lookup_lt_is_Some_2 levels k Hlt) as [rq Hrq].
      exists rq. split; [done|]. split; [|lia]. intros _. split; [|done].
      by apply (Habove k rq Hrq).
    - rewrite decide_True by lia. exists 1%Q. split; [done|]. split; [lia | done]. }
  assert (lq < rq)%Q as Hlt.
  { destruct (decide (k = 0)%nat) as [Hk0|Hk0];
      destruct (decide (k = length levels)) as [Hkn|Hkn].
    - lia.
    - rewrite (Hlq_zero Hk0). destruct (Hrq_in ltac:(lia)) as [_ Hin].
      apply list_elem_of_lookup_2 in Hin.
      by destruct (proj1 (Forall_forall _ _) Hunit rq Hin).
    - rewrite (Hrq_one Hkn). destruct (Hlq_pos ltac:(lia)) as [_ Hin].
      apply list_elem_of_lookup_2 in Hin.
      by destruct (proj1 (Forall_forall _ _) Hunit lq Hin).
    - destruct (Hlq_pos ltac:(lia)) as [? _]. destruct (Hrq_in ltac:(lia)) as [? _]. lra. }
  exists lq, rq, a, b.
  split; [done|]. split; [done|]. split; [done|]. split; [done|]. split; [done|].
  split; [intros Hpos; by destruct (Hlq_pos Hpos)|].
  split; [intros Hin; by destruct (Hrq_in Hin)|].
  unfold interpolate, left_index. rewrite decide_True by done. rewrite bind_Ok_l.
  fold k. rewrite Hshifted, bind_Ok_l.
  apply take_along_Ok in Hlv, Hrv, Hlq. rewrite Hlv, Hrv, Hlq. rewrite !bind_Ok_l.
  replace (k + 1)%nat with (S k) by lia.
  apply take_along_Ok in Hrq. rewrite Hrq, bind_Ok_l.
  unfold fdiv, fsub, fadd, fmul. simpl.
  destruct (Qeq_bool (rq - lq) 0) eqn:Hzero; [|done].
  apply Qeq_bool_iff in Hzero. lra.
Qed.

Lemma below_eq levels p (j : nat) :
  StronglySorted Qle levels →
  (j ≤ length levels)%nat →
  (∀ i q, levels !! i = Some q → (i < j)%nat → (q < p)%Q) →
  (∀ i q, levels !! i = Some q → (j ≤ i)%nat → (p <= q)%Q) →
  below levels p = j.
Proof.
  intros Hsorted Hj Hlow Hhigh.
  destruct (levels_below levels p Hsorted) as (Hk & Hbelow & Habove).
  set (k := below levels p) in *.
  destruct (Nat.lt_trichotomy k j) as [Hlt|[Heq|Hgt]]; [|done|].
  - destruct (lookup_lt_is_Some_2 levels k ltac:(lia)) as [q Hq].
    pose proof (Hlow k q Hq Hlt). pose proof (Habove k q Hq ltac:(lia)). lra.
  - destruct (lookup_lt_is_Some_2 levels j ltac:(lia)) as [q Hq].
    pose proof (Hbelow j q Hq Hgt). pose proof (Hhigh j q Hq ltac:(lia)). lra.
Qed.

(** X8.  The interpolation is flat in both tails: a draw not above the
    first level returns the output of the first model, and a draw above the
    last level returns the output of the last model; with a single level,
    though, a draw above it raises [IndexError].  The levels are ascending
    and strictly between 0 and 1, the outputs finite, one for each level.
    (In a tail the two outputs interpolated between are one and the same:
    the sample is that output plus a multiple of its difference with
    itself, which is 0, so that nothing is rounded.) *)
Theorem quantile_interpolation_nodes_and_tails levels outputs p :
  Sorted Qle levels →
  Forall (λ q, (0 < q)%Q ∧ (q < 1)%Q) levels →
  length outputs = length levels →
  Forall is_Some outputs →
  (∀ q b,
     levels !! 0%nat = Some q → (p <= q)%Q → outputs !! 0%nat = Some (Some b) →
     ∃ r, interpolate levels outputs p = Ok (Some r) ∧ (r == b)%Q) ∧
  (∀ q b,
     last levels = Some q → (q < p)%Q → last outputs = Some (Some b) →
     if decide (length levels = 1%nat)
     then interpolate levels outputs p = Raise IndexError
     else ∃ r, interpolate levels outputs p = Ok (Some r) ∧ (r == b)%Q).
Proof.
  intros Hsorted Hunit Hlen Hfinite.
  pose proof (interpolate_segment levels outputs p Hsorted Hunit Hlen Hfinite) as Hsegment.
  assert (StronglySorted Qle levels) as Hstrong
    by (apply Sorted_StronglySorted; [intros q1 q2 q3; apply Qle_trans | done]).
  split.
  - intros q b Hq Hp Hb.
    assert (0 < length levels)%nat as Hj by (by eapply lookup_lt_Some).
    assert (below levels p = 0%nat) as Hk.
    { apply below_eq; [done | lia | intros; lia |].
      intros i q' Hq' _. destruct i as [|i]; [by simplify_eq|].
      pose proof (StronglySorted_lookup _ _ 0%nat (S i) _ _ Hstrong ltac:(lia) Hq Hq'). lra. }
    destruct Hsegment as (lq & rq & a & b' & _ & _ & Ha & Hb' & Hlt & _ & _ & ->);
      [left; lia|].
    rewrite Hk in Ha, Hb'. rewrite Nat.min_l in Hb' by lia. simpl in Ha.
    rewrite Hb in Ha, Hb'. injection Ha as <-. injection Hb' as <-.
    eexists. split; [done|]. ring.
  - intros q b Hq Hp Hb. rewrite last_lookup in Hq. rewrite last_lookup, Hlen in Hb.
    assert (0 < length levels)%nat as Hj by (apply lookup_lt_Some in Hq; lia).
    assert (below levels p = length levels) as Hk.
    { apply below_eq; [done | lia | | intros i q' Hq' Hi; apply lookup_lt_Some in Hq'; lia].
      intros i q' Hq' Hi.
      destruct (decide (i = pred (length levels))) as [->|Hne]; [by simplify_eq|].
      pose proof (StronglySorted_lookup _ _ i (pred (length levels)) _ _ Hstrong
                    ltac:(lia) Hq' Hq). lra. }
    destruct (decide (length levels = 1%nat)) as [Hone|Hmore].
    + destruct levels as [|q0 [|]]; [done| |done].
      destruct outputs as [|v [|]]; [done| |done].
      unfold interpolate, left_index. simpl in Hk. rewrite Hk. done.
    + destruct Hsegment as (lq & rq & a & b' & _ & _ & Ha & Hb' & Hlt & _ & _ & ->);
        [right; lia|].
      rewrite Hk in Ha, Hb'. rewrite Nat.min_r in Hb' by lia.
      rewrite Hb in Ha, Hb'. injection Ha as <-. injection Hb' as <-.
      eexists. split; [done|]. ring.
Qed.

End quantile_function.

Lemma quantile_interpolation_nodes_and_tails_witness :
  ∃ r, interpolate (quantiles example_likelihood) [Some 1%Q; Some 2%Q; Some 4%Q] (1 # 20)
       = Ok (Some r) ∧ (r == 1)%Q.
Proof.
  destruct (quantile_interpolation_nodes_and_tails (quantiles example_likelihood)
              [Some 1%Q; Some 2%Q; Some 4%Q] (1 # 20)) as (Hlow & _).
  - repeat constructor; unfold Qle; simpl; lia.
  - repeat first [apply Forall_nil_2 | apply Forall_cons_2 | split]; reflexivity.
  - reflexivity.
  - repeat first [apply Forall_nil_2 | apply Forall_cons_2]; by eexists.
  - apply (Hlow (1 # 10)%Q 1%Q); [reflexivity | | reflexivity].
    unfold Qle; simpl; lia.
Defined.

(** ** The method that invokes the regressor *)

Lemma join_join {A} (ls : list (list (list A))) : mjoin (mjoin ls) = mjoin (mjoin <$> ls).
Proof. induction ls as [|l ls IH]; [done|]. simpl. by rewrite join_app, IH. Qed.

(** Consecutive chunks of a list, put back together. *)
Lemma join_chunks {A} (flat : list A) (c n off : nat) :
  mjoin ((λ s, take c (drop ((off + s) * c) flat)) <$> seq 0 n)
  = take (n * c) (drop (off * c) flat).
Proof.
  revert off. induction n as [|n IH]; intros off; [done|].
  cbn [seq fmap list_fmap mjoin list_join]. rewrite <- fmap_S_seq, <- list_fmap_compose.
  rewrite (list_fmap_ext _ (λ s, take c (drop ((S off + s) * c) flat)) (seq 0 n))
    by (intros i s _; simpl; do 3 f_equal; lia).
  rewrite IH, Nat.add_0_r. cbn [Nat.mul]. rewrite <- take_take_drop, drop_drop.
  do 3 f_equal. lia.
Qed.

Lemma reshape3_inv {V} (k l : nat) (flat : list (float V)) (a : array3 V) :
  np3.reshape3 k l flat = Ok a →
  (0 < k)%nat ∧ (0 < l)%nat ∧
  ∃ c, length flat = (k * l * c)%nat ∧ has_shape3 k l c a ∧ mjoin (mjoin a) = flat.
Proof.
  intros Ha. pose proof Ha as Ha'. unfold np3.reshape3 in Ha'.
  destruct (bool_decide (k * l = 0)%nat) eqn:Hzero; [done|].
  destruct (bool_decide ((length flat `mod` (k * l))%nat = 0%nat)) eqn:Hmod; [|done].
  apply bool_decide_eq_false in Hzero. apply bool_decide_eq_true in Hmod.
  simpl in Ha'. injection Ha' as Ha'.
  split; [nia|]. split; [nia|].
  set (c := (length flat `div` (k * l))%nat) in *.
  assert (length flat = (k * l * c)%nat) as Hflat.
  { rewrite (Nat.div_mod_eq (length flat) (k * l)), Hmod. fold c. lia. }
  exists c. split; [done|]. split.
  { destruct (reshape3_shaped k l c flat) as (a' & Ha'' & Hshape); [nia | nia | done|].
    rewrite Ha in Ha''. by injection Ha'' as <-. }
  rewrite <- Ha', join_join, <- list_fmap_compose.
  rewrite (list_fmap_ext _ (λ i, take (l * c) (drop ((0 + i) * (l * c)) flat)) (seq 0 k)).
  - rewrite join_chunks. simpl. rewrite drop_0. apply take_ge. lia.
  - intros _ i _. simpl. rewrite join_chunks. do 2 f_equal. lia.
Qed.

(** X10.  [_predict_and_sample] only regroups the output of the regressor:
    when it returns, the feature matrix had rows, [output_chunk_length] is
    positive, the result has one row per row of [x] with
    [output_chunk_length] time steps each, and its values read in
    row-major order are the values of the regressor, none changed, moved
    or dropped; [num_samples] plays no part.  It raises [ValueError] when
    [x] has no row, when [output_chunk_length] is not positive, or when the
    number of values is not a multiple of rows times
    [output_chunk_length]. *)
Theorem predict_and_sample_regroups {V : Type} (self : @RegressionModel V)
    (x : matrix V) (num_samples : Z) (st : unit) :
  let flat := data (regressor_predict (model self) x) in
  let k := length x in
  let l := Z.to_nat (output_chunk_length self) in
  (∀ a st', _predict_and_sample self x num_samples st = Ok (a, st') →
     (0 < k)%nat ∧ 0 < output_chunk_length self ∧
     ∃ c, length flat = (k * l * c)%nat ∧ has_shape3 k l c a ∧ mjoin (mjoin a) = flat) ∧
  (k = 0%nat ∨ output_chunk_length self ≤ 0 ∨ (length flat `mod` (k * l))%nat ≠ 0%nat →
   _predict_and_sample self x num_samples st = Raise (ValueError "cannot reshape array")) ∧
  (∀ num_samples', _predict_and_sample self x num_samples' st
                   = _predict_and_sample self x num_samples st).
Proof.
  intros flat k l. split; [|split].
  - intros a st' Hresult. unfold _predict_and_sample in Hresult.
    destruct (decide (output_chunk_length self < 0)) as [|Hl]; [done|].
    bind_inv Hresult as a' Ha. injection Hresult as -> _.
    apply reshape3_inv in Ha as (Hk & Hl' & c & Hc). fold l in Hl'.
    split; [done|]. split; [lia|]. by exists c.
  - intros Hcase. unfold _predict_and_sample.
    destruct (decide (output_chunk_length self < 0)) as [|Hl]; [done|].
    unfold np3.reshape3. fold k l flat.
    destruct (bool_decide (k * l = 0)%nat) eqn:Hzero; [done|].
    apply bool_decide_eq_false in Hzero.
    rewrite bool_decide_eq_false_2; [done|].
    destruct Hcase as [Hk|[Hl'|Hmod]]; [nia | nia | done].
  - done.
Qed.

(** ** Gaussian sampling *)

Section gaussian.
Variable Rng : Type.
Variable rng_normal : option Q → option Q → Rng → result (option Q * Rng).

(** X11.  With more than one sample asked for, the Gaussian strategy
    returns as many rows as there are samples to draw, not one row for each
    row of the feature matrix: the number of rows of its result is
    [num_samples], each with [output_chunk_length] time steps.  It returns
    only for a positive [num_samples] and a positive [output_chunk_length],
    and it leaves the regressor the model points to in place. *)
Theorem normal_samples_shape (self : @RegressionModel Q) (x : matrix Q) (num_samples : Z)
    (st : sampler_state Rng) (samples : array3 Q) (st' : sampler_state Rng) :
  num_samples ≠ 1 →
  _predict_normal Rng rng_normal self x num_samples st = Ok (samples, st') →
  0 < num_samples ∧ 0 < output_chunk_length self ∧
  current_model Rng st' = current_model Rng st ∧
  ∃ c, has_shape3 (Z.to_nat num_samples) (Z.to_nat (output_chunk_length self)) c samples.
Proof.
  intros Hmany Hresult. unfold _predict_normal in Hresult.
  destruct (decide (num_samples = 1)) as [|_]; [done|].
  bind_inv Hresult as [samples' g] Hsampling. injection Hresult as <- <-.
  unfold _normal_sampling in Hsampling.
  bind_inv Hsampling as n_channels Hchannels. bind_inv Hsampling as mu_sigma_list Hlist.
  bind_inv Hsampling as [list_of_samples g'] Hdraws.
  destruct (decide (num_samples < 0)) as [|Hsign]; [done|].
  bind_inv Hsampling as samples_reshaped Hreshaped. injection Hsampling as <- <-.
  unfold reshape_chunks in Hreshaped.
  destruct (decide (output_chunk_length self < 0)) as [|Hl]; [done|].
  apply reshape3_inv in Hreshaped as (Hk & Hl' & c & _ & Hshape & _).
  split; [lia|]. split; [lia|]. split; [done|]. by exists c.
Qed.

End gaussian.

Lemma normal_samples_shape_witness :
  ∃ samples st',
    _predict_normal positive example_normal median_model
      (replicate 4 [Some 0%Q]) 2 unit_normal_state = Ok (samples, st') ∧
    length samples = 2%nat.
Proof.
  destruct (_predict_normal positive example_normal median_model
              (replicate 4 [Some 0%Q]) 2 unit_normal_state) as [[samples st']|e] eqn:Hresult;
    [|vm_compute in Hresult; discriminate Hresult].
  exists samples, st'. split; [done|].
  destruct (normal_samples_shape positive example_normal median_model
              (replicate 4 [Some 0%Q]) 2 unit_normal_state samples st' ltac:(lia) Hresult)
    as (_ & _ & _ & c & Hrows & _).
  exact Hrows.
Defined.

(** ** What [predict] asks of its arguments *)

Section predict_arguments.
Context {V : Type}.
Variable _is_probabilistic : bool.
Variable encoding_available : bool.
Variable generate_predict_encodings :
  Z → list (@TimeSeries V) → option (list (@TimeSeries V)) → option (list (@TimeSeries V)) →
  result (option (list (@TimeSeries V)) * option (list (@TimeSeries V))).
Variable super_predict :
  Z → list (@TimeSeries V) → option (list (@TimeSeries V)) → option (list (@TimeSeries V)) →
  Z → result unit.
Variable timestamp_repr : Z → string.
Variable Forecast : Type.
Variable _build_forecast_series : list (matrix V) → @TimeSeries V → Forecast.
Variable St : Type.
Variable sampler : @RegressionModel V → matrix V → Z → St → result (array3 V * St).

Local Abbreviation resolve :=
  (resolve_arguments _is_probabilistic encoding_available generate_predict_encodings
     super_predict).
Local Abbreviation predict_ :=
  (predict _is_probabilistic encoding_available generate_predict_encodings super_predict
     timestamp_repr Forecast _build_forecast_series St sampler).

Lemma range3_nonempty (n l : Z) (t : Z) (rest : list Z) :
  range3 0 n l = Ok (t :: rest) → (1 ≤ n ∧ 1 ≤ l) ∨ (n ≤ -1 ∧ l ≤ -1).
Proof.
  unfold range3. destruct (decide (l = 0)) as [|Hl]; [done|]. intros [= Hlist].
  assert (0 < (if decide (0 < l) then ceil_div (n - 0) l else ceil_div (0 - n) (- l)))
    as Hlen.
  { apply (f_equal length) in Hlist. rewrite length_fmap, length_seqZ in Hlist.
    simpl in Hlist. lia. }
  unfold ceil_div in Hlen. destruct (decide (0 < l)) as [Hpos|Hneg].
  - left. split; [|lia]. destruct (decide (1 ≤ n)) as [|Hn]; [done|].
    assert (0 ≤ - (n - 0) / l) by (apply Z.div_pos; lia). lia.
  - right. split; [|lia]. destruct (decide (n ≤ -1)) as [|Hn]; [done|].
    assert (0 ≤ - (0 - n) / - l) by (apply Z.div_pos; lia). lia.
Qed.

Lemma covariate_matrix_given (self : @RegressionModel V) (cov_type : string)
    (n n_pred_steps : Z) (series : list (@TimeSeries V))
    (covs : option (list (@TimeSeries V))) (entry : option (list Z * array3 V)) :
  covariate_matrix timestamp_repr self cov_type n n_pred_steps series covs = Ok entry →
  (is_Some entry ↔ is_Some covs) ∧
  (is_Some covs → ∃ lag rest, lags self !! cov_type = Some (lag :: rest)).
Proof.
  unfold covariate_matrix. destruct covs as [covs|].
  - destruct (lags self !! cov_type) as [[|lag rest]|]; [done| |done]. intros Hentry.
    bind_inv Hentry as windows Hwindows. bind_inv Hentry as stacked Hstacked.
    injection Hentry as <-. split; [split; by eauto | by eauto].
  - intros [= <-]. split; [split|]; by intros [? [=]].
Qed.

Lemma lagged_columns_no_rows (a : array3 V) (indices : list Z) (X : matrix V) :
  lagged_columns 0 a indices ≠ Ok X.
Proof. unfold lagged_columns. intros H. bind_inv H as picked Hpicked. done. Qed.

(** The features of a step exist only for a positive number of rows and a
    model with something to read them from. *)
Lemma step_features_Ok (n_rows : nat) (target : option (list Z * array3 V))
    (covs : list (option (list Z * array3 V))) (predictions : list (array3 V))
    (t_pred : Z) (X : matrix V) :
  step_features n_rows target covs predictions t_pred = Ok X →
  (0 < n_rows)%nat ∧ (is_Some target ∨ Exists is_Some covs).
Proof.
  unfold step_features. intros Hstep.
  bind_inv Hstep as target_part Htarget. bind_inv Hstep as cov_parts Hcovs.
  assert (is_Some target ∨ Exists is_Some covs) as Hsome.
  { destruct target as [target|]; [by left|]. injection Htarget as <-.
    destruct (decide (Exists is_Some covs)) as [|Hnone]; [by right|].
    apply not_Exists_Forall in Hnone; [|intros ?; apply _].
    assert (mjoin cov_parts = []) as Hparts.
    { clear Hstep. revert cov_parts Hcovs.
      induction Hnone as [|entry covs Hentry _ IH]; intros cov_parts Hcovs.
      - by injection Hcovs as <-.
      - simpl in Hcovs. destruct entry as [entry|]; [by destruct Hentry; eauto|].
        rewrite bind_Ok_l in Hcovs. bind_inv Hcovs as parts Hparts.
        injection Hcovs as <-. simpl. by apply IH. }
    rewrite Hparts in Hstep. done. }
  split; [|done]. destruct n_rows as [|n_rows]; [|lia]. exfalso.
  destruct Hsome as [[[target_lags series_matrix] ->]|Hcov].
  - bind_inv Htarget as target_matrix Hmatrix. bind_inv Htarget as block Hblock.
    by apply lagged_columns_no_rows in Hblock.
  - clear Hstep Htarget. revert cov_parts Hcovs.
    induction Hcov as [entry covs [[rel data_] ->]|entry covs _ IH]; intros cov_parts Hcovs.
    + simpl in Hcovs. bind_inv Hcovs as part Hpart. bind_inv Hpart as block Hblock.
      by apply lagged_columns_no_rows in Hblock.
    + simpl in Hcovs. bind_inv Hcovs as part Hpart. bind_inv Hcovs as parts Hparts.
      by eapply IH.
Qed.

(** X12.  [predict] returns only for a horizon of at least one step, an
    [output_chunk_length] of at least one, at least one sample and at least
    one series, and only on a model whose recorded input dimensions are
    those of the series and covariates the prediction runs on; so a model
    that was never fitted predicts nothing.  Covariates of a kind are
    accepted only by a model with lags of that kind, and the model must
    have something to build features from: target lags or covariates. *)
Theorem predict_returns_only_if (self : @RegressionModel V) (n : Z)
    (series past future : option series_arg) (num_samples : Z) (st : St)
    (returned : forecasts Forecast) (st' : St) :
  predict_ self n series past future num_samples st = Ok (returned, st') →
  1 ≤ n ∧ 1 ≤ output_chunk_length self ∧ 1 ≤ num_samples ∧
  ∃ args dims,
    resolve self n series past future num_samples = Ok args ∧
    resolved_series args ≠ [] ∧
    dims_of (resolved_series args) (resolved_past args) (resolved_future args) = Ok dims ∧
    input_dim self = Some dims ∧
    (is_Some (resolved_past args) → ∃ lag rest, lags self !! "past" = Some (lag :: rest)) ∧
    (is_Some (resolved_future args) →
       ∃ lag rest, lags self !! "future" = Some (lag :: rest)) ∧
    ((∃ lag rest, lags self !! "target" = Some (lag :: rest)) ∨
     is_Some (resolved_past args) ∨ is_Some (resolved_future args)).
Proof.
  intros Hresult. unfold predict in Hresult.
  bind_inv Hresult as args Hargs. bind_inv Hresult as [blocks st1] Hvalues. clear Hresult.
  unfold predict_values in Hvalues. bind_inv Hvalues as [target covs] Hwindows.
  unfold autoregress in Hvalues.
  bind_inv Hvalues as t_preds Hrange. bind_inv Hvalues as [predictions st2] Hloop.
  bind_inv Hvalues as joined Hjoined. bind_inv Hvalues as grouped Hgrouped. clear Hvalues.
  destruct (decide (n < 0)) as [|Hn]; [done|].
  destruct t_preds as [|t_pred t_preds].
  { injection Hloop as <- _. done. }
  apply range3_nonempty in Hrange as [[Hn1 Hl1]|[? _]]; [|lia].
  simpl in Hloop. bind_inv Hloop as X Hstep. clear Hloop.
  apply step_features_Ok in Hstep as [Hrows Hsome].
  (* the windows *)
  unfold prediction_windows in Hwindows.
  bind_inv Hwindows as steps Hsteps.
  bind_inv Hwindows as past_matrix Hpast. bind_inv Hwindows as future_matrix Hfuture.
  bind_inv Hwindows as series_matrix Hseries.
  bind_inv Hwindows as series_matrix' Hrepeated.
  bind_inv Hwindows as past_matrix' Hpast'. bind_inv Hwindows as future_matrix' Hfuture'.
  injection Hwindows as <- <-.
  apply covariate_matrix_given in Hpast as [Hpast_some Hpast_lags].
  apply covariate_matrix_given in Hfuture as [Hfuture_some Hfuture_lags].
  assert (is_Some past_matrix' → is_Some past_matrix) as Hpast_kept.
  { destruct past_matrix as [[rel data_]|]; [by eauto|]. by injection Hpast' as <-. }
  assert (is_Some future_matrix' → is_Some future_matrix) as Hfuture_kept.
  { destruct future_matrix as [[rel data_]|]; [by eauto|]. by injection Hfuture' as <-. }
  split; [done|]. split; [done|]. split; [lia|].
  (* the checks on the arguments *)
  pose proof Hargs as Hchecks. unfold resolve_arguments in Hchecks.
  bind_inv Hchecks as ? Hsamples. bind_inv Hchecks as series' Hseries'.
  bind_inv Hchecks as [past' future'] Hencodings. cbv beta iota in Hchecks.
  bind_inv Hchecks as ? Hsuper. bind_inv Hchecks as dims Hdims.
  bind_inv Hchecks as ? Hmatch. injection Hchecks as <-. simpl in *.
  apply raise_if_not_Ok, bool_decide_eq_true in Hmatch.
  eexists _, dims. split; [exact Hargs|]. simpl.
  split; [by intros Hnil; rewrite Hnil in Hdims|]. split; [done|]. split; [done|].
  split; [done|]. split; [done|].
  destruct Hsome as [Htarget|Hcov].
  - left. destruct (lags self !! "target") as [[|lag rest]|]; [|by eauto|].
    + by bind_inv Hseries as ? Hfirst.
    + injection Hseries as <-. simpl in Hrepeated. bind_inv Hrepeated as ? Hrep.
      injection Hrepeated as <-. by destruct Htarget.
  - right. apply Exists_cons in Hcov as [Hcov|Hcov]; [left; by apply Hpast_some, Hpast_kept|].
    apply Exists_cons in Hcov as [Hcov|Hcov]; [right; by apply Hfuture_some, Hfuture_kept|].
    by apply Exists_nil in Hcov.
Qed.

(** X13.  The checks [predict] makes on its arguments, in their order.
    More than one sample asked of a model that is not probabilistic raises
    [ValueError], whatever the other arguments.  Past that, a call without
    series on a model that keeps no training series raises [ValueError].
    And a call that would pass every check on a model trained with the
    dimensions [dims] raises [ValueError] on a model trained with other
    dimensions, with a message that shows both. *)
Theorem predict_argument_errors (self : @RegressionModel V) (n : Z)
    (series past future : option series_arg) (num_samples : Z) (st : St) :
  (_is_probabilistic = false → 1 < num_samples →
   predict_ self n series past future num_samples st
   = Raise (ValueError "`num_samples > 1` is only supported for probabilistic models.")) ∧
  (_is_probabilistic = true ∨ num_samples ≤ 1 →
   series = None → training_series self = None →
   predict_ self n series past future num_samples st
   = Raise (ValueError "Input series has to be provided after fitting on multiple series.")) ∧
  (∀ dims trained args,
     resolve (with_input_dim self (Some dims)) n series past future num_samples = Ok args →
     input_dim self = Some trained → trained ≠ dims →
     predict_ self n series past future num_samples st
     = Raise (ValueError (dimension_mismatch_message dims (Some trained)))).
Proof.
  split; [|split].
  - intros -> Hsamples. unfold predict, resolve_arguments.
    rewrite bool_decide_eq_true_2 by lia. done.
  - intros Hfirst -> Htraining. unfold predict, resolve_arguments.
    replace (negb _is_probabilistic && bool_decide (num_samples > 1)) with false.
    2:{ destruct Hfirst as [-> | Hone]; [done|].
        rewrite bool_decide_eq_false_2 by lia. by destruct _is_probabilistic. }
    by rewrite Htraining.
  - intros dims trained args Hargs Htrained Hother.
    rewrite <- Htrained.
    assert (input_dim self ≠ Some dims) as Hne by (rewrite Htrained; by intros [= ->]).
    clear Htrained Hother. rename Hne into Hother.
    unfold predict, resolve_arguments in *.
    unfold with_input_dim in Hargs.
    cbn [training_series past_covariate_series future_covariate_series input_dim] in Hargs.
    bind_inv Hargs as ? Hsamples. rewrite Hsamples, bind_Ok_l.
    bind_inv Hargs as series' Hseries. rewrite Hseries, bind_Ok_l.
    bind_inv Hargs as [past' future'] Hencodings. rewrite Hencodings, bind_Ok_l.
    cbv beta iota in *.
    bind_inv Hargs as ? Hsuper. rewrite Hsuper, bind_Ok_l.
    bind_inv Hargs as dims' Hdims. rewrite Hdims, bind_Ok_l.
    bind_inv Hargs as ? Hmatch. apply raise_if_not_Ok, bool_decide_eq_true in Hmatch.
    injection Hmatch as ->.
    rewrite bool_decide_eq_false_2 by (intros Heq; by destruct Hother). done.
Qed.

End predict_arguments.

Lemma predict_returns_only_if_witness :
  ∃ dims, input_dim fitted_model = Some dims ∧
          dims_of [fitted_series] None (Some [fitted_future]) = Ok dims.
Proof.
  destruct (plain_predict fitted_model 3 None None None 1) as [[returned st']|e] eqn:Hresult;
    [|vm_compute in Hresult; discriminate Hresult].
  destruct (predict_returns_only_if _ _ _ _ _ _ _ _ _ _ _ _ _ _ _ _ _ _ Hresult)
    as (_ & _ & _ & args & dims & Hargs & _ & Hdims & Hinput & _).
  exists dims. split; [exact Hinput|].
  vm_compute in Hargs. injection Hargs as <-. exact Hdims.
Defined.

(** ** The training set *)

Lemma filter_fmap {A B} (f : A → B) (P : B → Prop) `{!∀ y, Decision (P y)} (l : list A) :
  filter P (f <$> l) = f <$> filter (λ x, P (f x)) l.
Proof.
  induction l as [|x l IH]; [done|]. rewrite fmap_cons, !filter_cons.
  destruct (decide (P (f x))); by rewrite IH.
Qed.

Lemma StronglySorted_filter {A} (R : relation A) (P : A → Prop) `{!∀ x, Decision (P x)}
    (l : list A) :
  StronglySorted R l → StronglySorted R (filter P l).
Proof.
  induction 1 as [|x l Hl IH Hx]; [constructor|]. rewrite filter_cons.
  destruct (decide (P x)); [|done]. constructor; [done|].
  apply Forall_forall. intros y [_ Hy]%list_elem_of_filter.
  by apply (proj1 (Forall_forall _ _) Hx).
Qed.

Lemma StronglySorted_drop {A} (R : relation A) (l : list A) (n : nat) :
  StronglySorted R l → StronglySorted R (drop n l).
Proof.
  intros Hl. revert n. induction Hl as [|x l Hl IH Hx]; intros [|n]; simpl;
    [constructor | constructor | by constructor | apply IH].
Qed.

Lemma Sorted_le_NoDup (l : list Z) : Sorted Z.le l → NoDup l → StronglySorted Z.lt l.
Proof.
  intros Hsorted%Sorted_StronglySorted; [|intros x y z; lia].
  induction Hsorted as [|x l Hl IH Hx]; intros Hnodup; [constructor|].
  apply NoDup_cons in Hnodup as [Hnotin Hnodup]. constructor; [by apply IH|].
  apply Forall_forall. intros y Hy.
  pose proof (proj1 (Forall_forall _ _) Hx y Hy).
  assert (x ≠ y) by (by intros ->). lia.
Qed.

Section training_set.
Context {V : Type}.
Implicit Types (ts cov : @TimeSeries V) (df : @pd.DataFrame V).

Lemma elem_of_time_index ts (t : Z) :
  t ∈ time_index ts ↔ ∃ i : nat, (i < n_timesteps ts)%nat ∧ t = start_time ts + Z.of_nat i * freq ts.
Proof.
  unfold time_index. rewrite list_elem_of_fmap. split.
  - intros (i & -> & Hi%elem_of_seqZ). exists (Z.to_nat i). split; [lia|].
    by rewrite Z2Nat.id by lia.
  - intros (i & Hi & ->). exists (Z.of_nat i). split; [done|]. apply elem_of_seqZ. lia.
Qed.

(** At a time stamp of the series, the shifted frame holds the values
    [lag] steps away, missing or not. *)
Lemma row_at_shift_series_in ts (lag : Z) t :
  well_formed ts →
  t ∈ time_index ts →
  pd.row_at (pd.shift (pd.of_series ts) (- lag)) t = observed ts (t + lag * freq ts).
Proof.
  intros Hwf (i & Hlt & ->)%elem_of_time_index.
  rewrite (row_at_index _ i);
    [| apply (NoDup_time_index ts), Hwf | by apply (lookup_time_index ts)].
  rewrite lookup_shift by done.
  case_decide as Hrange; simpl in *.
  - replace (start_time ts + Z.of_nat i * freq ts + lag * freq ts)
      with (start_time ts + Z.of_nat (Z.to_nat (Z.of_nat i - - lag)) * freq ts)
      by (rewrite Z2Nat.id by lia; ring).
    rewrite observed_index; [done | done | unfold n_timesteps; lia].
  - unfold observed. rewrite row_at_outside; [done|].
    intros (j & Hj & Heq)%elem_of_time_index. simpl in *.
    destruct Hwf as (Hfreq & _). unfold n_timesteps in *. nia.
Qed.

Lemma shift_blocks_in ts (l : list Z) t :
  well_formed ts →
  let blocks := (λ lag, pd.shift (pd.of_series ts) (- lag)) <$> l in
  (t ∈ time_index ts →
   blocks ≫= (λ d, pd.row_at d t) = l ≫= (λ lag, observed ts (t + lag * freq ts))) ∧
  ((0 < width ts)%nat → l ≠ [] → pd.complete (blocks ≫= (λ d, pd.row_at d t)) →
   t ∈ time_index ts).
Proof.
  intros Hwf blocks. subst blocks. split.
  - intros Hin. rewrite fmap_bind_list.
    induction l as [|lag l IH]; [done|]. rewrite !bind_cons.
    by rewrite row_at_shift_series_in, IH.
  - intros Hwidth Hl Hcomplete. destruct l as [|lag l]; [done|].
    rewrite fmap_cons, bind_cons in Hcomplete.
    apply complete_app in Hcomplete as [Hcomplete _].
    destruct (decide (t ∈ time_index ts)) as [|Hout]; [done|].
    rewrite row_at_outside in Hcomplete by done.
    apply complete_nan_row in Hcomplete. simpl in Hcomplete. lia.
Qed.

(** The rows [dropna] keeps of a concatenation, in terms of the time stamps
    of its index. *)
Lemma dropna_concat (dfs : list (@pd.DataFrame V)) df :
  pd.concat dfs = Ok df →
  let row := λ t, dfs ≫= (λ d, pd.row_at d t) in
  let kept := filter (λ t, pd.complete (row t)) (pd.union_index dfs) in
  StronglySorted Z.lt kept ∧
  (∀ t, t ∈ kept ↔ (∃ d, d ∈ dfs ∧ t ∈ pd.index d) ∧ pd.complete (row t)) ∧
  pd.values (pd.dropna df) = row <$> kept.
Proof.
  intros [_ ->]%concat_Ok row kept. split; [|split].
  - apply StronglySorted_filter, Sorted_le_NoDup; [|apply NoDup_union_index].
    apply Sorted_merge_sort. intros x y. lia.
  - intros t. unfold kept. rewrite list_elem_of_filter, elem_of_union_index. tauto.
  - unfold pd.values, pd.dropna. simpl. fold row.
    assert (zip (pd.union_index dfs) (row <$> pd.union_index dfs)
            = (λ t, (t, row t)) <$> pd.union_index dfs) as ->.
    { generalize (pd.union_index dfs). intros l.
      induction l as [|t l IH]; [done|]. simpl. f_equal. exact IH. }
    rewrite (filter_fmap (λ t, (t, row t)) (λ p, pd.complete p.2)).
    by rewrite <- list_fmap_compose.
Qed.

Lemma slice_from_keep_recent {A} (cap : option Z) (l : list A) :
  (if truthy_int cap then slice_from l (- default 0 cap) else l) = keep_recent cap l.
Proof.
  unfold keep_recent, truthy_int, slice_from, clip. destruct cap as [m|]; [|done]. simpl.
  case_bool_decide as Hm.
  - destruct (decide (0 < m)) as [Hpos|Hneg].
    + rewrite decide_True by lia. f_equal. lia.
    + rewrite decide_False by lia.
      destruct (decide (Z.to_nat (- m) ≤ length l)%nat) as [Hle|Hgt].
      * f_equal. lia.
      * rewrite !drop_ge; [done | lia | lia].
  - assert (m = 0) as -> by lia. by rewrite decide_False.
Qed.

Lemma keep_recent_subseteq {A} (cap : option Z) (l : list A) : keep_recent cap l ⊆ l.
Proof.
  unfold keep_recent. destruct cap as [m|]; [|done].
  destruct (decide (0 < m)); apply subseteq_drop.
Qed.

Lemma keep_recent_fmap {A B} (f : A → B) (cap : option Z) (l : list A) :
  keep_recent cap (f <$> l) = f <$> keep_recent cap l.
Proof.
  unfold keep_recent. destruct cap as [m|]; [|done]. rewrite length_fmap.
  destruct (decide (0 < m)); by rewrite fmap_drop.
Qed.

(** The group of a covariate at a time stamp: what it holds there, and
    that a complete row of it is a row of a time stamp of the covariate. *)
Lemma covariate_group_in (covs : option (list (@TimeSeries V))) (lags_ : option (list Z))
    (idx : nat) o blocks t :
  Forall well_formed (default [] covs) →
  Forall (λ cov, 0 < width cov)%nat (default [] covs) →
  covariate_frame covs idx = Ok o →
  covariate_blocks o lags_ = Ok blocks →
  ((∀ cov, covariate_at covs idx = Some cov → truthy_list lags_ = true →
           t ∈ time_index cov) →
   blocks ≫= (λ d, pd.row_at d t) = lag_block (covariate_at covs idx) lags_ t) ∧
  (pd.complete (blocks ≫= (λ d, pd.row_at d t)) →
   ∀ cov, covariate_at covs idx = Some cov → truthy_list lags_ = true → t ∈ time_index cov).
Proof.
  intros Hwf Hwidth Hframe%covariate_frame_Ok Hblocks%covariate_blocks_Ok.
  assert (∀ cov, covariate_at covs idx = Some cov → well_formed cov ∧ (0 < width cov)%nat)
    as Hcov.
  { intros cov Hcov. destruct covs as [l|]; [|done]. simpl in *.
    split; [by eapply (Forall_lookup_1 _ _ _ _ Hwf) | by eapply (Forall_lookup_1 _ _ _ _ Hwidth)]. }
  destruct (truthy_list lags_) eqn:Htruthy.
  - destruct Hblocks as (df & -> & ->).
    destruct (truthy_list covs); [|done].
    destruct Hframe as (cov & Hat & [= ->]). rewrite Hat in *.
    destruct (Hcov cov eq_refl) as [Hcov_wf Hcov_width].
    destruct (shift_blocks_in cov (default [] lags_) t Hcov_wf) as [Hin Hcomplete].
    split.
    + intros Hindex. by apply Hin, Hindex.
    + intros Hrow cov' [= <-] _. apply Hcomplete; [done | | done].
      by destruct lags_ as [[|]|].
  - destruct Hblocks as [-> Hnil]. split; [|done]. intros _.
    unfold lag_block. rewrite Hnil. by destruct (covariate_at covs idx).
Qed.

(** The table of one series: its rows are those of the usable time stamps,
    in ascending order, of which the cap keeps the most recent. *)
Lemma episode_table_stamps self (past future : option (list (@TimeSeries V)))
    (cap : option Z) (idx : nat) ts df_X X_y :
  well_formed ts →
  Forall well_formed (default [] past) →
  Forall well_formed (default [] future) →
  (0 < width ts)%nat →
  Forall (λ cov, 0 < width cov)%nat (default [] past) →
  Forall (λ cov, 0 < width cov)%nat (default [] future) →
  episode_table self past future cap idx ts = Ok (df_X, X_y) →
  ∃ stamps,
    StronglySorted Z.lt stamps ∧
    (∀ t, t ∈ stamps ↔ usable self ts (covariate_at past idx) (covariate_at future idx) t) ∧
    X_y = (λ t, feature_row self ts (covariate_at past idx) (covariate_at future idx) t
                ++ label_row self ts t) <$> keep_recent cap stamps.
Proof.
  intros Hts Hpast Hfuture Hwidth Hpast_width Hfuture_width Htable.
  unfold episode_table in Htable.
  bind_inv Htable as o_past Ho_past. bind_inv Htable as o_future Ho_future.
  bind_inv Htable as past_blocks Hpast_blocks.
  bind_inv Htable as future_blocks Hfuture_blocks.
  bind_inv Htable as df_X' Hdf_X. bind_inv Htable as df_y Hdf_y.
  bind_inv Htable as df_X_y Hdf_X_y. injection Htable as <- <-.
  set (target_lags := default [] (lags self !! "target")).
  set (target_blocks := (λ lag, pd.shift (pd.of_series ts) (- lag)) <$> target_lags).
  assert (match lags self !! "target" with
          | Some lags_ => (λ lag, pd.shift (pd.of_series ts) (- lag)) <$> lags_
          | None => []
          end = target_blocks) as Htarget.
  { subst target_blocks target_lags. by destruct (lags self !! "target"). }
  rewrite Htarget in Hdf_X. clear Htarget.
  set (y_blocks := (λ future_target_lag, pd.shift (pd.of_series ts) (- future_target_lag))
                   <$> range1 (output_chunk_length self)) in *.
  assert (range1 (output_chunk_length self) ≠ []) as Hy_some.
  { intros Hnil. subst y_blocks. rewrite Hnil in Hdf_y. done. }
  rewrite slice_from_keep_recent.
  destruct (dropna_concat _ _ Hdf_X_y) as (Hsorted & Hkept & Hdropped).
  change (pd.values (pd.dropna df_X_y))
    with ((filter (λ p : Z * list (option V), pd.complete p.2)
             (zip (pd.index df_X_y) (pd.rows df_X_y))).*2) in Hdropped.
  rewrite Hdropped. clear Hdropped.
  set (row := λ t : Z, mbind (λ d, pd.row_at d t) [df_X'; df_y]) in *.
  assert (∀ t, row t = (target_blocks ≫= (λ d, pd.row_at d t))
                       ++ (past_blocks ≫= (λ d, pd.row_at d t))
                       ++ (future_blocks ≫= (λ d, pd.row_at d t))
                       ++ (y_blocks ≫= (λ d, pd.row_at d t))) as Hrow.
  { intros t. unfold row. rewrite bind_cons, bind_singleton.
    rewrite (concat_row_at _ _ _ Hdf_X), (concat_row_at _ _ _ Hdf_y), !bind_app.
    by rewrite <- !app_assoc. }
  assert (∀ t, t ∈ time_index ts →
               (∀ cov, covariate_at past idx = Some cov →
                       truthy_list (lags self !! "past") = true → t ∈ time_index cov) →
               (∀ cov, covariate_at future idx = Some cov →
                       truthy_list (lags self !! "future") = true → t ∈ time_index cov) →
               row t = feature_row self ts (covariate_at past idx) (covariate_at future idx) t
                       ++ label_row self ts t) as Hvalues.
  { intros t Hin Hin_past Hin_future. rewrite Hrow.
    destruct (shift_blocks_in ts target_lags t Hts) as [Ht _]. fold target_blocks in Ht.
    destruct (shift_blocks_in ts (range1 (output_chunk_length self)) t Hts) as [Hy _].
    fold y_blocks in Hy.
    destruct (covariate_group_in _ _ _ _ _ t Hpast Hpast_width Ho_past Hpast_blocks)
      as [Hp _].
    destruct (covariate_group_in _ _ _ _ _ t Hfuture Hfuture_width Ho_future Hfuture_blocks)
      as [Hf _].
    rewrite Ht, Hy, Hp, Hf by done.
    unfold feature_row, label_row, lag_block. fold target_lags. by rewrite <- !app_assoc. }
  assert (∀ t, pd.complete (row t) →
               t ∈ time_index ts ∧
               (∀ cov, covariate_at past idx = Some cov →
                       truthy_list (lags self !! "past") = true → t ∈ time_index cov) ∧
               (∀ cov, covariate_at future idx = Some cov →
                       truthy_list (lags self !! "future") = true → t ∈ time_index cov))
    as Hindexes.
  { intros t. rewrite Hrow.
    intros [_ [Hp [Hf Hy]%complete_app]%complete_app]%complete_app.
    split; [|split].
    - destruct (shift_blocks_in ts (range1 (output_chunk_length self)) t Hts) as [_ Hin].
      by apply Hin.
    - by apply (covariate_group_in _ _ _ _ _ t Hpast Hpast_width Ho_past Hpast_blocks).
    - by apply (covariate_group_in _ _ _ _ _ t Hfuture Hfuture_width Ho_future
                  Hfuture_blocks). }
  eexists. split; [exact Hsorted|]. split.
  - intros t. rewrite Hkept. unfold usable. split.
    + intros [_ Hcomplete]. destruct (Hindexes t Hcomplete) as (Hin & Hin_past & Hin_future).
      split; [done|]. split; [done|]. split; [done|].
      change (pd.complete (row t)) in Hcomplete.
      rewrite (Hvalues t Hin Hin_past Hin_future) in Hcomplete. exact Hcomplete.
    + intros (Hin & Hin_past & Hin_future & Hcomplete).
      split; [|change (pd.complete (row t));
               rewrite (Hvalues t Hin Hin_past Hin_future); exact Hcomplete].
      exists df_y. split; [rewrite !elem_of_cons; by eauto|].
      apply concat_Ok in Hdf_y as [_ ->]. simpl. apply elem_of_union_index.
      subst y_blocks.
      destruct (range1 (output_chunk_length self)) as [|lag0 lags0]; [done|].
      exists (pd.shift (pd.of_series ts) (- lag0)). split; [constructor | done].
  - rewrite keep_recent_fmap. apply list_fmap_ext. intros i t Ht%list_elem_of_lookup_2.
    apply keep_recent_subseteq, Hkept in Ht as [_ Hcomplete].
    destruct (Hindexes t Hcomplete) as (Hin & Hin_past & Hin_future). by apply Hvalues.
Qed.

Lemma Forall2_construct {A B C} (P : A → B → Prop) (Q : A → C → Prop) (f : A → C → B)
    (l : list A) (k : list B) :
  Forall2 P l k →
  Forall (λ x, ∀ y, P x y → ∃ z, Q x z ∧ y = f x z) l →
  ∃ zs, Forall2 Q l zs ∧ k = zip_with f l zs.
Proof.
  intros Hlk HP. induction Hlk as [|x y l k Hxy _ IH]; [by exists []|].
  apply Forall_cons in HP as [Hx HP]. destruct (IH HP) as (zs & Hzs & ->).
  destruct (Hx y Hxy) as (z & Hz & ->). exists (z :: zs). split; [by constructor | done].
Qed.

Lemma fmap_zip_with_ext {A B C D} (g : C → D) (f : A → B → C) (h : A → B → D)
    (l : list A) (k : list B) :
  (∀ x y, g (f x y) = h x y) → g <$> zip_with f l k = zip_with h l k.
Proof.
  intros Hext. revert k. induction l as [|x l IH]; intros [|y k]; simpl; [done..|].
  by rewrite Hext, IH.
Qed.

(** The samples and labels of one series. *)
Lemma episode_samples_stamps self (n_series : nat)
    (past future : option (list (@TimeSeries V))) (cap : option Z) (idx : nat) ts X y :
  well_formed ts →
  Forall well_formed (default [] past) →
  Forall well_formed (default [] future) →
  (0 < width ts)%nat →
  Forall (λ cov, 0 < width cov)%nat (default [] past) →
  Forall (λ cov, 0 < width cov)%nat (default [] future) →
  episode_samples self n_series past future cap idx ts = Ok (X, y) →
  ∃ stamps,
    StronglySorted Z.lt stamps ∧
    (∀ t, t ∈ stamps ↔ usable self ts (covariate_at past idx) (covariate_at future idx) t) ∧
    keep_recent cap stamps ≠ [] ∧
    X = feature_row self ts (covariate_at past idx) (covariate_at future idx)
        <$> keep_recent cap stamps ∧
    y = label_row self ts <$> keep_recent cap stamps.
Proof.
  intros Hts Hpast Hfuture Hwidth Hpast_width Hfuture_width Hsamples.
  unfold episode_samples in Hsamples.
  bind_inv Hsamples as [df_X X_y] Htable. bind_inv Hsamples as ? Hrows.
  apply raise_if_Ok, bool_decide_eq_false in Hrows. injection Hsamples as <- <-.
  destruct (episode_table_rows _ _ _ _ _ _ _ _ Hts Hpast Hfuture Htable)
    as (_ & Hlen_X & _ & _).
  destruct (episode_table_stamps _ _ _ _ _ _ _ _ Hts Hpast Hfuture Hwidth Hpast_width
              Hfuture_width Htable) as (stamps & Hsorted & Hstamps & ->).
  exists stamps. split; [done|]. split; [done|].
  split; [intros Hnil; by rewrite Hnil in Hrows|].
  unfold np.split_columns, pd.n_columns. rewrite <- !list_fmap_compose.
  split; apply list_fmap_ext; intros i t _; simpl.
  - by rewrite take_app_length' by by rewrite Hlen_X.
  - by rewrite drop_app_length' by by rewrite Hlen_X.
Qed.

(** X14.  The training set the builder returns, in full.  For each target
    series in turn, the usable time stamps are those that belong to the
    index of the series and of every covariate whose lags are read and
    whose row of lagged values and labels misses no value.  The builder
    returns one row of samples and one row of labels for each usable time
    stamp, in ascending order of the stamps, series after series; a cap on
    the samples keeps the most recent stamps of each series only.  It
    returns only if every series is left with a time stamp. *)
Theorem training_set_rows self (input : @series_input V) (cap : option Z)
    (targets : list (@TimeSeries V)) (past future : option (list (@TimeSeries V)))
    (X y : matrix V) :
  ensure_list input = (targets, past, future) →
  Forall well_formed targets →
  Forall well_formed (default [] past) →
  Forall well_formed (default [] future) →
  Forall (λ ts, 0 < width ts)%nat (targets ++ default [] past ++ default [] future) →
  _create_lagged_data self input cap = Ok (X, y) →
  ∃ stamps : list (list Z),
    Forall2 (λ '(idx, ts) kept, ∃ usable_stamps,
               Sorted Z.lt usable_stamps ∧
               (∀ t, t ∈ usable_stamps
                     ↔ usable self ts (covariate_at past idx) (covariate_at future idx) t) ∧
               kept = keep_recent cap usable_stamps ∧ kept ≠ [])
            (enumerate targets) stamps ∧
    X = mjoin (zip_with
                 (λ '(idx, ts) kept,
                    feature_row self ts (covariate_at past idx) (covariate_at future idx)
                    <$> kept)
                 (enumerate targets) stamps) ∧
    y = mjoin (zip_with (λ '(idx, ts) kept, label_row self ts <$> kept)
                 (enumerate targets) stamps).
Proof.
  intros Hinput Htargets Hpast Hfuture Hwidths Hdata.
  apply Forall_app in Hwidths as [Htargets_width [Hpast_width Hfuture_width]%Forall_app].
  unfold _create_lagged_data in Hdata. rewrite Hinput in Hdata.
  bind_inv Hdata as samples Hsamples. bind_inv Hdata as X' HX. bind_inv Hdata as y' Hy.
  injection Hdata as <- <-.
  apply concatenate_rows_Ok in HX as (_ & _ & ->).
  apply concatenate_rows_Ok in Hy as (_ & _ & ->).
  apply for_each_Ok in Hsamples.
  destruct (Forall2_construct _
              (λ '(idx, ts) kept, ∃ usable_stamps,
                 Sorted Z.lt usable_stamps ∧
                 (∀ t, t ∈ usable_stamps
                       ↔ usable self ts (covariate_at past idx) (covariate_at future idx) t) ∧
                 kept = keep_recent cap usable_stamps ∧ kept ≠ [])
              (λ '(idx, ts) kept,
                 (feature_row self ts (covariate_at past idx) (covariate_at future idx)
                  <$> kept,
                  label_row self ts <$> kept))
              _ _ Hsamples) as (stamps & Hstamps & ->).
  - (* every episode on its own: its position tells its series *)
    clear Hsamples. apply Forall_forall.
    intros [idx ts] (idx' & ts' & [= -> ->] & Hts)%elem_of_lookup_imap [Xi yi] Hepisode.
    destruct (episode_samples_stamps _ _ _ _ _ _ _ _ _
                (Forall_lookup_1 _ _ _ _ Htargets Hts) Hpast Hfuture
                (Forall_lookup_1 _ _ _ _ Htargets_width Hts) Hpast_width Hfuture_width
                Hepisode) as (all & Hsorted & Hall & Hsome & -> & ->).
    exists (keep_recent cap all). split; [|done].
    exists all. split; [by apply StronglySorted_Sorted|]. done.
  - exists stamps. split; [done|].
    split; f_equal; apply fmap_zip_with_ext; by intros [idx ts] kept.
Qed.

End training_set.

Lemma training_set_rows_witness :
  ∃ (stamps : list (list Z)) (X y : list (list (option Z))),
    _create_lagged_data example_model example_input (Some 1) = Ok (X, y) ∧
    length stamps = 2%nat ∧
    X = mjoin (zip_with
                 (λ '(idx, ts) kept,
                    feature_row example_model ts (covariate_at (Some example_past) idx)
                      (covariate_at (Some example_future) idx) <$> kept)
                 (enumerate example_targets) stamps).
Proof.
  destruct (_create_lagged_data example_model example_input (Some 1)) as [[X y]|e] eqn:Hbuild;
    [|vm_compute in Hbuild; discriminate Hbuild].
  destruct (training_set_rows example_model example_input (Some 1)
              example_targets (Some example_past) (Some example_future) X y)
    as (stamps & Hstamps & HX & _).
  - reflexivity.
  - solve_well_formed.
  - solve_well_formed.
  - solve_well_formed.
  - repeat first [apply Forall_nil_2 | apply Forall_cons_2]; simpl; lia.
  - exact Hbuild.
  - exists stamps, X, y. split; [reflexivity|]. split; [|exact HX].
    apply Forall2_length in Hstamps. simpl in Hstamps. by rewrite <- Hstamps.
Defined.

(** ** The training set of a series without missing values *)

Lemma StronglySorted_lt_NoDup (l : list Z) : StronglySorted Z.lt l → NoDup l.
Proof.
  induction 1 as [|x l Hl IH Hx]; [constructor|]. constructor; [|done].
  intros Hin. pose proof (proj1 (Forall_forall _ _) Hx x Hin). lia.
Qed.

Lemma StronglySorted_lt_ext (l1 l2 : list Z) :
  StronglySorted Z.lt l1 → StronglySorted Z.lt l2 → (∀ x, x ∈ l1 ↔ x ∈ l2) → l1 = l2.
Proof.
  intros H1 H2 Hext. apply (StronglySorted_unique_strong Z.lt); [intros; lia | done..|].
  apply NoDup_Permutation; [by apply StronglySorted_lt_NoDup.. | done].
Qed.

Lemma complete_bind {V A} (g : A → list (float V)) (l : list A) :
  pd.complete (l ≫= g) ↔ Forall (λ x, pd.complete (g x)) l.
Proof.
  induction l as [|x l IH]; [by split; constructor|].
  rewrite bind_cons, complete_app, Forall_cons, IH. done.
Qed.

Section complete_series.
Context {V : Type}.
Implicit Types (ts : @TimeSeries V).

(** In a series without missing values, exactly the positions of its index
    hold a complete row. *)
Lemma observed_complete ts (j : Z) :
  well_formed ts → (0 < width ts)%nat → Forall pd.complete (values ts) →
  pd.complete (observed ts (start_time ts + j * freq ts)) ↔ 0 ≤ j < Z.of_nat (n_timesteps ts).
Proof.
  intros Hwf Hwidth Hfinite. split.
  - intros Hcomplete.
    destruct (decide (0 ≤ j < Z.of_nat (n_timesteps ts))) as [|Hout]; [done|].
    unfold observed in Hcomplete. rewrite row_at_outside in Hcomplete.
    + apply complete_nan_row in Hcomplete. simpl in Hcomplete. lia.
    + intros (i & Hi & Heq)%elem_of_time_index. destruct Hwf as (Hfreq & _).
      assert (j = Z.of_nat i) by nia. lia.
  - intros Hj. rewrite <- (Z2Nat.id j) by lia.
    rewrite observed_index by (done || lia).
    destruct (lookup_lt_is_Some_2 (values ts) (Z.to_nat j)) as [row Hrow];
      [unfold n_timesteps in Hj; lia|].
    rewrite Hrow. simpl. by eapply (Forall_lookup_1 _ _ _ _ Hfinite).
Qed.

Lemma observed_values ts (j : Z) :
  well_formed ts → 0 ≤ j < Z.of_nat (n_timesteps ts) →
  observed ts (start_time ts + j * freq ts) = default [] (values ts !! Z.to_nat j).
Proof.
  intros Hwf Hj. rewrite <- (Z2Nat.id j) at 1 by lia.
  rewrite observed_index by (done || lia).
  destruct (lookup_lt_is_Some_2 (values ts) (Z.to_nat j)) as [row Hrow];
    [unfold n_timesteps in Hj; lia|].
  by rewrite Hrow.
Qed.

(** A model that reads target lags only, on a single series without
    missing values: the usable time stamps are the positions from the
    depth of the earliest lag up to the last one that leaves room for the
    labels. *)
Lemma target_only_stamps self ts (cap : option Z) (lag_min : Z) (rest : list Z) :
  let L := - lag_min in
  let l := output_chunk_length self in
  let N := Z.of_nat (n_timesteps ts) in
  let stamps := (λ i, start_time ts + i * freq ts) <$> seqZ L (N - L - l + 1) in
  lags self !! "target" = Some (lag_min :: rest) →
  Sorted Z.le (lag_min :: rest) →
  Forall (λ lag, lag < 0) (lag_min :: rest) →
  truthy_list (lags self !! "past") = false →
  truthy_list (lags self !! "future") = false →
  1 ≤ l →
  well_formed ts → (0 < width ts)%nat → Forall pd.complete (values ts) →
  _create_lagged_data self (Single ts None None) cap
  = if decide (keep_recent cap stamps = [])
    then Raise (ValueError (no_samples_message 0 1))
    else Ok (feature_row self ts None None <$> keep_recent cap stamps,
             label_row self ts <$> keep_recent cap stamps).
Proof.
  intros L l N stamps Htarget Hsorted Hnegative Hno_past Hno_future Hl Hwf Hwidth Hfinite.
  assert (∃ df_X X_y, episode_table self None None cap 0 ts = Ok (df_X, X_y))
    as (df_X & X_y & Htable).
  { unfold episode_table. simpl. unfold covariate_blocks.
    rewrite Hno_past, Hno_future, Htarget, !bind_Ok_l. simpl.
    unfold range1, range2. rewrite seqZ_cons by lia. simpl. by eauto. }
  destruct (episode_table_rows self None None cap 0%nat ts df_X X_y Hwf (Forall_nil_2 _)
              (Forall_nil_2 _) Htable)
    as (_ & Hlen_X & _ & _).
  destruct (episode_table_stamps self None None cap 0%nat ts df_X X_y Hwf (Forall_nil_2 _)
              (Forall_nil_2 _) Hwidth (Forall_nil_2 _) (Forall_nil_2 _) Htable)
    as (stamps' & Hsorted' & Hstamps' & HX_y).
  simpl in Hlen_X, Hstamps', HX_y.
  assert (∀ i : Z, L ≤ i ≤ N - l ↔
            usable self ts None None (start_time ts + i * freq ts) ∧ 0 ≤ i) as Husable.
  { intros i. unfold usable, feature_row, label_row, lag_block.
    rewrite Htarget, !app_nil_r, complete_app, !complete_bind. simpl default.
    pose proof (Sorted_le_bounds _ _ Hsorted) as Hbounds.
    assert (∀ o, start_time ts + i * freq ts + o * freq ts
                 = start_time ts + (i + o) * freq ts) as Hstep by (intros; ring).
    split.
    - intros Hi. split; [|subst L; apply Forall_cons in Hnegative as [? _]; lia].
      split; [|split; [done|split; [done|split]]].
      + apply elem_of_time_index. exists (Z.to_nat i).
        apply Forall_cons in Hnegative as [? _].
        split; [subst L N l; lia | by rewrite Z2Nat.id by (subst L; lia)].
      + apply Forall_forall. intros lag Hlag. rewrite Hstep.
        apply observed_complete; [done..|].
        pose proof (proj1 (Forall_forall _ _) Hbounds lag Hlag).
        pose proof (proj1 (Forall_forall _ _) Hnegative lag Hlag).
        simpl in *. subst L N l. lia.
      + apply Forall_forall. intros step Hstep'%elem_of_range2. rewrite Hstep.
        apply observed_complete; [done..|].
        apply Forall_cons in Hnegative as [? _]. subst L N l. lia.
    - intros [(_ & _ & _ & Hfeatures & Hlabels) Hi].
      apply Forall_cons in Hfeatures as [Hfirst _]. rewrite Hstep in Hfirst.
      apply observed_complete in Hfirst; [|done..].
      assert (l - 1 ∈ range1 l) as Hlast by (apply elem_of_range2; lia).
      pose proof (proj1 (Forall_forall _ _) Hlabels _ Hlast) as Hlast'. simpl in Hlast'.
      rewrite Hstep in Hlast'. apply observed_complete in Hlast'; [|done..].
      subst L N. lia. }
  assert (stamps' = stamps) as ->.
  { apply StronglySorted_lt_ext; [done| |].
    - apply (StronglySorted_fmap _ Z.lt).
      + intros x y Hxy. destruct Hwf as (Hfreq & _). nia.
      + apply Sorted_StronglySorted; [intros x y z; lia|].
        replace (N - L - l + 1) with (N - l + 1 - L) by lia.
        apply (range2_Sorted L (N - l + 1)).
    - intros t. rewrite Hstamps'. unfold stamps. rewrite list_elem_of_fmap. split.
      + intros Ht. pose proof Ht as (Hin & _).
        apply elem_of_time_index in Hin as (i & Hi & ->).
        exists (Z.of_nat i). split; [done|]. apply elem_of_seqZ.
        pose proof (proj2 (Husable (Z.of_nat i)) (conj Ht (Nat2Z.is_nonneg i))).
        subst L N l. lia.
      + intros (i & -> & Hi%elem_of_seqZ).
        by destruct (proj1 (Husable i) ltac:(subst L N l; lia)) as [Hu _]. }
  clear Hstamps' Hsorted' Husable.
  unfold _create_lagged_data. simpl. unfold episode_samples. rewrite Htable, !bind_Ok_l.
  rewrite HX_y. rewrite length_fmap.
  destruct (decide (keep_recent cap stamps = [])) as [Hnone|Hsome].
  - rewrite Hnone. done.
  - rewrite bool_decide_eq_false_2 by (by destruct (keep_recent cap stamps)).
    simpl. unfold pd.n_columns. rewrite app_nil_r, app_nil_r.
    rewrite <- !list_fmap_compose. do 2 f_equal; apply list_fmap_ext; intros i t _; simpl.
    + by rewrite take_app_length' by by rewrite Hlen_X.
    + by rewrite drop_app_length' by by rewrite Hlen_X.
Qed.

(** X15.  The training set of a single series without missing values, for
    a model that reads target lags only.  With [L] the depth of the
    earliest lag, [l] the [output_chunk_length] and [N] the length of the
    series, there is one row for each position [i] from [L] to [N - l]: its
    sample holds the values at the positions [i + lag], lag after lag, and
    its label the values at the positions [i] to [i + l - 1].  The cap
    keeps the most recent of these rows; when no row is left the builder
    raises [ValueError]. *)
Theorem complete_series_training_rows self ts (cap : option Z) (lag_min : Z)
    (rest : list Z) :
  let L := - lag_min in
  let l := output_chunk_length self in
  let N := Z.of_nat (n_timesteps ts) in
  let window := λ (offsets : list Z) (i : Z),
    offsets ≫= (λ o, default [] (values ts !! Z.to_nat (i + o))) in
  let positions := keep_recent cap (seqZ L (N - L - l + 1)) in
  lags self !! "target" = Some (lag_min :: rest) →
  Sorted Z.le (lag_min :: rest) →
  Forall (λ lag, lag < 0) (lag_min :: rest) →
  truthy_list (lags self !! "past") = false →
  truthy_list (lags self !! "future") = false →
  1 ≤ l →
  well_formed ts → (0 < width ts)%nat → Forall pd.complete (values ts) →
  _create_lagged_data self (Single ts None None) cap
  = if decide (positions = [])
    then Raise (ValueError (no_samples_message 0 1))
    else Ok (window (lag_min :: rest) <$> positions, window (range1 l) <$> positions).
Proof.
  intros L l N window positions Htarget Hsorted Hnegative Hno_past Hno_future Hl
    Hwf Hwidth Hfinite.
  rewrite (target_only_stamps self ts cap lag_min rest) by done.
  fold L l N. rewrite keep_recent_fmap. fold positions.
  assert (∀ i, i ∈ positions → L ≤ i ≤ N - l) as Hpositions.
  { intros i Hi%keep_recent_subseteq%elem_of_seqZ. lia. }
  destruct (decide (positions = [])) as [->|Hsome]; [done|].
  rewrite decide_False by (by destruct positions).
  pose proof (Sorted_le_bounds _ _ Hsorted) as Hbounds.
  rewrite <- !list_fmap_compose.
  do 2 f_equal; apply list_fmap_ext; intros k i Hi%list_elem_of_lookup_2%Hpositions;
    unfold compose, window.
  - unfold feature_row, lag_block. rewrite Htarget, !app_nil_r. simpl default.
    apply Forall_bind_ext, Forall_forall. intros lag Hlag.
    replace (start_time ts + i * freq ts + lag * freq ts)
      with (start_time ts + (i + lag) * freq ts) by ring.
    apply observed_values; [done|].
    pose proof (proj1 (Forall_forall _ _) Hbounds lag Hlag).
    pose proof (proj1 (Forall_forall _ _) Hnegative lag Hlag).
    simpl in *. subst L N l. lia.
  - unfold label_row. apply Forall_bind_ext, Forall_forall.
    intros step Hstep%elem_of_range2.
    replace (start_time ts + i * freq ts + step * freq ts)
      with (start_time ts + (i + step) * freq ts) by ring.
    apply observed_values; [done|].
    apply Forall_cons in Hnegative as [? _]. subst L N l. lia.
Qed.

(** X16.  [min_train_series_length] is the greater of 3 and [L + l], the
    depth of the earliest target lag plus [output_chunk_length].  A series
    without missing values that is at least that long gives the builder
    [N - L - l + 1] training rows, which is at least one; a series shorter
    than [L + l] gives it none, and the builder raises [ValueError]. *)
Theorem min_train_series_length_suffices self ts (lag_min : Z) (rest : list Z) :
  let L := - lag_min in
  let l := output_chunk_length self in
  let N := Z.of_nat (n_timesteps ts) in
  lags self !! "target" = Some (lag_min :: rest) →
  Sorted Z.le (lag_min :: rest) →
  Forall (λ lag, lag < 0) (lag_min :: rest) →
  truthy_list (lags self !! "past") = false →
  truthy_list (lags self !! "future") = false →
  1 ≤ l →
  well_formed ts → (0 < width ts)%nat → Forall pd.complete (values ts) →
  min_train_series_length self = Ok (Z.max 3 (L + l)) ∧
  (Z.max 3 (L + l) ≤ N →
   ∃ X y, _create_lagged_data self (Single ts None None) None = Ok (X, y) ∧
          length X = Z.to_nat (N - L - l + 1) ∧ length y = length X ∧ (1 ≤ length X)%nat) ∧
  (N < L + l →
   _create_lagged_data self (Single ts None None) None
   = Raise (ValueError (no_samples_message 0 1))).
Proof.
  intros L l N Htarget Hsorted Hnegative Hno_past Hno_future Hl Hwf Hwidth Hfinite.
  pose proof (target_only_stamps self ts None lag_min rest Htarget Hsorted Hnegative
                Hno_past Hno_future Hl Hwf Hwidth Hfinite) as Hbuild.
  fold L l N in Hbuild. simpl keep_recent in Hbuild.
  split; [|split].
  - unfold min_train_series_length. rewrite Htarget. simpl. reflexivity.
  - intros Hlong. do 2 eexists. rewrite Hbuild.
    rewrite decide_False.
    + split; [done|]. rewrite !length_fmap, length_seqZ. split; [done|]. split; [done | lia].
    + intros Hnil%fmap_nil_inv. apply (f_equal length) in Hnil.
      rewrite length_seqZ in Hnil. simpl in Hnil. lia.
  - intros Hshort. rewrite Hbuild, decide_True; [done|].
    rewrite seqZ_nil by lia. done.
Qed.

End complete_series.

Lemma complete_series_training_rows_witness :
  _create_lagged_data five_lag_model (Single (univariate 0 8 id) None None) (Some 2)
  = Ok ([[Some 1; Some 2; Some 3; Some 4; Some 5]; [Some 2; Some 3; Some 4; Some 5; Some 6]],
        [[Some 6]; [Some 7]]).
Proof.
  rewrite (complete_series_training_rows five_lag_model (univariate 0 8 id) (Some 2)
             (-5) [-4; -3; -2; -1]).
  - reflexivity.
  - reflexivity.
  - repeat constructor; lia.
  - repeat first [apply Forall_nil_2 | apply Forall_cons_2]; lia.
  - reflexivity.
  - reflexivity.
  - simpl. lia.
  - solve_well_formed.
  - simpl. lia.
  - repeat first [apply Forall_nil_2 | apply Forall_cons_2]; by eexists.
Defined.

Lemma min_train_series_length_suffices_witness :
  min_train_series_length five_lag_model = Ok 6 ∧
  ∃ X y, _create_lagged_data five_lag_model (Single (univariate 0 8 id) None None) None
         = Ok (X, y) ∧ length X = 3%nat.
Proof.
  destruct (min_train_series_length_suffices five_lag_model (univariate 0 8 id)
              (-5) [-4; -3; -2; -1]) as (Hmin & Hlong & _).
  - reflexivity.
  - repeat constructor; lia.
  - repeat first [apply Forall_nil_2 | apply Forall_cons_2]; lia.
  - reflexivity.
  - reflexivity.
  - simpl. lia.
  - solve_well_formed.
  - simpl. lia.
  - repeat first [apply Forall_nil_2 | apply Forall_cons_2]; by eexists.
  - split; [exact Hmin|].
    destruct Hlong as (X & y & Hbuild & Hrows & _); [vm_compute; congruence|].
    exists X, y. split; [exact Hbuild | exact Hrows].
Defined.

(** ** Training *)

Lemma for_each_ext {A B} (f g : A → result B) (l : list A) :
  (∀ x, f x = g x) → for_each f l = for_each g l.
Proof. intros Hext. induction l as [|x l IH]; [done|]. simpl. by rewrite Hext, IH. Qed.

(** The builder reads nothing of the model but its lags and its
    [output_chunk_length]. *)
Lemma create_lagged_data_ext {V : Type} (self self' : @RegressionModel V)
    (input : @series_input V) (cap : option Z) :
  lags self' = lags self →
  output_chunk_length self' = output_chunk_length self →
  _create_lagged_data self' input cap = _create_lagged_data self input cap.
Proof.
  intros Hlags Hl. unfold _create_lagged_data.
  destruct (ensure_list input) as [[targets past] future].
  rewrite (for_each_ext _
    (λ '(idx, target_ts), episode_samples self (length targets) past future cap idx target_ts));
    [done|].
  intros [idx ts]. unfold episode_samples, episode_table. by rewrite Hlags, Hl.
Qed.

Section fit_properties.
Context {V : Type}.
Variable encoding_available : bool.
Variable generate_fit_encodings :
  list (@TimeSeries V) → option (list (@TimeSeries V)) → option (list (@TimeSeries V)) →
  result (option (list (@TimeSeries V)) * option (list (@TimeSeries V))).
Variable is_MultiOutputRegressor : @Regressor V → bool.
Variable supports_multioutput : @Regressor V → bool.
Variable is_CatBoostRegressor : @Regressor V → bool.
Variable loss_function : @Regressor V → result string.
Variable MultiOutputRegressor : @Regressor V → option Z → @Regressor V.
Variable regressor_fit : @Regressor V → matrix V → @labels V → result (@Regressor V).
Variable super_fit :
  @RegressionModel V → list (@TimeSeries V) →
  option (list (@TimeSeries V)) → option (list (@TimeSeries V)) →
  result (@RegressionModel V).

Local Abbreviation fit_ :=
  (fit encoding_available generate_fit_encodings is_MultiOutputRegressor
     supports_multioutput is_CatBoostRegressor loss_function MultiOutputRegressor
     regressor_fit super_fit).

(** The covariates [fit] works with: the given ones, or what the encoders
    make of them. *)
Local Abbreviation encoded series past future :=
  (if encoding_available
   then generate_fit_encodings (default [] (series2seq (Some series)))
          (series2seq past) (series2seq future)
   else Ok (series2seq past, series2seq future)).

(** The two checks on the covariates of one kind. *)
Lemma covariate_check (self : @RegressionModel V) (covs : option (list (@TimeSeries V)))
    (name : string) :
  (_ ← raise_if (bool_decide (is_Some covs)
                 && negb (bool_decide (is_Some (lags self !! name))))
         (covariates_without_lags_message name);
   raise_if (negb (bool_decide (is_Some covs))
             && bool_decide (is_Some (lags self !! name)))
     (lags_without_covariates_message name))
  = match covs, lags self !! name with
    | Some _, None => Raise (ValueError (covariates_without_lags_message name))
    | None, Some _ => Raise (ValueError (lags_without_covariates_message name))
    | _, _ => Ok tt
    end.
Proof. by destruct covs, (lags self !! name). Qed.

(** X17.  [fit] wants covariates exactly for the lags the model has.  With
    [past] and [future] the covariates after the encoders: past covariates
    for a model without past lags raise [ValueError], and so do past lags
    without past covariates; when the past covariates agree with the lags,
    the same holds of the future covariates; and whenever [fit] returns,
    covariates of either kind were given if and only if the model has lags
    of that kind. *)
Theorem fit_covariate_checks (self : @RegressionModel V) (series : @series_arg V)
    (past_covariates future_covariates : option (@series_arg V))
    (max_samples_per_ts n_jobs : option Z)
    (past future : option (list (@TimeSeries V))) :
  encoded series past_covariates future_covariates = Ok (past, future) →
  let fitted := fit_ self series past_covariates future_covariates max_samples_per_ts n_jobs in
  (is_Some past → lags self !! "past" = None →
   fitted = Raise (ValueError
     "`past_covariates` not None in `fit()` method call, but `lags_past_covariates` is None in constructor.")) ∧
  (past = None → is_Some (lags self !! "past") →
   fitted = Raise (ValueError
     "`past_covariates` is None in `fit()` method call, but `lags_past_covariates` is not None in constructor.")) ∧
  ((is_Some past ↔ is_Some (lags self !! "past")) →
   is_Some future → lags self !! "future" = None →
   fitted = Raise (ValueError
     "`future_covariates` not None in `fit()` method call, but `lags_future_covariates` is None in constructor.")) ∧
  ((is_Some past ↔ is_Some (lags self !! "past")) →
   future = None → is_Some (lags self !! "future") →
   fitted = Raise (ValueError
     "`future_covariates` is None in `fit()` method call, but `lags_future_covariates` is not None in constructor.")) ∧
  (∀ self', fitted = Ok self' →
     (is_Some past ↔ is_Some (lags self !! "past")) ∧
     (is_Some future ↔ is_Some (lags self !! "future"))).
Proof.
  intros Hencoded fitted. subst fitted. unfold fit. rewrite Hencoded, bind_Ok_l.
  cbn [for_each]. cbv beta iota. rewrite !covariate_check.
  destruct past as [past|], (lags self !! "past") as [past_lags|];
    destruct future as [future|], (lags self !! "future") as [future_lags|];
    cbn [mbind result_bind];
    (split; [|split; [|split; [|split]]]);
    try done;
    try (by intros [? [=]]);
    try (by intros ? [? [=]]);
    try (by intros ? ? [? [=]]);
    try (intros [Hiff1 Hiff2] ? ?;
         first [by destruct Hiff1 as [? [=]]; eauto | by destruct Hiff2 as [? [=]]; eauto]);
    try (intros self' _; split; split; intros [? ?]; by eauto).
Qed.

(** X18.  What a successful [fit] has done, provided the base class leaves
    the regressor, the lags, [output_chunk_length] and the recorded
    dimensions alone: the model records the dimensions of the series and
    covariates it was fitted on, computed as [predict] computes those it
    checks against them; its lags and [output_chunk_length] are unchanged;
    and its regressor is the given one, wrapped for multi-output
    regression or not (never for a univariate series and one output step),
    fitted on exactly the samples and labels the builder makes of the
    series, the labels as a vector when they have a single column. *)
Theorem fit_trains_on_the_training_set (self : @RegressionModel V) (series : @series_arg V)
    (past_covariates future_covariates : option (@series_arg V))
    (max_samples_per_ts n_jobs : option Z) (self' : @RegressionModel V) :
  let targets := default [] (series2seq (Some series)) in
  (∀ s l p f s', super_fit s l p f = Ok s' →
     model s' = model s ∧ lags s' = lags s ∧
     output_chunk_length s' = output_chunk_length s ∧ input_dim s' = input_dim s) →
  fit_ self series past_covariates future_covariates max_samples_per_ts n_jobs = Ok self' →
  ∃ past future dims regressor X y,
    encoded series past_covariates future_covariates = Ok (past, future) ∧
    dims_of targets past future = Ok dims ∧
    input_dim self' = Some dims ∧
    lags self' = lags self ∧
    output_chunk_length self' = output_chunk_length self ∧
    (regressor = model self ∨ regressor = MultiOutputRegressor (model self) n_jobs) ∧
    (∀ ts, head targets = Some ts → is_univariate ts = true →
           output_chunk_length self ≤ 1 → regressor = model self) ∧
    _create_lagged_data self (Sequence targets past future) max_samples_per_ts = Ok (X, y) ∧
    regressor_fit regressor X
      (if bool_decide (np.n_cols y = 1%nat) then Labels1 (mjoin y) else Labels2 y)
    = Ok (model self').
Proof.
  intros targets Hsuper Hfit. unfold fit in Hfit. fold targets in Hfit.
  bind_inv Hfit as [past future] Hencoded. bind_inv Hfit as ? Hchecks.
  bind_inv Hfit as dims Hdims. bind_inv Hfit as first Hfirst.
  bind_inv Hfit as regressor Hregressor.
  change (model (with_input_dim self (Some dims))) with (model self) in Hregressor.
  change (output_chunk_length (with_input_dim self (Some dims)))
    with (output_chunk_length self) in Hregressor.
  assert ((regressor = model self ∨ regressor = MultiOutputRegressor (model self) n_jobs) ∧
          (is_univariate first = true → output_chunk_length self ≤ 1 →
           regressor = model self)) as [Hwrapped Hplain].
  { split.
    - destruct (negb (is_univariate first) || bool_decide (output_chunk_length self > 1));
        [|injection Hregressor as <-; by left].
      destruct (negb (is_MultiOutputRegressor (model self)));
        [|injection Hregressor as <-; by left].
      destruct (negb (supports_multioutput (model self)));
        [injection Hregressor as <-; by right|].
      destruct (is_CatBoostRegressor (model self)); [|injection Hregressor as <-; by left].
      bind_inv Hregressor as loss Hloss.
      destruct (String.eqb loss "RMSEWithUncertainty");
        injection Hregressor as <-; [by right | by left].
    - intros Hunivariate Hone.
      rewrite Hunivariate, bool_decide_eq_false_2 in Hregressor by lia.
      by injection Hregressor as <-. }
  clear Hregressor. bind_inv Hfit as self1 Hself1.
  apply Hsuper in Hself1 as (Hmodel & Hlags & Hl & Hdim). simpl in Hmodel, Hlags, Hl, Hdim.
  unfold _fit_model in Hfit. bind_inv Hfit as [X y] Hdata. bind_inv Hfit as fitted Hfitted.
  injection Hfit as <-. simpl.
  rewrite (create_lagged_data_ext self self1) in Hdata by done.
  exists past, future, dims, regressor, X, y.
  split; [done|]. split; [done|]. split; [done|]. split; [done|]. split; [done|].
  rewrite Hmodel in Hfitted. split; [done|]. split; [|done].
  intros ts Hhead. assert (first = ts) as <-; [|exact Hplain].
  unfold index in Hfirst. simpl in Hfirst. destruct targets; by simplify_eq/=.
Qed.

End fit_properties.

Lemma fit_covariate_checks_witness :
  plain_fit five_lag_model (One (univariate 0 8 id)) (Some (One (univariate 0 8 id))) None None
  = Raise (ValueError
      "`past_covariates` not None in `fit()` method call, but `lags_past_covariates` is None in constructor.").
Proof.
  unfold plain_fit.
  eapply (proj1 (fit_covariate_checks false _ _ _ _ _ _ _ _ five_lag_model
                   (One (univariate 0 8 id)) (Some (One (univariate 0 8 id))) None None None
                   (Some [univariate 0 8 id]) None eq_refl)).
  - by eexists.
  - reflexivity.
Defined.

Lemma fit_trains_on_the_training_set_witness :
  ∃ self' X y,
    plain_fit five_lag_model (One (univariate 0 8 id)) None None None = Ok self' ∧
    _create_lagged_data five_lag_model (Sequence [univariate 0 8 id] None None) None
      = Ok (X, y) ∧
    lags self' = lags five_lag_model.
Proof.
  destruct (plain_fit five_lag_model (One (univariate 0 8 id)) None None None)
    as [self'|e] eqn:Hfit; [|vm_compute in Hfit; discriminate Hfit].
  pose proof Hfit as Hdone. unfold plain_fit in Hdone.
  apply fit_trains_on_the_training_set in Hdone
    as (past & future & dims & regressor & X & y & Hencoded & _ & _ & Hlags & _ & _ & _
        & Hdata & _);
    [|intros s l p f s' [= <-]; done].
  injection Hencoded as <- <-. exists self', X, y. done.
Defined.

(** ** The features of a prediction step *)

Section step_features_content.
Context {V : Type}.

Lemma index_item {A} (row : list (list A)) (i : Z) :
  - Z.of_nat (length row) ≤ i < Z.of_nat (length row) →
  index row i = Ok (item row i) ∧ item row i ∈ row.
Proof.
  intros Hi. unfold index, item.
  set (j := if decide (i < 0) then i + Z.of_nat (length row) else i).
  assert (0 ≤ j < Z.of_nat (length row)) as Hj by (subst j; case_decide; lia).
  destruct (decide (j < 0)) as [|_]; [lia|].
  destruct (lookup_lt_is_Some_2 row (Z.to_nat j) ltac:(lia)) as [x Hx].
  rewrite Hx. simpl. split; [done|]. by eapply list_elem_of_lookup_2.
Qed.

Lemma bind_as_join {A B} (f : A → list B) (l : list A) : l ≫= f = mjoin (f <$> l).
Proof. induction l as [|x l IH]; [done|]. csimpl. by rewrite IH. Qed.

Lemma reshape2_join (w : nat) (rows_ : matrix V) :
  rows_ ≠ [] → Forall (λ row, length row = w) rows_ →
  np3.reshape2 (length rows_) (mjoin rows_) = Ok rows_.
Proof.
  intros Hsome Hrows. unfold np3.reshape2.
  assert (0 < length rows_)%nat as Hk by (destruct rows_; [done | simpl; lia]).
  rewrite (length_join_const _ w) by done.
  rewrite bool_decide_eq_false_2 by lia.
  rewrite Nat.mul_comm, Nat.Div0.mod_mul, bool_decide_eq_true_2 by done.
  rewrite Nat.div_mul by lia. simpl. f_equal.
  apply fmap_seq_lookup. intros i row Hrow. by apply take_drop_join.
Qed.

(** [a[:, indices].reshape(k, -1)]: row by row, the cells at the indices,
    end to end. *)
Lemma lagged_columns_items (k W c : nat) (a : array3 V) (indices : list Z) :
  (0 < k)%nat → has_shape3 k W c a →
  Forall (λ i, - Z.of_nat W ≤ i < Z.of_nat W) indices →
  lagged_columns k a indices = Ok ((λ row, indices ≫= item row) <$> a).
Proof.
  intros Hk [Hlen Ha] Hindices. unfold lagged_columns, np3.take_axis1.
  rewrite (for_each_fmap_Ok _ (λ row, item row <$> indices)).
  2:{ eapply Forall_impl; [exact Ha|]. intros row [Hrow _]. simpl.
      apply for_each_fmap_Ok. eapply Forall_impl; [exact Hindices|].
      intros i Hi. simpl in Hi. apply index_item. by rewrite Hrow. }
  rewrite bind_Ok_l, join_join, <- list_fmap_compose.
  rewrite (list_fmap_ext (λ row, indices ≫= item row)
             (mjoin ∘ λ row, item row <$> indices) a) by (intros; apply bind_as_join).
  rewrite <- Hlen, <- (length_fmap (mjoin ∘ λ row, item row <$> indices) a).
  apply (reshape2_join (length indices * c)).
  - destruct a; [simpl in *; lia | done].
  - apply Forall_fmap. eapply Forall_impl; [exact Ha|]. intros row [Hrow Hcells]. simpl.
    rewrite (length_join_const _ c); [by rewrite length_fmap|].
    apply Forall_fmap. eapply Forall_impl; [exact Hindices|]. intros i Hi. simpl in *.
    apply (proj1 (Forall_forall _ _) Hcells). apply index_item. by rewrite Hrow.
Qed.

Lemma join_omap_lookup {A} (bs : list (list (list A))) (r : nat) :
  Forall (λ b, is_Some (b !! r)) bs →
  mjoin (omap (λ b : list (list A), b !! r) bs) = bs ≫= (λ b, default [] (b !! r)).
Proof.
  induction 1 as [|b bs [row Hrow] _ IH]; [done|]. csimpl. rewrite Hrow. csimpl.
  by rewrite IH.
Qed.

(** [np.concatenate(np_X, axis=1)]: row by row, the rows of the parts end
    to end. *)
Lemma concatenate_columns_content (k : nat) (parts : list (matrix V)) :
  parts ≠ [] → Forall (λ m, length m = k) parts →
  ∃ X, np3.concatenate_axis1 (λ _, 0%nat) parts = Ok X ∧ length X = k ∧
       ∀ r, (r < k)%nat → X !! r = Some (parts ≫= (λ m, default [] (m !! r))).
Proof.
  intros Hparts Hrows.
  destruct (concatenate_columns_rows k parts Hparts Hrows) as (X & HX & Hlen).
  exists X. split; [done|]. split; [done|]. intros r Hr.
  destruct parts as [|m parts]; [done|]. unfold np3.concatenate_axis1 in HX.
  destruct (forallb _ parts); [|done]. injection HX as <-.
  apply Forall_cons in Hrows as [Hm Hrows].
  assert (Forall (λ b : matrix V, is_Some (b !! r)) parts) as Hsome.
  { eapply Forall_impl; [exact Hrows|]. intros b Hb. apply lookup_lt_is_Some_2. simpl in *. lia. }
  rewrite foldl_zip_with_app_lookup by done.
  destruct (lookup_lt_is_Some_2 m r ltac:(lia)) as [row Hrow]. rewrite Hrow. csimpl.
  by rewrite Hrow, join_omap_lookup.
Qed.

(** The array the target lags are read from. *)
Lemma target_matrix_rows (k L l c : nat) (series_matrix : array3 V)
    (predictions : list (array3 V)) :
  (0 < k)%nat → (0 < L)%nat → (0 < l)%nat →
  has_shape3 k L c series_matrix → Forall (has_shape3 k l c) predictions →
  ∃ target_matrix,
    match predictions with
    | [] => Ok series_matrix
    | _ => np3.concatenate_axis1 length (series_matrix :: predictions)
    end = Ok target_matrix ∧
    has_shape3 k (L + length predictions * l) c target_matrix ∧
    ∀ r, (r < k)%nat → target_matrix !! r = Some (timeline series_matrix predictions r).
Proof.
  intros Hk HL Hl Hm Hps.
  assert (∀ r, (r < k)%nat →
            foldl (zip_with app) series_matrix predictions !! r
            = Some (timeline series_matrix predictions r)) as Hrows.
  { intros r Hr. rewrite foldl_zip_with_app_lookup.
    - destruct Hm as [Hlen _].
      destruct (lookup_lt_is_Some_2 series_matrix r ltac:(lia)) as [row Hrow].
      unfold timeline. by rewrite Hrow.
    - eapply Forall_impl; [exact Hps|]. intros p [Hlen _]. apply lookup_lt_is_Some_2.
      simpl in *. lia. }
  destruct predictions as [|p ps].
  - exists series_matrix. split; [done|]. split; [by rewrite Nat.add_0_r | exact Hrows].
  - destruct (concatenate_axis1_shaped k L l c series_matrix (p :: ps)) as [Hr Hshape];
      [done..|].
    eexists. split; [exact Hr|]. split; [exact Hshape | exact Hrows].
Qed.

(** The blocks of the covariates at a prediction step. *)
Lemma covariate_parts_content (k : nat) (covs : list (option (list Z * array3 V)))
    (t_pred t_max : Z) :
  (0 < k)%nat →
  Forall (covariate_window_fits k t_max) covs →
  0 ≤ t_pred ≤ t_max →
  ∃ cov_parts,
    for_each
      (λ entry : option (list Z * array3 V),
         match entry with
         | Some (relative_cov_lags, data_) =>
           block ← lagged_columns k data_ ((λ lag, lag + t_pred) <$> relative_cov_lags);
           Ok [block]
         | None => Ok []
         end) covs = Ok cov_parts ∧
    Forall (λ m, length m = k) (mjoin cov_parts) ∧
    (Exists is_Some covs → mjoin cov_parts ≠ []) ∧
    ∀ r, (r < k)%nat →
      mjoin cov_parts ≫= (λ m, default [] (m !! r))
      = covs ≫= (λ entry,
          match entry with
          | Some (relative_cov_lags, data_) =>
            relative_cov_lags ≫= (λ lag, item (default [] (data_ !! r)) (lag + t_pred))
          | None => []
          end).
Proof.
  intros Hk Hcovs Ht. induction Hcovs as [|entry covs Hentry _ IH]; simpl.
  - exists []. split; [done|]. split; [constructor|]. split; [by inversion 1 | done].
  - destruct IH as (cov_parts & -> & Hrows & Hsome & Hcontent).
    destruct entry as [[rel data_]|].
    + destruct Hentry as (W & c & Hshape & Hrel).
      rewrite (lagged_columns_items k W c) by
        (done || (apply Forall_fmap; eapply Forall_impl; [exact Hrel|];
                  intros lag Hlag; simpl in *; lia)).
      rewrite !bind_Ok_l. simpl. eexists. split; [done|]. csimpl.
      split; [constructor; [by rewrite length_fmap; destruct Hshape|done]|].
      split; [done|]. intros r Hr. rewrite Hcontent by done. f_equal.
      rewrite list_lookup_fmap. destruct Hshape as [Hlen _].
      destruct (lookup_lt_is_Some_2 data_ r ltac:(lia)) as [row ->]. simpl.
      by rewrite list_fmap_bind.
    + rewrite !bind_Ok_l. simpl. exists ([] :: cov_parts). split; [done|]. csimpl.
      split; [done|]. split; [|done].
      intros [[? [=]]|Hrest]%Exists_cons. by apply Hsome.
Qed.

(** The feature matrix of a prediction step: it has one row for each
    window row, made of the cells the lags point at. *)
Lemma step_features_cells (k l c : nat) (target : option (list Z * array3 V))
    (covs : list (option (list Z * array3 V))) (predictions : list (array3 V))
    (t_pred t_max : Z) :
  (0 < k)%nat → (0 < l)%nat →
  target_window_fits k c target →
  Forall (covariate_window_fits k t_max) covs →
  is_Some target ∨ Exists is_Some covs →
  Forall (has_shape3 k l c) predictions →
  0 ≤ t_pred ≤ t_max →
  ∃ X, step_features k target covs predictions t_pred = Ok X ∧
       length X = k ∧
       ∀ r, (r < k)%nat →
            X !! r = Some (step_feature_row target covs predictions t_pred r).
Proof.
  intros Hk Hl Htarget Hcovs Hgroup Hps Ht. unfold step_features.
  assert (∃ target_part,
    match target with
    | Some (target_lags, series_matrix) =>
      target_matrix ←
        match predictions with
        | [] => Ok series_matrix
        | _ => np3.concatenate_axis1 length (series_matrix :: predictions)
        end;
      block ← lagged_columns k target_matrix target_lags;
      Ok [block]
    | None => Ok []
    end = Ok target_part ∧
    Forall (λ m, length m = k) target_part ∧
    (is_Some target → target_part ≠ []) ∧
    ∀ r, (r < k)%nat →
      target_part ≫= (λ m, default [] (m !! r))
      = match target with
        | Some (target_lags, series_matrix) =>
          target_lags ≫= item (timeline series_matrix predictions r)
        | None => []
        end) as (target_part & -> & Htarget_rows & Htarget_some & Htarget_content).
  { destruct target as [[target_lags series_matrix]|].
    - destruct Htarget as (L & HL & Hm & Hlags).
      destruct (target_matrix_rows k L l c series_matrix predictions)
        as (tm & -> & Htm & Hrows); [done..|].
      rewrite bind_Ok_l.
      rewrite (lagged_columns_items k (L + length predictions * l) c) by
        (done || (eapply Forall_impl; [exact Hlags|]; intros lag Hlag; simpl in *; lia)).
      rewrite bind_Ok_l. eexists. split; [done|].
      split; [apply Forall_singleton; by rewrite length_fmap; destruct Htm|].
      split; [done|]. intros r Hr. rewrite bind_singleton, list_lookup_fmap, Hrows by done.
      done.
    - exists []. split; [done|]. split; [constructor|]. split; [by intros [? ?] | done]. }
  rewrite bind_Ok_l.
  destruct (covariate_parts_content k covs t_pred t_max Hk Hcovs Ht)
    as (cov_parts & -> & Hcov_rows & Hcov_some & Hcov_content).
  rewrite bind_Ok_l.
  destruct (concatenate_columns_content k (target_part ++ mjoin cov_parts))
    as (X & -> & Hlen & Hrows).
  - destruct Hgroup as [Hsome|Hsome].
    + specialize (Htarget_some Hsome). by destruct target_part.
    + specialize (Hcov_some Hsome). by destruct target_part, (mjoin cov_parts).
  - by apply Forall_app.
  - exists X. split; [done|]. split; [done|]. intros r Hr.
    rewrite Hrows, bind_app, Htarget_content, Hcov_content by done. done.
Qed.

(** X19.  The feature matrix of a prediction step, cell by cell.  Row [r]
    holds, for each target lag in turn, the cell that many steps from the
    end of its time line, which is the trailing window of its series
    followed by the answers the regressor has given for this row so far;
    then, for the past and for the future covariates, the cells of the
    covariate window at the relative lags moved on by [t_pred].  So the
    lags that reach further back than the steps predicted so far read
    observed values, and the others read the model's own answers. *)
Theorem step_features_content (k l c : nat) (target : option (list Z * array3 V))
    (covs : list (option (list Z * array3 V))) (predictions : list (array3 V))
    (t_pred t_max : Z) :
  (0 < k)%nat → (0 < l)%nat →
  target_window_fits k c target →
  Forall (covariate_window_fits k t_max) covs →
  is_Some target ∨ Exists is_Some covs →
  Forall (has_shape3 k l c) predictions →
  0 ≤ t_pred ≤ t_max →
  ∃ X, step_features k target covs predictions t_pred = Ok X ∧
       length X = k ∧
       ∀ r, (r < k)%nat →
            X !! r = Some (step_feature_row target covs predictions t_pred r).
Proof. apply step_features_cells. Qed.

End step_features_content.

(** ** The prediction loop, step by step *)

Section autoregression.
Context {V : Type}.
Variable St : Type.
Variable sampler : @RegressionModel V → matrix V → Z → St → result (array3 V * St).

Lemma prediction_loop_steps (self : @RegressionModel V) (num_samples : Z) (k : nat)
    (target : option (list Z * array3 V)) (covs : list (option (list Z * array3 V)))
    (t_preds : list Z) (init : list (array3 V)) (st : St)
    (predictions : list (array3 V)) (st' : St) :
  prediction_loop St sampler self num_samples k target covs t_preds init st
  = Ok (predictions, st') →
  ∃ (answers : list (array3 V)) (states : list St),
    predictions = init ++ answers ∧
    length answers = length t_preds ∧
    length states = S (length t_preds) ∧
    head states = Some st ∧ last states = Some st' ∧
    ∀ j t, t_preds !! j = Some t →
      ∃ X answer s s',
        step_features k target covs (init ++ take j answers) t = Ok X ∧
        states !! j = Some s ∧ states !! S j = Some s' ∧
        answers !! j = Some answer ∧
        sampler self X num_samples s = Ok (answer, s').
Proof.
  revert init st. induction t_preds as [|t t_preds IH]; intros init st Hloop.
  - injection Hloop as <- <-. exists [], [st]. rewrite app_nil_r.
    repeat split; done.
  - simpl in Hloop. bind_inv Hloop as X HX. bind_inv Hloop as [answer st1] Hanswer.
    destruct (IH _ _ Hloop) as (answers & states & -> & Hlen & Hstates & Hhead & Hlast & Hsteps).
    exists (answer :: answers), (st :: states).
    split; [by rewrite <- app_assoc|]. split; [simpl; lia|]. split; [simpl; lia|].
    split; [done|]. split; [destruct states; [done | by rewrite last_cons, Hlast]|].
    intros [|j] t' Ht'.
    + injection Ht' as <-. exists X, answer, st, st1. rewrite app_nil_r.
      split; [done|]. split; [done|]. split; [by destruct states; simplify_eq/= | done].
    + destruct (Hsteps j t' Ht') as (X' & answer' & s & s' & HX' & Hs & Hs' & Ha & Hanswer').
      exists X', answer', s, s'. rewrite <- app_assoc in HX'. done.
Qed.

(** X20.  The loop of [predict] is an autoregression: there is one answer
    for each prediction step; the answer of a step is what the regressor
    method returns for the features built from the windows and from the
    answers of the steps before it, and for nothing else; and the state of
    the method (its random generator) is handed from each step to the
    next, the last one being the state [predict] ends in. *)
Theorem prediction_loop_unrolled (self : @RegressionModel V) (num_samples : Z) (k : nat)
    (target : option (list Z * array3 V)) (covs : list (option (list Z * array3 V)))
    (t_preds : list Z) (st : St) (answers : list (array3 V)) (st' : St) :
  prediction_loop St sampler self num_samples k target covs t_preds [] st
  = Ok (answers, st') →
  length answers = length t_preds ∧
  ∃ states : list St,
    length states = S (length t_preds) ∧
    head states = Some st ∧ last states = Some st' ∧
    ∀ j t, t_preds !! j = Some t →
      ∃ X answer s s',
        step_features k target covs (take j answers) t = Ok X ∧
        states !! j = Some s ∧ states !! S j = Some s' ∧
        answers !! j = Some answer ∧
        sampler self X num_samples s = Ok (answer, s').
Proof.
  intros Hloop.
  destruct (prediction_loop_steps _ _ _ _ _ _ _ _ _ _ Hloop)
    as (answers' & states & Heq & Hlen & Hstates & Hhead & Hlast & Hsteps).
  simpl in Heq. subst answers'. split; [done|]. exists states.
  split; [done|]. split; [done|]. split; [done|]. exact Hsteps.
Qed.

End autoregression.

Lemma step_features_content_witness :
  step_features 1 (Some ([-2; -1], [[[Some 8]; [Some 9]]])) [None; None]
    [[[[Some 17]; [Some 18]]]] 2
  = Ok [[Some 17; Some 18]].
Proof.
  destruct (step_features_content 1 2 1 (Some ([-2; -1], [[[Some 8]; [Some 9]]]))
              [None; None] [[[[Some 17]; [Some 18]]]] 2 2) as (X & -> & Hlen & Hrows).
  - lia.
  - lia.
  - exists 2%nat. split; [lia|]. split; [|repeat constructor; lia].
    split; [reflexivity|]. repeat constructor.
  - repeat constructor.
  - left. by eexists.
  - repeat constructor.
  - lia.
  - specialize (Hrows 0%nat ltac:(lia)).
    destruct X as [|row [|row' X]]; [discriminate Hlen | | discriminate Hlen].
    injection Hrows as ->. reflexivity.
Defined.

Lemma prediction_loop_unrolled_witness :
  ∃ answers st',
    prediction_loop unit _predict_and_sample fitted_model 1 1
      (Some ([-2; -1], [[[Some 8]; [Some 9]]])) [None; None] [0; 2] [] tt
    = Ok (answers, st') ∧
    length answers = 2%nat.
Proof.
  destruct (prediction_loop unit _predict_and_sample fitted_model 1 1
              (Some ([-2; -1], [[[Some 8]; [Some 9]]])) [None; None] [0; 2] [] tt)
    as [[answers st']|e] eqn:Hloop; [|vm_compute in Hloop; discriminate Hloop].
  exists answers, st'. split; [reflexivity|].
  by destruct (prediction_loop_unrolled _ _ _ _ _ _ _ _ _ _ _ Hloop) as [Hlen _].
Defined.

(** ** Prediction features and training features *)

Lemma lookup_bind_replicate {A} (a : list A) (s r : nat) :
  (0 < s)%nat → (a ≫= replicate s) !! r = a !! (r `div` s)%nat.
Proof.
  intros Hs. revert r. induction a as [|x a IH]; intros r; [done|]. rewrite bind_cons.
  destruct (decide (r < s)%nat) as [Hlt|Hge].
  - rewrite lookup_app_l by by rewrite length_replicate.
    rewrite Nat.div_small by done. simpl. by apply lookup_replicate_2.
  - rewrite lookup_app_r by (rewrite length_replicate; lia).
    rewrite length_replicate, IH.
    replace r with ((r - s) + 1 * s)%nat at 2 by lia.
    rewrite Nat.div_add by lia. by rewrite Nat.add_1_r.
Qed.

(** A filter that keeps the positions of an interval. *)
Lemma filter_interval {A} (P : A → Prop) `{!∀ x, Decision (P x)} (l : list A) (m n : nat) :
  (∀ i x, l !! i = Some x → (P x ↔ (m ≤ i < m + n)%nat)) →
  filter P l = take n (drop m l).
Proof.
  revert m n. induction l as [|x l IH]; intros m n Hl; [by rewrite drop_nil, take_nil|].
  pose proof (Hl 0%nat x eq_refl) as Hx.
  destruct m as [|m].
  - destruct n as [|n].
    + rewrite filter_cons_False by (rewrite Hx; lia).
      rewrite (IH 0%nat 0%nat); [done|].
      intros i y Hy. rewrite (Hl (S i) y Hy). lia.
    + rewrite filter_cons_True by (rewrite Hx; lia). simpl.
      rewrite (IH 0%nat n); [done|].
      intros i y Hy. rewrite (Hl (S i) y Hy). lia.
  - rewrite filter_cons_False by (rewrite Hx; lia). simpl.
    apply IH. intros i y Hy. rewrite (Hl (S i) y Hy). lia.
Qed.

Lemma for_each_imap_Ok {A B} (f : nat → A → result B) (h : A → B) (l : list A) (k : nat) :
  (∀ i x, l !! i = Some x → f (k + i)%nat x = Ok (h x)) →
  for_each (λ '(i, x), f i x) (imap (λ i x, ((k + i)%nat, x)) l) = Ok (h <$> l).
Proof.
  revert k. induction l as [|x l IH]; intros k Hl; [done|].
  rewrite imap_cons. cbn [for_each]. rewrite Nat.add_0_r.
  rewrite <- (Nat.add_0_r k) at 1. rewrite (Hl 0%nat x eq_refl), bind_Ok_l.
  rewrite (imap_ext _ (λ i x, ((S k + i)%nat, x)) l)
    by (intros i y _; simpl; f_equal; lia).
  rewrite (IH (S k)); [done|].
  intros i y Hy. replace (S k + i)%nat with (k + S i)%nat by lia. by apply Hl.
Qed.

Lemma for_each_enumerate_Ok {A B} (f : nat → A → result B) (h : A → B) (l : list A) :
  (∀ i x, l !! i = Some x → f i x = Ok (h x)) →
  for_each (λ '(i, x), f i x) (enumerate l) = Ok (h <$> l).
Proof. intros Hl. by apply (for_each_imap_Ok f h l 0). Qed.

Section windows.
Context {V : Type}.
Variable timestamp_repr : Z → string.
Implicit Types (ts cov : @TimeSeries V).

Lemma lt_ceil_div (x f i : Z) : 0 < f → i * f < x ↔ i < ceil_div x f.
Proof.
  intros Hf. unfold ceil_div.
  pose proof (Z.div_mod (- x) f ltac:(lia)) as Hdiv.
  pose proof (Z.mod_pos_bound (- x) f Hf) as Hmod. nia.
Qed.

Lemma le_floor_div (x f i : Z) : 0 < f → i * f ≤ x ↔ i ≤ x / f.
Proof.
  intros Hf.
  pose proof (Z.div_mod x f ltac:(lia)) as Hdiv.
  pose proof (Z.mod_pos_bound x f Hf) as Hmod. nia.
Qed.

(** The window cut out of a covariate between two time stamps, the first
    of which is a time stamp of its index, holds its values from that one
    on. *)
Lemma slice_values_interval cov (j0 : nat) (b : Z) :
  well_formed cov →
  slice_values cov (start_time cov + Z.of_nat j0 * freq cov) b
  = take (Z.to_nat (if has_range_index cov
                    then ceil_div (b - start_time cov) (freq cov)
                    else (b - start_time cov) / freq cov + 1) - j0)
         (drop j0 (values cov)).
Proof.
  intros (Hfreq & Hsome & Hrows). unfold slice_values.
  set (a := start_time cov + Z.of_nat j0 * freq cov).
  set (U := Z.to_nat (if has_range_index cov
                      then ceil_div (b - start_time cov) (freq cov)
                      else (b - start_time cov) / freq cov + 1)).
  assert (∀ i : nat, in_slice cov a b (start_time cov + Z.of_nat i * freq cov) = true
                     ↔ (j0 ≤ i < U)%nat) as Hinside.
  { intros i. unfold in_slice. rewrite andb_true_iff, bool_decide_eq_true. subst a U.
    destruct (has_range_index cov); rewrite bool_decide_eq_true.
    - pose proof (lt_ceil_div (b - start_time cov) (freq cov) (Z.of_nat i) Hfreq). nia.
    - pose proof (le_floor_div (b - start_time cov) (freq cov) (Z.of_nat i) Hfreq). nia. }
  rewrite (filter_interval _ _ j0 (U - j0)).
  - by rewrite fmap_take, fmap_drop, snd_zip by by rewrite length_time_index.
  - intros i [t row] Hi. apply lookup_zip_with_Some in Hi as (t' & row' & [= <- <-] & Ht & _).
    simpl. assert (i < n_timesteps cov)%nat as Hlt.
    { rewrite <- length_time_index. by eapply lookup_lt_Some. }
    rewrite lookup_time_index in Ht by done. injection Ht as <-.
    rewrite Hinside. lia.
Qed.

(** The window of a covariate that spans it, on the grid of its series:
    [W] time steps, holding what the covariate holds at the time stamps
    from the first required one on. *)
Lemma covariate_window_rows ts cov (first_req : Z) (W : nat) :
  0 < freq ts → on_grid ts cov → has_range_index cov = has_range_index ts →
  (∃ m : Z, first_req = start_time ts + m * freq ts) →
  (0 < W)%nat →
  let last_req := first_req + (Z.of_nat W - 1) * freq ts in
  covers cov first_req last_req = true →
  let window := slice_values cov first_req
                  (if has_range_index ts then last_req + freq ts else last_req) in
  length window = W ∧
  Forall (λ row, length row = width cov) window ∧
  ∀ q : nat, (q < W)%nat →
    window !! q = Some (observed cov (first_req + Z.of_nat q * freq cov)).
Proof.
  intros Hfreq (Hwf & Hsame & m & Hstart) Hkind (m' & Hfirst) HW last_req Hcovers window.
  apply covers_spec in Hcovers as [Hlow Hhigh].
  pose proof Hwf as (Hfreq' & Hsome & Hrows).
  set (j0 := Z.to_nat (m' - m)).
  assert (first_req = start_time cov + Z.of_nat j0 * freq cov) as Ha.
  { subst j0. rewrite Z2Nat.id by nia. rewrite Hsame, Hstart, Hfirst. ring. }
  assert (j0 + W ≤ n_timesteps cov)%nat as Hfits.
  { unfold end_time in Hhigh. subst last_req. rewrite Ha, Hsame in Hhigh.
    rewrite Hsame in Hfreq'. nia. }
  clearbody j0.
  assert (window = take W (drop j0 (values cov))) as Hwindow.
  { subst window. rewrite Ha at 1. rewrite slice_values_interval by done. f_equal.
    rewrite Hkind. subst last_req. rewrite Ha, <- Hsame.
    destruct (has_range_index ts).
    - replace (start_time cov + Z.of_nat j0 * freq cov + (Z.of_nat W - 1) * freq cov
               + freq cov - start_time cov) with (Z.of_nat (j0 + W) * freq cov)
        by (rewrite Nat2Z.inj_add; ring).
      unfold ceil_div. rewrite <- Z.mul_opp_l, Z.div_mul by lia. lia.
    - replace (start_time cov + Z.of_nat j0 * freq cov + (Z.of_nat W - 1) * freq cov
               - start_time cov) with (Z.of_nat (j0 + W - 1) * freq cov)
        by (rewrite Nat2Z.inj_sub, Nat2Z.inj_add by lia; simpl; ring).
      rewrite Z.div_mul by lia. lia. }
  rewrite Hwindow. split; [|split].
  - rewrite length_take, length_drop. unfold n_timesteps in Hfits. lia.
  - by apply Forall_take, Forall_drop.
  - intros q Hq. rewrite lookup_take_lt, lookup_drop by done.
    replace (first_req + Z.of_nat q * freq cov)
      with (start_time cov + Z.of_nat (j0 + q) * freq cov) by (rewrite Ha; lia).
    rewrite observed_index by (done || lia).
    destruct (lookup_lt_is_Some_2 (values cov) (j0 + q)) as [row ->];
      [unfold n_timesteps in Hfits; lia | done].
Qed.

Lemma has_shape3_repeat {A} (e L c : nat) (a : list (list (list A))) (s : nat) :
  has_shape3 e L c a → has_shape3 (e * s) L c (a ≫= replicate s).
Proof.
  intros [Hlen Ha]. split.
  - rewrite (length_bind_const _ _ s) by (intros; apply length_replicate). by rewrite Hlen.
  - apply Forall_forall. intros row (x & Hrow & Hx)%list_elem_of_bind.
    apply elem_of_replicate in Hrow as [-> _].
    by apply (proj1 (Forall_forall _ _) Ha).
Qed.

(** Arrays of one shape stack. *)
Lemma stack_shaped (k l c : nat) (ms : list (matrix V)) :
  has_shape3 k l c ms → ms ≠ [] → np3.stack ms = Ok ms.
Proof.
  intros [_ Hall] Hsome. unfold np3.stack. destruct ms as [|m ms]; [done|].
  rewrite (proj2 (forallb_Forall _ _)); [done|].
  apply Forall_cons in Hall as [[Hm Hm'] Hall].
  eapply Forall_impl; [exact Hall|]. intros m' [Hlen Hcells]. apply bool_decide_eq_true.
  unfold np3.shape2. rewrite Hm, Hlen. f_equal. unfold np.n_cols.
  destruct m as [|row ?], m' as [|row' ?]; simpl in *; [done | lia | lia |].
  apply Forall_cons in Hm' as [-> _]. by apply Forall_cons in Hcells as [-> _].
Qed.

(** The window of the target series: the last values of each series, as
    many as the earliest lag reaches back, once for each sample. *)
Lemma target_window_spec (series : list (@TimeSeries V)) (num_samples : Z) (c : nat)
    (lag_min : Z) (rest : list Z) :
  lag_min < 0 → 0 ≤ num_samples → series ≠ [] →
  Forall (λ ts, well_formed ts ∧ width ts = c ∧ - lag_min ≤ Z.of_nat (n_timesteps ts)) series →
  let L := Z.to_nat (- lag_min) in
  let windows := (λ ts, drop (n_timesteps ts - L) (values ts)) <$> series in
  (first_lag ← index (lag_min :: rest) 0;
   stacked ← np3.stack ((λ ts, values (ts_slice_from ts first_lag)) <$> series);
   Ok (Some stacked)) = Ok (Some windows) ∧
  repeat_rows (Some windows) num_samples
  = Ok (Some (windows ≫= replicate (Z.to_nat num_samples))) ∧
  has_shape3 (length series * Z.to_nat num_samples) L c
    (windows ≫= replicate (Z.to_nat num_samples)).
Proof.
  intros Hlag Hsamples Hsome Hseries L windows.
  assert ((λ ts, values (ts_slice_from ts lag_min)) <$> series = windows) as Hwindows.
  { apply list_fmap_ext. intros i ts Hts. simpl. unfold slice_from, clip.
    rewrite decide_True by done. f_equal. unfold n_timesteps. subst L. lia. }
  assert (has_shape3 (length series) L c windows) as Hshape.
  { unfold windows. split; [by rewrite length_fmap|]. apply Forall_fmap.
    eapply Forall_impl; [exact Hseries|]. intros ts ((_ & _ & Hrows) & Hwidth & Hlong). simpl.
    split; [rewrite length_drop; unfold n_timesteps in *; subst L; lia|].
    rewrite <- Hwidth. by apply Forall_drop. }
  split; [|split; [|by apply has_shape3_repeat]].
  - change (index (lag_min :: rest) 0) with (Ok lag_min : result Z).
    rewrite bind_Ok_l, Hwindows.
    rewrite (stack_shaped _ _ _ _ Hshape)
      by (unfold windows; destruct series; [done | discriminate]).
    by rewrite !bind_Ok_l.
  - unfold repeat_rows, np3.repeat. by rewrite decide_False by lia.
Qed.

(** The window of one kind of covariates, for covariates that span it on
    the grids of their series. *)
Lemma covariate_matrix_spec (self : @RegressionModel V) (cov_type : string)
    (n steps : Z) (series covs : list (@TimeSeries V)) (lag_min : Z) (rest : list Z)
    (c' : nat) :
  let l := output_chunk_length self in
  let lag_max := List.last (lag_min :: rest) lag_min in
  let W := Z.to_nat ((steps - 1) * l + lag_max - lag_min + 1) in
  let window := λ ts cov,
    slice_values cov (first_req_ts ts lag_min)
      (if has_range_index ts
       then last_req_ts self steps ts lag_max + freq ts
       else last_req_ts self steps ts lag_max) in
  lags self !! cov_type = Some (lag_min :: rest) →
  Sorted Z.le (lag_min :: rest) →
  0 ≤ (steps - 1) * l →
  series ≠ [] →
  Forall2 (λ ts cov,
             0 < freq ts ∧ on_grid ts cov ∧ has_range_index cov = has_range_index ts ∧
             width cov = c' ∧
             covers cov (first_req_ts ts lag_min) (last_req_ts self steps ts lag_max) = true)
          series covs →
  covariate_matrix timestamp_repr self cov_type n steps series (Some covs)
  = Ok (Some ((λ lag, lag - lag_min) <$> (lag_min :: rest), zip_with window series covs)) ∧
  has_shape3 (length series) W c' (zip_with window series covs) ∧
  Forall (λ rel, 0 ≤ rel ∧ rel + (steps - 1) * l < Z.of_nat W)
         ((λ lag, lag - lag_min) <$> (lag_min :: rest)) ∧
  ∀ i ts cov (q : nat),
    series !! i = Some ts → covs !! i = Some cov → (q < W)%nat →
    window ts cov !! q = Some (observed cov (first_req_ts ts lag_min + Z.of_nat q * freq ts)).
Proof.
  intros l lag_max W window Hlags Hsorted Hsteps Hseries Hcovs.
  pose proof (Sorted_le_bounds _ _ Hsorted) as Hbounds. fold lag_max in Hbounds.
  assert (lag_min ≤ lag_max) as Hmax
    by (apply Forall_cons in Hbounds as [? _]; lia).
  assert (0 < W)%nat as HW by (subst W; lia).
  assert (∀ ts cov,
            0 < freq ts ∧ on_grid ts cov ∧ has_range_index cov = has_range_index ts ∧
            width cov = c' ∧
            covers cov (first_req_ts ts lag_min) (last_req_ts self steps ts lag_max) = true →
            length (window ts cov) = W ∧
            Forall (λ row, length row = c') (window ts cov) ∧
            ∀ q : nat, (q < W)%nat →
              window ts cov !! q
              = Some (observed cov (first_req_ts ts lag_min + Z.of_nat q * freq ts)))
    as Hwindow.
  { intros ts cov (Hfreq & Hgrid & Hkind & Hwidth & Hcovers).
    assert (last_req_ts self steps ts lag_max
            = first_req_ts ts lag_min + (Z.of_nat W - 1) * freq ts) as Hlast.
    { unfold last_req_ts, last_pred_ts, first_req_ts. subst W. fold l.
      rewrite Z2Nat.id by lia. ring. }
    subst window. cbv beta. rewrite Hlast in *.
    destruct (covariate_window_rows ts cov (first_req_ts ts lag_min) W)
      as (Hlen & Hrows & Hcontent); [done..| |done|done|].
    - exists (Z.of_nat (n_timesteps ts) + lag_min).
      unfold first_req_ts, first_pred_ts, end_time. ring.
    - split; [done|]. split; [by rewrite <- Hwidth|].
      intros q Hq. rewrite (Hcontent q Hq). destruct Hgrid as (_ & -> & _). done. }
  assert (has_shape3 (length series) W c' (zip_with window series covs)) as Hshape.
  { split; [rewrite length_zip_with; apply Forall2_length in Hcovs; lia|].
    apply Forall_lookup. intros i m Hm.
    apply lookup_zip_with_Some in Hm as (ts & cov & -> & Hts & Hcov).
    destruct (Hwindow ts cov (Forall2_lookup_lr _ _ _ _ _ _ Hcovs Hts Hcov)) as (? & ? & _).
    done. }
  split; [|split; [|split]].
  - unfold covariate_matrix. rewrite Hlags. fold lag_max.
    rewrite (for_each_enumerate_Ok
               (λ idx '(ts, cov),
                  covariate_window timestamp_repr self cov_type n steps lag_min lag_max
                    idx ts cov)
               (λ '(ts, cov), window ts cov)).
    2:{ intros i [ts cov] Hi. apply lookup_zip_with_Some in Hi as (? & ? & [= <- <-] & Hts & Hcov).
        apply covariate_window_Ok.
        by destruct (Forall2_lookup_lr _ _ _ _ _ _ Hcovs Hts Hcov) as (_ & _ & _ & _ & ?). }
    rewrite bind_Ok_l.
    assert ((λ '(ts, cov), window ts cov) <$> zip series covs = zip_with window series covs)
      as -> by (rewrite (zip_with_zip window); apply list_fmap_ext; by intros ? []).
    rewrite (stack_shaped (length series) W c'); [done|done|].
    destruct Hcovs; [done | discriminate].
  - done.
  - apply Forall_fmap. eapply Forall_impl; [exact Hbounds|]. intros lag Hlag. simpl.
    clear Hwindow Hshape. clearbody l lag_max. subst W. simpl in Hlag. lia.
  - intros i ts cov q Hts Hcov Hq.
    destruct (Hwindow ts cov (Forall2_lookup_lr _ _ _ _ _ _ Hcovs Hts Hcov)) as (_ & _ & Hrow).
    by apply Hrow.
Qed.

End windows.

Section prediction_windows_properties.
Context {V : Type}.
Variable timestamp_repr : Z → string.

Lemma reaches_back_spec (self : @RegressionModel V) (series : list (@TimeSeries V)) (c : nat)
    (lag_min : Z) (rest : list Z) :
  Forall (λ ts, well_formed ts ∧ width ts = c) series →
  reaches_back self series →
  lags self !! "target" = Some (lag_min :: rest) →
  lag_min < 0 ∧
  Forall (λ lag, lag_min ≤ lag < 0) (lag_min :: rest) ∧
  Forall (λ ts, well_formed ts ∧ width ts = c ∧ - lag_min ≤ Z.of_nat (n_timesteps ts)) series.
Proof.
  intros Hseries Hback Hlags.
  destruct (Hback _ Hlags) as (lag_min' & rest' & [= <- <-] & Hneg & Hlong).
  split; [apply Forall_cons in Hneg as [? _]; lia|]. split; [done|].
  apply Forall_lookup. intros i ts Hts.
  destruct (Forall_lookup_1 _ _ _ _ Hseries Hts) as [? ?].
  split; [done|]. split; [done|]. exact (Forall_lookup_1 _ _ _ _ Hlong Hts).
Qed.

Lemma spans_matrix (self : @RegressionModel V) (cov_type : string) (n : Z)
    (series covs : list (@TimeSeries V)) :
  let l := output_chunk_length self in
  let steps := ceil_div n l in
  1 ≤ n → 0 < l → series ≠ [] →
  Forall (λ ts, 0 < freq ts) series →
  spans self cov_type steps series (Some covs) →
  ∃ lag_min rest (c' : nat),
    let lag_max := List.last (lag_min :: rest) lag_min in
    let W := Z.to_nat ((steps - 1) * l + lag_max - lag_min + 1) in
    let window := λ ts cov,
      slice_values cov (first_req_ts ts lag_min)
        (if has_range_index ts
         then last_req_ts self steps ts lag_max + freq ts
         else last_req_ts self steps ts lag_max) in
    lags self !! cov_type = Some (lag_min :: rest) ∧
    length covs = length series ∧
    covariate_matrix timestamp_repr self cov_type n steps series (Some covs)
    = Ok (Some ((λ lag, lag - lag_min) <$> (lag_min :: rest), zip_with window series covs)) ∧
    has_shape3 (length series) W c' (zip_with window series covs) ∧
    Forall (λ rel, 0 ≤ rel ∧ rel + (steps - 1) * l < Z.of_nat W)
           ((λ lag, lag - lag_min) <$> (lag_min :: rest)) ∧
    ∀ i ts cov (q : nat),
      series !! i = Some ts → covs !! i = Some cov → (q < W)%nat →
      freq cov = freq ts ∧
      window ts cov !! q
      = Some (observed cov (first_req_ts ts lag_min + Z.of_nat q * freq ts)).
Proof.
  intros l steps Hn Hl Hsome Hfreq Hspans.
  destruct (Hspans covs eq_refl) as (lag_min & rest & c' & Hlags & Hsorted & Hcovs).
  assert (0 ≤ (steps - 1) * l) as Hsteps.
  { pose proof (ceil_div_bounds n l Hn Hl). subst steps. nia. }
  destruct (covariate_matrix_spec timestamp_repr self cov_type n steps series covs
              lag_min rest c' Hlags Hsorted Hsteps Hsome) as (Hm & Hshape & Hrel & Hcontent).
  { apply Forall2_same_length_lookup_2; [by eapply Forall2_length|].
    intros i ts cov Hts Hcov.
    split; [by eapply (Forall_lookup_1 _ _ _ _ Hfreq)|].
    exact (Forall2_lookup_lr _ _ _ _ _ _ Hcovs Hts Hcov). }
  exists lag_min, rest, c'. cbv zeta.
  split; [done|]. split; [symmetry; by eapply Forall2_length|].
  split; [done|]. split; [done|]. split; [done|].
  intros i ts cov q Hts Hcov Hq. split; [|by eapply Hcontent].
  by destruct (Forall2_lookup_lr _ _ _ _ _ _ Hcovs Hts Hcov) as ((_ & ? & _) & _).
Qed.

Lemma spans_spec (self : @RegressionModel V) (cov_type : string) (n : Z)
    (series : list (@TimeSeries V)) (covs : option (list (@TimeSeries V)))
    (num_samples : Z) :
  let l := output_chunk_length self in
  let steps := ceil_div n l in
  1 ≤ n → 0 < l → 0 ≤ num_samples → series ≠ [] →
  Forall (λ ts, 0 < freq ts) series →
  spans self cov_type steps series covs →
  ∃ m, covariate_matrix timestamp_repr self cov_type n steps series covs = Ok m ∧
       match m with
       | Some (rel, data_) => data_ ← np3.repeat data_ num_samples; Ok (Some (rel, data_))
       | None => Ok None
       end = Ok (covariate_entry self cov_type steps series covs (Z.to_nat num_samples)).
Proof.
  intros l steps Hn Hl Hsamples Hsome Hfreq Hspans.
  destruct covs as [covs|]; [|by exists None].
  destruct (spans_matrix self cov_type n series covs Hn Hl Hsome Hfreq Hspans)
    as (lag_min & rest & c' & Hlags & _ & Hm & _).
  eexists. split; [exact Hm|]. unfold np3.repeat. rewrite decide_False by lia.
  unfold covariate_entry. by rewrite Hlags.
Qed.

Lemma covariate_entry_fits (self : @RegressionModel V) (cov_type : string) (n : Z)
    (series : list (@TimeSeries V)) (covs : option (list (@TimeSeries V)))
    (samples : nat) :
  let l := output_chunk_length self in
  let steps := ceil_div n l in
  1 ≤ n → 0 < l → series ≠ [] →
  Forall (λ ts, 0 < freq ts) series →
  spans self cov_type steps series covs →
  covariate_window_fits (length series * samples) ((steps - 1) * l)
    (covariate_entry self cov_type steps series covs samples).
Proof.
  intros l steps Hn Hl Hsome Hfreq Hspans.
  destruct covs as [covs|]; [|done].
  destruct (spans_matrix self cov_type n series covs Hn Hl Hsome Hfreq Hspans)
    as (lag_min & rest & c' & Hlags & _ & _ & Hshape & Hrel & _).
  unfold covariate_entry. rewrite Hlags. simpl.
  eexists _, c'. split; [by apply has_shape3_repeat|]. exact Hrel.
Qed.

Lemma target_entry_fits (self : @RegressionModel V) (series : list (@TimeSeries V))
    (num_samples : Z) (c : nat) :
  0 ≤ num_samples → series ≠ [] →
  Forall (λ ts, well_formed ts ∧ width ts = c) series →
  reaches_back self series →
  target_window_fits (length series * Z.to_nat num_samples) c
    (target_entry self series (Z.to_nat num_samples)).
Proof.
  intros Hsamples Hsome Hseries Hback. unfold target_entry.
  destruct (lags self !! "target") as [[|lag_min rest]|] eqn:Hlags; [done| |done].
  destruct (reaches_back_spec self series c lag_min rest Hseries Hback Hlags)
    as (Hneg & Hlags_ & Hlong).
  destruct (target_window_spec series num_samples c lag_min rest Hneg Hsamples Hsome Hlong)
    as (_ & _ & Hshape).
  exists (Z.to_nat (- lag_min)). split; [lia|]. split; [done|].
  eapply Forall_impl; [exact Hlags_|]. intros lag Hlag. simpl in Hlag. lia.
Qed.


(** The windows of [predict], for series and covariates that hold what the
    lags reach. *)
Lemma prediction_windows_spec (self : @RegressionModel V) (n : Z)
    (series : list (@TimeSeries V)) (past future : option (list (@TimeSeries V)))
    (num_samples : Z) (c : nat) :
  let l := output_chunk_length self in
  let steps := ceil_div n l in
  let samples := Z.to_nat num_samples in
  1 ≤ n → 0 < l → 0 ≤ num_samples → series ≠ [] →
  Forall (λ ts, well_formed ts ∧ width ts = c) series →
  reaches_back self series →
  spans self "past" steps series past →
  spans self "future" steps series future →
  prediction_windows timestamp_repr self n series past future num_samples
  = Ok (target_entry self series samples,
        [covariate_entry self "past" steps series past samples;
         covariate_entry self "future" steps series future samples]).
Proof.
  intros l steps samples Hn Hl Hsamples Hsome Hseries Hback Hpast Hfuture.
  assert (Forall (λ ts, 0 < freq ts) series) as Hfreq.
  { eapply Forall_impl; [exact Hseries|]. by intros ts [[? _] _]. }
  subst l steps samples.
  unfold prediction_windows. rewrite decide_False by lia. rewrite bind_Ok_l.
  destruct (spans_spec self "past" n series past num_samples Hn Hl Hsamples Hsome Hfreq Hpast)
    as (past_m & -> & Hpast_m).
  destruct (spans_spec self "future" n series future num_samples Hn Hl Hsamples Hsome Hfreq
              Hfuture) as (future_m & -> & Hfuture_m).
  rewrite !bind_Ok_l. unfold target_entry.
  destruct (lags self !! "target") as [[|lag_min rest]|] eqn:Hlags.
  - by destruct (Hback _ Hlags) as (? & ? & [=] & _).
  - destruct (reaches_back_spec self series c lag_min rest Hseries Hback Hlags)
      as (Hneg & _ & Hlong).
    destruct (target_window_spec series num_samples c lag_min rest Hneg Hsamples Hsome Hlong)
      as (Hstack & Hrepeat & _).
    rewrite Hstack, bind_Ok_l, Hrepeat.
    rewrite !bind_Ok_l, Hpast_m, !bind_Ok_l, Hfuture_m. by rewrite !bind_Ok_l.
  - assert (repeat_rows (V:=V) None num_samples = Ok None) as Hrepeat
      by (unfold repeat_rows, np3.repeat; by rewrite decide_False by lia).
    rewrite bind_Ok_l, Hrepeat.
    rewrite !bind_Ok_l, Hpast_m, !bind_Ok_l, Hfuture_m. by rewrite !bind_Ok_l.
Qed.

(** The answers given so far for one row, laid end to end. *)
Lemma answers_row (k l c : nat) (predictions : list (array3 V)) (r : nat) :
  (r < k)%nat → Forall (has_shape3 k l c) predictions →
  let answers := mjoin (omap (λ p : array3 V, p !! r) predictions) in
  length answers = (length predictions * l)%nat ∧
  Forall (λ step, length step = c) answers.
Proof.
  intros Hr Hps. induction Hps as [|p ps [Hlen Hp] _ IH]; [done|]. csimpl.
  destruct (lookup_lt_is_Some_2 p r ltac:(lia)) as [row Hrow]. rewrite Hrow. csimpl.
  destruct (Forall_lookup_1 _ _ _ _ Hp Hrow) as [Hrow_len Hsteps].
  destruct IH as [IHlen IHsteps].
  split; [rewrite length_app, IHlen; lia | by apply Forall_app].
Qed.

(** What the target lags read at a prediction step is what they read in
    training from the series continued by the answers. *)
Lemma target_entry_row (self : @RegressionModel V) (series : list (@TimeSeries V))
    (samples l c : nat) (predictions : list (array3 V)) (r : nat) ts :
  let k := (length series * samples)%nat in
  Forall (λ ts, well_formed ts ∧ width ts = c) series →
  reaches_back self series →
  (0 < samples)%nat → (r < k)%nat →
  series !! (r `div` samples)%nat = Some ts →
  Forall (has_shape3 k l c) predictions →
  match target_entry self series samples with
  | Some (target_lags, series_matrix) =>
    target_lags ≫= item (timeline series_matrix predictions r)
  | None => []
  end
  = lag_block (Some (continued ts (mjoin (omap (λ p : array3 V, p !! r) predictions))))
      (lags self !! "target")
      (end_time ts + (1 + Z.of_nat (length predictions * l)) * freq ts).
Proof.
  intros k Hseries Hback Hsamples Hr Hts Hps. unfold target_entry, lag_block.
  destruct (lags self !! "target") as [[|lag_min rest]|] eqn:Hlags; [done| |done].
  destruct (reaches_back_spec self series c lag_min rest Hseries Hback Hlags)
    as (Hneg & Hlags_ & Hlong).
  destruct (Forall_lookup_1 _ _ _ _ Hlong Hts) as (Hwf & Hwidth & Hn).
  destruct (answers_row k l c predictions r Hr Hps) as [Hlen Hsteps].
  set (answers := mjoin (omap (λ p : array3 V, p !! r) predictions)) in *.
  set (ts' := continued ts answers).
  assert (well_formed ts') as Hwf'.
  { destruct Hwf as (Hfreq & Hsome & Hrows). split; [done|]. split.
    - simpl. by destruct (values ts).
    - simpl. apply Forall_app. split; [done|]. by rewrite Hwidth. }
  set (L := Z.to_nat (- lag_min)).
  assert (timeline (((λ ts, drop (n_timesteps ts - L) (values ts)) <$> series)
                    ≫= replicate samples) predictions r
          = drop (n_timesteps ts - L) (values ts')) as Htimeline.
  { unfold timeline. rewrite lookup_bind_replicate, list_lookup_fmap, Hts by done. simpl.
    fold answers. rewrite drop_app_le; [done|]. unfold n_timesteps. lia. }
  change (default [] (Some (lag_min :: rest))) with (lag_min :: rest).
  apply Forall_bind_ext. eapply Forall_impl; [exact Hlags_|].
  intros lag Hlag. simpl in Hlag. rewrite Htimeline. unfold item.
  rewrite decide_True by lia. rewrite lookup_drop.
  replace (end_time ts + (1 + Z.of_nat (length predictions * l)) * freq ts
           + lag * freq ts')
    with (start_time ts' + (Z.of_nat (n_timesteps ts) + Z.of_nat (length answers) + lag)
                           * freq ts')
    by (unfold end_time; simpl; rewrite Hlen; ring).
  assert (n_timesteps ts' = (n_timesteps ts + length answers)%nat) as Hn'
    by (unfold n_timesteps; simpl; by rewrite length_app).
  rewrite observed_values by (done || lia).
  f_equal. f_equal. rewrite length_drop. fold (n_timesteps ts'). subst L. lia.
Qed.

(** What the lags of a covariate read at a prediction step is what they
    read in training at the first time stamp being predicted. *)
Lemma covariate_entry_row (self : @RegressionModel V) (cov_type : string) (n : Z)
    (series : list (@TimeSeries V)) (covs : option (list (@TimeSeries V)))
    (samples : nat) (t_pred : Z) (r : nat) ts :
  let l := output_chunk_length self in
  let steps := ceil_div n l in
  1 ≤ n → 0 < l → series ≠ [] →
  Forall (λ ts, 0 < freq ts) series →
  spans self cov_type steps series covs →
  (0 < samples)%nat → (r < length series * samples)%nat →
  series !! (r `div` samples)%nat = Some ts →
  0 ≤ t_pred ≤ (steps - 1) * l →
  match covariate_entry self cov_type steps series covs samples with
  | Some (relative_cov_lags, data_) =>
    relative_cov_lags ≫= (λ lag, item (default [] (data_ !! r)) (lag + t_pred))
  | None => []
  end
  = lag_block (covariate_at covs (r `div` samples)%nat) (lags self !! cov_type)
      (end_time ts + (1 + t_pred) * freq ts).
Proof.
  intros l steps Hn Hl Hsome Hfreq Hspans Hsamples Hr Hts Ht. subst l steps.
  destruct covs as [covs|]; [|done].
  destruct (spans_matrix self cov_type n series covs Hn Hl Hsome Hfreq Hspans)
    as (lag_min & rest & c' & Hlags & Hlen & _ & Hshape & Hrel & Hcontent).
  unfold covariate_entry, lag_block, covariate_at. rewrite Hlags. cbv beta iota zeta.
  destruct (lookup_lt_is_Some_2 covs (r `div` samples)%nat) as [cov Hcov].
  { rewrite Hlen. by eapply lookup_lt_Some. }
  set (lags_ := lag_min :: rest) in *. clearbody lags_.
  cbn [mbind option_bind default]. rewrite Hcov.
  rewrite lookup_bind_replicate, lookup_zip_with, Hts by done.
  cbn [mbind option_bind]. rewrite Hcov. cbn [mbind option_bind default].
  rewrite list_fmap_bind. apply Forall_bind_ext.
  apply Forall_fmap in Hrel. eapply Forall_impl; [exact Hrel|].
  intros lag [Hlow Hhigh]. unfold compose in *. unfold item. rewrite decide_False by lia.
  destruct (Hcontent _ ts cov (Z.to_nat (lag - lag_min + t_pred)) Hts Hcov) as [Hsame Hrow];
    [cbv beta in Hlow, Hhigh; lia|].
  unfold id. rewrite Hrow. cbn [default]. f_equal.
  rewrite Z2Nat.id by lia. rewrite Hsame. unfold first_req_ts, first_pred_ts. ring.
Qed.

End prediction_windows_properties.

Section prediction_from_series.
Context {V : Type}.
Variable timestamp_repr : Z → string.
Variable St : Type.
Variable sampler : @RegressionModel V → matrix V → Z → St → result (array3 V * St).

Lemma entries_group (self : @RegressionModel V) (steps : Z) (series : list (@TimeSeries V))
    (past future : option (list (@TimeSeries V))) (samples : nat) :
  reaches_back self series →
  spans self "past" steps series past →
  spans self "future" steps series future →
  is_Some (lags self !! "target") ∨ is_Some past ∨ is_Some future →
  is_Some (target_entry self series samples) ∨
  Exists is_Some [covariate_entry self "past" steps series past samples;
                  covariate_entry self "future" steps series future samples].
Proof.
  intros Hback Hpast Hfuture [[lags_ Hlags]|[[covs ->]|[covs ->]]].
  - left. unfold target_entry. rewrite Hlags.
    by destruct (Hback _ Hlags) as (? & ? & -> & _).
  - right. apply Exists_cons_hd. unfold covariate_entry.
    by destruct (Hpast covs eq_refl) as (? & ? & ? & -> & _).
  - right. apply Exists_cons_tl, Exists_cons_hd. unfold covariate_entry.
    by destruct (Hfuture covs eq_refl) as (? & ? & ? & -> & _).
Qed.

(** X21.  [predict] cuts its windows and runs its loop to the end for
    series and covariates that hold what the lags reach.  Take a horizon of
    at least one step, a positive number of samples, and target series of
    one number of components; let every series have as many time steps as
    the earliest target lag reaches back, and let the covariates given go
    with the series one to one, on their time grids, from the earliest lag
    before the first predicted time stamp to the latest lag after the last
    prediction step.  If the model reads one group at least and the
    regressor method answers every feature matrix with
    [output_chunk_length] time steps for each row, then the windows are
    cut without an error, they hold the time steps the loop reads, and the
    forecast has [n] time steps for every series. *)
Theorem sufficient_series_are_forecast (self : @RegressionModel V) (n : Z)
    (series : list (@TimeSeries V)) (past future : option (list (@TimeSeries V)))
    (num_samples : Z) (c : nat) (st : St) :
  let l := output_chunk_length self in
  let steps := ceil_div n l in
  let k := Z.to_nat (Z.of_nat (length series) * num_samples) in
  1 ≤ n → 0 < l → 0 < num_samples → series ≠ [] →
  Forall (λ ts, well_formed ts ∧ width ts = c) series →
  reaches_back self series →
  spans self "past" steps series past →
  spans self "future" steps series future →
  is_Some (lags self !! "target") ∨ is_Some past ∨ is_Some future →
  sampler_shaped sampler self num_samples k (Z.to_nat l) c →
  ∃ target covs blocks st',
    prediction_windows timestamp_repr self n series past future num_samples
    = Ok (target, covs) ∧
    target_window_fits k c target ∧
    Forall (covariate_window_fits k ((steps - 1) * l)) covs ∧
    predict_values timestamp_repr St sampler self n series past future num_samples st
    = Ok (blocks, st') ∧
    length blocks = length series ∧
    Forall (λ block, length block = Z.to_nat n) blocks.
Proof.
  intros l steps k Hn Hl Hsamples Hsome Hseries Hback Hpast Hfuture Hgroup Hsampler.
  assert (Forall (λ ts, 0 < freq ts) series) as Hfreq.
  { eapply Forall_impl; [exact Hseries|]. by intros ts [[? _] _]. }
  assert (k = length series * Z.to_nat num_samples)%nat as Hk by (subst k; lia).
  pose proof (prediction_windows_spec timestamp_repr self n series past future num_samples c
                Hn Hl ltac:(lia) Hsome Hseries Hback Hpast Hfuture) as Hwindows.
  fold l steps in Hwindows.
  set (samples := Z.to_nat num_samples) in *.
  set (target := target_entry self series samples) in *.
  set (covs := [covariate_entry self "past" steps series past samples;
                covariate_entry self "future" steps series future samples]) in *.
  assert (target_window_fits k c target) as Htarget.
  { rewrite Hk. apply target_entry_fits; (done || lia). }
  assert (Forall (covariate_window_fits k ((steps - 1) * l)) covs) as Hcovs.
  { rewrite Hk. repeat constructor; by apply covariate_entry_fits. }
  destruct (autoregress_horizon St sampler self n (length series) num_samples c target covs st
              Hn Hl Hsamples) as (blocks & st' & _ & _ & Hrun & Hlen & _);
    [by destruct series; [|simpl; lia] | done | done | done | by apply entries_group |].
  destruct (autoregress_counted St sampler self n (length series) num_samples target covs
              st st' blocks Hn Hl Hrun) as (_ & _ & Hsteps).
  exists target, covs, blocks, st'. split; [done|]. split; [done|]. split; [done|].
  split; [|done]. unfold predict_values. by rewrite Hwindows, bind_Ok_l.
Qed.

(** X22.  The features [predict] hands to the regressor are the features
    the model is trained on.  Take a horizon of at least one step, a
    positive number of samples, target series of one number of components
    that reach as far back as the earliest target lag, and covariates that
    go with the series one to one, on their time grids, and span what the
    lags read.  At the prediction step that follows the answers
    [predictions] (each with [output_chunk_length] time steps for each
    row), the feature matrix has one row for each series and sample, and
    row [r] is the training row of the first time stamp being predicted:
    the lagged values of the series of that row, continued by the answers
    the regressor has given for this row, and of the covariates of that
    series. *)
Theorem prediction_features_are_training_features (self : @RegressionModel V) (n : Z)
    (series : list (@TimeSeries V)) (past future : option (list (@TimeSeries V)))
    (num_samples : Z) (c : nat)
    (target : option (list Z * array3 V)) (covs : list (option (list Z * array3 V)))
    (predictions : list (array3 V)) :
  let l := output_chunk_length self in
  let steps := ceil_div n l in
  let samples := Z.to_nat num_samples in
  let k := Z.to_nat (Z.of_nat (length series) * num_samples) in
  let t_pred := Z.of_nat (length predictions) * l in
  1 ≤ n → 0 < l → 0 < num_samples → series ≠ [] →
  Forall (λ ts, well_formed ts ∧ width ts = c) series →
  reaches_back self series →
  spans self "past" steps series past →
  spans self "future" steps series future →
  is_Some (lags self !! "target") ∨ is_Some past ∨ is_Some future →
  prediction_windows timestamp_repr self n series past future num_samples
  = Ok (target, covs) →
  Forall (has_shape3 k (Z.to_nat l) c) predictions →
  Z.of_nat (length predictions) < steps →
  ∃ X, step_features k target covs predictions t_pred = Ok X ∧
       length X = k ∧
       ∀ r, (r < k)%nat →
         ∃ ts, series !! (r `div` samples)%nat = Some ts ∧
               X !! r
               = Some (feature_row self
                         (continued ts (mjoin (omap (λ p : array3 V, p !! r) predictions)))
                         (covariate_at past (r `div` samples)%nat)
                         (covariate_at future (r `div` samples)%nat)
                         (end_time ts + (1 + t_pred) * freq ts)).
Proof.
  intros l steps samples k t_pred Hn Hl Hsamples Hsome Hseries Hback Hpast Hfuture Hgroup
    Hwindows Hps Hcount.
  assert (Forall (λ ts, 0 < freq ts) series) as Hfreq.
  { eapply Forall_impl; [exact Hseries|]. by intros ts [[? _] _]. }
  assert (k = length series * samples)%nat as Hk by (subst k samples; lia).
  assert (0 < samples)%nat as Hsamples' by (subst samples; lia).
  assert (0 < k)%nat as Hk'.
  { rewrite Hk. destruct series; [done | simpl; lia]. }
  assert (0 ≤ t_pred ≤ (steps - 1) * l) as Ht by (subst t_pred; nia).
  rewrite (prediction_windows_spec timestamp_repr self n series past future num_samples c
             Hn Hl ltac:(lia) Hsome Hseries Hback Hpast Hfuture) in Hwindows.
  fold l steps samples in Hwindows. injection Hwindows as <- <-.
  destruct (step_features_cells k (Z.to_nat l) c (target_entry self series samples)
              [covariate_entry self "past" steps series past samples;
               covariate_entry self "future" steps series future samples]
              predictions t_pred ((steps - 1) * l)) as (X & HX & Hlen & Hrows);
    [done | lia | | | by apply entries_group | done | done |].
  { rewrite Hk. apply target_entry_fits; (done || lia). }
  { rewrite Hk. repeat constructor; by apply covariate_entry_fits. }
  exists X. split; [done|]. split; [done|]. intros r Hr.
  destruct (lookup_lt_is_Some_2 series (r `div` samples)%nat) as [ts Hts].
  { apply Nat.Div0.div_lt_upper_bound. lia. }
  exists ts. split; [done|]. rewrite (Hrows r Hr). f_equal.
  unfold step_feature_row, feature_row.
  rewrite Hk in Hps, Hr.
  rewrite (target_entry_row self series samples (Z.to_nat l) c predictions r ts)
    by done.
  replace (Z.of_nat (length predictions * Z.to_nat l)) with t_pred
    by (subst t_pred; lia).
  f_equal. rewrite bind_cons, bind_singleton. cbv beta. unfold steps, l.
  rewrite (covariate_entry_row timestamp_repr self "past" n series past samples t_pred r ts) by done.
  rewrite (covariate_entry_row timestamp_repr self "future" n series future samples t_pred r ts) by done.
  done.
Qed.

End prediction_from_series.

Lemma sufficient_series_are_forecast_witness :
  ∃ blocks st',
    predict_values pretty unit _predict_and_sample fitted_model 3 [fitted_series] None
      (Some [fitted_future]) 1 tt = Ok (blocks, st') ∧
    length blocks = 1%nat.
Proof.
  destruct (sufficient_series_are_forecast pretty unit _predict_and_sample fitted_model 3
              [fitted_series] None (Some [fitted_future]) 1 1%nat tt)
    as (target & covs & blocks & st' & _ & _ & _ & Hvalues & Hlen & _).
  - lia.
  - reflexivity.
  - lia.
  - discriminate.
  - apply Forall_cons_2; [|apply Forall_nil_2]. split; [solve_well_formed | reflexivity].
  - intros lags_ Hlags. vm_compute in Hlags. injection Hlags as <-.
    exists (-2), [-1]. split; [reflexivity|].
    split; repeat first [apply Forall_nil_2 | apply Forall_cons_2]; try lia.
    vm_compute. congruence.
  - intros covs [=].
  - intros covs_ [= <-]. exists (-1), [0; 1], 1%nat.
    split; [reflexivity|]. split; [repeat constructor; lia|].
    apply Forall2_cons_2; [|apply Forall2_nil_2].
    split; [|split; [reflexivity|split; reflexivity]].
    split; [solve_well_formed|]. split; [reflexivity|]. by exists 0.
  - left. by eexists.
  - apply (predict_and_sample_shaped fitted_model 1 1 1); [lia | reflexivity |].
    intros x Hx. simpl model. rewrite summing_regressor_output, Hx. reflexivity.
  - exists blocks, st'. split; [exact Hvalues | exact Hlen].
Defined.

Lemma prediction_features_are_training_features_witness :
  ∃ target covs X,
    prediction_windows pretty fitted_model 3 [fitted_series] None (Some [fitted_future]) 1
    = Ok (target, covs) ∧
    step_features 1 target covs [[[[Some 17]; [Some 18]]]] 2 = Ok X ∧
    X !! 0%nat
    = Some (feature_row fitted_model (continued fitted_series [[Some 17]; [Some 18]])
              None (Some fitted_future) 12).
Proof.
  destruct (prediction_windows pretty fitted_model 3 [fitted_series] None
              (Some [fitted_future]) 1)
    as [[target covs]|e] eqn:Hwindows; [|vm_compute in Hwindows; discriminate Hwindows].
  destruct (prediction_features_are_training_features pretty fitted_model 3
              [fitted_series] None (Some [fitted_future]) 1 1%nat target covs
              [[[[Some 17]; [Some 18]]]])
    as (X & HX & _ & Hrows).
  - lia.
  - reflexivity.
  - lia.
  - discriminate.
  - apply Forall_cons_2; [|apply Forall_nil_2]. split; [solve_well_formed | reflexivity].
  - intros lags_ Hlags. vm_compute in Hlags. injection Hlags as <-.
    exists (-2), [-1]. split; [reflexivity|].
    split; repeat first [apply Forall_nil_2 | apply Forall_cons_2]; try lia.
    vm_compute. congruence.
  - intros covs' [=].
  - intros covs_ [= <-]. exists (-1), [0; 1], 1%nat.
    split; [reflexivity|]. split; [repeat constructor; lia|].
    apply Forall2_cons_2; [|apply Forall2_nil_2].
    split; [|split; [reflexivity|split; reflexivity]].
    split; [solve_well_formed|]. split; [reflexivity|]. by exists 0.
  - left. by eexists.
  - exact Hwindows.
  - apply Forall_cons_2; [|apply Forall_nil_2].
    split; [reflexivity|]. repeat constructor.
  - reflexivity.
  - destruct (Hrows 0%nat ltac:(vm_compute; lia)) as (ts & Hts & Hrow).
    injection Hts as <-. exists target, covs, X.
    split; [reflexivity|]. split; [exact HX | exact Hrow].
Defined.

(** ** Quantile regression, end to end *)

(** Arrays related cell by cell have one shape. *)
Lemma Forall2_shape3 {A B} (P : A → B → Prop) (k l c : nat)
    (a : list (list (list A))) (b : list (list (list B))) :
  Forall2 (Forall2 (Forall2 P)) a b → has_shape3 k l c a → has_shape3 k l c b.
Proof.
  intros Hab [Hlen Ha]. split; [by rewrite <- (Forall2_length _ _ _ Hab)|].
  apply Forall_lookup. intros i row_b Hrow_b.
  destruct (Forall2_lookup_r _ _ _ _ _ Hab Hrow_b) as (row_a & Hrow_a & Hrows).
  destruct (Forall_lookup_1 _ _ _ _ Ha Hrow_a) as [Hrow_len Hcells].
  split; [by rewrite <- (Forall2_length _ _ _ Hrows)|].
  apply Forall_lookup. intros s step_b Hstep_b.
  destruct (Forall2_lookup_r _ _ _ _ _ Hrows Hstep_b) as (step_a & Hstep_a & Hsteps).
  rewrite <- (Forall2_length _ _ _ Hsteps).
  exact (Forall_lookup_1 _ _ _ _ Hcells Hstep_a).
Qed.

Section quantile_prediction.
Variable Rng : Type.
Variable rng_uniform : Rng → Q * Rng.

Lemma shape3_shaped (k l c : nat) (a : array3 Q) :
  (0 < k)%nat → (0 < l)%nat → has_shape3 k l c a → shape3 a = (k, l, c).
Proof.
  intros Hk Hl [Hlen Ha]. destruct a as [|row a]; [simpl in Hlen; lia|].
  apply Forall_cons in Ha as [[Hrow Hcells] _].
  destruct row as [|cell row]; [simpl in Hrow; lia|].
  apply Forall_cons in Hcells as [Hcell _]. simpl in *. by rewrite Hlen, Hrow, Hcell.
Qed.

(** [np.stack(model_outputs, axis=-1)] wants arrays of one shape, and then
    holds in each cell the values of the arrays there. *)
Lemma stack_last_inv (k l : nat) (arrays : list (array3 Q))
    (stacked : list (list (list (list (option Q))))) :
  (0 < k)%nat → (0 < l)%nat →
  Forall (λ a, ∃ c, has_shape3 k l c a) arrays →
  stack_last arrays = Ok stacked →
  ∃ c, arrays ≠ [] ∧ Forall (has_shape3 k l c) arrays ∧
       stacked = (λ i, (λ s, (λ j, omap (λ a, cell_at a i s j) arrays)
                             <$> seq 0 c) <$> seq 0 l) <$> seq 0 k.
Proof.
  intros Hk Hl Harrays Hstacked. unfold stack_last in Hstacked.
  destruct arrays as [|a arrays]; [done|].
  destruct (forallb _ arrays) eqn:Hsame; [|done].
  apply Forall_cons in Harrays as [[c Ha] Harrays].
  rewrite (shape3_shaped k l c a Hk Hl Ha) in Hstacked, Hsame. simpl in Hstacked.
  injection Hstacked as <-. exists c. split; [done|]. split; [|done].
  constructor; [done|]. apply forallb_Forall in Hsame.
  apply Forall_lookup. intros i a' Ha'.
  destruct (Forall_lookup_1 _ _ _ _ Harrays Ha') as [c' Hshape].
  pose proof (Forall_lookup_1 _ _ _ _ Hsame Ha') as Heq. simpl in Heq.
  apply bool_decide_eq_true in Heq. rewrite (shape3_shaped k l c' a' Hk Hl Hshape) in Heq.
  by injection Heq as <-.
Qed.

(** The quantile sampling answers cell by cell. *)
Lemma quantile_sampling_cells (lk : Likelihood)
    (model_output : list (list (list (list (option Q))))) (g : Rng)
    (sampled : array3 Q) (g' : Rng) :
  _quantile_sampling Rng rng_uniform lk model_output g = Ok (sampled, g') →
  Forall2 (Forall2 (Forall2 (λ _ _, True))) model_output sampled.
Proof.
  intros Hsampling. unfold _quantile_sampling in Hsampling.
  bind_inv Hsampling as [probs g1] Hdraw. bind_inv Hsampling as inter Hinter.
  injection Hsampling as <- <-.
  assert (Forall2 (Forall2 (Forall2 (λ (_ : list (option Q)) (_ : Q), True)))
            model_output probs) as Hprobs.
  { revert Hdraw. unfold draw_each3. apply draw_each_Forall2.
    intros row ga row_p gb. apply draw_each_Forall2.
    intros step gc step_p gd. apply draw_each_Forall2. done. }
  revert Hinter. unfold for_each3.
  apply for_each_zip_Forall2
    with (R := Forall2 (Forall2 (λ (_ : list (option Q)) (_ : Q), True))); [done|].
  intros row row_p row_s Hrow.
  apply for_each_zip_Forall2 with (R := Forall2 (λ (_ : list (option Q)) (_ : Q), True));
    [done|].
  intros step step_p step_s Hstep.
  apply for_each_zip_Forall2 with (R := λ (_ : list (option Q)) (_ : Q), True); done.
Qed.

(** X23.  Quantile regression with more than one sample.  When
    [_predict_quantiles] returns, every regressor of the container has
    predicted for [x], the container is not empty, and all the outputs
    have one shape: a row for each row of [x], [output_chunk_length] time
    steps, and some number of components; the samples have that shape.
    The call leaves [self.model] pointing at the regressor of the last
    entry of the container. *)
Theorem predict_quantiles_samples (self : @RegressionModel Q) (lk : Likelihood)
    (x : matrix Q) (num_samples : Z) (st : sampler_state Rng)
    (sampled : array3 Q) (st' : sampler_state Rng) :
  let k := length x in
  let l := Z.to_nat (output_chunk_length self) in
  num_samples ≠ 1 →
  _predict_quantiles Rng rng_uniform self lk x num_samples st = Ok (sampled, st') →
  current_model Rng st' = List.last (_model_container lk).*2 (current_model Rng st) ∧
  _model_container lk ≠ [] ∧
  ∃ (outputs : list (array3 Q)) (c : nat),
    Forall2 (λ entry a, reshape_chunks self k (data (regressor_predict entry.2 x)) = Ok a)
            (_model_container lk) outputs ∧
    Forall (has_shape3 k l c) outputs ∧
    has_shape3 k l c sampled.
Proof.
  intros k l Hmany Hresult.
  unfold _predict_quantiles in Hresult. fold k in Hresult.
  destruct (decide (num_samples = 1)) as [|_]; [done|].
  bind_inv Hresult as outputs Houtputs. bind_inv Hresult as stacked Hstacked.
  bind_inv Hresult as [sampled' g] Hsampling. injection Hresult as -> <-.
  split; [done|].
  apply for_each_Ok in Houtputs.
  assert (Forall2 (λ entry a, reshape_chunks self k (data (regressor_predict entry.2 x)) = Ok a)
            (_model_container lk) outputs) as Hpredicted.
  { eapply Forall2_impl; [exact Houtputs|]. by intros [level fitted] a. }
  assert (Forall (λ a, (0 < k)%nat ∧ (0 < l)%nat ∧ ∃ c, has_shape3 k l c a) outputs)
    as Hshapes.
  { apply Forall_lookup. intros i a Ha.
    destruct (Forall2_lookup_r _ _ _ _ _ Hpredicted Ha) as (entry & _ & Hentry).
    unfold reshape_chunks in Hentry.
    destruct (decide (output_chunk_length self < 0)) as [|_]; [done|].
    apply reshape3_inv in Hentry as (? & ? & c & _ & ? & _). eauto. }
  destruct outputs as [|a0 outputs']; [done|].
  split; [intros Hempty; rewrite Hempty in Hpredicted; inversion Hpredicted|].
  destruct (Forall_cons_1 _ _ _ Hshapes) as [(Hk & Hl & _) _].
  set (outputs := a0 :: outputs') in *. clearbody outputs.
  destruct (stack_last_inv k l outputs stacked Hk Hl) as (c & _ & Houtputs_c & ->);
    [by eapply Forall_impl; [exact Hshapes|]; intros a (_ & _ & ?) | done |].
  exists outputs, c. split; [done|]. split; [done|].
  eapply Forall2_shape3; [by eapply quantile_sampling_cells|].
  split; [by rewrite length_fmap, length_seq|].
  apply Forall_fmap, Forall_seq. intros i Hi. simpl.
  split; [by rewrite length_fmap, length_seq|].
  apply Forall_fmap, Forall_seq. intros s Hs. simpl.
  by rewrite length_fmap, length_seq.
Qed.

End quantile_prediction.

Lemma predict_quantiles_samples_witness :
  ∃ sampled st' c,
    _predict_quantiles positive example_uniform median_model three_level_likelihood
      [[Some 1%Q]; [Some 2%Q]] 2
      {| _rng := 1%positive; current_model := zero_regressor 0%Q |} = Ok (sampled, st') ∧
    current_model positive st' = zero_regressor 4%Q ∧
    has_shape3 2 1 c sampled.
Proof.
  destruct (_predict_quantiles positive example_uniform median_model three_level_likelihood
              [[Some 1%Q]; [Some 2%Q]] 2
              {| _rng := 1%positive; current_model := zero_regressor 0%Q |})
    as [[sampled st']|e] eqn:Hrun; [|vm_compute in Hrun; discriminate Hrun].
  destruct (predict_quantiles_samples positive example_uniform median_model
              three_level_likelihood [[Some 1%Q]; [Some 2%Q]] 2
              {| _rng := 1%positive; current_model := zero_regressor 0%Q |} sampled st')
    as (Hmodel & _ & outputs & c & _ & _ & Hshape).
  - lia.
  - exact Hrun.
  - exists sampled, st', c. split; [reflexivity|]. split; [exact Hmodel | exact Hshape].
Defined.

(** ** Poisson regression *)

Section poisson.
Variable Rng : Type.
Variable rng_poisson : option Q → Rng → result (option Q * Rng).

(** X24.  Poisson regression with more than one sample draws one value for
    each cell of the prediction.  When [_predict_poisson] returns, [x] has
    rows and [output_chunk_length] is positive; the prediction of the
    regressor, regrouped, has a row for each row of [x] with
    [output_chunk_length] time steps; the samples have the shape of the
    prediction, and the sample of a row, time step and component is a
    Poisson draw whose rate is the prediction there.  (So the rows of the
    result are those of [x], whatever [num_samples] is.)  The regressor
    the model points to stays in place. *)
Theorem poisson_samples_by_cell (self : @RegressionModel Q) (x : matrix Q) (num_samples : Z)
    (st : sampler_state Rng) (sampled : array3 Q) (st' : sampler_state Rng) :
  let k := length x in
  let l := Z.to_nat (output_chunk_length self) in
  num_samples ≠ 1 →
  _predict_poisson Rng rng_poisson self x num_samples st = Ok (sampled, st') →
  (0 < k)%nat ∧ 0 < output_chunk_length self ∧
  current_model Rng st' = current_model Rng st ∧
  ∃ (rates : array3 Q) (c : nat),
    reshape_chunks self k (data (regressor_predict (current_model Rng st) x)) = Ok rates ∧
    has_shape3 k l c rates ∧
    has_shape3 k l c sampled ∧
    ∀ i s j rate, cell_at rates i s j = Some rate →
      ∃ y g g', cell_at sampled i s j = Some y ∧ rng_poisson rate g = Ok (y, g').
Proof.
  intros k l Hmany Hresult. unfold _predict_poisson in Hresult. fold k in Hresult.
  bind_inv Hresult as rates Hrates.
  destruct (decide (num_samples = 1)) as [|_]; [done|].
  bind_inv Hresult as [sampled' g1] Hsampling. injection Hresult as -> <-.
  pose proof Hrates as Hreshape. unfold reshape_chunks in Hreshape.
  destruct (decide (output_chunk_length self < 0)) as [|_]; [done|].
  apply reshape3_inv in Hreshape as (Hk & Hl & c & _ & Hshape & _).
  split; [done|]. split; [lia|]. split; [done|].
  exists rates, c. split; [done|]. split; [done|].
  assert (Forall2 (Forall2 (Forall2 (λ rate y, ∃ g g', rng_poisson rate g = Ok (y, g'))))
            rates sampled) as Hdraws.
  { revert Hsampling. unfold _poisson_sampling, draw_each3. apply draw_each_Forall2.
    intros row ga row_s gb. apply draw_each_Forall2.
    intros step gc step_s gd. apply draw_each_Forall2.
    intros rate ge y gf Hdraw. by exists ge, gf. }
  split; [by eapply Forall2_shape3|].
  intros i s j rate Hrate. unfold cell_at in *.
  destruct (rates !! i) as [row|] eqn:Hrow; [|done]. simpl in Hrate.
  destruct (Forall2_lookup_l _ _ _ _ _ Hdraws Hrow) as (row' & -> & Hrows).
  destruct (row !! s) as [step|] eqn:Hstep; [|done]. simpl in Hrate.
  destruct (Forall2_lookup_l _ _ _ _ _ Hrows Hstep) as (step' & Hstep' & Hsteps).
  destruct (Forall2_lookup_l _ _ _ _ _ Hsteps Hrate) as (y & Hy & g & g' & Hdraw).
  exists y, g, g'. simpl. rewrite Hstep'. done.
Qed.

End poisson.

Lemma poisson_samples_by_cell_witness :
  ∃ sampled st' c,
    _predict_poisson positive example_poisson median_model [[Some 1%Q]; [Some 2%Q]] 3
      {| _rng := 1%positive; current_model := zero_regressor 5%Q |} = Ok (sampled, st') ∧
    has_shape3 2 1 c sampled.
Proof.
  destruct (_predict_poisson positive example_poisson median_model [[Some 1%Q]; [Some 2%Q]] 3
              {| _rng := 1%positive; current_model := zero_regressor 5%Q |})
    as [[sampled st']|e] eqn:Hrun; [|vm_compute in Hrun; discriminate Hrun].
  destruct (poisson_samples_by_cell positive example_poisson median_model
              [[Some 1%Q]; [Some 2%Q]] 3
              {| _rng := 1%positive; current_model := zero_regressor 5%Q |} sampled st')
    as (_ & _ & _ & rates & c & _ & _ & Hshape & _).
  - lia.
  - exact Hrun.
  - exists sampled, st', c. split; [reflexivity | exact Hshape].
Defined.
